(** * The generic vector layer and its overlay engine (ogrlayer.cpp)

    A shallow embedding of the generic portions of [OGRLayer]: the spatial
    filter engine ([SetSpatialFilter], [InstallFilter], [FilterGeometry],
    [FilterWKBGeometry]), the feature iterator protocol
    ([OGRLayer::FeatureIterator], [begin], [end]), the schema unifier
    ([set_result_schema]) and the seven overlay operations.

    Conventions of the embedding.
    - A [double] is NaN, an infinity or an exact rational: every finite
      double is a rational, and the code only compares coordinates.  The
      comparisons are those of IEEE 754: each of them is false when one
      side is NaN.
    - The geometry kernel (GEOS and the OGR geometry classes), the storage
      driver below a layer and the CPL runtime are collaborators of the
      file: they are gathered in the record [Collaborators] and every
      definition and theorem is parametric in it.
    - Geometries are values: [clone] is the identity and ownership
      transfers ([release], [SetGeometryDirectly], [StealGeometry]) are
      plain value passing.  Where the code compares pointers, in
      [InstallFilter], the argument is an [OGRGeometryPtr]: null, the
      filter object the layer holds, or another object.
    - The input, method and result layers of an overlay operation are
      three distinct layer objects. *)

From Stdlib Require Import ZArith QArith String Ascii List Bool Lia.
From stdpp Require Import base option list strings pretty gmap.

Set Warnings "-register-all".

Local Open Scope string_scope.
Local Open Scope Z_scope.

(** ** Error codes and the CPL error slot *)

Inductive OGRErr : Type :=
| OGRERR_NONE
| OGRERR_NOT_ENOUGH_DATA
| OGRERR_NOT_ENOUGH_MEMORY
| OGRERR_UNSUPPORTED_GEOMETRY_TYPE
| OGRERR_UNSUPPORTED_OPERATION
| OGRERR_CORRUPT_DATA
| OGRERR_FAILURE
| OGRERR_UNSUPPORTED_SRS
| OGRERR_INVALID_HANDLE
| OGRERR_NON_EXISTING_FEATURE.

#[global] Instance OGRErr_eq_dec : EqDecision OGRErr.
Proof. solve_decision. Defined.

Inductive CPLErr : Type := CE_None | CE_Debug | CE_Warning | CE_Failure | CE_Fatal.

#[global] Instance CPLErr_eq_dec : EqDecision CPLErr.
Proof. solve_decision. Defined.

Inductive CPLErrorNum : Type :=
| CPLE_None
| CPLE_AppDefined
| CPLE_NotSupported
| CPLE_UserInterrupt.

(** One call of [CPLError] or [CPLDebug]. *)
Record CPLEvent : Type := mkEvent {
  ev_class : CPLErr;
  ev_no : CPLErrorNum;
  ev_msg : string
}.

(** Modelled from the spec: the process-wide last-error slot of the CPL
    runtime (cpl_error.cpp is not part of the sources).  [cpl_last_type]
    is what [CPLGetLastErrorType] returns; [cpl_log] keeps every message
    handed to the error handler, most recent first. *)
Record CPLState : Type := mkCPL {
  cpl_last_type : CPLErr;
  cpl_log : list CPLEvent
}.

Definition cpl_initial : CPLState := mkCPL CE_None [].

Definition CPLError (eErrClass : CPLErr) (err_no : CPLErrorNum) (msg : string)
    (c : CPLState) : CPLState :=
  mkCPL eErrClass (mkEvent eErrClass err_no msg :: cpl_log c).

(** [CPLDebug] writes to the debug stream and leaves the last-error slot
    alone. *)
Definition CPLDebug (category msg : string) (c : CPLState) : CPLState :=
  mkCPL (cpl_last_type c) (mkEvent CE_Debug CPLE_None msg :: cpl_log c).

Definition CPLErrorReset (c : CPLState) : CPLState :=
  mkCPL CE_None (cpl_log c).

Definition CPLGetLastErrorType (c : CPLState) : CPLErr := cpl_last_type c.

(** A call into the geometry kernel yields a value and tells whether the
    kernel raised a [CE_Failure] while computing it. *)
Definition Geos (A : Type) : Type := (A * bool)%type.

Definition geos_call {A : Type} (r : Geos A) (c : CPLState) : A * CPLState :=
  (fst r, if snd r then CPLError CE_Failure CPLE_AppDefined "GEOS error" c else c).

(** ** Option lists

    Modelled from the spec: the string-keyed option list of the overlay
    operations (cpl_string.cpp and cpl_conv.cpp are not part of the
    sources).  Keys compare without regard to case, the first match wins,
    and [CPLTestBool] is false exactly for NO, FALSE, OFF and 0. *)

Definition ascii_toupper (ch : ascii) : ascii :=
  let n := nat_of_ascii ch in
  if ((97 <=? n)%nat && (n <=? 122)%nat)%bool then ascii_of_nat (n - 32) else ch.

Fixpoint EQUAL (a b : string) : bool :=
  match a, b with
  | EmptyString, EmptyString => true
  | String x a', String y b' =>
      if decide (ascii_toupper x = ascii_toupper y) then EQUAL a' b' else false
  | _, _ => false
  end.

Definition CSLConstList : Type := list (string * string).

Fixpoint CSLFetchNameValue (papszOptions : CSLConstList) (pszName : string)
    : option string :=
  match papszOptions with
  | [] => None
  | (k, v) :: rest =>
      if EQUAL k pszName then Some v else CSLFetchNameValue rest pszName
  end.

Definition CSLFetchNameValueDef (papszOptions : CSLConstList)
    (pszName pszDefault : string) : string :=
  match CSLFetchNameValue papszOptions pszName with
  | Some v => v
  | None => pszDefault
  end.

Definition CPLTestBool (pszValue : string) : bool :=
  negb (EQUAL pszValue "NO" || EQUAL pszValue "FALSE"
        || EQUAL pszValue "OFF" || EQUAL pszValue "0").

(** ** Envelopes *)

Inductive double : Type :=
| dNaN
| dNegInf
| dFinite (q : Q)
| dPosInf.

Coercion dFinite : Q >-> double.

(** [a <= b], [a < b], [a >= b], [a > b] and [std::isnan (a)]. *)
Definition dle (a b : double) : bool :=
  match a, b with
  | dNaN, _ | _, dNaN => false
  | dNegInf, _ | _, dPosInf => true
  | dFinite x, dFinite y => Qle_bool x y
  | _, _ => false
  end.

Definition dlt (a b : double) : bool :=
  match a, b with
  | dNaN, _ | _, dNaN => false
  | dNegInf, dNegInf | dPosInf, _ => false
  | dNegInf, _ | _, dPosInf => true
  | dFinite x, dFinite y => negb (Qle_bool y x)
  | _, _ => false
  end.

Definition dge (a b : double) : bool := dle b a.
Definition dgt (a b : double) : bool := dlt b a.

Definition deq (a b : double) : bool := dle a b && dle b a.

Definition isnan (a : double) : bool :=
  match a with
  | dNaN => true
  | _ => false
  end.

Record OGREnvelope : Type := mkEnv {
  MinX : double;
  MaxX : double;
  MinY : double;
  MaxY : double
}.

(** Modelled from the spec: the envelope's intersection and containment
    tests (ogr_core.h is not part of the sources). *)
Definition OGREnvelope_Intersects (a other : OGREnvelope) : bool :=
  dle (MinX a) (MaxX other) && dge (MaxX a) (MinX other)
  && dle (MinY a) (MaxY other) && dge (MaxY a) (MinY other).

Definition OGREnvelope_Contains (a other : OGREnvelope) : bool :=
  dle (MinX a) (MinX other) && dle (MinY a) (MinY other)
  && dge (MaxX a) (MaxX other) && dge (MaxY a) (MaxY other).

(** ** Geometries *)

Inductive OGRwkbGeometryType : Type :=
| wkbUnknown
| wkbPoint
| wkbLineString
| wkbPolygon
| wkbMultiPoint
| wkbMultiLineString
| wkbMultiPolygon
| wkbGeometryCollection
| wkbNone
| wkbOtherType (code : Z).

#[global] Instance OGRwkbGeometryType_eq_dec : EqDecision OGRwkbGeometryType.
Proof. solve_decision. Defined.

Definition OGRRawPoint : Type := (double * double)%type.

Inductive OGRCollectionKind : Type :=
| MultiPoint | MultiLineString | MultiPolygon | GeometryCollection.

Definition collection_type (k : OGRCollectionKind) : OGRwkbGeometryType :=
  match k with
  | MultiPoint => wkbMultiPoint
  | MultiLineString => wkbMultiLineString
  | MultiPolygon => wkbMultiPolygon
  | GeometryCollection => wkbGeometryCollection
  end.

(** The structure of a geometry as far as this file walks it.  A polygon
    is its list of rings, exterior ring first; the four collection
    classes share a constructor and carry their kind; any other
    class (curves, surfaces) is opaque. *)
Inductive OGRGeometry : Type :=
| OGRPoint (x y : double)
| OGRLineString (paoPoints : list OGRRawPoint)
| OGRPolygon (rings : list (list OGRRawPoint))
| OGRGeometryCollection (kind : OGRCollectionKind) (papoGeoms : list OGRGeometry)
| OGROtherGeometry (code : Z).

(** [wkbFlatten (g->getGeometryType ())]. *)
Definition getFlatGeometryType (g : OGRGeometry) : OGRwkbGeometryType :=
  match g with
  | OGRPoint _ _ => wkbPoint
  | OGRLineString _ => wkbLineString
  | OGRPolygon _ => wkbPolygon
  | OGRGeometryCollection k _ => collection_type k
  | OGROtherGeometry c => wkbOtherType c
  end.

(** A prepared geometry remembers the geometry it was compiled from. *)
Record OGRPreparedGeometry : Type := mkPrepared {
  prepared_source : OGRGeometry
}.

Definition WKB : Type := list Byte.byte.

(** ** Features, schemas and layers *)

Inductive OGRField : Type :=
| OFInteger (v : Z)
| OFString (v : string).

Record OGRFeature : Type := mkFeature {
  nFID : Z;
  pauFields : list (option OGRField);
  papoGeometries : list (option OGRGeometry)
}.

Definition OGRNullFID : Z := -1.

Definition GetGeomFieldRef (f : OGRFeature) (iField : Z) : option OGRGeometry :=
  if iField <? 0 then None
  else default None (papoGeometries f !! Z.to_nat iField).

Definition GetGeometryRef (f : OGRFeature) : option OGRGeometry :=
  GetGeomFieldRef f 0.

Inductive OGRFieldType : Type := OFTInteger | OFTString.

Record OGRFieldDefn : Type := mkFieldDefn {
  GetNameRef : string;
  GetType : OGRFieldType
}.

Definition SetName (d : OGRFieldDefn) (pszName : string) : OGRFieldDefn :=
  mkFieldDefn pszName (GetType d).

Record OGRFeatureDefn : Type := mkDefn {
  apoFieldDefn : list OGRFieldDefn;
  apoGeomFieldDefn : list OGRwkbGeometryType
}.

Definition GetFieldCount (d : OGRFeatureDefn) : Z :=
  Z.of_nat (length (apoFieldDefn d)).

Definition GetGeomFieldCount (d : OGRFeatureDefn) : Z :=
  Z.of_nat (length (apoGeomFieldDefn d)).

(** Modelled from the spec: the declared geometry type of a schema is the
    type of its first geometry field, [wkbNone] when it has none
    (ogr_feature.h is not part of the sources). *)
Definition OGRFeatureDefn_GetGeomType (d : OGRFeatureDefn) : OGRwkbGeometryType :=
  match apoGeomFieldDefn d with
  | [] => wkbNone
  | t :: _ => t
  end.

Fixpoint GetFieldIndex_from (l : list OGRFieldDefn) (pszName : string) (i : Z) : Z :=
  match l with
  | [] => -1
  | d :: rest =>
      if EQUAL (GetNameRef d) pszName then i
      else GetFieldIndex_from rest pszName (i + 1)
  end.

Definition GetFieldIndex (d : OGRFeatureDefn) (pszName : string) : Z :=
  GetFieldIndex_from (apoFieldDefn d) pszName 0.

(** The members of [m_poPrivate] that [ConvertGeomsIfNecessary] sets at
    its first call on a layer and reads from then on. *)
Record ConvertGeomsFlags : Type := mkConvertGeoms {
  m_bConvertGeomsIfNecessaryAlreadyCalled : bool;
  m_bSupportsCurve : bool;
  m_bSupportsM : bool;
  m_bApplyGeomSetPrecision : bool
}.

(** The members of [OGRLayer] this file reads or writes, followed by the
    state of the store below it: the rows of the layer in reading order,
    the read cursor, and what the driver answers to
    [GetFeatureCount (FALSE)] ([-1], "unknown", in the base class). *)
Record OGRLayer : Type := mkLayer {
  m_poDefn : OGRFeatureDefn;
  m_bInFeatureIterator : bool;
  m_bFilterIsEnvelope : bool;
  m_poFilterGeom : option OGRGeometry;
  m_pPreparedFilterGeom : option OGRPreparedGeometry;
  m_sFilterEnvelope : OGREnvelope;
  m_iGeomFieldFilter : Z;
  m_pszAttrQueryString : option string;
  m_convertGeoms : ConvertGeomsFlags;
  drv_features : list OGRFeature;
  drv_iNextShapeId : nat;
  drv_nFeatureCount : Z
}.

Definition GetLayerDefn (L : OGRLayer) : OGRFeatureDefn := m_poDefn L.

Definition GetSpatialFilter (L : OGRLayer) : option OGRGeometry := m_poFilterGeom L.

Definition GetGeomType (L : OGRLayer) : OGRwkbGeometryType :=
  OGRFeatureDefn_GetGeomType (GetLayerDefn L).

(** ** The collaborators *)

Inductive OGRLayerCapability : Type := OLCCurveGeometries | OLCMeasuredGeometries.

(** What [ConvertGeomsIfNecessary] consumes: the driver's
    [TestCapability], the configuration, the coordinate resolution
    [GetGeomFieldDefn (i)->GetCoordinatePrecision ().dfXYResolution] of a
    geometry field with the constant that stands for an unknown one, and
    the geometry classes: [OGR_GT_HasM] and [OGR_GT_IsNonLinear] of the
    type of a geometry, [setMeasured (FALSE)],
    [forceTo (g, OGR_GT_GetLinear (type of g))], [hasCurveGeometry] and
    [SetPrecision (resolution, 0)]. *)
Record GeomConversions : Type := mkConversions {
  TestCapability : OGRLayer -> OGRLayerCapability -> bool;
  CPLGetConfigOption : string -> string -> string;
  dfXYResolution : OGRFeatureDefn -> Z -> double;
  OGRGeomCoordinatePrecision_UNKNOWN : double;
  OGR_GT_HasM : OGRGeometry -> bool;
  setMeasured_FALSE : OGRGeometry -> OGRGeometry;
  OGR_GT_IsNonLinear : OGRGeometry -> bool;
  forceTo_linear : OGRGeometry -> option OGRGeometry;
  hasCurveGeometry : OGRGeometry -> bool;
  SetPrecision : OGRGeometry -> double -> option OGRGeometry
}.

(** What the file consumes from the geometry kernel, the attribute query
    evaluator, the driver and the allocator.  Nothing is assumed about
    them. *)
Record Collaborators : Type := mkCollaborators {
  haveGEOS : bool;
  getEnvelope : OGRGeometry -> OGREnvelope;
  IsEmpty : OGRGeometry -> bool;
  IsRectangle : OGRGeometry -> bool;
  getDimension : OGRGeometry -> Z;
  geom_Intersects : OGRGeometry -> OGRGeometry -> Geos bool;
  geom_Intersection : OGRGeometry -> OGRGeometry -> Geos (option OGRGeometry);
  geom_Difference : OGRGeometry -> OGRGeometry -> Geos (option OGRGeometry);
  geom_Union : OGRGeometry -> OGRGeometry -> Geos (option OGRGeometry);
  OGRCreatePreparedGeometry : OGRGeometry -> option OGRPreparedGeometry;
  OGRPreparedGeometryIntersects : OGRPreparedGeometry -> OGRGeometry -> Geos bool;
  OGRPreparedGeometryContains : OGRPreparedGeometry -> OGRGeometry -> Geos bool;
  forceToMultiPoint : OGRGeometry -> OGRGeometry;
  forceToMultiPolygon : OGRGeometry -> OGRGeometry;
  forceToMultiLineString : OGRGeometry -> OGRGeometry;
  OGRWKBGetBoundingBox : WKB -> option OGREnvelope;
  OGRWKBIntersectsPessimistic : WKB -> OGREnvelope -> bool;
  createFromWkb : WKB -> option OGRGeometry;
  swq_Evaluate : string -> OGRFeature -> bool;
  ICreateFeature_ok : OGRLayer -> OGRFeature -> bool;
  ICreateField_ok : OGRLayer -> OGRFieldDefn -> bool;
  VSI_MALLOC_ok : Z -> bool;
  conversions : GeomConversions
}.

(** Field-wise updates of a layer. *)
Definition set_cursor (L : OGRLayer) (n : nat) : OGRLayer :=
  mkLayer (m_poDefn L) (m_bInFeatureIterator L) (m_bFilterIsEnvelope L)
    (m_poFilterGeom L) (m_pPreparedFilterGeom L) (m_sFilterEnvelope L)
    (m_iGeomFieldFilter L) (m_pszAttrQueryString L) (m_convertGeoms L)
    (drv_features L) n
    (drv_nFeatureCount L).

Definition set_bInFeatureIterator (L : OGRLayer) (b : bool) : OGRLayer :=
  mkLayer (m_poDefn L) b (m_bFilterIsEnvelope L)
    (m_poFilterGeom L) (m_pPreparedFilterGeom L) (m_sFilterEnvelope L)
    (m_iGeomFieldFilter L) (m_pszAttrQueryString L) (m_convertGeoms L)
    (drv_features L) (drv_iNextShapeId L) (drv_nFeatureCount L).

Definition set_filter (L : OGRLayer) (bIsEnvelope : bool) (g : option OGRGeometry)
    (p : option OGRPreparedGeometry) (env : OGREnvelope) : OGRLayer :=
  mkLayer (m_poDefn L) (m_bInFeatureIterator L) bIsEnvelope g p env
    (m_iGeomFieldFilter L) (m_pszAttrQueryString L) (m_convertGeoms L)
    (drv_features L) (drv_iNextShapeId L) (drv_nFeatureCount L).

Definition set_pPreparedFilterGeom (L : OGRLayer) (p : option OGRPreparedGeometry)
    : OGRLayer :=
  set_filter L (m_bFilterIsEnvelope L) (m_poFilterGeom L) p (m_sFilterEnvelope L).

Definition set_iGeomFieldFilter (L : OGRLayer) (i : Z) : OGRLayer :=
  mkLayer (m_poDefn L) (m_bInFeatureIterator L) (m_bFilterIsEnvelope L)
    (m_poFilterGeom L) (m_pPreparedFilterGeom L) (m_sFilterEnvelope L)
    i (m_pszAttrQueryString L) (m_convertGeoms L) (drv_features L)
    (drv_iNextShapeId L) (drv_nFeatureCount L).

Definition set_store (L : OGRLayer) (d : OGRFeatureDefn) (rows : list OGRFeature)
    : OGRLayer :=
  mkLayer d (m_bInFeatureIterator L) (m_bFilterIsEnvelope L)
    (m_poFilterGeom L) (m_pPreparedFilterGeom L) (m_sFilterEnvelope L)
    (m_iGeomFieldFilter L) (m_pszAttrQueryString L) (m_convertGeoms L) rows
    (drv_iNextShapeId L) (drv_nFeatureCount L).

Definition set_convertGeoms (L : OGRLayer) (flags : ConvertGeomsFlags) : OGRLayer :=
  mkLayer (m_poDefn L) (m_bInFeatureIterator L) (m_bFilterIsEnvelope L)
    (m_poFilterGeom L) (m_pPreparedFilterGeom L) (m_sFilterEnvelope L)
    (m_iGeomFieldFilter L) (m_pszAttrQueryString L) flags (drv_features L)
    (drv_iNextShapeId L) (drv_nFeatureCount L).

Definition ResetReading (L : OGRLayer) : OGRLayer := set_cursor L 0.

(** A [const OGRGeometry *] as the filter functions of a layer receive
    it: null, the layer's own filter object (the pointer
    [GetSpatialFilter ()] returns), or another geometry object. *)
Inductive OGRGeometryPtr : Type :=
| ptr_null
| ptr_own_filter
| ptr_to (g : OGRGeometry).

(** The pointer to an object the caller holds (a clone, a geometry of a
    feature, the outcome of a kernel call), null when there is none. *)
Definition ptr_of (g : option OGRGeometry) : OGRGeometryPtr :=
  match g with
  | Some g => ptr_to g
  | None => ptr_null
  end.

(** What the pointer points to: the layer's own filter pointer is null
    while the layer has no filter. *)
Definition pointee (L : OGRLayer) (p : OGRGeometryPtr) : option OGRGeometry :=
  match p with
  | ptr_null => None
  | ptr_own_filter => m_poFilterGeom L
  | ptr_to g => Some g
  end.

(** [m_poFilterGeom == p]. *)
Definition same_as_filter (L : OGRLayer) (p : OGRGeometryPtr) : bool :=
  match p with
  | ptr_null => negb (bool_decide (is_Some (m_poFilterGeom L)))
  | ptr_own_filter => true
  | ptr_to _ => false
  end.

Section Engine.

Context (E : Collaborators).

(** ** The spatial filter engine *)

Definition ValidateGeometryFieldIndexForSetSpatialFilter (L : OGRLayer)
    (iGeomField : Z) (poGeomIn : option OGRGeometry) (bIsSelectLayer : bool)
    (c : CPLState) : bool * CPLState :=
  if (iGeomField =? 0) && negb (bool_decide (is_Some poGeomIn))
     && (GetGeomFieldCount (GetLayerDefn L) =? 0)
  then
    (* Setting a null spatial filter on geometry field idx 0 when there
       are no geometry field can't harm, and is accepted silently. *)
    (true, c)
  else if (iGeomField <? 0) || (iGeomField >=? GetGeomFieldCount (GetLayerDefn L))
  then
    if iGeomField =? 0 then
      (false,
       CPLError CE_Failure CPLE_AppDefined
         (if bIsSelectLayer
          then "Cannot set spatial filter: no geometry field selected."
          else "Cannot set spatial filter: no geometry field present in layer.")
         c)
    else
      (false,
       CPLError CE_Failure CPLE_AppDefined
         (String.append
            "Cannot set spatial filter on non-existing geometry field of index "
            (String.append (pretty iGeomField) "."))
         c)
  else (true, c).

(** [InstallFilter] compares the two pointers first: it does nothing
    when it is handed the layer's own filter object, or null while there
    is no filter. *)
Definition InstallFilter (L : OGRLayer) (poFilter : OGRGeometryPtr)
    : bool * OGRLayer :=
  if same_as_filter L poFilter then (false, L)
  else
    (* Replace the existing filter: the old geometry and the old
       prepared geometry are destroyed. *)
    match pointee L poFilter with
    | None => (true, set_filter L false None None (m_sFilterEnvelope L))
    | Some g =>
        (true,
         set_filter L (IsRectangle E g) (Some g)
           (OGRCreatePreparedGeometry E g) (getEnvelope E g))
    end.

Definition ISetSpatialFilter (L : OGRLayer) (iGeomField : Z)
    (poFilter : OGRGeometryPtr) : OGRErr * OGRLayer :=
  let L1 := set_iGeomFieldFilter L iGeomField in
  let '(changed, L2) := InstallFilter L1 poFilter in
  (OGRERR_NONE, if changed then ResetReading L2 else L2).

Definition SetSpatialFilter (L : OGRLayer) (iGeomField : Z)
    (poFilter : OGRGeometryPtr) (c : CPLState)
    : OGRErr * OGRLayer * CPLState :=
  let '(ok, c1) :=
    if iGeomField =? 0 then
      match pointee L poFilter with
      | Some _ =>
          ValidateGeometryFieldIndexForSetSpatialFilter L 0 (pointee L poFilter)
            false c
      | None => (true, c)
      end
    else
      ValidateGeometryFieldIndexForSetSpatialFilter L iGeomField
        (pointee L poFilter) false c
  in
  if ok then
    let '(err, L') := ISetSpatialFilter L iGeomField poFilter in (err, L', c1)
  else (OGRERR_FAILURE, L, c1).

(** [SetSpatialFilter (poFilter)] is [SetSpatialFilter (0, poFilter)]. *)
Definition SetSpatialFilter0 (L : OGRLayer) (poFilter : OGRGeometryPtr)
    (c : CPLState) : OGRErr * OGRLayer * CPLState :=
  SetSpatialFilter L 0 poFilter c.

Definition SetSpatialFilterRect (L : OGRLayer) (iGeomField : Z)
    (dfMinX dfMinY dfMaxX dfMaxY : double) (c : CPLState)
    : OGRErr * OGRLayer * CPLState :=
  let poRing :=
    [(dfMinX, dfMinY); (dfMinX, dfMaxY); (dfMaxX, dfMaxY); (dfMaxX, dfMinY);
     (dfMinX, dfMinY)] in
  SetSpatialFilter L iGeomField (ptr_to (OGRPolygon [poRing])) c.

Definition point_in_envelope (sEnvelope : OGREnvelope) (p : OGRRawPoint) : bool :=
  dge (fst p) (MinX sEnvelope) && dge (snd p) (MinY sEnvelope)
  && dle (fst p) (MaxX sEnvelope) && dle (snd p) (MaxY sEnvelope).

Fixpoint DoesGeometryHavePointInEnvelope (poGeometry : OGRGeometry)
    (sEnvelope : OGREnvelope) : bool :=
  match poGeometry with
  | OGRPoint x y => point_in_envelope sEnvelope (x, y)
  | OGRLineString paoPoints => existsb (point_in_envelope sEnvelope) paoPoints
  | OGRPolygon rings =>
      match rings with
      | [] => false
      | exterior :: _ => existsb (point_in_envelope sEnvelope) exterior
      end
  | OGRGeometryCollection _ papoGeoms =>
      existsb (fun poSubGeom => DoesGeometryHavePointInEnvelope poSubGeom sEnvelope)
        papoGeoms
  | OGROtherGeometry _ => false
  end.

(** The envelope rejection test, as [FilterGeometry] and [Intersection]
    spell it out. *)
Definition envelopes_disjoint (sGeomEnv sFilterEnv : OGREnvelope) : bool :=
  dlt (MaxX sGeomEnv) (MinX sFilterEnv) || dlt (MaxY sGeomEnv) (MinY sFilterEnv)
  || dlt (MaxX sFilterEnv) (MinX sGeomEnv) || dlt (MaxY sFilterEnv) (MinY sGeomEnv).

Definition envelope_inside (sGeomEnv sFilterEnv : OGREnvelope) : bool :=
  dge (MinX sGeomEnv) (MinX sFilterEnv) && dge (MinY sGeomEnv) (MinY sFilterEnv)
  && dle (MaxX sGeomEnv) (MaxX sFilterEnv) && dle (MaxY sGeomEnv) (MaxY sFilterEnv).

Definition FilterGeometry (L : OGRLayer) (poGeometry : option OGRGeometry)
    (c : CPLState) : bool * CPLState :=
  match m_poFilterGeom L with
  | None => (true, c)
  | Some poFilterGeom =>
      match poGeometry with
      | None => (false, c)
      | Some g =>
          if IsEmpty E g then (false, c)
          else
            let sGeomEnv := getEnvelope E g in
            if envelopes_disjoint sGeomEnv (m_sFilterEnvelope L) then (false, c)
            else if m_bFilterIsEnvelope L
                    && envelope_inside sGeomEnv (m_sFilterEnvelope L)
            then (true, c)
            else if m_bFilterIsEnvelope L
                    && DoesGeometryHavePointInEnvelope g (m_sFilterEnvelope L)
            then (true, c)
            else if haveGEOS E then
              match m_pPreparedFilterGeom L with
              | Some p => geos_call (OGRPreparedGeometryIntersects E p g) c
              | None => geos_call (geom_Intersects E poFilterGeom g) c
              end
            else (true, c)
      end
  end.

(** The static [FilterWKBGeometry]: [sEnvelope] and [pPreparedFilterGeom]
    are in-out parameters. *)
Definition FilterWKBGeometry_static (pabyWKB : WKB) (bEnvelopeAlreadySet : bool)
    (sEnvelope : OGREnvelope) (poFilterGeom : option OGRGeometry)
    (bFilterIsEnvelope : bool) (sFilterEnvelope : OGREnvelope)
    (pPreparedFilterGeom : option OGRPreparedGeometry) (c : CPLState)
    : bool * OGREnvelope * option OGRPreparedGeometry * CPLState :=
  match poFilterGeom with
  | None => (true, sEnvelope, pPreparedFilterGeom, c)
  | Some filter =>
      let '(bHaveEnv, sEnvelope) :=
        if bEnvelopeAlreadySet then (true, sEnvelope)
        else match OGRWKBGetBoundingBox E pabyWKB with
             | Some e => (true, e)
             | None => (false, sEnvelope)
             end in
      if bHaveEnv && OGREnvelope_Intersects sFilterEnvelope sEnvelope then
        if bFilterIsEnvelope && OGREnvelope_Contains sFilterEnvelope sEnvelope
        then (true, sEnvelope, pPreparedFilterGeom, c)
        else if bFilterIsEnvelope
                && OGRWKBIntersectsPessimistic E pabyWKB sFilterEnvelope
        then (true, sEnvelope, pPreparedFilterGeom, c)
        else if haveGEOS E then
          match createFromWkb E pabyWKB with
          | Some poGeom =>
              let pPrepared :=
                match pPreparedFilterGeom with
                | None => OGRCreatePreparedGeometry E filter
                | Some p => Some p
                end in
              let '(ret, c') :=
                match pPrepared with
                | Some p => geos_call (OGRPreparedGeometryIntersects E p poGeom) c
                | None => geos_call (geom_Intersects E filter poGeom) c
                end in
              (ret, sEnvelope, pPrepared, c')
          | None => (false, sEnvelope, pPreparedFilterGeom, c)
          end
        else
          (* Assume intersection *)
          (true, sEnvelope, pPreparedFilterGeom, c)
      else (false, sEnvelope, pPreparedFilterGeom, c)
  end.

Definition FilterWKBGeometry (L : OGRLayer) (pabyWKB : WKB)
    (bEnvelopeAlreadySet : bool) (sEnvelope : OGREnvelope) (c : CPLState)
    : bool * OGREnvelope * OGRLayer * CPLState :=
  let '(bRet, sEnvelope', pPrepared, c') :=
    FilterWKBGeometry_static pabyWKB bEnvelopeAlreadySet sEnvelope
      (m_poFilterGeom L) (m_bFilterIsEnvelope L) (m_sFilterEnvelope L)
      (m_pPreparedFilterGeom L) c in
  (bRet, sEnvelope', set_pPreparedFilterGeom L pPrepared, c').


(** ** The store below a layer

    Modelled from the spec: [GetNextFeature] is pure virtual in this
    file; a driver fetches the next row that passes the installed spatial
    filter (on the geometry field [m_iGeomFieldFilter]) and the attribute
    filter, and leaves the cursor behind it. *)

Definition passes_filters (L : OGRLayer) (f : OGRFeature) (c : CPLState)
    : bool * CPLState :=
  let '(bSpatial, c1) :=
    match m_poFilterGeom L with
    | None => (true, c)
    | Some _ => FilterGeometry L (GetGeomFieldRef f (m_iGeomFieldFilter L)) c
    end in
  if bSpatial then
    match m_pszAttrQueryString L with
    | None => (true, c1)
    | Some q => (swq_Evaluate E q f, c1)
    end
  else (false, c1).

Fixpoint GetNextFeature_scan (L : OGRLayer) (rows : list OGRFeature) (pos : nat)
    (c : CPLState) : option OGRFeature * nat * CPLState :=
  match rows with
  | [] => (None, pos, c)
  | f :: rest =>
      let '(ok, c1) := passes_filters L f c in
      if ok then (Some f, S pos, c1)
      else GetNextFeature_scan L rest (S pos) c1
  end.

Definition GetNextFeature (L : OGRLayer) (c : CPLState)
    : option OGRFeature * OGRLayer * CPLState :=
  let '(f, pos, c') :=
    GetNextFeature_scan L (drop (drv_iNextShapeId L) (drv_features L))
      (drv_iNextShapeId L) c in
  (f, set_cursor L pos, c').

(** The one-time initialisation of [ConvertGeomsIfNecessary]. *)
Definition ConvertGeoms_init (L : OGRLayer) : OGRLayer :=
  let K := conversions E in
  let flags := m_convertGeoms L in
  if negb (m_bConvertGeomsIfNecessaryAlreadyCalled flags) then
    let L1 :=
      set_convertGeoms L
        (mkConvertGeoms true (m_bSupportsCurve flags) (m_bSupportsM flags)
           (m_bApplyGeomSetPrecision flags)) in
    let bSupportsCurve := TestCapability K L1 OLCCurveGeometries in
    let L2 :=
      set_convertGeoms L1
        (mkConvertGeoms true bSupportsCurve (m_bSupportsM flags)
           (m_bApplyGeomSetPrecision flags)) in
    let bSupportsM := TestCapability K L2 OLCMeasuredGeometries in
    let bApplyGeomSetPrecision :=
      m_bApplyGeomSetPrecision flags
      || (CPLTestBool (CPLGetConfigOption K "OGR_APPLY_GEOM_SET_PRECISION" "FALSE")
          && existsb
               (fun i =>
                  negb (deq (dfXYResolution K (GetLayerDefn L) i)
                          (OGRGeomCoordinatePrecision_UNKNOWN K))
                  && haveGEOS E)
               (seqZ 0 (GetGeomFieldCount (GetLayerDefn L)))) in
    set_convertGeoms L
      (mkConvertGeoms true bSupportsCurve bSupportsM bApplyGeomSetPrecision)
  else L.

(** What the loop of [ConvertGeomsIfNecessary] makes of the geometry
    [poGeom] of the geometry field [i]: null when [forceTo] yields
    null. *)
Definition ConvertGeom (flags : ConvertGeomsFlags) (poFeatureDefn : OGRFeatureDefn)
    (i : Z) (poGeom : OGRGeometry) : option OGRGeometry :=
  let K := conversions E in
  let poGeom :=
    if negb (m_bSupportsM flags) && OGR_GT_HasM K poGeom
    then setMeasured_FALSE K poGeom else poGeom in
  let poGeom :=
    if negb (m_bSupportsCurve flags) && OGR_GT_IsNonLinear K poGeom
    then forceTo_linear K poGeom else Some poGeom in
  match poGeom with
  | Some g =>
      if m_bApplyGeomSetPrecision flags then
        let dfXYResolution := dfXYResolution K poFeatureDefn i in
        if negb (deq dfXYResolution (OGRGeomCoordinatePrecision_UNKNOWN K))
           && negb (hasCurveGeometry K g)
        then
          match SetPrecision K g dfXYResolution with
          | Some poNewGeom => Some poNewGeom
          | None => Some g
          end
        else Some g
      else Some g
  | None => None
  end.

(** [ConvertGeomsIfNecessary] changes the feature it is given in place:
    the geometries of the first [nGeomFieldCount] geometry fields that
    are not null. *)
Definition ConvertGeomsIfNecessary (L : OGRLayer) (poFeature : OGRFeature)
    : OGRFeature * OGRLayer :=
  let L' := ConvertGeoms_init L in
  let flags := m_convertGeoms L' in
  if negb (m_bSupportsCurve flags) || negb (m_bSupportsM flags)
     || m_bApplyGeomSetPrecision flags
  then
    let poFeatureDefn := GetLayerDefn L' in
    let nGeomFieldCount := GetGeomFieldCount poFeatureDefn in
    (mkFeature (nFID poFeature) (pauFields poFeature)
       (imap (fun i poGeom =>
                if Z.of_nat i <? nGeomFieldCount
                then poGeom ≫= ConvertGeom flags poFeatureDefn (Z.of_nat i)
                else poGeom)
          (papoGeometries poFeature)),
     L')
  else (poFeature, L').

(** Modelled from the spec: [ICreateFeature] is the driver's; an accepted
    feature is appended to the rows, and a feature without an identifier
    receives the next free one. *)
Definition ICreateFeature (L : OGRLayer) (f : OGRFeature) (c : CPLState)
    : OGRErr * OGRLayer * CPLState :=
  if ICreateFeature_ok E L f then
    let fid := if nFID f =? OGRNullFID
               then Z.of_nat (length (drv_features L)) else nFID f in
    (OGRERR_NONE,
     set_store L (m_poDefn L)
       (drv_features L ++ [mkFeature fid (pauFields f) (papoGeometries f)]),
     c)
  else
    (OGRERR_FAILURE, L,
     CPLError CE_Failure CPLE_AppDefined "CreateFeature() failed." c).

Definition CreateFeature (L : OGRLayer) (poFeature : OGRFeature) (c : CPLState)
    : OGRErr * OGRLayer * CPLState :=
  let '(poFeature', L') := ConvertGeomsIfNecessary L poFeature in
  ICreateFeature L' poFeature' c.

(** Modelled from the spec: [CreateField] as a driver that supports it
    implements it; an accepted definition is appended to the schema. *)
Definition CreateField (L : OGRLayer) (d : OGRFieldDefn) (c : CPLState)
    : OGRErr * OGRLayer * CPLState :=
  if ICreateField_ok E L d then
    (OGRERR_NONE,
     set_store L (mkDefn (apoFieldDefn (m_poDefn L) ++ [d])
                    (apoGeomFieldDefn (m_poDefn L)))
       (drv_features L),
     c)
  else
    (OGRERR_UNSUPPORTED_OPERATION, L,
     CPLError CE_Failure CPLE_NotSupported
       "CreateField() not supported by this layer." c).

(** ** The feature iterator *)

(** [OGRLayer::FeatureIterator::Private].  [m_poLayer] is the layer the
    iterator was built on; [begin] and [end] always pass one, and the
    embedding hands the layer to each operation. *)
Record FeatureIterator : Type := mkIterator {
  m_poFeature : option OGRFeature;
  m_bError : bool;
  m_bEOF : bool
}.

Definition FeatureIterator_Private : FeatureIterator :=
  mkIterator None false true.

Definition FeatureIterator_new (poLayer : OGRLayer) (bStart : bool) (c : CPLState)
    : FeatureIterator * OGRLayer * CPLState :=
  if bStart then
    if m_bInFeatureIterator poLayer then
      (mkIterator None true true, poLayer,
       CPLError CE_Failure CPLE_NotSupported
         "Only one feature iterator can be active at a time" c)
    else
      let '(f, L1, c1) := GetNextFeature (ResetReading poLayer) c in
      (mkIterator f false (bool_decide (f = None)),
       set_bInFeatureIterator L1 true, c1)
  else (FeatureIterator_Private, poLayer, c).

Definition FeatureIterator_delete (it : FeatureIterator) (poLayer : OGRLayer)
    : OGRLayer :=
  if negb (m_bError it) then set_bInFeatureIterator poLayer false else poLayer.

Definition FeatureIterator_deref (it : FeatureIterator) : option OGRFeature :=
  m_poFeature it.

Definition FeatureIterator_incr (it : FeatureIterator) (poLayer : OGRLayer)
    (c : CPLState) : FeatureIterator * OGRLayer * CPLState :=
  let '(f, L1, c1) := GetNextFeature poLayer c in
  (mkIterator f (m_bError it) (bool_decide (f = None)), L1, c1).

Definition FeatureIterator_ne (it other : FeatureIterator) : bool :=
  negb (eqb (m_bEOF it) (m_bEOF other)).

Definition begin (L : OGRLayer) (c : CPLState) := FeatureIterator_new L true c.
Definition end_ (L : OGRLayer) (c : CPLState) := FeatureIterator_new L false c.

End Engine.

(** ** Control flow of the loop bodies

    A loop body runs over a state [St] and the CPL slot.  It either
    falls through with a value or leaves by [continue], [break] or
    [goto done]. *)

Inductive Jump : Type := JContinue | JBreak | JDone.

Inductive Res (A : Type) : Type :=
| Val (a : A)
| Jmp (j : Jump).
Arguments Val {A} a.
Arguments Jmp {A} j.

Definition M (St A : Type) : Type := St -> CPLState -> Res A * St * CPLState.

Definition mret {St A : Type} (a : A) : M St A := fun st c => (Val a, st, c).

Definition mbind {St A B : Type} (m : M St A) (k : A -> M St B) : M St B :=
  fun st c =>
    match m st c with
    | (Val a, st', c') => k a st' c'
    | (Jmp j, st', c') => (Jmp j, st', c')
    end.

Definition jump {St A : Type} (j : Jump) : M St A := fun st c => (Jmp j, st, c).

Definition mget {St : Type} : M St St := fun st c => (Val st, st, c).
Definition mput {St : Type} (st : St) : M St unit := fun _ c => (Val tt, st, c).
Definition mmodify {St : Type} (f : St -> St) : M St unit :=
  fun st c => (Val tt, f st, c).

Definition cpl_get {St : Type} : M St CPLState := fun st c => (Val c, st, c).
Definition cpl_do {St : Type} (f : CPLState -> CPLState) : M St unit :=
  fun st c => (Val tt, st, f c).

Notation "x <- m ;; k" := (mbind m (fun x => k))
  (at level 100, m at next level, right associativity).
Notation "m ;;; k" := (mbind m (fun _ => k))
  (at level 100, right associativity).

Definition when {St : Type} (b : bool) (m : M St unit) : M St unit :=
  if b then m else mret tt.

(** How a range-based [for] ends: by running off the end (or [break]), or
    by [goto done]. *)
Inductive LoopExit : Type := LoopEnd | LoopDone.

Section RangeFor.

Context (E : Collaborators) {St : Type}.

(** [for (auto &&x : layer) body]: the loop of the standard between
    [__begin] and [__end].  The fuel is one more than the number of
    rows; [range_for_feed] below shows that it is never used up. *)
Fixpoint range_loop (fuel : nat) (body : OGRFeature -> M St unit)
    (it it_end : FeatureIterator) (L : OGRLayer) (st : St) (c : CPLState)
    : LoopExit * FeatureIterator * OGRLayer * St * CPLState :=
  match fuel with
  | O => (LoopEnd, it, L, st, c)
  | S fuel' =>
      if FeatureIterator_ne it it_end then
        match FeatureIterator_deref it with
        | None => (LoopEnd, it, L, st, c)
        | Some x =>
            match body x st c with
            | (Jmp JDone, st', c') => (LoopDone, it, L, st', c')
            | (Jmp JBreak, st', c') => (LoopEnd, it, L, st', c')
            | (_, st', c') =>
                let '(it', L', c'') := FeatureIterator_incr E it L c' in
                range_loop fuel' body it' it_end L' st' c''
            end
        end
      else (LoopEnd, it, L, st, c)
  end.

Definition range_for (body : OGRFeature -> M St unit) (L : OGRLayer)
    (st : St) (c : CPLState) : LoopExit * OGRLayer * St * CPLState :=
  let '(it, L1, c1) := begin E L c in
  let '(it_end, L2, c2) := end_ E L1 c1 in
  let '(ex, it', L3, st', c3) :=
    range_loop (S (length (drv_features L))) body it it_end L2 st c2 in
  (* the iterators are destroyed in the reverse order of construction *)
  let L4 := FeatureIterator_delete it_end L3 in
  let L5 := FeatureIterator_delete it' L4 in
  (ex, L5, st', c3).

End RangeFor.

Section Overlay.

Context (E : Collaborators).

(** ** Counting and extent *)

(** [GetFeatureCount]: without [bForce] the answer is the driver's;
    with it the layer is read through. *)
Definition GetFeatureCount (L : OGRLayer) (bForce : bool) (c : CPLState)
    : Z * OGRLayer * CPLState :=
  if negb bForce then (drv_nFeatureCount L, L, c)
  else
    let '(_, L', nFeatureCount, c') :=
      range_for E (fun _ => mmodify (fun n => n + 1)) L 0 c in
    (nFeatureCount, ResetReading L', c').

Definition IGetExtent_step (iGeomField : Z) (poFeature : OGRFeature)
    : M (OGREnvelope * bool) unit :=
  fun st c =>
    let '(psExtent, bExtentSet) := st in
    match GetGeomFieldRef poFeature iGeomField with
    | None => (Val tt, st, c)
    | Some poGeom =>
        if IsEmpty E poGeom then (Val tt, st, c)
        else if negb bExtentSet then
          let psExtent := getEnvelope E poGeom in
          (Val tt,
           (psExtent,
            negb (isnan (MinX psExtent) || isnan (MinY psExtent)
                  || isnan (MaxX psExtent) || isnan (MaxY psExtent))),
           c)
        else
          let oEnv := getEnvelope E poGeom in
          (Val tt,
           (mkEnv
              (if dlt (MinX oEnv) (MinX psExtent) then MinX oEnv else MinX psExtent)
              (if dgt (MaxX oEnv) (MaxX psExtent) then MaxX oEnv else MaxX psExtent)
              (if dlt (MinY oEnv) (MinY psExtent) then MinY oEnv else MinY psExtent)
              (if dgt (MaxY oEnv) (MaxY psExtent) then MaxY oEnv else MaxY psExtent),
            true), c)
    end.

Definition IGetExtent (L : OGRLayer) (iGeomField : Z) (psExtent : OGREnvelope)
    (bForce : bool) (c : CPLState) : OGRErr * OGREnvelope * OGRLayer * CPLState :=
  if negb bForce then (OGRERR_FAILURE, psExtent, L, c)
  else
    let '(_, L', (ext, bExtentSet), c') :=
      range_for E (IGetExtent_step iGeomField) L (psExtent, false) c in
    (if bExtentSet then OGRERR_NONE else OGRERR_FAILURE, ext, ResetReading L', c').

Definition GetExtent (L : OGRLayer) (iGeomField : Z) (bForce : bool) (c : CPLState)
    : OGRErr * OGREnvelope * OGRLayer * CPLState :=
  let psExtent := mkEnv 0%Q 0%Q 0%Q 0%Q in
  if (iGeomField <? 0) || (iGeomField >=? GetGeomFieldCount (GetLayerDefn L))
     || bool_decide (apoGeomFieldDefn (GetLayerDefn L) !! Z.to_nat iGeomField
                     = Some wkbNone)
  then
    (OGRERR_FAILURE, psExtent, L,
     if negb (iGeomField =? 0)
     then CPLError CE_Failure CPLE_AppDefined
            (String.append "Invalid geometry field index : " (pretty iGeomField)) c
     else c)
  else IGetExtent L iGeomField psExtent bForce c.

(** ** Helpers of the overlay methods *)

Definition clone_spatial_filter (pLayer : OGRLayer) : OGRErr * option OGRGeometry :=
  (OGRERR_NONE, GetSpatialFilter pLayer).

(** A field map is [None] while the pointer is null. *)
Definition create_field_map (poDefn : OGRFeatureDefn) : OGRErr * option (list Z) :=
  let n := GetFieldCount poDefn in
  if 0 <? n then
    if VSI_MALLOC_ok E (4 * n) then (OGRERR_NONE, Some (replicate (Z.to_nat n) (-1)))
    else (OGRERR_NOT_ENOUGH_MEMORY, None)
  else (OGRERR_NONE, None).

Definition prefixed (pszPrefix : option string) (osName : string) : string :=
  match pszPrefix with
  | Some pfx => String.append pfx osName
  | None => osName
  end.

(** The loops of the branch "the user has defined the schema of the output
    layer": [map[iField] = poDefnResult->GetFieldIndex (osName)]. *)
Fixpoint map_existing_fields (poDefnResult : OGRFeatureDefn)
    (pszPrefix : option string) (fields : list OGRFieldDefn) (iField : nat)
    (map : list Z) : list Z :=
  match fields with
  | [] => map
  | d :: rest =>
      map_existing_fields poDefnResult pszPrefix rest (S iField)
        (<[iField := GetFieldIndex poDefnResult (prefixed pszPrefix (GetNameRef d))]> map)
  end.

(** The name under which a source field is created in an empty result
    schema: prefixed when a prefix is given, else renamed when the other
    layer has a field of that name, else kept. *)
Definition created_field_name (pszPrefix : option string)
    (oSetOtherFieldNames : gset string) (pszCollision : string) (osName : string)
    : string :=
  match pszPrefix with
  | Some pfx => String.append pfx osName
  | None =>
      if negb (bool_decide (oSetOtherFieldNames = ∅))
         && bool_decide (osName ∈ oSetOtherFieldNames)
      then String.append pszCollision osName
      else osName
  end.

(** One of the two field-creating loops.  The result is [inl] when the
    loop ran to its end and [inr] when it left the function through
    [return ret]. *)
Fixpoint create_fields (bSkipFailures : bool) (pszPrefix : option string)
    (oSetOtherFieldNames : gset string) (pszCollision : string)
    (fields : list OGRFieldDefn) (iField : nat)
    (pLayerResult : OGRLayer) (map : option (list Z)) (c : CPLState)
    : (OGRErr + OGRErr) * OGRLayer * option (list Z) * CPLState :=
  match fields with
  | [] => (inl OGRERR_NONE, pLayerResult, map, c)
  | d :: rest =>
      let oFieldDefn :=
        SetName d (created_field_name pszPrefix oSetOtherFieldNames pszCollision
                     (GetNameRef d)) in
      let '(ret, R1, c1) := CreateField E pLayerResult oFieldDefn c in
      if negb (bool_decide (ret = OGRERR_NONE)) && negb bSkipFailures
      then (inr ret, R1, map, c1)
      else
        let c2 := if bool_decide (ret = OGRERR_NONE) then c1 else CPLErrorReset c1 in
        let map' :=
          match map with
          | Some m => Some (<[iField := GetFieldCount (GetLayerDefn R1) - 1]> m)
          | None => None
          end in
        create_fields bSkipFailures pszPrefix oSetOtherFieldNames pszCollision
          rest (S iField) R1 map' c2
  end.

Definition field_names (poDefn : OGRFeatureDefn) : gset string :=
  list_to_set (GetNameRef <$> apoFieldDefn poDefn).

Definition set_result_schema (pLayerResult : OGRLayer)
    (poDefnInput : OGRFeatureDefn) (poDefnMethod : option OGRFeatureDefn)
    (mapInput mapMethod : option (list Z)) (combined : bool)
    (papszOptions : CSLConstList) (c : CPLState)
    : OGRErr * OGRLayer * option (list Z) * option (list Z) * CPLState :=
  if negb (CPLTestBool (CSLFetchNameValueDef papszOptions "ADD_FIELDS" "YES"))
  then (OGRERR_NONE, pLayerResult, mapInput, mapMethod, c)
  else
    let poDefnResult := GetLayerDefn pLayerResult in
    let pszInputPrefix := CSLFetchNameValue papszOptions "INPUT_PREFIX" in
    let pszMethodPrefix := CSLFetchNameValue papszOptions "METHOD_PREFIX" in
    let bSkipFailures :=
      CPLTestBool (CSLFetchNameValueDef papszOptions "SKIP_FAILURES" "NO") in
    if 0 <? GetFieldCount poDefnResult then
      (* the user has defined the schema of the output layer *)
      let mapInput' :=
        match mapInput with
        | Some m =>
            Some (map_existing_fields poDefnResult pszInputPrefix
                    (apoFieldDefn poDefnInput) 0 m)
        | None => None
        end in
      match mapMethod, poDefnMethod with
      | Some m, Some defnMethod =>
          (OGRERR_NONE, pLayerResult, mapInput',
           Some (map_existing_fields poDefnResult pszMethodPrefix
                   (apoFieldDefn defnMethod) 0 m), c)
      | _, _ => (OGRERR_NONE, pLayerResult, mapInput', mapMethod, c)
      end
    else
      (* use schema from the input layer or from input and method layers *)
      let bUnique :=
        bool_decide (is_Some poDefnMethod)
        && negb (bool_decide (is_Some pszInputPrefix))
        && negb (bool_decide (is_Some pszMethodPrefix)) in
      let oSetInputFieldNames : gset string :=
        if bUnique then field_names poDefnInput else ∅ in
      let oSetMethodFieldNames : gset string :=
        match poDefnMethod with
        | Some defnMethod => if bUnique then field_names defnMethod else ∅
        | None => ∅
        end in
      let bAddInputFields :=
        CPLTestBool (CSLFetchNameValueDef papszOptions "ADD_INPUT_FIELDS" "YES") in
      let '(r1, R1, mapInput', c1) :=
        if bAddInputFields then
          create_fields bSkipFailures pszInputPrefix oSetMethodFieldNames "input_"
            (apoFieldDefn poDefnInput) 0 pLayerResult mapInput c
        else (inl OGRERR_NONE, pLayerResult, mapInput, c) in
      match r1 with
      | inr ret => (ret, R1, mapInput', mapMethod, c1)
      | inl ret =>
          if negb combined then (ret, R1, mapInput', mapMethod, c1)
          else
            match mapMethod, poDefnMethod with
            | Some _, Some defnMethod =>
                let bAddMethodFields :=
                  CPLTestBool
                    (CSLFetchNameValueDef papszOptions "ADD_METHOD_FIELDS" "YES") in
                if bAddMethodFields then
                  let '(r2, R2, mapMethod', c2) :=
                    create_fields bSkipFailures pszMethodPrefix oSetInputFieldNames
                      "method_" (apoFieldDefn defnMethod) 0 R1 mapMethod c1 in
                  (match r2 with inl r => r | inr r => r end,
                   R2, mapInput', mapMethod', c2)
                else (ret, R1, mapInput', mapMethod, c1)
            | _, _ => (ret, R1, mapInput', mapMethod, c1)
            end
      end.

Definition set_filter_from (pLayer : OGRLayer)
    (pGeometryExistingFilter : option OGRGeometry) (pFeature : OGRFeature)
    (c : CPLState) : option OGRGeometry * OGRLayer * CPLState :=
  match GetGeometryRef pFeature with
  | None => (None, pLayer, c)
  | Some geom =>
      match pGeometryExistingFilter with
      | Some flt =>
          let '(bIntersects, c1) := geos_call (geom_Intersects E geom flt) c in
          if negb bIntersects then (None, pLayer, c1)
          else
            let '(intersection, c2) := geos_call (geom_Intersection E geom flt) c1 in
            match intersection with
            | Some g =>
                let '(_, L', c3) := SetSpatialFilter0 E pLayer (ptr_to g) c2 in
                (Some geom, L', c3)
            | None => (None, pLayer, c2)
            end
      | None =>
          let '(_, L', c1) := SetSpatialFilter0 E pLayer (ptr_to geom) c in
          (Some geom, L', c1)
      end
  end.

Definition promote_to_multi (poGeom : OGRGeometry) : OGRGeometry :=
  match getFlatGeometryType poGeom with
  | wkbPoint => forceToMultiPoint E poGeom
  | wkbPolygon => forceToMultiPolygon E poGeom
  | wkbLineString => forceToMultiLineString E poGeom
  | _ => poGeom
  end.

(** ** Result features

    Modelled from the spec: the attribute and geometry setters of
    [OGRFeature] (ogrfeature.cpp is not part of the sources).  A new
    feature has every field unset; [SetFieldsFrom] copies source field
    [i] to the field [map[i]] unless that is negative; a geometry can
    only be set on a feature whose schema has a geometry field. *)

Definition OGRFeature_new (poDefn : OGRFeatureDefn) : OGRFeature :=
  mkFeature OGRNullFID
    (replicate (length (apoFieldDefn poDefn)) None)
    (replicate (length (apoGeomFieldDefn poDefn)) None).

Fixpoint SetFieldsFrom_loop (src : list (option OGRField)) (iField : nat)
    (panMap : list Z) (dst : list (option OGRField)) : list (option OGRField) :=
  match src with
  | [] => dst
  | v :: rest =>
      match panMap !! iField with
      | Some iDstField =>
          if iDstField <? 0 then SetFieldsFrom_loop rest (S iField) panMap dst
          else if Z.of_nat (length dst) <=? iDstField then dst
          else SetFieldsFrom_loop rest (S iField) panMap
                 (<[Z.to_nat iDstField := v]> dst)
      | None => dst
      end
  end.

Definition SetFieldsFrom (z : OGRFeature) (poSrcFeature : OGRFeature)
    (panMap : option (list Z)) : OGRFeature :=
  match panMap with
  | Some m =>
      mkFeature (nFID z) (SetFieldsFrom_loop (pauFields poSrcFeature) 0 m (pauFields z))
        (papoGeometries z)
  | None => z
  end.

Definition SetGeometryDirectly (z : OGRFeature) (poGeom : OGRGeometry) : OGRFeature :=
  mkFeature (nFID z) (pauFields z) (<[0%nat := Some poGeom]> (papoGeometries z)).

Definition StealGeometry (y : OGRFeature) : option OGRGeometry * OGRFeature :=
  (GetGeometryRef y,
   mkFeature (nFID y) (pauFields y) (<[0%nat := None]> (papoGeometries y))).


(** ** State of an overlay operation

    [World] is what an operation can change: the three layers, the
    variable [ret] and the progress counter ([w_calls] counts the calls
    made to the progress callback).  The body of a loop over one layer
    runs on a [Frame]: the result layer, [ret] and the locals of the
    loop; the locals of an outer loop ([OuterLoc]) hold the other source
    layer, whose filter the body drives, and the progress counter. *)

Record World : Type := mkWorld {
  w_input : OGRLayer;
  w_method : OGRLayer;
  w_result : OGRLayer;
  w_ret : OGRErr;
  w_counter : Z;
  w_calls : nat
}.

Record Frame (Loc : Type) : Type := mkFrame {
  f_loc : Loc;
  f_result : OGRLayer;
  f_ret : OGRErr
}.
Arguments mkFrame {Loc} f_loc f_result f_ret.
Arguments f_loc {Loc} f.
Arguments f_result {Loc} f.
Arguments f_ret {Loc} f.

Record OuterLoc : Type := mkOuter {
  o_other : OGRLayer;
  o_counter : Z;
  o_calls : nat
}.

(** The progress callback sees how often it was called before and the
    fraction [progress_counter / progress_max], given by its two terms. *)
Definition GDALProgressFunc : Type := nat -> Z * Z -> bool.

(** [progress_counter / progress_max > progress_ticker], where the ticker
    is never moved from 0: the quotient of the two whole numbers is
    positive when the counter is and the total is not negative (a zero
    total gives an infinite quotient, or NaN for 0/0, which compares
    false). *)
Definition progress_due (progress_counter progress_max : Z) : bool :=
  (0 <? progress_counter) && (0 <=? progress_max).

Section Frames.

Context {Loc : Type}.

Definition set_ret (r : OGRErr) : M (Frame Loc) unit :=
  mmodify (fun fr => mkFrame (f_loc fr) (f_result fr) r).

Definition get_loc : M (Frame Loc) Loc := fun fr c => (Val (f_loc fr), fr, c).

Definition set_loc (l : Loc) : M (Frame Loc) unit :=
  mmodify (fun fr => mkFrame l (f_result fr) (f_ret fr)).

Definition geos {A : Type} (r : Geos A) : M (Frame Loc) A :=
  fun fr c => let '(a, c') := geos_call r c in (Val a, fr, c').

Definition last_error_is_set : M (Frame Loc) bool :=
  fun fr c => (Val (negb (bool_decide (CPLGetLastErrorType c = CE_None))), fr, c).

(** [if (!bSkipFailures) { ret = OGRERR_FAILURE; goto done; } else recover]. *)
Definition abort_or (bSkipFailures : bool) (recover : M (Frame Loc) unit)
    : M (Frame Loc) unit :=
  if negb bSkipFailures then (set_ret OGRERR_FAILURE ;;; jump JDone) else recover.

(** [ret = pLayerResult->CreateFeature (z.get ())] and the test that
    follows it in every loop. *)
Definition submit_feature (bSkipFailures : bool) (z : OGRFeature)
    : M (Frame Loc) unit :=
  fun fr c =>
    let '(ret, R', c') := CreateFeature E (f_result fr) z c in
    let fr' := mkFrame (f_loc fr) R' ret in
    if negb (bool_decide (ret = OGRERR_NONE)) then
      if negb bSkipFailures then (Jmp JDone, fr', c')
      else (Val tt, mkFrame (f_loc fr) R' OGRERR_NONE, CPLErrorReset c')
    else (Val tt, fr', c').

End Frames.

(** The progress block that opens the body of every outer loop. *)
Definition report_progress (pfnProgress : option GDALProgressFunc)
    (progress_max : Z) : M (Frame OuterLoc) unit :=
  match pfnProgress with
  | None => mret tt
  | Some pfn =>
      fun fr c =>
        let o := f_loc fr in
        if progress_due (o_counter o) progress_max then
          if negb (pfn (o_calls o) (o_counter o, progress_max)) then
            (Jmp JDone,
             mkFrame (mkOuter (o_other o) (o_counter o) (S (o_calls o)))
               (f_result fr) OGRERR_FAILURE,
             CPLError CE_Failure CPLE_UserInterrupt "User terminated" c)
          else
            (Val tt,
             mkFrame (mkOuter (o_other o) (o_counter o + 1) (S (o_calls o)))
               (f_result fr) (f_ret fr), c)
        else
          (Val tt,
           mkFrame (mkOuter (o_other o) (o_counter o + 1) (o_calls o))
             (f_result fr) (f_ret fr), c)
  end.

(** The block "set up the filter on the other layer" of every outer
    loop; it yields [x_geom] and leaves the body by [continue] when there
    is none. *)
Definition setup_filter (bSkipFailures : bool)
    (pGeometryFilter : option OGRGeometry) (x : OGRFeature)
    : M (Frame OuterLoc) OGRGeometry :=
  cpl_do CPLErrorReset ;;;
  x_geom <- (fun fr c =>
               let o := f_loc fr in
               let '(g, L', c') := set_filter_from (o_other o) pGeometryFilter x c in
               (Val g, mkFrame (mkOuter L' (o_counter o) (o_calls o))
                         (f_result fr) (f_ret fr), c')) ;;
  failed <- last_error_is_set ;;
  when failed
    (abort_or bSkipFailures (cpl_do CPLErrorReset ;;; set_ret OGRERR_NONE)) ;;;
  match x_geom with
  | None => jump JContinue
  | Some g => mret g
  end.

(** The head of the body of an outer loop: the progress block, then the
    filter block. *)
Definition begin_x (pfnProgress : option GDALProgressFunc) (progress_max : Z)
    (bSkipFailures : bool) (pGeometryFilter : option OGRGeometry) (x : OGRFeature)
    : M (Frame OuterLoc) OGRGeometry :=
  report_progress pfnProgress progress_max ;;;
  setup_filter bSkipFailures pGeometryFilter x.

(** [for (auto &&y : other)] inside the body of an outer loop, with the
    locals [init] of the inner loop; a [goto done] inside is passed on. *)
Definition for_other {Loc : Type} (init : Loc)
    (body : OGRFeature -> M (Frame Loc) unit) : M (Frame OuterLoc) Loc :=
  fun fr c =>
    let o := f_loc fr in
    let '(ex, L', fr', c') :=
      range_for E body (o_other o) (mkFrame init (f_result fr) (f_ret fr)) c in
    let out := mkFrame (mkOuter L' (o_counter o) (o_calls o))
                 (f_result fr') (f_ret fr') in
    match ex with
    | LoopDone => (Jmp JDone, out, c')
    | LoopEnd => (Val (f_loc fr'), out, c')
    end.

(** [for (auto &&x : this)], the body driving the method layer. *)
Definition for_input (body : OGRFeature -> M (Frame OuterLoc) unit) : M World unit :=
  fun w c =>
    let '(ex, L', fr, c') :=
      range_for E body (w_input w)
        (mkFrame (mkOuter (w_method w) (w_counter w) (w_calls w))
           (w_result w) (w_ret w)) c in
    let o := f_loc fr in
    let w' := mkWorld L' (o_other o) (f_result fr) (f_ret fr)
                (o_counter o) (o_calls o) in
    match ex with
    | LoopDone => (Jmp JDone, w', c')
    | LoopEnd => (Val tt, w', c')
    end.

(** [for (auto &&x : pLayerMethod)], the body driving the input layer. *)
Definition for_method (body : OGRFeature -> M (Frame OuterLoc) unit) : M World unit :=
  fun w c =>
    let '(ex, L', fr, c') :=
      range_for E body (w_method w)
        (mkFrame (mkOuter (w_input w) (w_counter w) (w_calls w))
           (w_result w) (w_ret w)) c in
    let o := f_loc fr in
    let w' := mkWorld (o_other o) L' (f_result fr) (f_ret fr)
                (o_counter o) (o_calls o) in
    match ex with
    | LoopDone => (Jmp JDone, w', c')
    | LoopEnd => (Val tt, w', c')
    end.

Definition w_set_ret (r : OGRErr) : M World unit :=
  mmodify (fun w => mkWorld (w_input w) (w_method w) (w_result w) r
                      (w_counter w) (w_calls w)).

(** [ret = create_field_map (poDefn, &map); if (ret != OGRERR_NONE) goto done;] *)
Definition get_field_map (poDefn : OGRFeatureDefn) : M World (option (list Z)) :=
  let '(ret, map) := create_field_map poDefn in
  w_set_ret ret ;;;
  if negb (bool_decide (ret = OGRERR_NONE)) then jump JDone else mret map.

(** [ret = set_result_schema (...); if (ret != OGRERR_NONE) goto done;] *)
Definition get_result_schema (poDefnInput : OGRFeatureDefn)
    (poDefnMethod : option OGRFeatureDefn) (mapInput mapMethod : option (list Z))
    (combined : bool) (papszOptions : CSLConstList)
    : M World (option (list Z) * option (list Z)) :=
  fun w c =>
    let '(ret, R', mapInput', mapMethod', c') :=
      set_result_schema (w_result w) poDefnInput poDefnMethod mapInput mapMethod
        combined papszOptions c in
    let w' := mkWorld (w_input w) (w_method w) R' ret (w_counter w) (w_calls w) in
    if negb (bool_decide (ret = OGRERR_NONE)) then (Jmp JDone, w', c')
    else (Val (mapInput', mapMethod'), w', c').

(** The closing [if (pfnProgress && !pfnProgress (1.0, "", pProgressArg))]. *)
Definition final_progress (pfnProgress : option GDALProgressFunc) : M World unit :=
  match pfnProgress with
  | None => mret tt
  | Some pfn =>
      fun w c =>
        let w' r := mkWorld (w_input w) (w_method w) (w_result w) r
                      (w_counter w) (S (w_calls w)) in
        if negb (pfn (w_calls w) (1, 1)) then
          (Jmp JDone, w' OGRERR_FAILURE,
           CPLError CE_Failure CPLE_UserInterrupt "User terminated" c)
        else (Val tt, w' (w_ret w), c)
  end.

(** [pLayerMethod->SetSpatialFilter (g)] and [SetSpatialFilter (g)] on the
    world; the status they return is not looked at. *)
Definition restore_method_filter (g : option OGRGeometry) : M World unit :=
  fun w c =>
    let '(_, L', c') := SetSpatialFilter0 E (w_method w) (ptr_of g) c in
    (Val tt, mkWorld (w_input w) L' (w_result w) (w_ret w)
               (w_counter w) (w_calls w), c').

Definition restore_input_filter (g : option OGRGeometry) : M World unit :=
  fun w c =>
    let '(_, L', c') := SetSpatialFilter0 E (w_input w) (ptr_of g) c in
    (Val tt, mkWorld L' (w_method w) (w_result w) (w_ret w)
               (w_counter w) (w_calls w), c').

(** The test on [KEEP_LOWER_DIMENSION_GEOMETRIES] made once the result
    schema is known: the option only stands when the result layer is of
    geometry type unknown. *)
Definition resolve_keep_lower_dim (bKeepLowerDimGeom : bool)
    (pLayerResult : OGRLayer) (c : CPLState) : bool * CPLState :=
  if bKeepLowerDimGeom then
    if negb (bool_decide (GetGeomType pLayerResult = wkbUnknown)) then
      (false,
       CPLDebug "OGR"
         "Resetting KEEP_LOWER_DIMENSION_GEOMETRIES to NO since the result layer does not allow it."
         c)
    else (true, c)
  else (false, c).

(** The test that drops an intersection of lower dimension. *)
Definition lower_dimension (bKeepLowerDimGeom : bool)
    (x_geom y_geom z_geom : OGRGeometry) : bool :=
  negb bKeepLowerDimGeom
  && ((getDimension E x_geom =? getDimension E y_geom)
      && (getDimension E z_geom <? getDimension E x_geom)).

(** The options every operation reads. *)
Definition opt_bool (papszOptions : CSLConstList) (key def : string) : bool :=
  CPLTestBool (CSLFetchNameValueDef papszOptions key def).


Definition w_get {A : Type} (f : World -> A) : M World A :=
  fun w c => (Val (f w), w, c).

(** The locals an operation holds once its block [get resources] is
    through: the field maps, the schema of the result layer, the extent
    of the method layer where it is asked for, and what is left of
    [KEEP_LOWER_DIMENSION_GEOMETRIES].  An operation that does not have
    one of them leaves it at its initial value. *)
Record Resources : Type := mkResources {
  r_mapInput : option (list Z);
  r_mapMethod : option (list Z);
  r_poDefnResult : OGRFeatureDefn;
  r_bEnvelopeSet : bool;
  r_sEnvelopeMethod : OGREnvelope;
  r_bKeepLowerDimGeom : bool
}.

(** [if (ret != OGRERR_NONE) goto done;] after [clone_spatial_filter]. *)
Definition check_clone (ret : OGRErr) : M World unit :=
  w_set_ret ret ;;;
  if negb (bool_decide (ret = OGRERR_NONE)) then jump JDone else mret tt.

(** [if (bKeepLowerDimGeom) { ... }] on the world. *)
Definition w_resolve_keep_lower_dim (bKeepLowerDimGeom : bool) : M World bool :=
  fun w c =>
    let '(b, c') := resolve_keep_lower_dim bKeepLowerDimGeom (w_result w) c in
    (Val b, w, c').

(** [OGRCreatePreparedGeometry] on [x_geom] when prepared geometries are
    asked for; the body leaves by [goto done] when none can be made. *)
Definition prepare_x {Loc : Type} (bUsePreparedGeometries : bool)
    (x_geom : OGRGeometry) : M (Frame Loc) (option OGRPreparedGeometry) :=
  if bUsePreparedGeometries then
    match OGRCreatePreparedGeometry E x_geom with
    | Some p => mret (Some p)
    | None => jump JDone
    end
  else mret None.

(** [if (bPromoteToMulti) g.reset (promote_to_multi (g.release ()))]. *)
Definition promoted (bPromoteToMulti : bool) (g : OGRGeometry) : OGRGeometry :=
  if bPromoteToMulti then promote_to_multi g else g.

(** [bEnvelopeSet = pLayerMethod->GetExtent (&sEnvelopeMethod, 1) == OGRERR_NONE]. *)
Definition w_method_extent : M World (bool * OGREnvelope) :=
  fun w c =>
    let '(err, ext, L', c') := GetExtent (w_method w) 0 true c in
    (Val (bool_decide (err = OGRERR_NONE), ext),
     mkWorld (w_input w) L' (w_result w) (w_ret w) (w_counter w) (w_calls w), c').

(** ** Intersection *)

(** The block [if (x_prepared_geom) { ... }] of the pair loop: it yields
    the clone of [y_geom] when the containment pretest succeeds, leaves by
    [continue] when the prepared geometry does not meet [y_geom], and
    yields nothing otherwise. *)
Definition Intersection_pretest (bSkipFailures bPretestContainment : bool)
    (p : OGRPreparedGeometry) (y_geom : OGRGeometry)
    : M (Frame unit) (option OGRGeometry) :=
  cpl_do CPLErrorReset ;;;
  set_ret OGRERR_NONE ;;;
  bContained <-
    (if bPretestContainment
     then geos (OGRPreparedGeometryContains E p y_geom)
     else mret false) ;;
  z <-
    (if bContained then
       (failed <- last_error_is_set ;;
        mret (if failed then None else Some y_geom))
     else
       (bIntersects <- geos (OGRPreparedGeometryIntersects E p y_geom) ;;
        if negb bIntersects then
          (failed <- last_error_is_set ;;
           if failed then mret None else jump JContinue)
        else mret None)) ;;
  failed <- last_error_is_set ;;
  when failed
    (abort_or bSkipFailures
       (cpl_do CPLErrorReset ;;; set_ret OGRERR_NONE ;;; jump JContinue)) ;;;
  mret z.

(** The block [if (!z_geom) { ... }]: the intersection of the two
    geometries, unless it fails, is empty or is dropped for its
    dimension. *)
Definition Intersection_compute (bSkipFailures bKeepLowerDimGeom : bool)
    (x_geom y_geom : OGRGeometry) : M (Frame unit) OGRGeometry :=
  cpl_do CPLErrorReset ;;;
  r <- geos (geom_Intersection E x_geom y_geom) ;;
  failed <- last_error_is_set ;;
  match (if failed then None else r) with
  | None =>
      abort_or bSkipFailures
        (cpl_do CPLErrorReset ;;; set_ret OGRERR_NONE ;;; jump JContinue) ;;;
      jump JContinue
  | Some z =>
      if IsEmpty E z || lower_dimension bKeepLowerDimGeom x_geom y_geom z
      then jump JContinue
      else mret z
  end.

Definition Intersection_pair (bSkipFailures bPromoteToMulti bPretestContainment
      bKeepLowerDimGeom : bool) (poDefnResult : OGRFeatureDefn)
    (mapInput mapMethod : option (list Z)) (x : OGRFeature) (x_geom : OGRGeometry)
    (x_prepared_geom : option OGRPreparedGeometry) (y : OGRFeature)
    : M (Frame unit) unit :=
  match GetGeometryRef y with
  | None => jump JContinue
  | Some y_geom =>
      z_pretest <-
        match x_prepared_geom with
        | Some p => Intersection_pretest bSkipFailures bPretestContainment p y_geom
        | None => mret None
        end ;;
      z_geom <-
        match z_pretest with
        | Some z => mret z
        | None => Intersection_compute bSkipFailures bKeepLowerDimGeom x_geom y_geom
        end ;;
      let z := SetFieldsFrom (SetFieldsFrom (OGRFeature_new poDefnResult) x mapInput)
                 y mapMethod in
      submit_feature bSkipFailures
        (SetGeometryDirectly z (promoted bPromoteToMulti z_geom))
  end.

(** The head of the body of the outer loop of [Intersection]: between
    the progress block and the filter block it asks whether [x] can meet
    the extent of the method layer at all. *)
Definition Intersection_begin (pfnProgress : option GDALProgressFunc)
    (progress_max : Z) (bSkipFailures : bool)
    (pGeometryMethodFilter : option OGRGeometry) (bEnvelopeSet : bool)
    (sEnvelopeMethod : OGREnvelope) (x : OGRFeature)
    : M (Frame OuterLoc) OGRGeometry :=
  report_progress pfnProgress progress_max ;;;
  (* is it worth to proceed? *)
  (if bEnvelopeSet then
     match GetGeometryRef x with
     | Some x_geom =>
         if envelopes_disjoint (getEnvelope E x_geom) sEnvelopeMethod
         then jump JContinue else mret tt
     | None => jump JContinue
     end
   else mret tt) ;;;
  setup_filter bSkipFailures pGeometryMethodFilter x.

Definition Intersection_x (pfnProgress : option GDALProgressFunc) (progress_max : Z)
    (bSkipFailures bPromoteToMulti bUsePreparedGeometries bPretestContainment
       bKeepLowerDimGeom : bool)
    (pGeometryMethodFilter : option OGRGeometry) (bEnvelopeSet : bool)
    (sEnvelopeMethod : OGREnvelope) (poDefnResult : OGRFeatureDefn)
    (mapInput mapMethod : option (list Z)) (x : OGRFeature)
    : M (Frame OuterLoc) unit :=
  x_geom <- Intersection_begin pfnProgress progress_max bSkipFailures
              pGeometryMethodFilter bEnvelopeSet sEnvelopeMethod x ;;
  x_prepared_geom <- prepare_x bUsePreparedGeometries x_geom ;;
  for_other tt
    (Intersection_pair bSkipFailures bPromoteToMulti bPretestContainment
       bKeepLowerDimGeom poDefnResult mapInput mapMethod x x_geom x_prepared_geom) ;;;
  mret tt.

(** The block [get resources] of [Intersection] up to the loop, with the
    test on [KEEP_LOWER_DIMENSION_GEOMETRIES] that follows it; the clone
    of the method filter is kept by the operation for the block at
    [done:]. *)
Definition Intersection_resources (this pLayerMethod : OGRLayer)
    (papszOptions : CSLConstList) : M World Resources :=
  let poDefnInput := GetLayerDefn this in
  let poDefnMethod := GetLayerDefn pLayerMethod in
  check_clone (clone_spatial_filter pLayerMethod).1 ;;;
  mapInput0 <- get_field_map poDefnInput ;;
  mapMethod0 <- get_field_map poDefnMethod ;;
  maps <- get_result_schema poDefnInput (Some poDefnMethod) mapInput0 mapMethod0
            true papszOptions ;;
  poDefnResult <- w_get (fun w => GetLayerDefn (w_result w)) ;;
  extent <- w_method_extent ;;
  bKeepLowerDimGeom <-
    w_resolve_keep_lower_dim
      (opt_bool papszOptions "KEEP_LOWER_DIMENSION_GEOMETRIES" "YES") ;;
  mret (mkResources maps.1 maps.2 poDefnResult extent.1 extent.2 bKeepLowerDimGeom).

Definition OGRLayer_Intersection (this pLayerMethod pLayerResult : OGRLayer)
    (papszOptions : CSLConstList) (pfnProgress : option GDALProgressFunc)
    (c : CPLState) : OGRErr * World * CPLState :=
  let progress_max := (GetFeatureCount this false c).1.1 in
  let bSkipFailures := opt_bool papszOptions "SKIP_FAILURES" "NO" in
  let bPromoteToMulti := opt_bool papszOptions "PROMOTE_TO_MULTI" "NO" in
  let bUsePreparedGeometries := opt_bool papszOptions "USE_PREPARED_GEOMETRIES" "YES" in
  let bPretestContainment := opt_bool papszOptions "PRETEST_CONTAINMENT" "NO" in
  let w0 := mkWorld this pLayerMethod pLayerResult OGRERR_NONE 0 0 in
  (* check for GEOS *)
  if negb (haveGEOS E) then
    (OGRERR_UNSUPPORTED_OPERATION, w0,
     CPLError CE_Failure CPLE_AppDefined
       "OGRLayer::Intersection() requires GEOS support" c)
  else
    let pGeometryMethodFilter := (clone_spatial_filter pLayerMethod).2 in
    let main : M World unit :=
      (* get resources *)
      r <- Intersection_resources this pLayerMethod papszOptions ;;
      for_input
        (Intersection_x pfnProgress progress_max bSkipFailures bPromoteToMulti
           bUsePreparedGeometries bPretestContainment (r_bKeepLowerDimGeom r)
           pGeometryMethodFilter (r_bEnvelopeSet r) (r_sEnvelopeMethod r)
           (r_poDefnResult r) (r_mapInput r) (r_mapMethod r)) ;;;
      final_progress pfnProgress in
    let '(_, w, c1) := main w0 c in
    (* done: release resources *)
    let '(_, w', c2) := restore_method_filter pGeometryMethodFilter w c1 in
    (w_ret w', w', c2).


(** The guarded difference step shared by the loops that narrow a
    geometry: [if (g) { CPLErrorReset (); g_new = g->Difference (y_geom);
    if (failed) { abort or recover } else g.swap (g_new); }]. *)
Definition subtract (bSkipFailures : bool)
    (recover : M (Frame (option OGRGeometry)) unit) (y_geom : OGRGeometry)
    : M (Frame (option OGRGeometry)) unit :=
  g <- get_loc ;;
  match g with
  | None => mret tt
  | Some geom =>
      cpl_do CPLErrorReset ;;;
      r <- geos (geom_Difference E geom y_geom) ;;
      failed <- last_error_is_set ;;
      match (if failed then None else r) with
      | None => abort_or bSkipFailures recover
      | Some geom_new => set_loc (Some geom_new)
      end
  end.

(** The feature built from one source feature and a leftover geometry,
    submitted when the geometry is there and not empty. *)
Definition submit_leftover (bSkipFailures bPromoteToMulti : bool)
    (poDefnResult : OGRFeatureDefn) (x : OGRFeature) (map : option (list Z))
    (geom : option OGRGeometry) : M (Frame OuterLoc) unit :=
  match geom with
  | None => mret tt
  | Some g =>
      if IsEmpty E g then mret tt
      else
        submit_feature bSkipFailures
          (SetGeometryDirectly (SetFieldsFrom (OGRFeature_new poDefnResult) x map)
             (promoted bPromoteToMulti g))
  end.

(** ** Union *)

Definition Union_pair (bSkipFailures bPromoteToMulti bKeepLowerDimGeom : bool)
    (poDefnResult : OGRFeatureDefn) (mapInput mapMethod : option (list Z))
    (x : OGRFeature) (x_geom : OGRGeometry)
    (x_prepared_geom : option OGRPreparedGeometry) (y : OGRFeature)
    : M (Frame (option OGRGeometry)) unit :=
  match GetGeometryRef y with
  | None => jump JContinue
  | Some y_geom =>
      cpl_do CPLErrorReset ;;;
      bDisjoint <-
        match x_prepared_geom with
        | Some p =>
            b <- geos (OGRPreparedGeometryIntersects E p y_geom) ;; mret (negb b)
        | None => mret false
        end ;;
      failed <- last_error_is_set ;;
      (if bDisjoint && negb failed then jump JContinue else mret tt) ;;;
      when failed
        (abort_or bSkipFailures (cpl_do CPLErrorReset ;;; set_ret OGRERR_NONE)) ;;;
      cpl_do CPLErrorReset ;;;
      r <- geos (geom_Intersection E x_geom y_geom) ;;
      failed <- last_error_is_set ;;
      match (if failed then None else r) with
      | None =>
          abort_or bSkipFailures
            (cpl_do CPLErrorReset ;;; set_ret OGRERR_NONE ;;; jump JContinue)
      | Some poIntersection =>
          if IsEmpty E poIntersection
             || lower_dimension bKeepLowerDimGeom x_geom y_geom poIntersection
          then mret tt
          else
            let z := SetFieldsFrom (SetFieldsFrom (OGRFeature_new poDefnResult)
                                      x mapInput) y mapMethod in
            let z := SetGeometryDirectly z (promoted bPromoteToMulti poIntersection) in
            subtract bSkipFailures (cpl_do CPLErrorReset) y_geom ;;;
            submit_feature bSkipFailures z
      end
  end.

Definition Union_x (pfnProgress : option GDALProgressFunc) (progress_max : Z)
    (bSkipFailures bPromoteToMulti bUsePreparedGeometries bKeepLowerDimGeom : bool)
    (pGeometryMethodFilter : option OGRGeometry) (poDefnResult : OGRFeatureDefn)
    (mapInput mapMethod : option (list Z)) (x : OGRFeature)
    : M (Frame OuterLoc) unit :=
  x_geom <- begin_x pfnProgress progress_max bSkipFailures pGeometryMethodFilter x ;;
  x_prepared_geom <- prepare_x bUsePreparedGeometries x_geom ;;
  x_geom_diff <-
    for_other (Some x_geom)
      (Union_pair bSkipFailures bPromoteToMulti bKeepLowerDimGeom poDefnResult
         mapInput mapMethod x x_geom x_prepared_geom) ;;
  submit_leftover bSkipFailures bPromoteToMulti poDefnResult x mapInput x_geom_diff.

(** The inner loop of the passes that only subtract: every [y] with a
    geometry is subtracted from the running geometry. *)
Definition subtract_pair (bSkipFailures : bool) (y : OGRFeature)
    : M (Frame (option OGRGeometry)) unit :=
  match GetGeometryRef y with
  | None => jump JContinue
  | Some y_geom =>
      subtract bSkipFailures (cpl_do CPLErrorReset ;;; set_ret OGRERR_NONE) y_geom
  end.

Definition Union_y (pfnProgress : option GDALProgressFunc) (progress_max : Z)
    (bSkipFailures bPromoteToMulti : bool)
    (pGeometryInputFilter : option OGRGeometry) (poDefnResult : OGRFeatureDefn)
    (mapMethod : option (list Z)) (x : OGRFeature) : M (Frame OuterLoc) unit :=
  x_geom <- begin_x pfnProgress progress_max bSkipFailures pGeometryInputFilter x ;;
  x_geom_diff <- for_other (Some x_geom) (subtract_pair bSkipFailures) ;;
  submit_leftover bSkipFailures bPromoteToMulti poDefnResult x mapMethod x_geom_diff.

(** The block [get resources] of [Union], with the test on
    [KEEP_LOWER_DIMENSION_GEOMETRIES] that follows it. *)
Definition Union_resources (this pLayerMethod : OGRLayer)
    (papszOptions : CSLConstList) : M World Resources :=
  let poDefnInput := GetLayerDefn this in
  let poDefnMethod := GetLayerDefn pLayerMethod in
  check_clone (clone_spatial_filter this).1 ;;;
  check_clone (clone_spatial_filter pLayerMethod).1 ;;;
  mapInput0 <- get_field_map poDefnInput ;;
  mapMethod0 <- get_field_map poDefnMethod ;;
  maps <- get_result_schema poDefnInput (Some poDefnMethod) mapInput0 mapMethod0
            true papszOptions ;;
  poDefnResult <- w_get (fun w => GetLayerDefn (w_result w)) ;;
  bKeepLowerDimGeom <-
    w_resolve_keep_lower_dim
      (opt_bool papszOptions "KEEP_LOWER_DIMENSION_GEOMETRIES" "YES") ;;
  mret (mkResources maps.1 maps.2 poDefnResult false (mkEnv 0%Q 0%Q 0%Q 0%Q)
          bKeepLowerDimGeom).

Definition OGRLayer_Union (this pLayerMethod pLayerResult : OGRLayer)
    (papszOptions : CSLConstList) (pfnProgress : option GDALProgressFunc)
    (c : CPLState) : OGRErr * World * CPLState :=
  let progress_max :=
    (GetFeatureCount this false c).1.1 + (GetFeatureCount pLayerMethod false c).1.1 in
  let bSkipFailures := opt_bool papszOptions "SKIP_FAILURES" "NO" in
  let bPromoteToMulti := opt_bool papszOptions "PROMOTE_TO_MULTI" "NO" in
  let bUsePreparedGeometries := opt_bool papszOptions "USE_PREPARED_GEOMETRIES" "YES" in
  let w0 := mkWorld this pLayerMethod pLayerResult OGRERR_NONE 0 0 in
  if negb (haveGEOS E) then
    (OGRERR_UNSUPPORTED_OPERATION, w0,
     CPLError CE_Failure CPLE_AppDefined "OGRLayer::Union() requires GEOS support" c)
  else
    let pGeometryInputFilter := (clone_spatial_filter this).2 in
    let pGeometryMethodFilter := (clone_spatial_filter pLayerMethod).2 in
    let main : M World unit :=
      (* get resources *)
      r <- Union_resources this pLayerMethod papszOptions ;;
      (* add features based on input layer *)
      for_input
        (Union_x pfnProgress progress_max bSkipFailures bPromoteToMulti
           bUsePreparedGeometries (r_bKeepLowerDimGeom r) pGeometryMethodFilter
           (r_poDefnResult r) (r_mapInput r) (r_mapMethod r)) ;;;
      (* restore filter on method layer and add features based on it *)
      restore_method_filter pGeometryMethodFilter ;;;
      for_method
        (Union_y pfnProgress progress_max bSkipFailures bPromoteToMulti
           pGeometryInputFilter (r_poDefnResult r) (r_mapMethod r)) ;;;
      final_progress pfnProgress in
    let '(_, w, c1) := main w0 c in
    let '(_, w1, c2) := restore_input_filter pGeometryInputFilter w c1 in
    let '(_, w2, c3) := restore_method_filter pGeometryMethodFilter w1 c2 in
    (w_ret w2, w2, c3).

(** ** SymDifference *)

Definition SymDifference_pair (bSkipFailures bBreakOnNull : bool) (y : OGRFeature)
    : M (Frame (option OGRGeometry)) unit :=
  match GetGeometryRef y with
  | None => jump JContinue
  | Some y_geom =>
      subtract bSkipFailures (cpl_do CPLErrorReset ;;; set_ret OGRERR_NONE) y_geom ;;;
      g <- get_loc ;;
      match g with
      | Some geom => if IsEmpty E geom then jump JBreak else mret tt
      | None => if bBreakOnNull then jump JBreak else mret tt
      end
  end.

Definition SymDifference_x (pfnProgress : option GDALProgressFunc) (progress_max : Z)
    (bSkipFailures bPromoteToMulti bBreakOnNull : bool)
    (pGeometryFilter : option OGRGeometry) (poDefnResult : OGRFeatureDefn)
    (map : option (list Z)) (x : OGRFeature) : M (Frame OuterLoc) unit :=
  x_geom <- begin_x pfnProgress progress_max bSkipFailures pGeometryFilter x ;;
  geom <- for_other (Some x_geom) (SymDifference_pair bSkipFailures bBreakOnNull) ;;
  submit_leftover bSkipFailures bPromoteToMulti poDefnResult x map geom.

Definition OGRLayer_SymDifference (this pLayerMethod pLayerResult : OGRLayer)
    (papszOptions : CSLConstList) (pfnProgress : option GDALProgressFunc)
    (c : CPLState) : OGRErr * World * CPLState :=
  let poDefnInput := GetLayerDefn this in
  let poDefnMethod := GetLayerDefn pLayerMethod in
  let progress_max :=
    (GetFeatureCount this false c).1.1 + (GetFeatureCount pLayerMethod false c).1.1 in
  let bSkipFailures := opt_bool papszOptions "SKIP_FAILURES" "NO" in
  let bPromoteToMulti := opt_bool papszOptions "PROMOTE_TO_MULTI" "NO" in
  let w0 := mkWorld this pLayerMethod pLayerResult OGRERR_NONE 0 0 in
  if negb (haveGEOS E) then
    (OGRERR_UNSUPPORTED_OPERATION, w0,
     CPLError CE_Failure CPLE_AppDefined
       "OGRLayer::SymDifference() requires GEOS support" c)
  else
    let '(ret0, pGeometryInputFilter) := clone_spatial_filter this in
    let '(ret1, pGeometryMethodFilter) := clone_spatial_filter pLayerMethod in
    let main : M World unit :=
      check_clone ret0 ;;;
      check_clone ret1 ;;;
      mapInput0 <- get_field_map poDefnInput ;;
      mapMethod0 <- get_field_map poDefnMethod ;;
      maps <- get_result_schema poDefnInput (Some poDefnMethod) mapInput0 mapMethod0
                true papszOptions ;;
      poDefnResult <- w_get (fun w => GetLayerDefn (w_result w)) ;;
      (* add features based on input layer *)
      for_input
        (SymDifference_x pfnProgress progress_max bSkipFailures bPromoteToMulti
           false pGeometryMethodFilter poDefnResult maps.1) ;;;
      (* restore filter on method layer and add features based on it *)
      restore_method_filter pGeometryMethodFilter ;;;
      for_method
        (SymDifference_x pfnProgress progress_max bSkipFailures bPromoteToMulti
           true pGeometryInputFilter poDefnResult maps.2) ;;;
      final_progress pfnProgress in
    let '(_, w, c1) := main w0 c in
    let '(_, w1, c2) := restore_input_filter pGeometryInputFilter w c1 in
    let '(_, w2, c3) := restore_method_filter pGeometryMethodFilter w1 c2 in
    (w_ret w2, w2, c3).


(** ** Identity *)

Definition Identity_pair (bSkipFailures bPromoteToMulti bKeepLowerDimGeom : bool)
    (poDefnResult : OGRFeatureDefn) (mapInput mapMethod : option (list Z))
    (x : OGRFeature) (x_geom : OGRGeometry)
    (x_prepared_geom : option OGRPreparedGeometry) (y : OGRFeature)
    : M (Frame (option OGRGeometry)) unit :=
  match GetGeometryRef y with
  | None => jump JContinue
  | Some y_geom =>
      cpl_do CPLErrorReset ;;;
      bDisjoint <-
        match x_prepared_geom with
        | Some p =>
            b <- geos (OGRPreparedGeometryIntersects E p y_geom) ;; mret (negb b)
        | None => mret false
        end ;;
      failed <- last_error_is_set ;;
      (if bDisjoint && negb failed then jump JContinue else mret tt) ;;;
      when failed
        (abort_or bSkipFailures (cpl_do CPLErrorReset ;;; set_ret OGRERR_NONE)) ;;;
      cpl_do CPLErrorReset ;;;
      r <- geos (geom_Intersection E x_geom y_geom) ;;
      failed <- last_error_is_set ;;
      match (if failed then None else r) with
      | None =>
          abort_or bSkipFailures (cpl_do CPLErrorReset ;;; set_ret OGRERR_NONE)
      | Some poIntersection =>
          if IsEmpty E poIntersection
             || lower_dimension bKeepLowerDimGeom x_geom y_geom poIntersection
          then mret tt
          else
            let z := SetFieldsFrom (SetFieldsFrom (OGRFeature_new poDefnResult)
                                      x mapInput) y mapMethod in
            let z := SetGeometryDirectly z (promoted bPromoteToMulti poIntersection) in
            subtract bSkipFailures (cpl_do CPLErrorReset) y_geom ;;;
            submit_feature bSkipFailures z
      end
  end.

Definition Identity_x (pfnProgress : option GDALProgressFunc) (progress_max : Z)
    (bSkipFailures bPromoteToMulti bUsePreparedGeometries bKeepLowerDimGeom : bool)
    (pGeometryMethodFilter : option OGRGeometry) (poDefnResult : OGRFeatureDefn)
    (mapInput mapMethod : option (list Z)) (x : OGRFeature)
    : M (Frame OuterLoc) unit :=
  x_geom <- begin_x pfnProgress progress_max bSkipFailures pGeometryMethodFilter x ;;
  x_prepared_geom <- prepare_x bUsePreparedGeometries x_geom ;;
  x_geom_diff <-
    for_other (Some x_geom)
      (Identity_pair bSkipFailures bPromoteToMulti bKeepLowerDimGeom poDefnResult
         mapInput mapMethod x x_geom x_prepared_geom) ;;
  submit_leftover bSkipFailures bPromoteToMulti poDefnResult x mapInput x_geom_diff.

Definition OGRLayer_Identity (this pLayerMethod pLayerResult : OGRLayer)
    (papszOptions : CSLConstList) (pfnProgress : option GDALProgressFunc)
    (c : CPLState) : OGRErr * World * CPLState :=
  let poDefnInput := GetLayerDefn this in
  let poDefnMethod := GetLayerDefn pLayerMethod in
  let progress_max := (GetFeatureCount this false c).1.1 in
  let bSkipFailures := opt_bool papszOptions "SKIP_FAILURES" "NO" in
  let bPromoteToMulti := opt_bool papszOptions "PROMOTE_TO_MULTI" "NO" in
  let bUsePreparedGeometries := opt_bool papszOptions "USE_PREPARED_GEOMETRIES" "YES" in
  let bKeepLowerDimGeom0 :=
    opt_bool papszOptions "KEEP_LOWER_DIMENSION_GEOMETRIES" "YES" in
  let w0 := mkWorld this pLayerMethod pLayerResult OGRERR_NONE 0 0 in
  if negb (haveGEOS E) then
    (OGRERR_UNSUPPORTED_OPERATION, w0,
     CPLError CE_Failure CPLE_AppDefined "OGRLayer::Identity() requires GEOS support" c)
  else
    let '(bKeepLowerDimGeom, c0) :=
      resolve_keep_lower_dim bKeepLowerDimGeom0 pLayerResult c in
    let '(ret0, pGeometryMethodFilter) := clone_spatial_filter pLayerMethod in
    let main : M World unit :=
      check_clone ret0 ;;;
      mapInput0 <- get_field_map poDefnInput ;;
      mapMethod0 <- get_field_map poDefnMethod ;;
      maps <- get_result_schema poDefnInput (Some poDefnMethod) mapInput0 mapMethod0
                true papszOptions ;;
      poDefnResult <- w_get (fun w => GetLayerDefn (w_result w)) ;;
      (* split the features in input layer to the result layer *)
      for_input
        (Identity_x pfnProgress progress_max bSkipFailures bPromoteToMulti
           bUsePreparedGeometries bKeepLowerDimGeom pGeometryMethodFilter
           poDefnResult maps.1 maps.2) ;;;
      final_progress pfnProgress in
    let '(_, w, c1) := main w0 c0 in
    let '(_, w', c2) := restore_method_filter pGeometryMethodFilter w c1 in
    (w_ret w', w', c2).

(** ** Update *)

Definition Update_x (pfnProgress : option GDALProgressFunc) (progress_max : Z)
    (bSkipFailures bPromoteToMulti : bool)
    (pGeometryMethodFilter : option OGRGeometry) (poDefnResult : OGRFeatureDefn)
    (mapInput : option (list Z)) (x : OGRFeature) : M (Frame OuterLoc) unit :=
  x_geom <- begin_x pfnProgress progress_max bSkipFailures pGeometryMethodFilter x ;;
  x_geom_diff <- for_other (Some x_geom) (subtract_pair bSkipFailures) ;;
  submit_leftover bSkipFailures bPromoteToMulti poDefnResult x mapInput x_geom_diff.

Definition Update_y (pfnProgress : option GDALProgressFunc) (progress_max : Z)
    (bSkipFailures : bool) (poDefnResult : OGRFeatureDefn)
    (mapMethod : option (list Z)) (y : OGRFeature) : M (Frame OuterLoc) unit :=
  report_progress pfnProgress progress_max ;;;
  let '(stolen, y') := StealGeometry y in
  match stolen with
  | None => jump JContinue
  | Some y_geom =>
      let z := OGRFeature_new poDefnResult in
      let z := match mapMethod with
               | Some _ => SetFieldsFrom z y' mapMethod
               | None => z
               end in
      submit_feature bSkipFailures (SetGeometryDirectly z y_geom)
  end.

Definition OGRLayer_Update (this pLayerMethod pLayerResult : OGRLayer)
    (papszOptions : CSLConstList) (pfnProgress : option GDALProgressFunc)
    (c : CPLState) : OGRErr * World * CPLState :=
  let poDefnInput := GetLayerDefn this in
  let poDefnMethod := GetLayerDefn pLayerMethod in
  let progress_max :=
    (GetFeatureCount this false c).1.1 + (GetFeatureCount pLayerMethod false c).1.1 in
  let bSkipFailures := opt_bool papszOptions "SKIP_FAILURES" "NO" in
  let bPromoteToMulti := opt_bool papszOptions "PROMOTE_TO_MULTI" "NO" in
  let w0 := mkWorld this pLayerMethod pLayerResult OGRERR_NONE 0 0 in
  if negb (haveGEOS E) then
    (OGRERR_UNSUPPORTED_OPERATION, w0,
     CPLError CE_Failure CPLE_AppDefined "OGRLayer::Update() requires GEOS support" c)
  else
    let '(ret0, pGeometryMethodFilter) := clone_spatial_filter pLayerMethod in
    let main : M World unit :=
      check_clone ret0 ;;;
      mapInput0 <- get_field_map poDefnInput ;;
      mapMethod0 <- get_field_map poDefnMethod ;;
      maps <- get_result_schema poDefnInput (Some poDefnMethod) mapInput0 mapMethod0
                false papszOptions ;;
      poDefnResult <- w_get (fun w => GetLayerDefn (w_result w)) ;;
      (* add clipped features from the input layer *)
      for_input
        (Update_x pfnProgress progress_max bSkipFailures bPromoteToMulti
           pGeometryMethodFilter poDefnResult maps.1) ;;;
      (* restore the original filter and add features from the update layer *)
      restore_method_filter pGeometryMethodFilter ;;;
      for_method
        (Update_y pfnProgress progress_max bSkipFailures poDefnResult maps.2) ;;;
      final_progress pfnProgress in
    let '(_, w, c1) := main w0 c in
    let '(_, w', c2) := restore_method_filter pGeometryMethodFilter w c1 in
    (w_ret w', w', c2).

(** ** Clip *)

Definition Clip_pair (bSkipFailures : bool) (y : OGRFeature)
    : M (Frame (option OGRGeometry)) unit :=
  match GetGeometryRef y with
  | None => jump JContinue
  | Some y_geom =>
      g <- get_loc ;;
      match g with
      | None => set_loc (Some y_geom)
      | Some geom =>
          cpl_do CPLErrorReset ;;;
          r <- geos (geom_Union E geom y_geom) ;;
          failed <- last_error_is_set ;;
          match (if failed then None else r) with
          | None =>
              abort_or bSkipFailures (cpl_do CPLErrorReset ;;; set_ret OGRERR_NONE)
          | Some geom_new => set_loc (Some geom_new)
          end
      end
  end.

Definition Clip_x (pfnProgress : option GDALProgressFunc) (progress_max : Z)
    (bSkipFailures bPromoteToMulti : bool)
    (pGeometryMethodFilter : option OGRGeometry) (poDefnResult : OGRFeatureDefn)
    (mapInput : option (list Z)) (x : OGRFeature) : M (Frame OuterLoc) unit :=
  x_geom <- begin_x pfnProgress progress_max bSkipFailures pGeometryMethodFilter x ;;
  (* incrementally add area from y to geom *)
  geom <- for_other None (Clip_pair bSkipFailures) ;;
  (* possibly add a new feature with area x intersection sum of y *)
  match geom with
  | None => mret tt
  | Some g =>
      cpl_do CPLErrorReset ;;;
      r <- geos (geom_Intersection E x_geom g) ;;
      failed <- last_error_is_set ;;
      match (if failed then None else r) with
      | None =>
          abort_or bSkipFailures (cpl_do CPLErrorReset ;;; set_ret OGRERR_NONE)
      | Some poIntersection =>
          if negb (IsEmpty E poIntersection) then
            submit_feature bSkipFailures
              (SetGeometryDirectly
                 (SetFieldsFrom (OGRFeature_new poDefnResult) x mapInput)
                 (promoted bPromoteToMulti poIntersection))
          else mret tt
      end
  end.

(** The block [get resources] of [Clip]. *)
Definition Clip_resources (this pLayerMethod : OGRLayer)
    (papszOptions : CSLConstList) : M World Resources :=
  let poDefnInput := GetLayerDefn this in
  check_clone (clone_spatial_filter pLayerMethod).1 ;;;
  mapInput0 <- get_field_map poDefnInput ;;
  maps <- get_result_schema poDefnInput None mapInput0 None false papszOptions ;;
  poDefnResult <- w_get (fun w => GetLayerDefn (w_result w)) ;;
  mret (mkResources maps.1 None poDefnResult false (mkEnv 0%Q 0%Q 0%Q 0%Q) false).

Definition OGRLayer_Clip (this pLayerMethod pLayerResult : OGRLayer)
    (papszOptions : CSLConstList) (pfnProgress : option GDALProgressFunc)
    (c : CPLState) : OGRErr * World * CPLState :=
  let progress_max := (GetFeatureCount this false c).1.1 in
  let bSkipFailures := opt_bool papszOptions "SKIP_FAILURES" "NO" in
  let bPromoteToMulti := opt_bool papszOptions "PROMOTE_TO_MULTI" "NO" in
  let w0 := mkWorld this pLayerMethod pLayerResult OGRERR_NONE 0 0 in
  if negb (haveGEOS E) then
    (OGRERR_UNSUPPORTED_OPERATION, w0,
     CPLError CE_Failure CPLE_AppDefined "OGRLayer::Clip() requires GEOS support" c)
  else
    let pGeometryMethodFilter := (clone_spatial_filter pLayerMethod).2 in
    let main : M World unit :=
      (* get resources *)
      r <- Clip_resources this pLayerMethod papszOptions ;;
      for_input
        (Clip_x pfnProgress progress_max bSkipFailures bPromoteToMulti
           pGeometryMethodFilter (r_poDefnResult r) (r_mapInput r)) ;;;
      final_progress pfnProgress in
    let '(_, w, c1) := main w0 c in
    let '(_, w', c2) := restore_method_filter pGeometryMethodFilter w c1 in
    (w_ret w', w', c2).

(** ** Erase *)

Definition Erase_pair (bSkipFailures : bool) (y : OGRFeature)
    : M (Frame OGRGeometry) unit :=
  match GetGeometryRef y with
  | None => jump JContinue
  | Some y_geom =>
      geom <- get_loc ;;
      cpl_do CPLErrorReset ;;;
      r <- geos (geom_Difference E geom y_geom) ;;
      failed <- last_error_is_set ;;
      match (if failed then None else r) with
      | None =>
          abort_or bSkipFailures (cpl_do CPLErrorReset ;;; set_ret OGRERR_NONE)
      | Some geom_new =>
          set_loc geom_new ;;;
          if IsEmpty E geom_new then jump JBreak else mret tt
      end
  end.

Definition Erase_x (pfnProgress : option GDALProgressFunc) (progress_max : Z)
    (bSkipFailures bPromoteToMulti : bool)
    (pGeometryMethodFilter : option OGRGeometry) (poDefnResult : OGRFeatureDefn)
    (mapInput : option (list Z)) (x : OGRFeature) : M (Frame OuterLoc) unit :=
  x_geom <- begin_x pfnProgress progress_max bSkipFailures pGeometryMethodFilter x ;;
  (* incrementally erase y from geom *)
  geom <- for_other x_geom (Erase_pair bSkipFailures) ;;
  (* add a new feature if there is remaining area *)
  if negb (IsEmpty E geom) then
    submit_feature bSkipFailures
      (SetGeometryDirectly (SetFieldsFrom (OGRFeature_new poDefnResult) x mapInput)
         (promoted bPromoteToMulti geom))
  else mret tt.

(** The block [get resources] of [Erase]. *)
Definition Erase_resources (this pLayerMethod : OGRLayer)
    (papszOptions : CSLConstList) : M World Resources :=
  let poDefnInput := GetLayerDefn this in
  check_clone (clone_spatial_filter pLayerMethod).1 ;;;
  mapInput0 <- get_field_map poDefnInput ;;
  maps <- get_result_schema poDefnInput None mapInput0 None false papszOptions ;;
  poDefnResult <- w_get (fun w => GetLayerDefn (w_result w)) ;;
  mret (mkResources maps.1 None poDefnResult false (mkEnv 0%Q 0%Q 0%Q 0%Q) false).

Definition OGRLayer_Erase (this pLayerMethod pLayerResult : OGRLayer)
    (papszOptions : CSLConstList) (pfnProgress : option GDALProgressFunc)
    (c : CPLState) : OGRErr * World * CPLState :=
  let progress_max := (GetFeatureCount this false c).1.1 in
  let bSkipFailures := opt_bool papszOptions "SKIP_FAILURES" "NO" in
  let bPromoteToMulti := opt_bool papszOptions "PROMOTE_TO_MULTI" "NO" in
  let w0 := mkWorld this pLayerMethod pLayerResult OGRERR_NONE 0 0 in
  if negb (haveGEOS E) then
    (OGRERR_UNSUPPORTED_OPERATION, w0,
     CPLError CE_Failure CPLE_AppDefined "OGRLayer::Erase() requires GEOS support" c)
  else
    let pGeometryMethodFilter := (clone_spatial_filter pLayerMethod).2 in
    let main : M World unit :=
      (* get resources *)
      r <- Erase_resources this pLayerMethod papszOptions ;;
      for_input
        (Erase_x pfnProgress progress_max bSkipFailures bPromoteToMulti
           pGeometryMethodFilter (r_poDefnResult r) (r_mapInput r)) ;;;
      final_progress pfnProgress in
    let '(_, w, c1) := main w0 c in
    let '(_, w', c2) := restore_method_filter pGeometryMethodFilter w c1 in
    (w_ret w', w', c2).

End Overlay.

Arguments mkFrame {Loc} f_loc f_result f_ret.
Arguments f_loc {Loc} f.
Arguments f_result {Loc} f.
Arguments f_ret {Loc} f.

(** ** A small kernel to run the definitions on

    Exact on axis-parallel rectangles, which is all the examples below
    use: predicates compare envelopes, [geom_Intersection] yields the
    common rectangle (a segment or a point when the rectangles only
    touch, an empty polygon when they are apart), [geom_Difference]
    yields its first argument unless the second covers it, and
    [geom_Union] yields the rectangle around both.  Nothing ever fails. *)
Module Box.

Fixpoint points (g : OGRGeometry) : list OGRRawPoint :=
  match g with
  | OGRPoint x y => [(x, y)]
  | OGRLineString pts => pts
  | OGRPolygon rings => concat rings
  | OGRGeometryCollection _ parts => concat (List.map points parts)
  | OGROtherGeometry _ => []
  end.

(** [if (b < a) a = b;] and [if (a < b) a = b;], as the geometry classes
    grow an envelope: a bound that is NaN stays. *)
Definition qmin (a b : double) : double := if dlt b a then b else a.
Definition qmax (a b : double) : double := if dlt a b then b else a.

Definition envelope_of (pts : list OGRRawPoint) : OGREnvelope :=
  match pts with
  | [] => mkEnv 0%Q 0%Q 0%Q 0%Q
  | p :: rest =>
      fold_left
        (fun e q => mkEnv (qmin (MinX e) (fst q)) (qmax (MaxX e) (fst q))
                      (qmin (MinY e) (snd q)) (qmax (MaxY e) (snd q)))
        rest (mkEnv (fst p) (fst p) (snd p) (snd p))
  end.

Definition envelope (g : OGRGeometry) : OGREnvelope := envelope_of (points g).

Definition is_empty (g : OGRGeometry) : bool := bool_decide (length (points g) = 0%nat).

Definition rectangle (e : OGREnvelope) : OGRGeometry :=
  OGRPolygon [[(MinX e, MinY e); (MinX e, MaxY e); (MaxX e, MaxY e);
               (MaxX e, MinY e); (MinX e, MinY e)]].

Definition is_rectangle (g : OGRGeometry) : bool :=
  match g with
  | OGRPolygon [[p1; p2; p3; p4; p5]] =>
      let e := envelope g in
      deq (fst p1) (MinX e) && deq (snd p1) (MinY e)
      && deq (fst p2) (MinX e) && deq (snd p2) (MaxY e)
      && deq (fst p3) (MaxX e) && deq (snd p3) (MaxY e)
      && deq (fst p4) (MaxX e) && deq (snd p4) (MinY e)
      && deq (fst p5) (MinX e) && deq (snd p5) (MinY e)
  | _ => false
  end.

Definition dimension (g : OGRGeometry) : Z :=
  match g with
  | OGRPoint _ _ => 0
  | OGRLineString _ => 1
  | OGRPolygon _ => 2
  | OGRGeometryCollection MultiPoint _ => 0
  | OGRGeometryCollection MultiLineString _ => 1
  | OGRGeometryCollection _ _ => 2
  | OGROtherGeometry _ => 0
  end.

Definition intersects (a b : OGRGeometry) : bool :=
  negb (is_empty a) && negb (is_empty b)
  && OGREnvelope_Intersects (envelope a) (envelope b).

Definition intersection (a b : OGRGeometry) : OGRGeometry :=
  if intersects a b then
    let ea := envelope a in
    let eb := envelope b in
    let e := mkEnv (qmax (MinX ea) (MinX eb)) (qmin (MaxX ea) (MaxX eb))
               (qmax (MinY ea) (MinY eb)) (qmin (MaxY ea) (MaxY eb)) in
    if deq (MinX e) (MaxX e) && deq (MinY e) (MaxY e)
    then OGRPoint (MinX e) (MinY e)
    else if deq (MinX e) (MaxX e) || deq (MinY e) (MaxY e)
    then OGRLineString [(MinX e, MinY e); (MaxX e, MaxY e)]
    else rectangle e
  else OGRPolygon [].

Definition difference (a b : OGRGeometry) : OGRGeometry :=
  if negb (is_empty b) && OGREnvelope_Contains (envelope b) (envelope a)
  then OGRPolygon [] else a.

Definition union_box (a b : OGRGeometry) : OGRGeometry :=
  rectangle (envelope_of (points a ++ points b)).

Definition point_of_byte (b : Byte.byte) : double :=
  inject_Z (Z.of_N (Byte.to_N b)).

(** A byte pair read as a point. *)
Definition from_wkb (wkb : WKB) : option OGRGeometry :=
  match wkb with
  | [bx; by_] => Some (OGRPoint (point_of_byte bx) (point_of_byte by_))
  | _ => None
  end.

(** A driver that takes every geometry as it is: it supports curves and
    measures, and no coordinate resolution is set. *)
Definition no_conversions : GeomConversions :=
  {| TestCapability := fun _ _ => true;
     CPLGetConfigOption := fun _ pszDefault => pszDefault;
     dfXYResolution := fun _ _ => 0%Q;
     OGRGeomCoordinatePrecision_UNKNOWN := 0%Q;
     OGR_GT_HasM := fun _ => false;
     setMeasured_FALSE := fun g => g;
     OGR_GT_IsNonLinear := fun _ => false;
     forceTo_linear := Some;
     hasCurveGeometry := fun _ => false;
     SetPrecision := fun g _ => Some g |}.

Definition kernel : Collaborators :=
  {| haveGEOS := true;
     getEnvelope := envelope;
     IsEmpty := is_empty;
     IsRectangle := is_rectangle;
     getDimension := dimension;
     geom_Intersects := fun a b => (intersects a b, false);
     geom_Intersection := fun a b => (Some (intersection a b), false);
     geom_Difference := fun a b => (Some (difference a b), false);
     geom_Union := fun a b => (Some (union_box a b), false);
     OGRCreatePreparedGeometry := fun g => Some (mkPrepared g);
     OGRPreparedGeometryIntersects := fun p g => (intersects (prepared_source p) g, false);
     OGRPreparedGeometryContains :=
       fun p g => (negb (is_empty g)
                   && OGREnvelope_Contains (envelope (prepared_source p))
                        (envelope g), false);
     forceToMultiPoint := fun g => OGRGeometryCollection MultiPoint [g];
     forceToMultiPolygon := fun g => OGRGeometryCollection MultiPolygon [g];
     forceToMultiLineString := fun g => OGRGeometryCollection MultiLineString [g];
     OGRWKBGetBoundingBox := fun wkb => envelope <$> from_wkb wkb;
     OGRWKBIntersectsPessimistic := fun _ _ => false;
     createFromWkb := from_wkb;
     swq_Evaluate := fun _ _ => true;
     ICreateFeature_ok := fun _ _ => true;
     ICreateField_ok := fun _ _ => true;
     VSI_MALLOC_ok := fun _ => true;
     conversions := no_conversions |}.

(** The same kernel when a prepared geometry can only be made of the
    geometries [can_prepare] accepts. *)
Definition kernel_preparing (can_prepare : OGRGeometry -> bool) : Collaborators :=
  {| haveGEOS := true;
     getEnvelope := envelope;
     IsEmpty := is_empty;
     IsRectangle := is_rectangle;
     getDimension := dimension;
     geom_Intersects := geom_Intersects kernel;
     geom_Intersection := geom_Intersection kernel;
     geom_Difference := geom_Difference kernel;
     geom_Union := geom_Union kernel;
     OGRCreatePreparedGeometry :=
       fun g => if can_prepare g then Some (mkPrepared g) else None;
     OGRPreparedGeometryIntersects := OGRPreparedGeometryIntersects kernel;
     OGRPreparedGeometryContains := OGRPreparedGeometryContains kernel;
     forceToMultiPoint := forceToMultiPoint kernel;
     forceToMultiPolygon := forceToMultiPolygon kernel;
     forceToMultiLineString := forceToMultiLineString kernel;
     OGRWKBGetBoundingBox := OGRWKBGetBoundingBox kernel;
     OGRWKBIntersectsPessimistic := OGRWKBIntersectsPessimistic kernel;
     createFromWkb := from_wkb;
     swq_Evaluate := swq_Evaluate kernel;
     ICreateFeature_ok := ICreateFeature_ok kernel;
     ICreateField_ok := ICreateField_ok kernel;
     VSI_MALLOC_ok := VSI_MALLOC_ok kernel;
     conversions := conversions kernel |}.

(** It can be made of what lies left of [x = limit] only. *)
Definition kernel_preparing_left_of (limit : Z) : Collaborators :=
  kernel_preparing (fun g => dlt (MaxX (envelope g)) (inject_Z limit)).

(** A square with corners [(a, a)] and [(b, b)]. *)
Definition square (a b : Z) : OGRGeometry :=
  rectangle (mkEnv (inject_Z a) (inject_Z b) (inject_Z a) (inject_Z b)).

(** A fresh layer with the given schema and rows, as [OGRLayer ()]
    leaves it. *)
Definition layer (fields : list OGRFieldDefn) (geoms : list OGRwkbGeometryType)
    (rows : list OGRFeature) : OGRLayer :=
  mkLayer (mkDefn fields geoms) false false None None (mkEnv 0%Q 0%Q 0%Q 0%Q) 0
    None (mkConvertGeoms false false false false) rows 0 (-1).

Definition row (fid : Z) (name : string) (g : option OGRGeometry) : OGRFeature :=
  mkFeature fid [Some (OFString name)] [g].

Definition name_field : OGRFieldDefn := mkFieldDefn "name" OFTString.

End Box.

(** ** Definitions used to state the properties *)

(** One of the four bounds of the envelope is NaN. *)
Definition has_nan (e : OGREnvelope) : bool :=
  isnan (MinX e) || isnan (MinY e) || isnan (MaxX e) || isnan (MaxY e).

(** The kernel of [E] with its two exact predicates replaced. *)
Definition with_predicates (E : Collaborators)
    (prepared_intersects : OGRPreparedGeometry -> OGRGeometry -> Geos bool)
    (intersects : OGRGeometry -> OGRGeometry -> Geos bool) : Collaborators :=
  {| haveGEOS := haveGEOS E;
     getEnvelope := getEnvelope E;
     IsEmpty := IsEmpty E;
     IsRectangle := IsRectangle E;
     getDimension := getDimension E;
     geom_Intersects := intersects;
     geom_Intersection := geom_Intersection E;
     geom_Difference := geom_Difference E;
     geom_Union := geom_Union E;
     OGRCreatePreparedGeometry := OGRCreatePreparedGeometry E;
     OGRPreparedGeometryIntersects := prepared_intersects;
     OGRPreparedGeometryContains := OGRPreparedGeometryContains E;
     forceToMultiPoint := forceToMultiPoint E;
     forceToMultiPolygon := forceToMultiPolygon E;
     forceToMultiLineString := forceToMultiLineString E;
     OGRWKBGetBoundingBox := OGRWKBGetBoundingBox E;
     OGRWKBIntersectsPessimistic := OGRWKBIntersectsPessimistic E;
     createFromWkb := createFromWkb E;
     swq_Evaluate := swq_Evaluate E;
     ICreateFeature_ok := ICreateFeature_ok E;
     ICreateField_ok := ICreateField_ok E;
     VSI_MALLOC_ok := VSI_MALLOC_ok E;
     conversions := conversions E |}.

(** The kernel of [E] over a driver that converts geometries as [K]
    says. *)
Definition with_conversions (E : Collaborators) (K : GeomConversions)
    : Collaborators :=
  {| haveGEOS := haveGEOS E;
     getEnvelope := getEnvelope E;
     IsEmpty := IsEmpty E;
     IsRectangle := IsRectangle E;
     getDimension := getDimension E;
     geom_Intersects := geom_Intersects E;
     geom_Intersection := geom_Intersection E;
     geom_Difference := geom_Difference E;
     geom_Union := geom_Union E;
     OGRCreatePreparedGeometry := OGRCreatePreparedGeometry E;
     OGRPreparedGeometryIntersects := OGRPreparedGeometryIntersects E;
     OGRPreparedGeometryContains := OGRPreparedGeometryContains E;
     forceToMultiPoint := forceToMultiPoint E;
     forceToMultiPolygon := forceToMultiPolygon E;
     forceToMultiLineString := forceToMultiLineString E;
     OGRWKBGetBoundingBox := OGRWKBGetBoundingBox E;
     OGRWKBIntersectsPessimistic := OGRWKBIntersectsPessimistic E;
     createFromWkb := createFromWkb E;
     swq_Evaluate := swq_Evaluate E;
     ICreateFeature_ok := ICreateFeature_ok E;
     ICreateField_ok := ICreateField_ok E;
     VSI_MALLOC_ok := VSI_MALLOC_ok E;
     conversions := K |}.

(** A configuration that applies the coordinate precision of the
    geometry fields, all of resolution 1, with a [SetPrecision] so coarse
    that it leaves of a geometry the rectangle of its envelope. *)
Definition snapping : GeomConversions :=
  {| TestCapability := fun _ _ => true;
     CPLGetConfigOption := fun _ _ => "TRUE";
     dfXYResolution := fun _ _ => 1%Q;
     OGRGeomCoordinatePrecision_UNKNOWN := 0%Q;
     OGR_GT_HasM := fun _ => false;
     setMeasured_FALSE := fun g => g;
     OGR_GT_IsNonLinear := fun _ => false;
     forceTo_linear := Some;
     hasCurveGeometry := fun _ => false;
     SetPrecision := fun g _ => Some (Box.rectangle (Box.envelope g)) |}.

Definition kernel_snapping : Collaborators := with_conversions Box.kernel snapping.

(** The lower left half of the square [(0,0)-(10,10)], and a layer that
    holds it. *)
Definition triangle : OGRGeometry :=
  OGRPolygon [[(dFinite 0, dFinite 0); (dFinite 10, dFinite 0);
               (dFinite 0, dFinite 10); (dFinite 0, dFinite 0)]].

Definition triangle_layer : OGRLayer :=
  Box.layer [Box.name_field] [wkbPolygon] [Box.row 0 "T" (Some triangle)].

(** A rectangular filter [(0,0)-(10,10)] on a layer of the small kernel,
    and the square [(2,2)-(4,4)] inside it. *)
Definition C1_layer : OGRLayer :=
  (SetSpatialFilter Box.kernel (Box.layer [] [wkbPolygon] []) 0
     (ptr_to (Box.square 0 10)) cpl_initial).1.2.

(** A layer without geometry fields, and one with a polygon field. *)
Definition table_layer : OGRLayer := Box.layer [Box.name_field] [] [].
Definition polygon_layer : OGRLayer := Box.layer [Box.name_field] [wkbPolygon] [].

(** Whether the WKB filter evaluation comes to its exact test: a filter
    is installed, the envelope of the WKB is known and meets that of the
    filter, neither shortcut for a rectangular filter decides, GEOS is
    there and the WKB can be read. *)
Definition reaches_exact_test (E : Collaborators) (L : OGRLayer) (pabyWKB : WKB)
    (bEnvelopeAlreadySet : bool) (sEnvelope : OGREnvelope) : bool :=
  match m_poFilterGeom L with
  | None => false
  | Some _ =>
      match (if bEnvelopeAlreadySet then Some sEnvelope
             else OGRWKBGetBoundingBox E pabyWKB) with
      | None => false
      | Some e =>
          OGREnvelope_Intersects (m_sFilterEnvelope L) e
          && negb (m_bFilterIsEnvelope L
                   && OGREnvelope_Contains (m_sFilterEnvelope L) e)
          && negb (m_bFilterIsEnvelope L
                   && OGRWKBIntersectsPessimistic E pabyWKB (m_sFilterEnvelope L))
          && haveGEOS E
          && bool_decide (is_Some (createFromWkb E pabyWKB))
      end
  end.

(** A layer whose filter is the diagonal of the square (0,0)-(10,10) and
    which holds no prepared geometry. *)
Definition diagonal : OGRGeometry :=
  OGRLineString [(dFinite 0, dFinite 0); (dFinite 10, dFinite 10)].

Definition diagonal_layer : OGRLayer :=
  set_pPreparedFilterGeom
    (SetSpatialFilter Box.kernel polygon_layer 0 (ptr_to diagonal) cpl_initial).1.2
    None.

(** A layer that holds a filter and has lost its geometry field, read up
    to its second row. *)
Definition filtered_table_layer : OGRLayer :=
  set_cursor
    (set_store
       (SetSpatialFilter Box.kernel polygon_layer 0 (ptr_to (Box.square 0 10))
          cpl_initial).1.2
       (mkDefn [Box.name_field] [])
       [Box.row 0 "a" None; Box.row 1 "b" None])
    1.

(** What an iterator still yields: the feature it holds and those the
    following increments fetch, up to the end of the sequence. *)
Fixpoint remaining_features (E : Collaborators) (fuel : nat) (it : FeatureIterator)
    (L : OGRLayer) (c : CPLState) : list OGRFeature :=
  match fuel with
  | O => []
  | S fuel' =>
      if m_bEOF it then []
      else
        match FeatureIterator_deref it with
        | None => []
        | Some f =>
            let '(it', L', c') := FeatureIterator_incr E it L c in
            f :: remaining_features E fuel' it' L' c'
        end
  end.

(** A layer of three squares, and the same while it is being read. *)
Definition abc_layer : OGRLayer :=
  Box.layer [Box.name_field] [wkbPolygon]
    [Box.row 0 "a" (Some (Box.square 0 1)); Box.row 1 "b" (Some (Box.square 2 3));
     Box.row 2 "c" (Some (Box.square 4 5))].

Definition busy_layer : OGRLayer := (begin Box.kernel abc_layer cpl_initial).1.2.

(** The name the specification gives to a field created in an empty
    result schema when no prefix option is supplied: the name itself,
    behind [input_] or [method_] when the other layer declares a field of
    exactly that name. *)
Definition spec_created_name (pszCollision : string) (others : list OGRFieldDefn)
    (d : OGRFieldDefn) : OGRFieldDefn :=
  SetName d
    (if bool_decide (GetNameRef d ∈ GetNameRef <$> others)
     then String.append pszCollision (GetNameRef d)
     else GetNameRef d).

(** The options [ADD_FIELDS], [ADD_INPUT_FIELDS] and [ADD_METHOD_FIELDS]
    are left at YES or absent. *)
Definition adds_all_fields (papszOptions : CSLConstList) : Prop :=
  opt_bool papszOptions "ADD_FIELDS" "YES" = true
  /\ opt_bool papszOptions "ADD_INPUT_FIELDS" "YES" = true
  /\ opt_bool papszOptions "ADD_METHOD_FIELDS" "YES" = true.

(** Two schemas that both declare [name]; the method schema also has
    [area]. *)
Definition schema_input : OGRFeatureDefn :=
  mkDefn [Box.name_field; mkFieldDefn "id" OFTInteger] [wkbPolygon].
Definition schema_method : OGRFeatureDefn :=
  mkDefn [Box.name_field; mkFieldDefn "area" OFTInteger] [wkbPolygon].

(** The name of a created field in general: a supplied prefix for the own
    side wins; without one, the collision renaming of [spec_created_name]
    applies when the other side has no prefix either; otherwise the name
    is kept. *)
Definition unified_name (pszOwnPrefix pszOtherPrefix : option string)
    (pszCollision : string) (others : list OGRFieldDefn) (d : OGRFieldDefn)
    : OGRFieldDefn :=
  match pszOwnPrefix, pszOtherPrefix with
  | Some pfx, _ => SetName d (String.append pfx (GetNameRef d))
  | None, None => spec_created_name pszCollision others d
  | None, Some _ => d
  end.

Definition fields_of (poDefn : option OGRFeatureDefn) : list OGRFieldDefn :=
  match poDefn with
  | Some d => apoFieldDefn d
  | None => []
  end.

(** ** Reasoning about loop bodies *)

(** A layer whose cursor and iterator flag were moved; reading it changes
    nothing else. *)
Definition moved (L : OGRLayer) (pos : nat) (b : bool) : OGRLayer :=
  set_bInFeatureIterator (set_cursor L pos) b.

(** [m] keeps the property [P] of the state, however it ends. *)
Definition preserves {St A : Type} (P : St -> Prop) (m : M St A) : Prop :=
  forall st c, P st -> P (m st c).1.2.

(** How [feed] ends: past the last row, by [break], or by [goto done]. *)
Inductive FeedExit : Type := FeedEnd | FeedBreak | FeedDone.

Definition loop_exit (ex : FeedExit) : LoopExit :=
  match ex with
  | FeedDone => LoopDone
  | _ => LoopEnd
  end.

(** A range-based [for] by recursion on the rows that are left: each row
    that passes the filters is handed to the body; the position of the
    cursor is counted along. *)
Fixpoint feed {St : Type} (E : Collaborators) (L : OGRLayer)
    (body : OGRFeature -> M St unit) (rows : list OGRFeature) (pos : nat)
    (st : St) (c : CPLState) : FeedExit * nat * St * CPLState :=
  match rows with
  | [] => (FeedEnd, pos, st, c)
  | f :: rest =>
      let '(ok, c1) := passes_filters E L f c in
      if ok then
        match body f st c1 with
        | (Jmp JDone, st', c') => (FeedDone, S pos, st', c')
        | (Jmp JBreak, st', c') => (FeedBreak, S pos, st', c')
        | (_, st', c') => feed E L body rest (S pos) st' c'
        end
      else feed E L body rest (S pos) st c1
  end.

(** Properties of a frame that only look at its locals, at the other
    source layer, or at the result layer. *)
Definition on_loc {Loc : Type} (Q : Loc -> Prop) : Frame Loc -> Prop :=
  fun fr => Q (f_loc fr).

Definition on_other (Q : OGRLayer -> Prop) : Frame OuterLoc -> Prop :=
  fun fr => Q (o_other (f_loc fr)).

Definition on_result {Loc : Type} (Q : OGRLayer -> Prop) : Frame Loc -> Prop :=
  fun fr => Q (f_result fr).

(** The schema of the layer is [D], and while [D] has no geometry field
    the filter of the layer is [F]: on such a layer no geometry can be
    installed. *)
Definition filter_kept (D : OGRFeatureDefn) (F : option OGRGeometry)
    (L : OGRLayer) : Prop :=
  m_poDefn L = D /\ (GetGeomFieldCount D = 0 -> m_poFilterGeom L = F).

(** A property of the two source layers of a world. *)
Definition on_sources (Qi Qm : OGRLayer -> Prop) : World -> Prop :=
  fun w => Qi (w_input w) /\ Qm (w_method w).

(** After an overlay operation [GetSpatialFilter] returns for both
    source layers what it returned before it. *)
Definition filters_restored (this pLayerMethod : OGRLayer)
    (r : OGRErr * World * CPLState) : Prop :=
  GetSpatialFilter (w_input r.1.2) = GetSpatialFilter this
  /\ GetSpatialFilter (w_method r.1.2) = GetSpatialFilter pLayerMethod.

(** A method layer with two geometry fields: its row has a square far
    out on the first and a square near the origin on the second, and the
    spatial filter [(0,0)-(10,10)] is on the second. *)
Definition far_and_near : OGRFeature :=
  mkFeature 0 [Some (OFString "M")]
    [Some (Box.square 100 110); Some (Box.square 0 5)].

Definition filtered_on_second_field : OGRLayer :=
  (SetSpatialFilter Box.kernel
     (Box.layer [Box.name_field] [wkbPolygon; wkbPolygon] [far_and_near]) 1
     (ptr_to (Box.square 0 10)) cpl_initial).1.2.

(** A filter of [L0] on its first geometry field is on the first
    geometry field in [L] too. *)
Definition on_first_field (L0 L : OGRLayer) : Prop :=
  m_iGeomFieldFilter L0 = 0 -> m_iGeomFieldFilter L = 0.

(** After an overlay operation the spatial filter of a source layer that
    had it on its first geometry field is on that field. *)
Definition first_field_kept (this pLayerMethod : OGRLayer)
    (r : OGRErr * World * CPLState) : Prop :=
  on_first_field this (w_input r.1.2)
  /\ on_first_field pLayerMethod (w_method r.1.2).

(** The geometry [Intersection] works out for a pair: [y] itself when the
    containment pretest is asked for and succeeds, else what the kernel
    returns for the intersection of the two. *)
Definition pair_intersection (E : Collaborators) (bPretestContainment : bool)
    (x_geom : OGRGeometry) (x_prepared_geom : option OGRPreparedGeometry)
    (y_geom : OGRGeometry) : option OGRGeometry :=
  match x_prepared_geom with
  | Some p =>
      if bPretestContainment && (OGRPreparedGeometryContains E p y_geom).1
      then Some y_geom
      else (geom_Intersection E x_geom y_geom).1
  | None => (geom_Intersection E x_geom y_geom).1
  end.

(** The note [resolve_keep_lower_dim] leaves. *)
Definition keep_lower_dim_note : CPLEvent :=
  mkEvent CE_Debug CPLE_None
    "Resetting KEEP_LOWER_DIMENSION_GEOMETRIES to NO since the result layer does not allow it.".

(** Two squares that meet in the corner [(10, 10)] only. *)
Definition corner_x : OGRFeature := Box.row 0 "A" (Some (Box.square 0 10)).
Definition corner_y : OGRFeature := Box.row 0 "B" (Some (Box.square 10 20)).

(** A result layer that declares polygons, and a frame on it. *)
Definition polygon_result : OGRLayer := Box.layer [] [wkbPolygon] [].
Definition polygon_frame {Loc : Type} (l : Loc) : Frame Loc :=
  mkFrame l polygon_result OGRERR_NONE.

(** [m] keeps the property [P] of the state unless it leaves by
    [goto done]. *)
Definition preserves_normal {St A : Type} (P : St -> Prop) (m : M St A) : Prop :=
  forall st c, P st ->
    match (m st c).1.1 with
    | Jmp JDone => True
    | _ => P (m st c).1.2
    end.

(** The variable [ret] holds [OGRERR_NONE]. *)
Definition ret_ok {Loc : Type} : Frame Loc -> Prop :=
  fun fr => f_ret fr = OGRERR_NONE.

(** [m], started where [P] holds, establishes [Q] of its value and the
    state whenever it falls through. *)
Definition yields {St A : Type} (P : St -> Prop) (Q : A -> St -> Prop)
    (m : M St A) : Prop :=
  forall st c, P st ->
    match (m st c).1.1 with
    | Val a => Q a (m st c).1.2
    | Jmp _ => True
    end.

(** The frame on which [for_input] starts the outer loop. *)
Definition input_frame (w : World) : Frame OuterLoc :=
  mkFrame (mkOuter (w_method w) (w_counter w) (w_calls w)) (w_result w) (w_ret w).

(** What the block [get resources] leaves when it falls through: [ret]
    is [OGRERR_NONE], the input layer and the rows of the result layer
    are untouched, the method layer was at most read through, and the
    progress counter stands at its start. *)
Definition at_entry (this pLayerMethod pLayerResult : OGRLayer) (w : World) : Prop :=
  w_ret w = OGRERR_NONE
  /\ w_input w = this
  /\ (exists pos b, w_method w = moved pLayerMethod pos b
                    /\ (m_bInFeatureIterator pLayerMethod = false -> b = false))
  /\ drv_features (w_result w) = drv_features pLayerResult
  /\ w_counter w = 0 /\ w_calls w = 0%nat.

(** The outer loop over the rows [pre ++ [x]] of [L] comes to [x] and
    the creation of the prepared geometry for it fails: the frame at that
    moment, when that is what happens.  [head] is the part of the body
    [body] that yields [x_geom]. *)
Definition prepare_failure (E : Collaborators) (L : OGRLayer)
    (head : OGRFeature -> M (Frame OuterLoc) OGRGeometry)
    (body : OGRFeature -> M (Frame OuterLoc) unit)
    (pre : list OGRFeature) (x : OGRFeature) (fr : Frame OuterLoc) (c : CPLState)
    : option (Frame OuterLoc) :=
  match feed E L body pre 0 fr c with
  | (FeedEnd, _, fr1, c1) =>
      match passes_filters E L x c1 with
      | (true, c2) =>
          match head x fr1 c2 with
          | (Val x_geom, fr2, _) =>
              match OGRCreatePreparedGeometry E x_geom with
              | None => Some fr2
              | Some _ => None
              end
          | _ => None
          end
      | _ => None
      end
  | _ => None
  end.

(** The head and the body of the outer loop as [Intersection] and
    [Union] run them. *)
Definition Intersection_head (E : Collaborators) (this pLayerMethod : OGRLayer)
    (papszOptions : CSLConstList) (pfnProgress : option GDALProgressFunc)
    (c : CPLState) (r : Resources) : OGRFeature -> M (Frame OuterLoc) OGRGeometry :=
  Intersection_begin E pfnProgress (GetFeatureCount E this false c).1.1
    (opt_bool papszOptions "SKIP_FAILURES" "NO")
    (clone_spatial_filter pLayerMethod).2 (r_bEnvelopeSet r) (r_sEnvelopeMethod r).

Definition Intersection_body (E : Collaborators) (this pLayerMethod : OGRLayer)
    (papszOptions : CSLConstList) (pfnProgress : option GDALProgressFunc)
    (c : CPLState) (r : Resources) : OGRFeature -> M (Frame OuterLoc) unit :=
  Intersection_x E pfnProgress (GetFeatureCount E this false c).1.1
    (opt_bool papszOptions "SKIP_FAILURES" "NO")
    (opt_bool papszOptions "PROMOTE_TO_MULTI" "NO")
    (opt_bool papszOptions "USE_PREPARED_GEOMETRIES" "YES")
    (opt_bool papszOptions "PRETEST_CONTAINMENT" "NO")
    (r_bKeepLowerDimGeom r) (clone_spatial_filter pLayerMethod).2
    (r_bEnvelopeSet r) (r_sEnvelopeMethod r)
    (r_poDefnResult r) (r_mapInput r) (r_mapMethod r).

Definition Union_head (E : Collaborators) (this pLayerMethod : OGRLayer)
    (papszOptions : CSLConstList) (pfnProgress : option GDALProgressFunc)
    (c : CPLState) : OGRFeature -> M (Frame OuterLoc) OGRGeometry :=
  begin_x E pfnProgress
    ((GetFeatureCount E this false c).1.1
     + (GetFeatureCount E pLayerMethod false c).1.1)
    (opt_bool papszOptions "SKIP_FAILURES" "NO")
    (clone_spatial_filter pLayerMethod).2.

Definition Union_body (E : Collaborators) (this pLayerMethod : OGRLayer)
    (papszOptions : CSLConstList) (pfnProgress : option GDALProgressFunc)
    (c : CPLState) (r : Resources) : OGRFeature -> M (Frame OuterLoc) unit :=
  Union_x E pfnProgress
    ((GetFeatureCount E this false c).1.1
     + (GetFeatureCount E pLayerMethod false c).1.1)
    (opt_bool papszOptions "SKIP_FAILURES" "NO")
    (opt_bool papszOptions "PROMOTE_TO_MULTI" "NO")
    (opt_bool papszOptions "USE_PREPARED_GEOMETRIES" "YES")
    (r_bKeepLowerDimGeom r) (clone_spatial_filter pLayerMethod).2
    (r_poDefnResult r) (r_mapInput r) (r_mapMethod r).

(** Three squares in a row on the input side, one long square on the
    method side that meets them all, and an empty result layer. *)
Definition three_squares : OGRLayer :=
  Box.layer [Box.name_field] [wkbPolygon]
    [Box.row 0 "A" (Some (Box.square 0 10));
     Box.row 1 "B" (Some (Box.square 20 30));
     Box.row 2 "C" (Some (Box.square 12 16))].

Definition long_square : OGRLayer :=
  Box.layer [Box.name_field] [wkbPolygon] [Box.row 0 "M" (Some (Box.square 5 25))].

Definition empty_result : OGRLayer := Box.layer [] [wkbUnknown] [].

(** The result layer holds the rows [rows] and the other source layer
    has no row: the state of an outer loop that meets no pair. *)
Definition no_pairs (rows : list OGRFeature) : Frame OuterLoc -> Prop :=
  fun fr => drv_features (f_result fr) = rows
            /\ drv_features (o_other (f_loc fr)) = [].

Definition no_method_rows (rows : list OGRFeature) : World -> Prop :=
  fun w => drv_features (w_result w) = rows /\ drv_features (w_method w) = [].

(** ** Geometries as a layer receives them *)

(** The feature [CreateFeature] and [UpdateFeature] hand to the driver
    of the layer [L] for the feature [z]. *)
Definition converted (E : Collaborators) (L : OGRLayer) (z : OGRFeature) : OGRFeature :=
  (ConvertGeomsIfNecessary E L z).1.

(** What [ConvertGeomsIfNecessary] on the layer [L] makes of a first
    geometry [g]. *)
Definition converted_geometry (E : Collaborators) (L : OGRLayer) (g : OGRGeometry)
    : option OGRGeometry :=
  let L' := ConvertGeoms_init E L in
  let flags := m_convertGeoms L' in
  if (negb (m_bSupportsCurve flags) || negb (m_bSupportsM flags)
      || m_bApplyGeomSetPrecision flags)
     && (0 <? GetGeomFieldCount (GetLayerDefn L'))
  then ConvertGeom E flags (GetLayerDefn L') 0 g
  else Some g.

(** The layer takes every geometry as it is: it supports curves and
    measures, and no coordinate precision is to be applied. *)
Definition takes_geometries_as_they_are (E : Collaborators) (L : OGRLayer) : Prop :=
  let flags := m_convertGeoms (ConvertGeoms_init E L) in
  m_bSupportsCurve flags = true /\ m_bSupportsM flags = true
  /\ m_bApplyGeomSetPrecision flags = false.

(** The layer [L] converts geometries as the layer [R] does: it has the
    schema of [R] and, once initialised, the same conversion flags. *)
Definition converts_as (E : Collaborators) (R L : OGRLayer) : Prop :=
  m_poDefn L = m_poDefn R
  /\ m_convertGeoms (ConvertGeoms_init E L) = m_convertGeoms (ConvertGeoms_init E R).

(** ** Leftovers of the input features *)

(** A source layer on which the inner loops find nothing to do and the
    filter of a geometry can be installed: it has no row, is not being
    read, and has a geometry field. *)
Definition quiet (L : OGRLayer) : Prop :=
  drv_features L = [] /\ m_bInFeatureIterator L = false
  /\ 0 < GetGeomFieldCount (GetLayerDefn L).

(** The progress callback, when there is one, never asks to stop. *)
Definition progress_continues (pfnProgress : option GDALProgressFunc) : Prop :=
  forall f, pfnProgress = Some f -> forall n z, f n z = true.

(** The geometry of a feature when it has one that is not empty. *)
Definition with_area (E : Collaborators) (x : OGRFeature) : option OGRGeometry :=
  match GetGeometryRef x with
  | Some g => if IsEmpty E g then None else Some g
  | None => None
  end.

(** The feature an outer loop builds from the input feature [x] and the
    geometry [g] left of it. *)
Definition leftover_feature (E : Collaborators) (bPromoteToMulti : bool)
    (poDefnResult : OGRFeatureDefn) (map : option (list Z)) (x : OGRFeature)
    (g : OGRGeometry) : OGRFeature :=
  SetGeometryDirectly (SetFieldsFrom (OGRFeature_new poDefnResult) x map)
    (promoted E bPromoteToMulti g).

(** What becomes of a row of the layer [L] when nothing is taken from
    its geometry: a feature when the row passes the filters of [L] and
    has a geometry that is not empty, nothing otherwise. *)
Definition input_leftover (E : Collaborators) (L : OGRLayer) (bPromoteToMulti : bool)
    (poDefnResult : OGRFeatureDefn) (map : option (list Z)) (x : OGRFeature)
    : option OGRFeature :=
  if (passes_filters E L x cpl_initial).1
  then leftover_feature E bPromoteToMulti poDefnResult map x <$> with_area E x
  else None.

(** The rows of a layer after features without identifier were created
    in it one after the other. *)
Definition stored (rows : list OGRFeature) (zs : list OGRFeature) : list OGRFeature :=
  fold_left
    (fun (acc : list OGRFeature) z =>
       (acc ++ [mkFeature (Z.of_nat (length acc)) (pauFields z)
                  (papoGeometries z)])%list)
    zs rows.

(** The state of an outer loop between two rows while every row so far
    went through: the result layer holds [acc] and converts geometries as
    [R] does. *)
Definition leftover_state (E : Collaborators) (R : OGRLayer) (acc : list OGRFeature)
    : Frame OuterLoc -> Prop :=
  fun fr => f_ret fr = OGRERR_NONE /\ drv_features (f_result fr) = acc
            /\ converts_as E R (f_result fr)
            /\ quiet (o_other (f_loc fr)).

(** The geometries of the rows of [L] that pass its filters and have a
    geometry that is not empty, in the order of the rows. *)
Definition input_areas (E : Collaborators) (L : OGRLayer) (rows : list OGRFeature)
    : list OGRGeometry :=
  omap (fun x => if (passes_filters E L x cpl_initial).1 then with_area E x else None)
    rows.

(** An input layer with a square and a row without geometry, and a
    method layer without rows. *)
Definition square_and_blank : OGRLayer :=
  Box.layer [Box.name_field] [wkbPolygon]
    [Box.row 0 "A" (Some (Box.square 0 10)); Box.row 1 "B" None].

Definition no_rows : OGRLayer := Box.layer [Box.name_field] [wkbPolygon] [].

(** * Further operations of the layer *)

(** ** Reading by index *)

Section Reading.

Context (E : Collaborators).

(** [while (nIndex-- > 0)]: each turn fetches a feature and gives up when
    there is none. *)
Fixpoint SetNextByIndex_loop (nIndex : nat) (L : OGRLayer) (c : CPLState)
    : OGRErr * OGRLayer * CPLState :=
  match nIndex with
  | O => (OGRERR_NONE, L, c)
  | S n =>
      let '(poFeature, L1, c1) := GetNextFeature E L c in
      match poFeature with
      | None => (OGRERR_FAILURE, L1, c1)
      | Some _ => SetNextByIndex_loop n L1 c1
      end
  end.

Definition SetNextByIndex (L : OGRLayer) (nIndex : Z) (c : CPLState)
    : OGRErr * OGRLayer * CPLState :=
  if nIndex <? 0 then (OGRERR_FAILURE, L, c)
  else SetNextByIndex_loop (Z.to_nat nIndex) (ResetReading L) c.

End Reading.

(** The rows of [rows] that pass the filters installed on [L], in
    order. *)
Definition passing (E : Collaborators) (L : OGRLayer) (rows : list OGRFeature)
    : list OGRFeature :=
  List.filter (fun x => (passes_filters E L x cpl_initial).1) rows.

(** A layer with four squares, read through a rectangular filter that
    the second square lies outside of. *)
Definition four_squares : OGRLayer :=
  Box.layer [Box.name_field] [wkbPolygon]
    [Box.row 0 "A" (Some (Box.square 0 10));
     Box.row 1 "B" (Some (Box.square 40 50));
     Box.row 2 "C" (Some (Box.square 5 15));
     Box.row 3 "D" (Some (Box.square 18 19))].

Definition four_squares_filtered : OGRLayer :=
  (SetSpatialFilter Box.kernel four_squares 0 (ptr_to (Box.square 0 20))
     cpl_initial).1.2.

(** The geometries [IGetExtent] takes into account on the geometry field
    [iGeomField]: those of the passing rows that are there and not
    empty. *)
Definition extent_geometries (E : Collaborators) (L : OGRLayer) (iGeomField : Z)
    (rows : list OGRFeature) : list OGRGeometry :=
  omap (fun x => match GetGeomFieldRef x iGeomField with
                 | Some g => if IsEmpty E g then None else Some g
                 | None => None
                 end)
    (passing E L rows).

(** The extent [IGetExtent] makes of its extent so far and the envelope
    of one more geometry: each bound moves out to the new envelope's
    where that lies further out. *)
Definition merged_extent (psExtent oEnv : OGREnvelope) : OGREnvelope :=
  mkEnv
    (if dlt (MinX oEnv) (MinX psExtent) then MinX oEnv else MinX psExtent)
    (if dgt (MaxX oEnv) (MaxX psExtent) then MaxX oEnv else MaxX psExtent)
    (if dlt (MinY oEnv) (MinY psExtent) then MinY oEnv else MinY psExtent)
    (if dgt (MaxY oEnv) (MaxY psExtent) then MaxY oEnv else MaxY psExtent).

(** The state of the loop of [IGetExtent], the extent and [bExtentSet],
    after the envelope of one more geometry: the first envelopes replace
    the extent until one of them holds no NaN, the following ones are
    merged in. *)
Definition extent_step (st : OGREnvelope * bool) (oEnv : OGREnvelope)
    : OGREnvelope * bool :=
  if st.2 then (merged_extent st.1 oEnv, true) else (oEnv, negb (has_nan oEnv)).

(** ** What an overlay operation touches *)

(** A property of an outer frame made of a property of the other source
    layer and one of the result layer, and a property of a world made of
    properties of its three layers. *)
Definition on_layers (Qo Qr : OGRLayer -> Prop) : Frame OuterLoc -> Prop :=
  fun fr => Qo (o_other (f_loc fr)) /\ Qr (f_result fr).

Definition on_world (Qi Qm Qr : OGRLayer -> Prop) : World -> Prop :=
  fun w => Qi (w_input w) /\ Qm (w_method w) /\ Qr (w_result w).

(** Properties of a layer that reading it, setting a spatial filter on
    it, or writing features and fields to it cannot break. *)
Definition kept_by_reading (Q : OGRLayer -> Prop) : Prop :=
  forall L pos b, Q L -> Q (moved L pos b).

Definition kept_by_filtering (E : Collaborators) (Q : OGRLayer -> Prop) : Prop :=
  forall L g c, Q L -> Q (SetSpatialFilter0 E L g c).1.2.

Definition kept_by_writing (E : Collaborators) (Q : OGRLayer -> Prop) : Prop :=
  (forall L z c, Q L -> Q (CreateFeature E L z c).1.2)
  /\ (forall L d c, Q L -> Q (CreateField E L d c).1.2).

(** [L] holds the rows, the schema and the attribute filter of [L0]. *)
Definition same_store (L0 L : OGRLayer) : Prop :=
  drv_features L = drv_features L0 /\ m_poDefn L = m_poDefn L0
  /\ m_pszAttrQueryString L = m_pszAttrQueryString L0.

(** [R] is [R0] with rows and fields added behind those it had; its
    geometry fields, filters, cursor and flag are those of [R0], and the
    flags of [ConvertGeomsIfNecessary] are those of [R0] or have been
    initialised. *)
Definition grown_from (R0 R : OGRLayer) : Prop :=
  drv_features R0 `prefix_of` drv_features R
  /\ apoFieldDefn (m_poDefn R0) `prefix_of` apoFieldDefn (m_poDefn R)
  /\ R = set_convertGeoms (set_store R0 (m_poDefn R) (drv_features R))
           (m_convertGeoms R)
  /\ apoGeomFieldDefn (m_poDefn R) = apoGeomFieldDefn (m_poDefn R0)
  /\ (m_convertGeoms R = m_convertGeoms R0
      \/ m_bConvertGeomsIfNecessaryAlreadyCalled (m_convertGeoms R) = true).

(** ** Cancelling an overlay operation *)

(** [m], started where [P] holds, keeps [P] when it falls through or
    leaves by [continue] or [break], and establishes [D] when it leaves
    by [goto done]. *)
Definition stops {St A : Type} (P D : St -> Prop) (m : M St A) : Prop :=
  forall st c, P st ->
    match (m st c).1.1 with
    | Jmp JDone => D (m st c).1.2
    | _ => P (m st c).1.2
    end.

(** The progress callback was called at most [N] times. *)
Definition calls_le (N : nat) : OuterLoc -> Prop := fun o => (o_calls o <= N)%nat.

(** The callback was called at most [N] times, or once more with [ret]
    set to [OGRERR_FAILURE]. *)
Definition cancelled_at (N : nat) : Frame OuterLoc -> Prop :=
  fun fr =>
    (o_calls (f_loc fr) <= N)%nat
    \/ (o_calls (f_loc fr) = S N /\ f_ret fr = OGRERR_FAILURE).

Definition w_calls_le (N : nat) : World -> Prop := fun w => (w_calls w <= N)%nat.

Definition w_cancelled_at (N : nat) : World -> Prop :=
  fun w => (w_calls w <= N)%nat \/ (w_calls w = S N /\ w_ret w = OGRERR_FAILURE).

(** A callback that lets its first [N] calls pass and cancels from then
    on, and a layer whose driver knows its number of rows. *)
Definition counted_callback (N : nat) : GDALProgressFunc :=
  fun k _ => Nat.ltb k N.

Definition counted (L : OGRLayer) : OGRLayer :=
  mkLayer (m_poDefn L) (m_bInFeatureIterator L) (m_bFilterIsEnvelope L)
    (m_poFilterGeom L) (m_pPreparedFilterGeom L) (m_sFilterEnvelope L)
    (m_iGeomFieldFilter L) (m_pszAttrQueryString L) (m_convertGeoms L)
    (drv_features L) (drv_iNextShapeId L) (Z.of_nat (length (drv_features L))).

(** ** Moving a field *)

(** [for (; i < hi; i++) panMap[i] = f (i);] on an array of ints, with the
    value [i] is left at.  A write lands on the cell of that index; the
    loops below only write inside the block. *)
Fixpoint fill_loop (n : nat) (f : Z -> Z) (i : Z) (panMap : list Z) : Z * list Z :=
  match n with
  | O => (i, panMap)
  | S n' => fill_loop n' f (i + 1) (<[Z.to_nat i := f i]> panMap)
  end.

Definition fill_upto (i hi : Z) (f : Z -> Z) (panMap : list Z) : Z * list Z :=
  fill_loop (Z.to_nat (hi - i)) f i panMap.

(** The map [ReorderField] builds in the block [CPLMalloc] returned. *)
Definition ReorderField_panMap (nFieldCount iOldFieldPos iNewFieldPos : Z)
    (block : list Z) : list Z :=
  if iOldFieldPos <? iNewFieldPos then
    let '(i, panMap) := fill_upto 0 iOldFieldPos (fun i => i) block in
    let '(i, panMap) := fill_upto i iNewFieldPos (fun i => i + 1) panMap in
    let panMap := <[Z.to_nat iNewFieldPos := iOldFieldPos]> panMap in
    (fill_upto (iNewFieldPos + 1) nFieldCount (fun i => i) panMap).2
  else
    let '(_, panMap) := fill_upto 0 iNewFieldPos (fun i => i) block in
    let panMap := <[Z.to_nat iNewFieldPos := iOldFieldPos]> panMap in
    let '(i, panMap) :=
      fill_upto (iNewFieldPos + 1) (iOldFieldPos + 1) (fun i => i - 1) panMap in
    (fill_upto i nFieldCount (fun i => i) panMap).2.

(** [OGRLayer::ReorderFields] of the base class. *)
Definition OGRLayer_ReorderFields (L : OGRLayer) (panMap : list Z) (c : CPLState)
    : OGRErr * OGRLayer * CPLState :=
  (OGRERR_UNSUPPORTED_OPERATION, L,
   CPLError CE_Failure CPLE_NotSupported
     "ReorderFields() not supported by this layer.
" c).

Section Reordering.

(** [ReorderFields] is virtual, and [CPLMalloc] returns a block of the
    size asked for whose content is not known. *)
Context (ReorderFields : OGRLayer -> list Z -> CPLState -> OGRErr * OGRLayer * CPLState)
  (CPLMalloc_ints : Z -> list Z).

Definition ReorderField (L : OGRLayer) (iOldFieldPos iNewFieldPos : Z)
    (c : CPLState) : OGRErr * OGRLayer * CPLState :=
  let nFieldCount := GetFieldCount (GetLayerDefn L) in
  if (iOldFieldPos <? 0) || (iOldFieldPos >=? nFieldCount) then
    (OGRERR_FAILURE, L, CPLError CE_Failure CPLE_NotSupported "Invalid field index" c)
  else if (iNewFieldPos <? 0) || (iNewFieldPos >=? nFieldCount) then
    (OGRERR_FAILURE, L, CPLError CE_Failure CPLE_NotSupported "Invalid field index" c)
  else if iNewFieldPos =? iOldFieldPos then (OGRERR_NONE, L, c)
  else
    ReorderFields L
      (ReorderField_panMap nFieldCount iOldFieldPos iNewFieldPos
         (CPLMalloc_ints nFieldCount))
      c.

End Reordering.

(** A list with the element at index [iOld] taken out and put back at
    index [iNew]. *)
Definition moved_to {A : Type} (iOld iNew : nat) (x : A) (l : list A) : list A :=
  take iNew (delete iOld l) ++ x :: drop iNew (delete iOld l).

(** A driver whose [ReorderFields] puts the field of old index
    [panMap[i]] at index [i], an allocator that hands out blocks filled
    with sevens, and a layer with the fields "0" to "4". *)
Definition reordering_driver (L : OGRLayer) (panMap : list Z) (c : CPLState)
    : OGRErr * OGRLayer * CPLState :=
  (OGRERR_NONE,
   set_store L
     (mkDefn (omap (fun i => apoFieldDefn (m_poDefn L) !! Z.to_nat i) panMap)
        (apoGeomFieldDefn (m_poDefn L)))
     (drv_features L),
   c).

Definition sevens (n : Z) : list Z := replicate (Z.to_nat n) 7.

Definition five_fields : OGRLayer :=
  Box.layer
    [mkFieldDefn "0" OFTString; mkFieldDefn "1" OFTString; mkFieldDefn "2" OFTString;
     mkFieldDefn "3" OFTString; mkFieldDefn "4" OFTString]
    [wkbPolygon] [].

(** ** Updating a feature *)

(** [for (int i = 0; i < nCount; ++i) if (panIdx[i] < 0 || panIdx[i] >= nFields)]:
    the first position whose entry is not the index of a field, with
    that entry.  An array comes with its count as a list. *)
Fixpoint first_invalid_index (nFields : Z) (panIdx : list Z) (i : Z)
    : option (Z * Z) :=
  match panIdx with
  | [] => None
  | v :: rest =>
      if (v <? 0) || (v >=? nFields) then Some (i, v)
      else first_invalid_index nFields rest (i + 1)
  end.

Section Updating.

(** [IUpdateFeature] is virtual. *)
Context (E : Collaborators)
  (IUpdateFeature :
     OGRLayer -> OGRFeature -> list Z -> list Z -> bool -> CPLState ->
     OGRErr * OGRLayer * CPLState).

Definition UpdateFeature (L : OGRLayer) (poFeature : OGRFeature)
    (panUpdatedFieldsIdx panUpdatedGeomFieldsIdx : list Z)
    (bUpdateStyleString : bool) (c : CPLState) : OGRErr * OGRLayer * CPLState :=
  let '(poFeature, L) := ConvertGeomsIfNecessary E L poFeature in
  let nFieldCount := GetFieldCount (GetLayerDefn L) in
  match first_invalid_index nFieldCount panUpdatedFieldsIdx 0 with
  | Some (i, v) =>
      (OGRERR_FAILURE, L,
       CPLError CE_Failure CPLE_AppDefined
         (String.append "Invalid panUpdatedFieldsIdx["
            (String.append (pretty i) (String.append "] = " (pretty v))))
         c)
  | None =>
      let nGeomFieldCount := GetGeomFieldCount (GetLayerDefn L) in
      match first_invalid_index nGeomFieldCount panUpdatedGeomFieldsIdx 0 with
      | Some (i, v) =>
          (OGRERR_FAILURE, L,
           CPLError CE_Failure CPLE_AppDefined
             (String.append "Invalid panUpdatedGeomFieldsIdx["
                (String.append (pretty i) (String.append "] = " (pretty v))))
             c)
      | None =>
          IUpdateFeature L poFeature panUpdatedFieldsIdx panUpdatedGeomFieldsIdx
            bUpdateStyleString c
      end
  end.

End Updating.

(** Every entry is the index of one of [n] fields. *)
Definition indexes_below (n : Z) (panIdx : list Z) : Prop :=
  Forall (fun v => 0 <= v < n) panIdx.

(** A driver whose [IUpdateFeature] accepts every update. *)
Definition accepting_IUpdateFeature (L : OGRLayer) (poFeature : OGRFeature)
    (panUpdatedFieldsIdx panUpdatedGeomFieldsIdx : list Z)
    (bUpdateStyleString : bool) (c : CPLState) : OGRErr * OGRLayer * CPLState :=
  (OGRERR_NONE, L, c).

(** * The PDS data source (ogrpdsdatasource.cpp) *)

Module PDS.

Local Open Scope list_scope.

(** A [CPLString] is the sequence of its characters; a C string ends at
    its first NUL. *)
Definition CPLString : Type := list ascii.

Definition NUL : ascii := "000"%char.
Definition double_quote : ascii := "034"%char.
Definition single_quote : ascii := "'"%char.

Fixpoint c_str (s : list ascii) : list ascii :=
  match s with
  | [] => []
  | ch :: rest => if Ascii.eqb ch NUL then [] else ch :: c_str rest
  end.

Definition spaces_to_underscores (s : list ascii) : list ascii :=
  (fun ch => if Ascii.eqb ch " "%char then "_"%char else ch) <$> s.

(** [CleanString] changes [osInput] in place; [None] stands for the
    write in front of the buffer that [pszWrk[strlen (pszWrk) - 1]] is
    when [pszWrk] is the empty C string. *)
Definition CleanString (osInput : CPLString) : option CPLString :=
  let quoted (q : ascii) :=
    bool_decide (head osInput = Some q) && bool_decide (last osInput = Some q) in
  if (length osInput <? 2)%nat || (negb (quoted double_quote) && negb (quoted single_quote))
  then Some osInput
  else
    let pszWrk := c_str (drop 1 osInput) in
    match length pszWrk with
    | O => None
    | S n =>
        (* pszWrk[strlen (pszWrk) - 1] = 0, then the loop up to that NUL *)
        Some (spaces_to_underscores (take n pszWrk))
    end.

(** [int] is 32 bits wide; an [int] product that leaves the range wraps
    around. *)
Definition INT_MAX : Z := 2147483647.

Definition wrap_int (z : Z) : Z := (z + 2147483648) mod 4294967296 - 2147483648.

Definition VSILFILE : Type := nat.

(** What the constructor of [OGRPDSLayer] is given, the record buffer
    apart. *)
Record OGRPDSLayer : Type := mkPDSLayer {
  osTableID : CPLString;
  pszLayerName : CPLString;
  fpPDS : VSILFILE;
  osLabelFilename : CPLString;
  osStructureFilename : CPLString;
  nRecords : Z;
  nStartBytes : Z;
  nRecordSize : Z;
  bIsASCII : bool
}.

Definition text (s : string) : CPLString := list_ascii_of_string s.

Definition MakeAttr (os1 os2 : CPLString) : CPLString := os1 ++ text "." ++ os2.

Section DataSource.

(** The label as the keyword handler holds it ([GetKeyword] with a null
    default), the CPL string and file functions, [atoi] and [strstr] of
    the C library, and [GetLayerByName] of the dataset.  [VSIFOpenL]
    and [VSI_MALLOC_VERBOSE] may report errors of their own; closing a
    file is not followed. *)
Context (GetKeyword : CPLString -> option CPLString)
  (CSLTokenizeString2 : CPLString -> CPLString -> list CPLString)
  (atoi : CPLString -> Z)
  (strstr : CPLString -> CPLString -> bool)
  (CPLGetPathSafe : CPLString -> CPLString)
  (CPLFormCIFilenameSafe : CPLString -> CPLString -> CPLString)
  (GetLayerByName : list OGRPDSLayer -> CPLString -> bool)
  (VSIFOpenL : CPLString -> CPLState -> option VSILFILE * CPLState)
  (VSI_MALLOC_VERBOSE : Z -> CPLState -> bool * CPLState).

Definition GetKeywordDef (pszPath pszDefault : CPLString) : CPLString :=
  default pszDefault (GetKeyword pszPath).

Definition GetLayer (papoLayers : list OGRPDSLayer) (iLayer : Z)
    : option OGRPDSLayer :=
  if (iLayer <? 0) || (iLayer >=? Z.of_nat (length papoLayers)) then None
  else papoLayers !! Z.to_nat iLayer.

(** [None] stands for the read in front of the token list that
    [papszTokens[iSubscript - 1]] is when [iSubscript] is not positive. *)
Definition GetKeywordSub (pszPath : CPLString) (iSubscript : Z)
    (pszDefault : CPLString) : option CPLString :=
  match GetKeyword pszPath with
  | None => Some pszDefault
  | Some pszResult =>
      if negb (bool_decide (head pszResult = Some "("%char)) then Some pszDefault
      else
        let papszTokens := CSLTokenizeString2 pszResult (text "(,)") in
        if iSubscript <=? Z.of_nat (length papszTokens) then
          if iSubscript <=? 0 then None
          else Some (default [] (papszTokens !! Z.to_nat (iSubscript - 1)))
        else Some pszDefault
  end.

Definition is_digit (ch : ascii) : bool :=
  (nat_of_ascii "0" <=? nat_of_ascii ch)%nat && (nat_of_ascii ch <=? nat_of_ascii "9")%nat.

(** The first part of [LoadTable]: the name of the file that holds the
    table and the offset of the table in it. *)
Definition LoadTable_location (pszFilename : CPLString) (nRecordSize : Z)
    (osTableLink : CPLString) (c : CPLState)
    : option (option (CPLString * Z) * CPLState) :=
  let osTable := GetKeywordDef osTableLink [] in
  if bool_decide (head osTable = Some "("%char) then
    osTableFilename ← GetKeywordSub osTableLink 1 [];
    osStartRecord ← GetKeywordSub osTableLink 2 [];
    let nStartBytes := atoi (c_str osStartRecord) in
    if (nStartBytes <=? 0)
       || ((0 <? nRecordSize) && (nStartBytes >? Z.quot INT_MAX nRecordSize))
    then
      Some (None, CPLError CE_Failure CPLE_NotSupported "Invalid StartBytes value" c)
    else
      let nStartBytes := wrap_int (nStartBytes - 1) in
      let nStartBytes := wrap_int (nStartBytes * nRecordSize) in
      if bool_decide (osTableFilename = []) || bool_decide (osStartRecord = [])
         || (nStartBytes <? 0)
      then
        Some (None,
              CPLError CE_Failure CPLE_NotSupported
                (String.append "Cannot parse "
                   (String.append (string_of_list_ascii (c_str osTableLink)) " line"))
                c)
      else
        let osTPath := CPLGetPathSafe pszFilename in
        osTableFilename ← CleanString osTableFilename;
        Some (Some (CPLFormCIFilenameSafe osTPath osTableFilename, nStartBytes), c)
  else
    let osTableFilename := GetKeywordDef osTableLink [] in
    if negb (bool_decide (osTableFilename = []))
       && match head osTableFilename with Some ch => is_digit ch | None => false end
    then
      let nStartBytes := atoi (c_str osTableFilename) in
      if nStartBytes <=? 1 then
        Some (None,
              CPLError CE_Failure CPLE_NotSupported
                (String.append "Cannot parse "
                   (String.append (string_of_list_ascii (c_str osTableFilename))
                      " line"))
                c)
      else
        let nStartBytes := wrap_int (nStartBytes - 1) in
        if negb (strstr (c_str osTableFilename) (text "<BYTES>")) then
          if (0 <? nRecordSize) && (nStartBytes >? Z.quot INT_MAX nRecordSize) then
            Some (None,
                  CPLError CE_Failure CPLE_NotSupported "Too big StartBytes value" c)
          else Some (Some (pszFilename, wrap_int (nStartBytes * nRecordSize)), c)
        else Some (Some (pszFilename, nStartBytes), c)
    else
      let osTPath := CPLGetPathSafe pszFilename in
      osTableFilename ← CleanString osTableFilename;
      Some (Some (CPLFormCIFilenameSafe osTPath osTableFilename, 0), c).

Definition LoadTable (papoLayers : list OGRPDSLayer) (pszFilename : CPLString)
    (nRecordSize : Z) (osTableID : CPLString) (c : CPLState)
    : option (bool * list OGRPDSLayer * CPLState) :=
  let osTableLink := text "^" ++ osTableID in
  '(location, c) ← LoadTable_location pszFilename nRecordSize osTableLink c;
  match location with
  | None => Some (false, papoLayers, c)
  | Some (osTableFilename, nStartBytes) =>
      let osTableName := GetKeywordDef (MakeAttr osTableID (text "NAME")) [] in
      let osTableName :=
        if bool_decide (osTableName = []) then
          if negb (GetLayerByName papoLayers (c_str osTableID)) then osTableID
          else text (String.append "Layer_"
                       (pretty (wrap_int (Z.of_nat (length papoLayers) + 1))))
        else osTableName in
      osTableName ← CleanString osTableName;
      let osTableInterchangeFormat :=
        GetKeywordDef (MakeAttr osTableID (text "INTERCHANGE_FORMAT")) [] in
      let osTableRows := GetKeywordDef (MakeAttr osTableID (text "ROWS")) [] in
      let nRecords := atoi (c_str osTableRows) in
      if bool_decide (osTableInterchangeFormat = []) || bool_decide (osTableRows = [])
         || (nRecords <? 0)
      then
        Some (false, papoLayers,
              CPLError CE_Failure CPLE_NotSupported
                "One of TABLE.INTERCHANGE_FORMAT or TABLE.ROWS is missing" c)
      else
        osTableInterchangeFormat ← CleanString osTableInterchangeFormat;
        if negb (bool_decide (osTableInterchangeFormat = text "ASCII"))
           && negb (bool_decide (osTableInterchangeFormat = text "BINARY"))
        then
          Some (false, papoLayers,
                CPLError CE_Failure CPLE_NotSupported
                  "Only INTERCHANGE_FORMAT=ASCII or BINARY is supported" c)
        else
          let '(fp, c) := VSIFOpenL osTableFilename c in
          match fp with
          | None =>
              Some (false, papoLayers,
                    CPLError CE_Failure CPLE_AppDefined
                      (String.append "Cannot open "
                         (string_of_list_ascii (c_str osTableFilename)))
                      c)
          | Some fp =>
              let osTableStructure :=
                GetKeywordDef (MakeAttr osTableID (text "^STRUCTURE")) [] in
              osTableStructure ←
                (if negb (bool_decide (osTableStructure = [])) then
                   let osTPath := CPLGetPathSafe pszFilename in
                   cleaned ← CleanString osTableStructure;
                   Some (CPLFormCIFilenameSafe osTPath cleaned)
                 else Some osTableStructure);
              let '(pabyRecord, c) :=
                VSI_MALLOC_VERBOSE (wrap_int (nRecordSize + 1)) c in
              if negb pabyRecord then Some (false, papoLayers, c)
              else
                Some (true,
                      papoLayers
                      ++ [mkPDSLayer osTableID osTableName fp pszFilename
                            osTableStructure nRecords nStartBytes nRecordSize
                            (bool_decide (osTableInterchangeFormat = text "ASCII"))],
                      c)
          end
  end.

(** The offset of the table in exact arithmetic: one record, or one
    byte when the value is marked [<BYTES>], for each unit the start
    value lies above 1. *)
Definition exact_StartBytes (nRecordSize : Z) (osTableLink : CPLString) : Z :=
  let osTable := GetKeywordDef osTableLink [] in
  if bool_decide (head osTable = Some "("%char) then
    (atoi (c_str (default [] (GetKeywordSub osTableLink 2 []))) - 1) * nRecordSize
  else if match head osTable with Some ch => is_digit ch | None => false end then
    if strstr (c_str osTable) (text "<BYTES>") then atoi (c_str osTable) - 1
    else (atoi (c_str osTable) - 1) * nRecordSize
  else 0.

End DataSource.

Section Opening.

(** What [Open] needs besides the collaborators of [LoadTable]: the
    first 511 bytes [VSIFReadL] delivers, [strstr] as the position of the
    match, the keyword handler that [Ingest] fills from the file at an
    offset (none when it fails), and the lines [CPLReadLine2L] reads from
    a file.  Closing a file is not followed. *)
Context (CSLTokenizeString2 : CPLString -> CPLString -> list CPLString)
  (atoi : CPLString -> Z)
  (strstr : CPLString -> CPLString -> bool)
  (CPLGetPathSafe : CPLString -> CPLString)
  (CPLFormCIFilenameSafe : CPLString -> CPLString -> CPLString)
  (GetLayerByName : list OGRPDSLayer -> CPLString -> bool)
  (VSIFOpenL : CPLString -> CPLState -> option VSILFILE * CPLState)
  (VSI_MALLOC_VERBOSE : Z -> CPLState -> bool * CPLState)
  (VSIFReadL_header : VSILFILE -> CPLString)
  (strstr_pos : CPLString -> CPLString -> option Z)
  (Ingest : VSILFILE -> Z -> option (CPLString -> option CPLString))
  (CPLReadLines : VSILFILE -> list CPLString).

(** [while (nErrors < 10)] over the lines left in the file. *)
Fixpoint Open_lines (GetKeyword : CPLString -> option CPLString)
    (lines : list CPLString) (nErrors : Z) (papoLayers : list OGRPDSLayer)
    (pszFilename : CPLString) (nRecordSize : Z) (c : CPLState)
    : option (list OGRPDSLayer * CPLState) :=
  if negb (nErrors <? 10) then Some (papoLayers, c)
  else
    match lines with
    | [] => Some (papoLayers, CPLErrorReset c)
    | pszLine :: rest =>
        let c := CPLErrorReset c in
        let papszTokens := CSLTokenizeString2 pszLine (text " =") in
        match papszTokens with
        | [token0; _] =>
            if bool_decide (head token0 = Some "^"%char)
               && strstr (c_str token0) (text "TABLE")
            then
              '(bLoaded, papoLayers, c) ←
                LoadTable GetKeyword CSLTokenizeString2 atoi strstr CPLGetPathSafe
                  CPLFormCIFilenameSafe GetLayerByName VSIFOpenL VSI_MALLOC_VERBOSE
                  papoLayers pszFilename nRecordSize (drop 1 (c_str token0)) c;
              Open_lines GetKeyword rest
                (if negb bLoaded then wrap_int (nErrors + 1) else nErrors)
                papoLayers pszFilename nRecordSize c
            else Open_lines GetKeyword rest nErrors papoLayers pszFilename nRecordSize c
        | _ => Open_lines GetKeyword rest nErrors papoLayers pszFilename nRecordSize c
        end
    end.

Definition Open (papoLayers : list OGRPDSLayer) (pszFilename : CPLString)
    (c : CPLState) : option (bool * list OGRPDSLayer * CPLState) :=
  let '(fp, c) := VSIFOpenL pszFilename c in
  match fp with
  | None => Some (false, papoLayers, c)
  | Some fp =>
      let szBuffer := c_str (take 511 (VSIFReadL_header fp)) in
      match strstr_pos szBuffer (text "PDS_VERSION_ID") with
      | None => Some (false, papoLayers, c)
      | Some pos =>
          match Ingest fp pos with
          | None => Some (false, papoLayers, c)
          | Some GetKeyword =>
              let osRecordType := GetKeywordDef GetKeyword (text "RECORD_TYPE") [] in
              let osFileRecords := GetKeywordDef GetKeyword (text "FILE_RECORDS") [] in
              let osRecordBytes := GetKeywordDef GetKeyword (text "RECORD_BYTES") [] in
              let nRecordSize := atoi (c_str osRecordBytes) in
              if bool_decide (osRecordType = []) || bool_decide (osFileRecords = [])
                 || bool_decide (osRecordBytes = []) || (nRecordSize <=? 0)
                 || (nRecordSize >? 10 * 1024 * 1024)
              then
                Some (false, papoLayers,
                      CPLError CE_Failure CPLE_NotSupported
                        "One of RECORD_TYPE, FILE_RECORDS or RECORD_BYTES is missing"
                        c)
              else
                osRecordType ← CleanString osRecordType;
                if negb (bool_decide (osRecordType = text "FIXED_LENGTH")) then
                  Some (false, papoLayers,
                        CPLError CE_Failure CPLE_NotSupported
                          "Only RECORD_TYPE=FIXED_LENGTH is supported" c)
                else
                  let osTable := GetKeywordDef GetKeyword (text "^TABLE") [] in
                  if negb (bool_decide (osTable = [])) then
                    '(_, papoLayers, c) ←
                      LoadTable GetKeyword CSLTokenizeString2 atoi strstr
                        CPLGetPathSafe CPLFormCIFilenameSafe GetLayerByName VSIFOpenL
                        VSI_MALLOC_VERBOSE papoLayers pszFilename nRecordSize
                        (text "TABLE") c;
                    Some (negb (bool_decide (papoLayers = [])), papoLayers, c)
                  else
                    let '(fp, c) := VSIFOpenL pszFilename c in
                    match fp with
                    | None => Some (false, papoLayers, c)
                    | Some fp =>
                        '(papoLayers, c) ←
                          Open_lines GetKeyword (CPLReadLines fp) 0 papoLayers
                            pszFilename nRecordSize c;
                        Some (negb (bool_decide (papoLayers = [])), papoLayers, c)
                    end
          end
      end
  end.

End Opening.

(** A label that places the table at record 5 of the file itself, and
    the collaborators of a run on it. *)
Definition example_label (pszPath : CPLString) : option CPLString :=
  if bool_decide (pszPath = text "^TABLE") then Some (text "5")
  else if bool_decide (pszPath = text "TABLE.INTERCHANGE_FORMAT")
  then Some (text "'ASCII'")
  else if bool_decide (pszPath = text "TABLE.ROWS") then Some (text "10")
  else if bool_decide (pszPath = text "RECORD_TYPE") then Some (text "FIXED_LENGTH")
  else if bool_decide (pszPath = text "FILE_RECORDS") then Some (text "15")
  else if bool_decide (pszPath = text "RECORD_BYTES") then Some (text "80")
  else None.

Fixpoint example_digits (acc : Z) (s : CPLString) : Z :=
  match s with
  | ch :: rest =>
      if (nat_of_ascii "0" <=? nat_of_ascii ch)%nat
         && (nat_of_ascii ch <=? nat_of_ascii "9")%nat
      then example_digits (10 * acc + Z.of_nat (nat_of_ascii ch - nat_of_ascii "0")) rest
      else acc
  | [] => acc
  end.

Definition example_atoi (s : CPLString) : Z := Z.min (example_digits 0 s) INT_MAX.

End PDS.

(** A layer of the PDS data source as [Open] should leave it: made from
    the label [pszFilename], with a record size between 1 and 10 MiB, a
    row count that is not negative and a start offset inside [int]. *)
Definition well_formed_layer (pszFilename : PDS.CPLString) (L : PDS.OGRPDSLayer)
    : Prop :=
  PDS.osLabelFilename L = pszFilename
  /\ 0 < PDS.nRecordSize L <= 10 * 1024 * 1024
  /\ 0 <= PDS.nRecords L
  /\ 0 <= PDS.nStartBytes L <= PDS.INT_MAX.

(** * Rolling back schema changes (ogrlayer.cpp) *)

Module Transaction.

Inductive FieldChangeType : Type := ADD_FIELD | ALTER_FIELD | DELETE_FIELD.

(** [FieldDefnChange<T>]; [poFieldDefn] is a [unique_ptr], null once it
    was moved from. *)
Record FieldDefnChange (T : Type) : Type := mkFieldDefnChange {
  poFieldDefn : option T;
  iField : Z;
  eChangeType : FieldChangeType;
  osSavepointName : string
}.

Arguments mkFieldDefnChange {T}.
Arguments poFieldDefn {T}.
Arguments iField {T}.
Arguments eChangeType {T}.
Arguments osSavepointName {T}.

Definition set_poFieldDefn {T : Type} (ch : FieldDefnChange T) (d : option T)
    : FieldDefnChange T :=
  mkFieldDefnChange d (iField ch) (eChangeType ch) (osSavepointName ch).

(** The order [FinishRollbackTransaction] hands to [ReorderFieldDefns] to
    move the field it has just appended to its old index: a vector of
    [iFieldCount] zeros filled by two loops and one more write. *)
Definition restore_order (iField iFieldCount : Z) : list Z :=
  let anOrder := replicate (Z.to_nat iFieldCount) 0 in
  let '(_, anOrder) := fill_upto 0 iField (fun j => j) anOrder in
  let '(_, anOrder) := fill_upto (iField + 1) iFieldCount (fun j => j - 1) anOrder in
  <[Z.to_nat iField := iFieldCount - 1]> anOrder.

(** The savepoint test at the head of both loops: whether the record is
    passed over, and the flag after it. *)
Definition savepoint_test (osSavepoint osRecordName : string)
    (bSavepointFound : bool) : bool * bool :=
  if negb (bool_decide (osSavepoint = "")) then
    if bool_decide (osRecordName = osSavepoint) then (false, true)
    else if bSavepointFound then (true, bSavepointFound)
    else (false, bSavepointFound)
  else (false, bSavepointFound).

(** The records a rollback to [osSavepoint] takes up, given the savepoint
    names of all records: every record when the name is empty; otherwise
    the records that carry the name and the records behind which no
    record carries it. *)
Definition taken_up (osSavepoint : string) (names : list string) (i : nat) : bool :=
  bool_decide (osSavepoint = "")
  || bool_decide (names !! i = Some osSavepoint)
  || negb (bool_decide (osSavepoint ∈ drop (S i) names)).

(** The indexes below [n] of the records taken up, last record first. *)
Definition taken_up_below (osSavepoint : string) (names : list string) (n : nat)
    : list nat :=
  List.filter (taken_up osSavepoint names) (rev (seq 0 n)).

Section Rollback.

(** The schema and its field definitions are those of [OGRFeatureDefn],
    whose methods are not part of the file.  [AssignFieldDefn d i f] is
    the schema after [*d->GetFieldDefn (i) = f]. *)
Context {Defn FieldDefn GeomFieldDefn : Type}
  (GetNameRef : FieldDefn -> string)
  (GeomGetNameRef : GeomFieldDefn -> string)
  (GetFieldCount : Defn -> Z)
  (AddFieldDefn : Defn -> FieldDefn -> Defn)
  (ReorderFieldDefns : Defn -> list Z -> CPLState -> OGRErr * Defn * CPLState)
  (GetFieldDefn : Defn -> Z -> CPLState -> option FieldDefn * CPLState)
  (AssignFieldDefn : Defn -> Z -> FieldDefn -> Defn)
  (StealFieldDefn : Defn -> Z -> CPLState -> option FieldDefn * Defn * CPLState)
  (StealGeomFieldDefn :
     Defn -> Z -> CPLState -> option GeomFieldDefn * Defn * CPLState).

(** The locals and members the first loop works on. *)
Record FieldsState : Type := mkFieldsState {
  fs_defn : Defn;
  fs_changes : list (FieldDefnChange FieldDefn);
  fs_toBeRemoved : list nat
}.

(** The body of the first loop behind the savepoint test, for the record
    [oFieldChange] at index [i].  [None] stands for undefined behaviour:
    the name of a null definition, or a write outside [anOrder]. *)
Definition restore_field (i : nat) (oFieldChange : FieldDefnChange FieldDefn)
    (st : FieldsState) (c : CPLState) : option (FieldsState * CPLState) :=
  match poFieldDefn oFieldChange with
  | None => None
  | Some d =>
      let pszName := GetNameRef d in
      let iField := iField oFieldChange in
      if 0 <=? iField then
        match eChangeType oFieldChange with
        | DELETE_FIELD =>
            (* Transfer ownership of the field to the layer *)
            let defn := AddFieldDefn (fs_defn st) d in
            let changes := <[i := set_poFieldDefn oFieldChange None]> (fs_changes st) in
            (* Now move the field to the right place *)
            let iFieldCount := GetFieldCount defn in
            if iFieldCount <=? iField then None
            else
              let '(err, defn, c) :=
                ReorderFieldDefns defn (restore_order iField iFieldCount) c in
              if bool_decide (err = OGRERR_NONE) then
                Some (mkFieldsState defn changes (fs_toBeRemoved st ++ [i]), c)
              else
                Some (mkFieldsState defn changes (fs_toBeRemoved st),
                      CPLError CE_Failure CPLE_AppDefined
                        (String.append "Failed to restore deleted field " pszName) c)
        | ALTER_FIELD =>
            let '(poFieldDefn, c) := GetFieldDefn (fs_defn st) iField c in
            match poFieldDefn with
            | Some _ =>
                Some (mkFieldsState (AssignFieldDefn (fs_defn st) iField d)
                        (fs_changes st) (fs_toBeRemoved st ++ [i]), c)
            | None =>
                Some (st,
                      CPLError CE_Failure CPLE_AppDefined
                        (String.append "Failed to restore altered field " pszName) c)
            end
        | ADD_FIELD =>
            let '(poFieldDef, defn, c) := StealFieldDefn (fs_defn st) iField c in
            match poFieldDef with
            | Some d' =>
                Some (mkFieldsState defn
                        (<[i := set_poFieldDefn oFieldChange (Some d')]> (fs_changes st))
                        (fs_toBeRemoved st), c)
            | None =>
                Some (mkFieldsState defn (fs_changes st) (fs_toBeRemoved st),
                      CPLError CE_Failure CPLE_AppDefined
                        (String.append "Failed to delete added field " pszName) c)
            end
        end
      else
        Some (st,
              CPLError CE_Failure CPLE_AppDefined
                (String.append "Failed to restore field "
                   (String.append pszName
                      (String.append " (field not found at index "
                         (String.append (pretty iField) ")"))))
                c)
  end.

(** [for (int i = size - 1; i >= 0; i--)], from [i = n - 1] down. *)
Fixpoint restore_fields_loop (osSavepoint : string) (n : nat)
    (bSavepointFound : bool) (st : FieldsState) (c : CPLState)
    : option (FieldsState * CPLState) :=
  match n with
  | O => Some (st, c)
  | S i =>
      oFieldChange ← fs_changes st !! i;
      let '(skip, bSavepointFound) :=
        savepoint_test osSavepoint (osSavepointName oFieldChange)
          bSavepointFound in
      if skip then restore_fields_loop osSavepoint i bSavepointFound st c
      else
        '(st, c) ← restore_field i oFieldChange st c;
        restore_fields_loop osSavepoint i bSavepointFound st c
  end.

(** The body of the second loop behind the savepoint test. *)
Definition restore_geom_field (i : nat) (oGeomFieldChange : FieldDefnChange GeomFieldDefn)
    (defn : Defn) (changes : list (FieldDefnChange GeomFieldDefn)) (c : CPLState)
    : option (Defn * list (FieldDefnChange GeomFieldDefn) * CPLState) :=
  match poFieldDefn oGeomFieldChange with
  | None => None
  | Some d =>
      let pszName := GeomGetNameRef d in
      let iGeomField := iField oGeomFieldChange in
      if 0 <=? iGeomField then
        match eChangeType oGeomFieldChange with
        | DELETE_FIELD | ALTER_FIELD =>
            (* Currently not handled by OGR for geometry fields *)
            Some (defn, changes, c)
        | ADD_FIELD =>
            let '(poGeomFieldDef, defn, c) := StealGeomFieldDefn defn iGeomField c in
            match poGeomFieldDef with
            | Some d' =>
                Some (defn, <[i := set_poFieldDefn oGeomFieldChange (Some d')]> changes, c)
            | None =>
                Some (defn, changes,
                      CPLError CE_Failure CPLE_AppDefined
                        (String.append "Failed to delete added geometry field " pszName)
                        c)
            end
        end
      else
        Some (defn, changes,
              CPLError CE_Failure CPLE_AppDefined
                (String.append "Failed to restore geometry field "
                   (String.append pszName
                      (String.append " (field not found at index "
                         (String.append (pretty iGeomField) ")"))))
                c)
  end.

Fixpoint restore_geom_fields_loop (osSavepoint : string) (n : nat)
    (bSavepointFound : bool) (defn : Defn)
    (changes : list (FieldDefnChange GeomFieldDefn)) (c : CPLState)
    : option (Defn * list (FieldDefnChange GeomFieldDefn) * CPLState) :=
  match n with
  | O => Some (defn, changes, c)
  | S i =>
      oGeomFieldChange ← changes !! i;
      let '(skip, bSavepointFound) :=
        savepoint_test osSavepoint (osSavepointName oGeomFieldChange)
          bSavepointFound in
      if skip then
        restore_geom_fields_loop osSavepoint i bSavepointFound defn changes c
      else
        '(defn, changes, c) ← restore_geom_field i oGeomFieldChange defn changes c;
        restore_geom_fields_loop osSavepoint i bSavepointFound defn changes c
  end.

(** The bodies of the two loops run on the records at the given indexes,
    in that order. *)
Fixpoint restore_fields_at (indexes : list nat) (st : FieldsState) (c : CPLState)
    : option (FieldsState * CPLState) :=
  match indexes with
  | [] => Some (st, c)
  | i :: rest =>
      oFieldChange ← fs_changes st !! i;
      '(st, c) ← restore_field i oFieldChange st c;
      restore_fields_at rest st c
  end.

Fixpoint restore_geom_fields_at (indexes : list nat) (defn : Defn)
    (changes : list (FieldDefnChange GeomFieldDefn)) (c : CPLState)
    : option (Defn * list (FieldDefnChange GeomFieldDefn) * CPLState) :=
  match indexes with
  | [] => Some (defn, changes, c)
  | i :: rest =>
      oGeomFieldChange ← changes !! i;
      '(defn, changes, c) ← restore_geom_field i oGeomFieldChange defn changes c;
      restore_geom_fields_at rest defn changes c
  end.

(** The members of the layer the function works on. *)
Record SchemaState : Type := mkSchemaState {
  m_poFeatureDefn : Defn;
  m_apoFieldDefnChanges : list (FieldDefnChange FieldDefn);
  m_apoGeomFieldDefnChanges : list (FieldDefnChange GeomFieldDefn)
}.

(** [for (const auto &i : toBeRemoved) m_apoFieldDefnChanges.erase (begin () + i)];
    every [i] is the index of a record when its turn comes. *)
Definition erase_all {T : Type} (changes : list T) (toBeRemoved : list nat) : list T :=
  foldl (fun changes i => delete i changes) changes toBeRemoved.

Definition FinishRollbackTransaction (osSavepoint : string) (L : SchemaState)
    (c : CPLState) : option (SchemaState * CPLState) :=
  '(st, c) ←
    restore_fields_loop osSavepoint (length (m_apoFieldDefnChanges L)) false
      (mkFieldsState (m_poFeatureDefn L) (m_apoFieldDefnChanges L) []) c;
  (* Remove from the storage the deleted fields that have been restored *)
  let changes := erase_all (fs_changes st) (fs_toBeRemoved st) in
  '(defn, geom_changes, c) ←
    restore_geom_fields_loop osSavepoint (length (m_apoGeomFieldDefnChanges L))
      false (fs_defn st) (m_apoGeomFieldDefnChanges L) c;
  Some (mkSchemaState defn changes geom_changes, c).

(** [PrepareStartTransaction] *)
Definition PrepareStartTransaction (L : SchemaState) : SchemaState :=
  mkSchemaState (m_poFeatureDefn L) [] [].

(** The two loops as instances of the loop over a state that holds the
    records: the savepoint name of the record at an index, and the body
    behind the savepoint test. *)
Definition field_name_at (s : FieldsState * CPLState) (i : nat) : option string :=
  osSavepointName <$> fs_changes s.1 !! i.

Definition field_body (i : nat) (s : FieldsState * CPLState)
    : option (FieldsState * CPLState) :=
  oFieldChange ← fs_changes s.1 !! i; restore_field i oFieldChange s.1 s.2.

Definition geom_name_at
    (s : Defn * list (FieldDefnChange GeomFieldDefn) * CPLState) (i : nat)
    : option string :=
  osSavepointName <$> s.1.2 !! i.

Definition geom_body (i : nat)
    (s : Defn * list (FieldDefnChange GeomFieldDefn) * CPLState)
    : option (Defn * list (FieldDefnChange GeomFieldDefn) * CPLState) :=
  oGeomFieldChange ← s.1.2 !! i;
  restore_geom_field i oGeomFieldChange s.1.1 s.1.2 s.2.

End Rollback.

End Transaction.

(** ** The savepoint loop

    Both loops of [FinishRollbackTransaction] are instances of one loop
    over a state [St] that holds the records. *)

Section SavepointLoop.

Context {St : Type} (name_at : St -> nat -> option string)
  (body : nat -> St -> option St).

Fixpoint savepoint_loop (osSavepoint : string) (n : nat) (bSavepointFound : bool)
    (st : St) : option St :=
  match n with
  | O => Some st
  | S i =>
      osRecordName ← name_at st i;
      let '(skip, bSavepointFound) :=
        Transaction.savepoint_test osSavepoint osRecordName bSavepointFound in
      if skip then savepoint_loop osSavepoint i bSavepointFound st
      else st ← body i st; savepoint_loop osSavepoint i bSavepointFound st
  end.

Fixpoint body_at (indexes : list nat) (st : St) : option St :=
  match indexes with
  | [] => Some st
  | i :: rest => _ ← name_at st i; st ← body i st; body_at rest st
  end.

End SavepointLoop.

(** The state holds records with the savepoint names [names]. *)
Definition holds_names {St : Type} (name_at : St -> nat -> option string)
    (names : list string) (st : St) : Prop :=
  forall i, name_at st i = names !! i.

(** ** Putting deleted fields back *)

(** A list with [x] put in at index [k]. *)
Definition put_back {A : Type} (k : nat) (x : A) (l : list A) : list A :=
  take k l ++ x :: drop k l.

(** The fields after putting back, one after the other, the fields
    [deleted] names with the index each was at; nothing when an index
    lies beyond the list it is to go into. *)
Fixpoint reinserted {A : Type} (l : list A) (deleted : list (nat * A))
    : option (list A) :=
  match deleted with
  | [] => Some l
  | (k, x) :: rest =>
      if decide (k <= length l)%nat then reinserted (put_back k x l) rest else None
  end.

(** The change record of a deleted field, and what it records. *)
Definition deletion {T : Type} (k : nat) (x : T) (osName : string)
    : Transaction.FieldDefnChange T :=
  Transaction.mkFieldDefnChange (Some x) (Z.of_nat k) Transaction.DELETE_FIELD osName.

(** A schema as the list of its field names and the list of the names
    of its geometry fields, with methods that act on it the way the
    documentation of [OGRFeatureDefn] describes them. *)
Module ListDefn.

Definition Defn : Type := (list string * list string)%type.

Definition GetFieldCount (d : Defn) : Z := Z.of_nat (length d.1).

Definition AddFieldDefn (d : Defn) (f : string) : Defn := ((d.1 ++ [f])%list, d.2).

Definition ReorderFieldDefns (d : Defn) (panMap : list Z) (c : CPLState)
    : OGRErr * Defn * CPLState :=
  if bool_decide (panMap ≡ₚ seqZ 0 (GetFieldCount d)) then
    (OGRERR_NONE, (omap (fun i => d.1 !! Z.to_nat i) panMap, d.2), c)
  else
    (OGRERR_FAILURE, d,
     CPLError CE_Failure CPLE_AppDefined "Invalid value for panMap" c).

Definition GetFieldDefn (d : Defn) (i : Z) (c : CPLState) : option string * CPLState :=
  if (i <? 0) || (i >=? GetFieldCount d) then
    (None, CPLError CE_Failure CPLE_AppDefined "Invalid index" c)
  else (d.1 !! Z.to_nat i, c).

Definition AssignFieldDefn (d : Defn) (i : Z) (f : string) : Defn :=
  (<[Z.to_nat i := f]> d.1, d.2).

Definition StealFieldDefn (d : Defn) (i : Z) (c : CPLState)
    : option string * Defn * CPLState :=
  if (i <? 0) || (i >=? GetFieldCount d) then (None, d, c)
  else (d.1 !! Z.to_nat i, (delete (Z.to_nat i) d.1, d.2), c).

Definition StealGeomFieldDefn (d : Defn) (i : Z) (c : CPLState)
    : option string * Defn * CPLState :=
  if (i <? 0) || (i >=? Z.of_nat (length d.2)) then (None, d, c)
  else (d.2 !! Z.to_nat i, (d.1, delete (Z.to_nat i) d.2), c).

Definition FinishRollbackTransaction :=
  Transaction.FinishRollbackTransaction (fun f : string => f) (fun f : string => f)
    GetFieldCount AddFieldDefn ReorderFieldDefns GetFieldDefn AssignFieldDefn
    StealFieldDefn StealGeomFieldDefn.

End ListDefn.

(** The record of a deleted field from its index, its definition and
    the savepoint it was deleted under. *)
Definition deletion_of {T : Type} (x : nat * T * string) : Transaction.FieldDefnChange T :=
  deletion x.1.1 x.1.2 x.2.

(** Deleting from [l] the fields at the indexes [ks], one after the
    other: what is left, and the index and the field of each deletion in
    the order they were made. *)
Fixpoint deleted_from {A : Type} (l : list A) (ks : list nat)
    : option (list A * list (nat * A)) :=
  match ks with
  | [] => Some (l, [])
  | k :: rest =>
      x ← l !! k;
      '(l', deleted) ← deleted_from (delete k l) rest;
      Some (l', (k, x) :: deleted)
  end.

(** ** The size of the result of an overlay operation *)

(** A layer with at most [b] rows, and a layer with [n] rows. *)
Definition rows_le (b : nat) : OGRLayer -> Prop :=
  fun L => (length (drv_features L) <= b)%nat.

Definition rows_are (n : nat) : OGRLayer -> Prop :=
  fun L => length (drv_features L) = n.

(** [P b] bounds a quantity of the state by [b]; [m] raises the bound by
    at most [k], however it ends. *)
Definition grows {St A : Type} (P : nat -> St -> Prop) (k : nat) (m : M St A)
    : Prop :=
  forall b st c, P b st -> P (b + k)%nat (m st c).1.2.

(** The bounds on the rows of the result layer, for the body of an inner
    loop, for the body of an outer loop whose other layer has [n] rows,
    and for an operation whose source layers have [n] and [m] rows. *)
Definition inner_rows {Loc : Type} (b : nat) : Frame Loc -> Prop :=
  on_result (rows_le b).

Definition outer_rows (n b : nat) : Frame OuterLoc -> Prop :=
  on_layers (rows_are n) (rows_le b).

Definition world_rows (n m b : nat) : World -> Prop :=
  on_world (rows_are n) (rows_are m) (rows_le b).

(** [R] has at most [k] rows more than [R0]. *)
Definition at_most_added (R0 : OGRLayer) (k : nat) (R : OGRLayer) : Prop :=
  (length (drv_features R) <= length (drv_features R0) + k)%nat.

(** ** Pairs that meet in a lower dimension *)

(** [L] holds the rows [rows]. *)
Definition rows_same (rows : list OGRFeature) : OGRLayer -> Prop :=
  fun L => drv_features L = rows.

(** The bounds on the rows of the result layer while the other layer, or
    the two source layers, hold given rows. *)
Definition outer_rows_of (rows : list OGRFeature) (b : nat) : Frame OuterLoc -> Prop :=
  on_layers (rows_same rows) (rows_le b).

Definition world_rows_of (rowsI rowsM : list OGRFeature) (b : nat) : World -> Prop :=
  on_world (rows_same rowsI) (rows_same rowsM) (rows_le b).

(** The prepared geometry the body of an outer loop holds for [x_geom]
    once [prepare_x] has fallen through. *)
Definition x_prepared (E : Collaborators) (bUsePreparedGeometries : bool)
    (x_geom : OGRGeometry) : option OGRPreparedGeometry :=
  if bUsePreparedGeometries then OGRCreatePreparedGeometry E x_geom else None.

(** The geometries of [x] and [y] have the same dimension, and their
    intersection, as the pair loop works it out, is of lower dimension. *)
Definition meets_in_lower_dimension (E : Collaborators)
    (bUsePreparedGeometries bPretestContainment : bool) (x y : OGRFeature) : Prop :=
  forall x_geom y_geom,
    GetGeometryRef x = Some x_geom -> GetGeometryRef y = Some y_geom ->
    getDimension E x_geom = getDimension E y_geom
    /\ forall z,
         pair_intersection E bPretestContainment x_geom
           (x_prepared E bUsePreparedGeometries x_geom) y_geom = Some z ->
         getDimension E z < getDimension E x_geom.

(** Every row of [rowsI] meets every row of [rowsM] in a lower
    dimension. *)
Definition pairs_meet_in_lower_dimension (E : Collaborators)
    (bUsePreparedGeometries bPretestContainment : bool)
    (rowsI rowsM : list OGRFeature) : Prop :=
  forall x y, x ∈ rowsI -> y ∈ rowsM ->
    meets_in_lower_dimension E bUsePreparedGeometries bPretestContainment x y.

(** An input layer and a method layer with one square each, the two
    squares meeting in the corner [(10, 10)] only. *)
Definition corner_input : OGRLayer :=
  Box.layer [Box.name_field] [wkbPolygon] [corner_x].

Definition corner_method : OGRLayer :=
  Box.layer [Box.name_field] [wkbPolygon] [corner_y].

(** ** Reading a feature by its identifier *)

(** [m_poAttrQuery], the compiled form of the attribute filter, is known
    by the text it was compiled from; a layer is taken together with
    it. *)
Definition OGRFeatureQuery : Type := string.

Record QueriedLayer : Type := mkQueried {
  q_layer : OGRLayer;
  m_poAttrQuery : option OGRFeatureQuery
}.

Definition set_pszAttrQueryString (L : OGRLayer) (q : option string) : OGRLayer :=
  mkLayer (m_poDefn L) (m_bInFeatureIterator L) (m_bFilterIsEnvelope L)
    (m_poFilterGeom L) (m_pPreparedFilterGeom L) (m_sFilterEnvelope L)
    (m_iGeomFieldFilter L) q (m_convertGeoms L) (drv_features L)
    (drv_iNextShapeId L) (drv_nFeatureCount L).

(** The body of the loop of [GetFeature] on the local [poFeature]:
    [if (poFeatureIter->GetFID () == nFID) { poFeature.swap (poFeatureIter);
    break; }]. *)
Definition GetFeature_body (nFIDIn : Z) (poFeatureIter : OGRFeature)
    : M (option OGRFeature) unit :=
  if nFID poFeatureIter =? nFIDIn
  then (mput (Some poFeatureIter) ;;; jump JBreak)
  else mret tt.

Section Querying.

(** [OGRFeatureQuery::Compile] is not part of this file: it answers
    whether the text is a query on the layer and may report an error. *)
Context (E : Collaborators)
  (Compile : OGRLayer -> string -> CPLState -> OGRErr * CPLState).

Definition SetAttributeFilter (QL : QueriedLayer) (pszQuery : option string)
    (c : CPLState) : OGRErr * QueriedLayer * CPLState :=
  let L := set_pszAttrQueryString (q_layer QL) pszQuery in
  let clearing :=
    (* are we just clearing any existing query? *)
    match m_poAttrQuery QL with
    | Some _ => (OGRERR_NONE, mkQueried (ResetReading L) None, c)
    | None => (OGRERR_NONE, mkQueried L None, c)
    end in
  match pszQuery with
  | None => clearing
  | Some q =>
      if (String.length q =? 0)%nat then clearing
      else
        (* or are we installing a new query? *)
        let '(eErr, c') := Compile L q c in
        (eErr,
         mkQueried (ResetReading L)
           (if negb (bool_decide (eErr = OGRERR_NONE)) then None else Some q),
         c')
  end.

Definition GetFeature (QL : QueriedLayer) (nFIDIn : Z) (c : CPLState)
    : option OGRFeature * QueriedLayer * CPLState :=
  (* save old attribute and spatial filters *)
  let pszOldFilter := m_pszAttrQueryString (q_layer QL) in
  let poOldFilterGeom := m_poFilterGeom (q_layer QL) in
  let iOldGeomFieldFilter := m_iGeomFieldFilter (q_layer QL) in
  (* unset filters *)
  let '(_, QL1, c1) := SetAttributeFilter QL None c in
  let '(_, L2, c2) := SetSpatialFilter E (q_layer QL1) 0 ptr_null c1 in
  let '(_, L3, poFeature, c3) :=
    range_for E (GetFeature_body nFIDIn) L2 None c2 in
  (* restore filters *)
  let '(_, QL4, c4) :=
    SetAttributeFilter (mkQueried L3 (m_poAttrQuery QL1)) pszOldFilter c3 in
  let '(_, L5, c5) :=
    SetSpatialFilter E (q_layer QL4) iOldGeomFieldFilter (ptr_of poOldFilterGeom)
      c4 in
  (poFeature, mkQueried L5 (m_poAttrQuery QL4), c5).

End Querying.

(** The index of the spatial filter of [L] names a geometry field of
    [L], or [L] has no spatial filter and the index is 0. *)
Definition filter_installable (L : OGRLayer) : Prop :=
  (m_iGeomFieldFilter L = 0 /\ m_poFilterGeom L = None)
  \/ 0 <= m_iGeomFieldFilter L < GetGeomFieldCount (GetLayerDefn L).

(** * Properties *)

(** ** The spatial filter engine *)

Section FilterProperties.

Context (E : Collaborators).

(** The comparisons of two numbers are those of a total order; with a
    NaN every one of them is false. *)
Lemma dlt_dle (a b : double) : dlt a b = true -> dle a b = true.
Proof.
  destruct a as [| | x |], b as [| | y |]; simpl; try done.
  intros H. apply negb_true_iff in H.
  apply Qle_bool_iff, Qlt_le_weak, Qnot_le_lt. intros Hle.
  apply Qle_bool_iff in Hle. congruence.
Qed.

Lemma dlt_not_dle (a b : double) : dlt a b = true -> dle b a = false.
Proof.
  destruct a as [| | x |], b as [| | y |]; simpl; try done.
  intros H. by apply negb_true_iff in H.
Qed.

Lemma not_dlt_dle (a b : double) :
  isnan a = false -> isnan b = false -> dlt a b = false -> dle b a = true.
Proof.
  destruct a as [| | x |], b as [| | y |]; simpl; try done.
  intros _ _ H. by apply negb_false_iff in H.
Qed.

Lemma dle_refl (a : double) : isnan a = false -> dle a a = true.
Proof. destruct a as [| | x |]; simpl; try done. intros _. apply Qle_bool_iff, Qle_refl. Qed.

Lemma dle_trans (a b c : double) : dle a b = true -> dle b c = true -> dle a c = true.
Proof.
  destruct a as [| | x |], b as [| | y |], c as [| | z |]; simpl; try done.
  rewrite !Qle_bool_iff. apply Qle_trans.
Qed.

Lemma dle_not_nan (a b : double) : dle a b = true -> isnan a = false /\ isnan b = false.
Proof. by destruct a, b. Qed.

(** The four tests of [FilterGeometry] reject only envelopes that do not
    meet, and every such pair when no bound is NaN. *)
Lemma envelopes_disjoint_apart (sGeomEnv sFilterEnv : OGREnvelope) :
  envelopes_disjoint sGeomEnv sFilterEnv = true ->
  OGREnvelope_Intersects sFilterEnv sGeomEnv = false.
Proof.
  unfold envelopes_disjoint, OGREnvelope_Intersects, dge.
  rewrite !orb_true_iff. intros [[[H | H] | H] | H]; apply dlt_not_dle in H;
    rewrite H; by rewrite ?andb_false_r.
Qed.

Lemma envelopes_disjoint_Intersects (sGeomEnv sFilterEnv : OGREnvelope) :
  has_nan sGeomEnv = false -> has_nan sFilterEnv = false ->
  envelopes_disjoint sGeomEnv sFilterEnv
  = negb (OGREnvelope_Intersects sFilterEnv sGeomEnv).
Proof.
  unfold has_nan. rewrite !orb_false_iff.
  intros [[[G1 G2] G3] G4] [[[F1 F2] F3] F4].
  destruct (envelopes_disjoint sGeomEnv sFilterEnv) eqn:Hd.
  { by rewrite (envelopes_disjoint_apart _ _ Hd). }
  unfold envelopes_disjoint in Hd. rewrite !orb_false_iff in Hd.
  destruct Hd as [[[H1 H2] H3] H4].
  unfold OGREnvelope_Intersects, dge.
  rewrite (not_dlt_dle _ _ G3 F1 H1), (not_dlt_dle _ _ G4 F2 H2),
    (not_dlt_dle _ _ F3 G1 H3), (not_dlt_dle _ _ F4 G2 H4).
  reflexivity.
Qed.

Lemma envelope_inside_Contains (sGeomEnv sFilterEnv : OGREnvelope) :
  envelope_inside sGeomEnv sFilterEnv = OGREnvelope_Contains sFilterEnv sGeomEnv.
Proof. reflexivity. Qed.

(** An envelope with [Min <= Max] on both axes that lies inside another
    one meets it. *)
Lemma Contains_Intersects (a b : OGREnvelope) :
  dle (MinX b) (MaxX b) = true -> dle (MinY b) (MaxY b) = true ->
  OGREnvelope_Contains a b = true -> OGREnvelope_Intersects a b = true.
Proof.
  unfold OGREnvelope_Contains, OGREnvelope_Intersects, dge.
  rewrite !andb_true_iff.
  intros Hx Hy [[[H1 H2] H3] H4].
  repeat split; eapply dle_trans; eauto.
Qed.

Lemma FilterGeometry_no_filter (L : OGRLayer) (g : option OGRGeometry) (c : CPLState) :
  m_poFilterGeom L = None -> FilterGeometry E L g c = (true, c).
Proof. intros H. unfold FilterGeometry. rewrite H. reflexivity. Qed.

Lemma FilterGeometry_null (L : OGRLayer) (c : CPLState) :
  is_Some (m_poFilterGeom L) -> FilterGeometry E L None c = (false, c).
Proof. intros [f H]. unfold FilterGeometry. rewrite H. reflexivity. Qed.

Lemma FilterGeometry_empty (L : OGRLayer) (g : OGRGeometry) (c : CPLState) :
  is_Some (m_poFilterGeom L) -> IsEmpty E g = true ->
  FilterGeometry E L (Some g) c = (false, c).
Proof. intros [f H] He. unfold FilterGeometry. rewrite H, He. reflexivity. Qed.

Lemma FilterGeometry_apart (L : OGRLayer) (g : OGRGeometry) (c : CPLState) :
  is_Some (m_poFilterGeom L) ->
  envelopes_disjoint (getEnvelope E g) (m_sFilterEnvelope L) = true ->
  FilterGeometry E L (Some g) c = (false, c).
Proof.
  intros [f H] Hd. unfold FilterGeometry. rewrite H.
  destruct (IsEmpty E g); [reflexivity |]. by rewrite Hd.
Qed.

Lemma FilterGeometry_disjoint (L : OGRLayer) (g : OGRGeometry) (c : CPLState) :
  is_Some (m_poFilterGeom L) ->
  has_nan (getEnvelope E g) = false -> has_nan (m_sFilterEnvelope L) = false ->
  OGREnvelope_Intersects (m_sFilterEnvelope L) (getEnvelope E g) = false ->
  FilterGeometry E L (Some g) c = (false, c).
Proof.
  intros Hf Hg Hl Hd. apply FilterGeometry_apart; [exact Hf |].
  by rewrite envelopes_disjoint_Intersects, Hd.
Qed.

Lemma FilterGeometry_inside (L : OGRLayer) (g : OGRGeometry) (c : CPLState) :
  IsEmpty E g = false ->
  OGREnvelope_Intersects (m_sFilterEnvelope L) (getEnvelope E g) = true ->
  m_bFilterIsEnvelope L = true ->
  OGREnvelope_Contains (m_sFilterEnvelope L) (getEnvelope E g) = true ->
  FilterGeometry E L (Some g) c = (true, c).
Proof.
  intros He Hi Hr Hc. unfold FilterGeometry.
  destruct (m_poFilterGeom L); [| reflexivity].
  rewrite He.
  destruct (envelopes_disjoint (getEnvelope E g) (m_sFilterEnvelope L)) eqn:Hd.
  { apply envelopes_disjoint_apart in Hd. congruence. }
  by rewrite Hr, envelope_inside_Contains, Hc.
Qed.

End FilterProperties.

(** X18.  [FilterGeometry] is a three-tier test.  With no filter installed
    it answers true for every geometry, null included.  With a filter
    installed it answers false for a null or empty geometry, and false
    when the envelope of the geometry lies beyond the envelope of the
    filter on one side, by one of the four comparisons of the code; when
    no bound of the two envelopes is NaN, that is every geometry whose
    envelope does not meet the envelope of the filter.  When the filter
    is its own envelope and the envelope of a geometry that passed those
    tests lies inside it, the answer is true, the error slot is
    untouched, and both hold whatever the exact predicates of the kernel
    are: none is called. *)
Theorem FilterGeometry_three_tiers :
  forall (E : Collaborators) (L : OGRLayer) (c : CPLState),
    (m_poFilterGeom L = None ->
     forall g, FilterGeometry E L g c = (true, c))
    /\ (is_Some (m_poFilterGeom L) ->
        FilterGeometry E L None c = (false, c)
        /\ (forall g, IsEmpty E g = true ->
                      FilterGeometry E L (Some g) c = (false, c))
        /\ (forall g,
              envelopes_disjoint (getEnvelope E g) (m_sFilterEnvelope L) = true ->
              FilterGeometry E L (Some g) c = (false, c))
        /\ (forall g,
              has_nan (getEnvelope E g) = false ->
              has_nan (m_sFilterEnvelope L) = false ->
              OGREnvelope_Intersects (m_sFilterEnvelope L) (getEnvelope E g) = false ->
              FilterGeometry E L (Some g) c = (false, c))
        /\ (forall g,
              IsEmpty E g = false ->
              OGREnvelope_Intersects (m_sFilterEnvelope L) (getEnvelope E g) = true ->
              m_bFilterIsEnvelope L = true ->
              OGREnvelope_Contains (m_sFilterEnvelope L) (getEnvelope E g) = true ->
              forall prepared_intersects intersects,
                FilterGeometry (with_predicates E prepared_intersects intersects)
                  L (Some g) c = (true, c))).
Proof.
  intros E L c. split.
  - intros H g. by apply FilterGeometry_no_filter.
  - intros Hf. repeat split.
    + by apply FilterGeometry_null.
    + intros g He. by apply FilterGeometry_empty.
    + intros g Hd. by apply FilterGeometry_apart.
    + intros g Hg Hl Hd. by apply FilterGeometry_disjoint.
    + intros g He Hi Hr Hc p i.
      by apply (FilterGeometry_inside (with_predicates E p i)).
Qed.

Lemma FilterGeometry_three_tiers_witness :
  is_Some (m_poFilterGeom C1_layer)
  /\ FilterGeometry Box.kernel C1_layer None cpl_initial = (false, cpl_initial)
  /\ FilterGeometry Box.kernel C1_layer (Some (Box.square 20 30)) cpl_initial
     = (false, cpl_initial)
  /\ FilterGeometry
       (with_predicates Box.kernel (fun _ _ => (false, true)) (fun _ _ => (false, true)))
       C1_layer (Some (Box.square 2 4)) cpl_initial = (true, cpl_initial)
  /\ FilterGeometry Box.kernel (Box.layer [] [wkbPolygon] []) None cpl_initial
     = (true, cpl_initial).
Proof.
  pose proof (FilterGeometry_three_tiers Box.kernel C1_layer cpl_initial)
    as [_ Hset].
  assert (Hf : is_Some (m_poFilterGeom C1_layer)) by (vm_compute; eauto).
  destruct (Hset Hf) as (Hnull & _ & _ & Hdisj & Hin).
  split; [exact Hf |].
  split; [exact Hnull |].
  split; [apply Hdisj; vm_compute; reflexivity |].
  split; [apply Hin; vm_compute; reflexivity |].
  apply (FilterGeometry_three_tiers Box.kernel (Box.layer [] [wkbPolygon] [])
           cpl_initial); reflexivity.
Defined.


Section SetFilterProperties.

Context (E : Collaborators).

Lemma set_iGeomFieldFilter_same (L : OGRLayer) :
  set_iGeomFieldFilter L (m_iGeomFieldFilter L) = L.
Proof. by destruct L. Qed.

Lemma Validate_invalid (L : OGRLayer) (iGeomField : Z) (poGeomIn : option OGRGeometry)
    (c : CPLState) :
  iGeomField < 0 \/ GetGeomFieldCount (GetLayerDefn L) <= iGeomField ->
  iGeomField <> 0 \/ is_Some poGeomIn ->
  exists ev,
    ValidateGeometryFieldIndexForSetSpatialFilter L iGeomField poGeomIn false c
    = (false, mkCPL CE_Failure (ev :: cpl_log c))
    /\ ev_class ev = CE_Failure.
Proof.
  intros Hbad Hnot. unfold ValidateGeometryFieldIndexForSetSpatialFilter.
  assert (Hfirst : (iGeomField =? 0) && negb (bool_decide (is_Some poGeomIn))
                   && (GetGeomFieldCount (GetLayerDefn L) =? 0) = false).
  { destruct Hnot as [Hne | Hsome].
    - apply Z.eqb_neq in Hne. by rewrite Hne.
    - rewrite (bool_decide_eq_true_2 _ Hsome). simpl. by rewrite andb_false_r. }
  rewrite Hfirst.
  assert (Hsecond : (iGeomField <? 0)
                    || (iGeomField >=? GetGeomFieldCount (GetLayerDefn L)) = true).
  { apply orb_true_iff. destruct Hbad; [left | right]; lia. }
  rewrite Hsecond.
  destruct (iGeomField =? 0); eexists; split; reflexivity.
Qed.

Lemma SetSpatialFilter_invalid (L : OGRLayer) (iGeomField : Z)
    (poFilter : OGRGeometryPtr) (c : CPLState) :
  iGeomField < 0 \/ GetGeomFieldCount (GetLayerDefn L) <= iGeomField ->
  iGeomField <> 0 \/ is_Some (pointee L poFilter) ->
  exists ev,
    SetSpatialFilter E L iGeomField poFilter c
    = (OGRERR_FAILURE, L, mkCPL CE_Failure (ev :: cpl_log c))
    /\ ev_class ev = CE_Failure.
Proof.
  intros Hbad Hnot.
  destruct (Validate_invalid L iGeomField (pointee L poFilter) c Hbad Hnot)
    as (ev & Hv & Hev).
  exists ev. split; [| exact Hev].
  unfold SetSpatialFilter.
  destruct (iGeomField =? 0) eqn:Hz.
  - apply Z.eqb_eq in Hz. subst iGeomField.
    destruct Hnot as [Hne | [g Hg]]; [lia |]. rewrite Hg in *.
    by rewrite Hv.
  - by rewrite Hv.
Qed.

Lemma SetSpatialFilter_clear_0 (L : OGRLayer) (c : CPLState) :
  SetSpatialFilter E L 0 ptr_null c
  = (OGRERR_NONE,
     match m_poFilterGeom L with
     | Some _ =>
         ResetReading
           (set_filter (set_iGeomFieldFilter L 0) false None None
              (m_sFilterEnvelope L))
     | None => set_iGeomFieldFilter L 0
     end, c).
Proof.
  unfold SetSpatialFilter, ISetSpatialFilter, InstallFilter. simpl.
  by destruct (m_poFilterGeom L).
Qed.

End SetFilterProperties.

(** C6, as the code has it.  Clearing the filter on index 0 is always
    accepted without a message, whatever geometry fields the layer has
    and also when it has none: the call returns [OGRERR_NONE] and leaves
    the layer without a spatial filter, the filter index at 0; rows,
    schema and attribute filter are as before.  A layer that had no
    filter and the index at 0 is unchanged; where a filter was installed
    it is removed with its prepared geometry and reading starts over.
    Every other call with an invalid index, negative or at least the
    number of geometry fields, fails: that is any call with such an index
    other than 0, and also index 0 with a non-null filter on a layer
    without geometry fields.  A failing call reports one error, returns
    [OGRERR_FAILURE] and leaves the layer as it was. *)
Theorem C6_SetSpatialFilter_index_validation :
  forall (E : Collaborators) (L : OGRLayer) (c : CPLState),
    (exists L',
        SetSpatialFilter E L 0 ptr_null c = (OGRERR_NONE, L', c)
        /\ m_poFilterGeom L' = None
        /\ m_iGeomFieldFilter L' = 0
        /\ same_store L L'
        /\ (m_poFilterGeom L = None -> m_iGeomFieldFilter L = 0 -> L' = L)
        /\ (is_Some (m_poFilterGeom L) ->
            L' = ResetReading
                   (set_filter (set_iGeomFieldFilter L 0) false None None
                      (m_sFilterEnvelope L))))
    /\ (forall iGeomField poFilter,
          iGeomField < 0 \/ GetGeomFieldCount (GetLayerDefn L) <= iGeomField ->
          iGeomField <> 0 \/ is_Some (pointee L poFilter) ->
          exists ev,
            SetSpatialFilter E L iGeomField poFilter c
            = (OGRERR_FAILURE, L, mkCPL CE_Failure (ev :: cpl_log c))
            /\ ev_class ev = CE_Failure).
Proof.
  intros E L c. split.
  - eexists. split; [apply SetSpatialFilter_clear_0 |].
    destruct (m_poFilterGeom L) eqn:Hf; simpl.
    + by repeat split.
    + split; [exact Hf |]. split; [done |]. split; [by repeat split |].
      split.
      * intros _ Hi. rewrite <- Hi. apply set_iGeomFieldFilter_same.
      * by intros [? ?].
  - intros i f. apply SetSpatialFilter_invalid.
Qed.

(** A layer without geometry fields that has no filter is left as it
    is; one that still holds a filter loses it; and a geometry on a
    geometry field that is not there is refused. *)
Lemma C6_SetSpatialFilter_index_validation_witness :
  (exists L',
      SetSpatialFilter Box.kernel table_layer 0 ptr_null cpl_initial
      = (OGRERR_NONE, L', cpl_initial) /\ L' = table_layer)
  /\ (exists L',
        SetSpatialFilter Box.kernel filtered_table_layer 0 ptr_null cpl_initial
        = (OGRERR_NONE, L', cpl_initial)
        /\ m_poFilterGeom L' = None /\ drv_iNextShapeId L' = 0%nat)
  /\ (exists ev,
        SetSpatialFilter Box.kernel polygon_layer 1 (ptr_to (Box.square 0 1))
          cpl_initial
        = (OGRERR_FAILURE, polygon_layer, mkCPL CE_Failure [ev])).
Proof.
  destruct (C6_SetSpatialFilter_index_validation Box.kernel table_layer cpl_initial)
    as [(L' & H1 & _ & _ & _ & H3 & _) _].
  destruct (C6_SetSpatialFilter_index_validation Box.kernel filtered_table_layer
              cpl_initial) as [(L'' & G1 & G2 & _ & _ & _ & G3) _].
  destruct (C6_SetSpatialFilter_index_validation Box.kernel polygon_layer cpl_initial)
    as [_ H].
  split; [| split].
  - exists L'. split; [exact H1 | apply H3; reflexivity].
  - exists L''. split; [exact G1 |]. split; [exact G2 |].
    rewrite G3; [reflexivity | vm_compute; eauto].
  - destruct (H 1 (ptr_to (Box.square 0 1))) as (ev & Hev & _).
    + right. vm_compute. discriminate.
    + left. lia.
    + exists ev. exact Hev.
Defined.

(** C6 as worded fails: on a layer without geometry fields, index 0 with
    a geometry to install is not tolerated.  The call fails, reports an
    error and installs nothing. *)
Lemma C6_counterexample :
  GetGeomFieldCount (GetLayerDefn table_layer) = 0
  /\ SetSpatialFilter Box.kernel table_layer 0 (ptr_to (Box.square 0 1)) cpl_initial
     = (OGRERR_FAILURE, table_layer,
        CPLError CE_Failure CPLE_AppDefined
          "Cannot set spatial filter: no geometry field present in layer."
          cpl_initial).
Proof. split; reflexivity. Qed.

Section PreparedProperties.

Context (E : Collaborators).

(** [InstallFilter] leaves the layer as it is or sets its filter
    fields. *)
Lemma InstallFilter_layer (L : OGRLayer) (poFilter : OGRGeometryPtr) :
  (InstallFilter E L poFilter = (false, L))
  \/ exists b g p e, InstallFilter E L poFilter = (true, set_filter L b g p e).
Proof.
  unfold InstallFilter. destruct (same_as_filter L poFilter); [by left | right].
  destruct (pointee L poFilter); by eexists _, _, _, _.
Qed.

Lemma InstallFilter_some (L : OGRLayer) (g : OGRGeometry) :
  exists L',
    InstallFilter E L (ptr_to g) = (true, L')
    /\ m_poFilterGeom L' = Some g
    /\ m_pPreparedFilterGeom L' = OGRCreatePreparedGeometry E g.
Proof. unfold InstallFilter. simpl. eexists; repeat split. Qed.

Lemma InstallFilter_own (L : OGRLayer) :
  InstallFilter E L ptr_own_filter = (false, L).
Proof. reflexivity. Qed.

Lemma InstallFilter_clear (L : OGRLayer) :
  is_Some (m_poFilterGeom L) ->
  exists L',
    InstallFilter E L ptr_null = (true, L')
    /\ m_poFilterGeom L' = None
    /\ m_pPreparedFilterGeom L' = None.
Proof.
  intros Hf. unfold InstallFilter. simpl.
  rewrite (bool_decide_eq_true_2 _ Hf). simpl. eexists; repeat split.
Qed.

Lemma FilterWKBGeometry_prepared (L : OGRLayer) (pabyWKB : WKB)
    (bEnvelopeAlreadySet : bool) (sEnvelope : OGREnvelope) (c : CPLState) :
  let L' := (FilterWKBGeometry E L pabyWKB bEnvelopeAlreadySet sEnvelope c).1.2 in
  m_poFilterGeom L' = m_poFilterGeom L
  /\ m_pPreparedFilterGeom L'
     = match m_pPreparedFilterGeom L with
       | Some p => Some p
       | None =>
           if reaches_exact_test E L pabyWKB bEnvelopeAlreadySet sEnvelope
           then m_poFilterGeom L ≫= OGRCreatePreparedGeometry E
           else None
       end.
Proof.
  unfold FilterWKBGeometry, FilterWKBGeometry_static, reaches_exact_test.
  destruct (m_poFilterGeom L) as [f |] eqn:Hf; simpl;
    [| by destruct (m_pPreparedFilterGeom L)].
  destruct bEnvelopeAlreadySet; simpl;
    [| destruct (OGRWKBGetBoundingBox E pabyWKB) as [e |]; simpl;
       [| by destruct (m_pPreparedFilterGeom L)]].
  all: destruct (OGREnvelope_Intersects _ _); simpl;
    [| by destruct (m_pPreparedFilterGeom L)].
  all: destruct (m_bFilterIsEnvelope L && OGREnvelope_Contains _ _); simpl;
    [by destruct (m_pPreparedFilterGeom L) |].
  all: destruct (m_bFilterIsEnvelope L && OGRWKBIntersectsPessimistic _ _ _); simpl;
    [by destruct (m_pPreparedFilterGeom L) |].
  all: destruct (haveGEOS E); simpl; [| by destruct (m_pPreparedFilterGeom L)].
  all: destruct (createFromWkb E pabyWKB) as [poGeom |]; simpl;
    [| by destruct (m_pPreparedFilterGeom L)].
  all: destruct (m_pPreparedFilterGeom L) as [p |] eqn:Hp;
    [destruct (geos_call _ c); by simpl |].
  all: destruct (OGRCreatePreparedGeometry E f) as [p |] eqn:Hc;
    destruct (geos_call _ c); by simpl.
Qed.

End PreparedProperties.

(** C8, as the code has it.  The handle is built when the filter is
    installed, not at the first exact test: installing a geometry object
    other than the filter the layer holds makes it the filter and sets
    the handle to what [OGRCreatePreparedGeometry] returns for it,
    whatever handle there was before, while handing the layer its own
    filter object changes nothing; clearing an installed filter leaves
    no handle.  The WKB filter evaluation keeps the filter and keeps a
    handle that exists; when there is none, it builds one from the
    installed filter geometry if it comes to the exact test (a filter is
    installed, the envelope of the WKB is known and meets that of the
    filter, neither shortcut for a rectangular filter decides, GEOS is
    there and the WKB can be read), and leaves the layer without a
    handle if it does not. *)
Theorem C8_prepared_filter_handle :
  forall (E : Collaborators) (L : OGRLayer),
    (forall g, exists L',
        InstallFilter E L (ptr_to g) = (true, L')
        /\ m_poFilterGeom L' = Some g
        /\ m_pPreparedFilterGeom L' = OGRCreatePreparedGeometry E g)
    /\ InstallFilter E L ptr_own_filter = (false, L)
    /\ (is_Some (m_poFilterGeom L) ->
        exists L',
          InstallFilter E L ptr_null = (true, L')
          /\ m_poFilterGeom L' = None
          /\ m_pPreparedFilterGeom L' = None)
    /\ (forall pabyWKB bEnvelopeAlreadySet sEnvelope c,
          let L' :=
            (FilterWKBGeometry E L pabyWKB bEnvelopeAlreadySet sEnvelope c).1.2 in
          m_poFilterGeom L' = m_poFilterGeom L
          /\ m_pPreparedFilterGeom L'
             = match m_pPreparedFilterGeom L with
               | Some p => Some p
               | None =>
                   if reaches_exact_test E L pabyWKB bEnvelopeAlreadySet sEnvelope
                   then m_poFilterGeom L ≫= OGRCreatePreparedGeometry E
                   else None
               end).
Proof.
  intros E L. split; [| split; [| split]].
  - intros g. apply InstallFilter_some.
  - apply InstallFilter_own.
  - apply InstallFilter_clear.
  - intros. apply FilterWKBGeometry_prepared.
Qed.

(** Clearing the filter of [C1_layer] leaves no handle; and a layer with
    a diagonal as its filter and no handle gets its handle from the WKB
    evaluation of a point on the diagonal, which needs the exact
    test. *)
Lemma C8_prepared_filter_handle_witness :
  (exists L',
      InstallFilter Box.kernel C1_layer ptr_null = (true, L')
      /\ m_poFilterGeom L' = None
      /\ m_pPreparedFilterGeom L' = None)
  /\ m_pPreparedFilterGeom diagonal_layer = None
  /\ m_pPreparedFilterGeom
       (FilterWKBGeometry Box.kernel diagonal_layer [Byte.x05; Byte.x05] false
          (mkEnv 0%Q 0%Q 0%Q 0%Q) cpl_initial).1.2
     = Some (mkPrepared diagonal).
Proof.
  split; [| split; [reflexivity |]].
  - apply (C8_prepared_filter_handle Box.kernel C1_layer).
    vm_compute. eauto.
  - destruct (C8_prepared_filter_handle Box.kernel diagonal_layer)
      as (_ & _ & _ & H).
    destruct (H [Byte.x05; Byte.x05] false (mkEnv 0%Q 0%Q 0%Q 0%Q) cpl_initial)
      as [_ Hp].
    rewrite Hp. reflexivity.
Defined.

(** C8 as worded fails: right after [SetSpatialFilter] has installed a
    geometry, and before any filter evaluation, the layer holds a
    prepared geometry. *)
Lemma C8_counterexample :
  m_pPreparedFilterGeom
    (SetSpatialFilter Box.kernel polygon_layer 0 (ptr_to (Box.square 0 10))
       cpl_initial).1.2
  = Some (mkPrepared (Box.square 0 10)).
Proof. reflexivity. Qed.

(** ** The feature iterator *)

Section IteratorProperties.

Context (E : Collaborators).

Lemma geos_call_value {A : Type} (r : Geos A) (c c' : CPLState) :
  (geos_call r c).1 = (geos_call r c').1.
Proof. reflexivity. Qed.

(** What a filter answers does not depend on the error slot. *)
Lemma FilterGeometry_value (L : OGRLayer) (g : option OGRGeometry) (c c' : CPLState) :
  (FilterGeometry E L g c).1 = (FilterGeometry E L g c').1.
Proof.
  unfold FilterGeometry.
  repeat (match goal with
          | |- context [match ?x with _ => _ end] => destruct x
          end; try reflexivity).
Qed.

Lemma passes_filters_value (L : OGRLayer) (f : OGRFeature) (c c' : CPLState) :
  (passes_filters E L f c).1 = (passes_filters E L f c').1.
Proof.
  unfold passes_filters.
  destruct (m_poFilterGeom L).
  - pose proof (FilterGeometry_value L (GetGeomFieldRef f (m_iGeomFieldFilter L)) c c')
      as H.
    destruct (FilterGeometry E L _ c) as [b1 c1], (FilterGeometry E L _ c') as [b2 c2].
    simpl in H. subst b2.
    destruct b1; [| reflexivity]. destruct (m_pszAttrQueryString L); reflexivity.
  - destruct (m_pszAttrQueryString L); reflexivity.
Qed.

Lemma GetNextFeature_scan_value (L : OGRLayer) (rows : list OGRFeature) (pos : nat)
    (c c' : CPLState) :
  (GetNextFeature_scan E L rows pos c).1 = (GetNextFeature_scan E L rows pos c').1.
Proof.
  revert pos c c'. induction rows as [| f rest IH]; intros pos c c'; [reflexivity |].
  simpl.
  pose proof (passes_filters_value L f c c') as H.
  destruct (passes_filters E L f c) as [b1 c1], (passes_filters E L f c') as [b2 c2].
  simpl in H. subst b2. destruct b1; [reflexivity | apply IH].
Qed.

Lemma GetNextFeature_value (L : OGRLayer) (c c' : CPLState) :
  (GetNextFeature E L c).1 = (GetNextFeature E L c').1.
Proof.
  unfold GetNextFeature.
  pose proof (GetNextFeature_scan_value L
                (drop (drv_iNextShapeId L) (drv_features L)) (drv_iNextShapeId L) c c')
    as H.
  destruct (GetNextFeature_scan E L _ _ c) as [[f1 p1] c1],
    (GetNextFeature_scan E L _ _ c') as [[f2 p2] c2].
  simpl in H. by inversion H.
Qed.

Lemma remaining_features_cpl (fuel : nat) (it : FeatureIterator) (L : OGRLayer)
    (c c' : CPLState) :
  remaining_features E fuel it L c = remaining_features E fuel it L c'.
Proof.
  revert it L c c'. induction fuel as [| n IH]; intros it L c c'; [reflexivity |].
  simpl. destruct (m_bEOF it); [reflexivity |].
  destruct (FeatureIterator_deref it); [| reflexivity].
  unfold FeatureIterator_incr.
  pose proof (GetNextFeature_value L c c') as H.
  destruct (GetNextFeature E L c) as [[f1 L1] c1],
    (GetNextFeature E L c') as [[f2 L2] c2].
  simpl in H. inversion H; subst. f_equal. apply IH.
Qed.

Lemma begin_busy (L : OGRLayer) (c : CPLState) :
  m_bInFeatureIterator L = true ->
  begin E L c
  = (mkIterator None true true, L,
     CPLError CE_Failure CPLE_NotSupported
       "Only one feature iterator can be active at a time" c).
Proof. intros H. unfold begin, FeatureIterator_new. by rewrite H. Qed.

Lemma range_for_busy {St : Type} (body : OGRFeature -> M St unit) (L : OGRLayer)
    (st : St) (c : CPLState) :
  m_bInFeatureIterator L = true ->
  range_for E body L st c
  = (LoopEnd, set_bInFeatureIterator L false, st,
     CPLError CE_Failure CPLE_NotSupported
       "Only one feature iterator can be active at a time" c).
Proof.
  intros H. unfold range_for. rewrite (begin_busy L c H). reflexivity.
Qed.

End IteratorProperties.

(** X20.  While the iterator flag of the layer is set, [begin] builds
    an iterator in the error state that holds no feature, reports an
    error, and hands the layer back as it was: no reset, no fetch.
    Destroying that iterator leaves the layer as it was too, so whatever
    an iterator [it1] that is reading the layer still had to yield, it
    yields the same afterwards. *)
Theorem begin_refused_while_flag_set :
  forall (E : Collaborators) (L : OGRLayer) (c : CPLState),
    m_bInFeatureIterator L = true ->
    exists it2 c2,
      begin E L c = (it2, L, c2)
      /\ m_bError it2 = true
      /\ FeatureIterator_deref it2 = None
      /\ c2 = CPLError CE_Failure CPLE_NotSupported
                "Only one feature iterator can be active at a time" c
      /\ FeatureIterator_delete it2 L = L
      /\ forall it1 fuel,
           remaining_features E fuel it1 (FeatureIterator_delete it2 L) c2
           = remaining_features E fuel it1 L c.
Proof.
  intros E L c H. eexists _, _. split; [by apply begin_busy |].
  repeat split. intros it1 fuel. simpl. apply remaining_features_cpl.
Qed.

Lemma begin_refused_while_flag_set_witness :
  exists it2 c2,
    begin Box.kernel busy_layer cpl_initial = (it2, busy_layer, c2)
    /\ m_bError it2 = true
    /\ FeatureIterator_deref it2 = None
    /\ c2 = CPLError CE_Failure CPLE_NotSupported
              "Only one feature iterator can be active at a time" cpl_initial
    /\ FeatureIterator_delete it2 busy_layer = busy_layer
    /\ forall it1 fuel,
         remaining_features Box.kernel fuel it1
           (FeatureIterator_delete it2 busy_layer) c2
         = remaining_features Box.kernel fuel it1 busy_layer cpl_initial.
Proof.
  apply (begin_refused_while_flag_set Box.kernel busy_layer cpl_initial).
  reflexivity.
Defined.

(** C4 fails on the code once a sentinel of [end ()] has been destroyed
    while the first iterator is reading: the sentinel is not in the error
    state, so its destructor clears the flag of the layer.  Here [it1]
    reads a layer of three squares and stands on the second, with the
    third still to come; the temporary of a comparison [it1 != end ()] is
    destroyed; then a second [begin ()] is not refused: it reports no
    error, resets the layer and fetches the first row, and [it1] now
    goes on with the second row again. *)
Lemma C4_second_begin_after_end_destroyed :
  let '(it0, L0, c0) := begin Box.kernel abc_layer cpl_initial in
  let '(it1, L1, c1) := FeatureIterator_incr Box.kernel it0 L0 c0 in
  let '(it_end, L2, c2) := end_ Box.kernel L1 c1 in
  let L3 := FeatureIterator_delete it_end L2 in
  let '(it2, L4, c4) := begin Box.kernel L3 c2 in
  m_bError it1 = false
  /\ m_bInFeatureIterator L1 = true
  /\ FeatureIterator_ne it1 it_end = true
  /\ remaining_features Box.kernel 4 it1 L1 c1
     = [Box.row 1 "b" (Some (Box.square 2 3)); Box.row 2 "c" (Some (Box.square 4 5))]
  /\ m_bInFeatureIterator L3 = false
  /\ m_bError it2 = false
  /\ FeatureIterator_deref it2 = Some (Box.row 0 "a" (Some (Box.square 0 1)))
  /\ c4 = cpl_initial
  /\ remaining_features Box.kernel 4 it1 L4 c4
     = [Box.row 1 "b" (Some (Box.square 2 3)); Box.row 1 "b" (Some (Box.square 2 3));
        Box.row 2 "c" (Some (Box.square 4 5))].
Proof. vm_compute. by repeat split. Qed.

(** C10.  An iterator built by [begin] while the flag is set keeps its
    end-of-sequence flag, so it does not differ from [end ()]; a
    range-based [for] over such a layer runs its body not once, whatever
    the body is; and destroying the error-state iterator leaves the flag
    of the layer set. *)
Theorem C10_error_iterator_is_at_end :
  forall (E : Collaborators) (L : OGRLayer) (c : CPLState),
    m_bInFeatureIterator L = true ->
    let it := (begin E L c).1.1 in
    let it_end := (end_ E (begin E L c).1.2 (begin E L c).2).1.1 in
    m_bError it = true
    /\ m_bEOF it = true
    /\ FeatureIterator_ne it it_end = false
    /\ (forall (St : Type) (body : OGRFeature -> M St unit) (st : St),
          (range_for E body L st c).1.1.1 = LoopEnd
          /\ (range_for E body L st c).1.2 = st)
    /\ m_bInFeatureIterator (FeatureIterator_delete it (begin E L c).1.2) = true.
Proof.
  intros E L c H. rewrite (begin_busy E L c H). simpl.
  repeat split; try done; by rewrite (range_for_busy E body L st c H).
Qed.

Lemma C10_error_iterator_is_at_end_witness :
  m_bEOF (begin Box.kernel busy_layer cpl_initial).1.1 = true
  /\ (range_for Box.kernel (fun _ => mmodify (fun n : nat => S n)) busy_layer 0%nat
        cpl_initial).1.2 = 0%nat.
Proof.
  destruct (C10_error_iterator_is_at_end Box.kernel busy_layer cpl_initial)
    as (_ & Heof & _ & Hfor & _); [reflexivity |].
  split; [exact Heof | apply Hfor].
Defined.

(** The sentinel built by [end ()] is not in the error state, so its
    destructor clears the flag of the layer: after a range-based [for]
    that was refused, the flag is down although the first iterator is
    still reading. *)
Remark refused_range_for_clears_the_flag :
  forall (E : Collaborators) (St : Type) (body : OGRFeature -> M St unit)
         (L : OGRLayer) (st : St) (c : CPLState),
    m_bInFeatureIterator L = true ->
    m_bInFeatureIterator (range_for E body L st c).1.1.2 = false.
Proof. intros. by rewrite range_for_busy. Qed.

(** ** The schema unifier *)

Section SchemaProperties.

Context (E : Collaborators).

Hypothesis driver_accepts : forall L d, ICreateField_ok E L d = true.

Lemma CreateField_accepted (L : OGRLayer) (d : OGRFieldDefn) (c : CPLState) :
  CreateField E L d c
  = (OGRERR_NONE,
     set_store L (mkDefn (apoFieldDefn (m_poDefn L) ++ [d]) (apoGeomFieldDefn (m_poDefn L)))
       (drv_features L), c).
Proof. unfold CreateField. by rewrite driver_accepts. Qed.

(** With a driver that accepts every field, a field-creating loop runs
    to its end and appends one field per source field, under the name
    [created_field_name] computes. *)
Lemma create_fields_accepted (bSkipFailures : bool) (pszPrefix : option string)
    (others : gset string) (pszCollision : string) (fields : list OGRFieldDefn)
    (iField : nat) (R : OGRLayer) (map : option (list Z)) (c : CPLState) :
  exists R' map',
    create_fields E bSkipFailures pszPrefix others pszCollision fields iField R map c
    = (inl OGRERR_NONE, R', map', c)
    /\ (is_Some map' <-> is_Some map)
    /\ apoFieldDefn (m_poDefn R')
       = (apoFieldDefn (m_poDefn R)
          ++ ((fun d => SetName d (created_field_name pszPrefix others pszCollision
                                     (GetNameRef d))) <$> fields))%list.
Proof.
  revert iField R map c.
  induction fields as [| d rest IH]; intros iField R map c; simpl.
  - exists R, map. by rewrite app_nil_r.
  - rewrite CreateField_accepted. simpl.
    match goal with
    | |- context [create_fields E _ _ _ _ rest (S iField) ?R1 ?m1 c] =>
        destruct (IH (S iField) R1 m1 c) as (R' & map' & Heq & Hmap & Hfields)
    end.
    exists R', map'. split; [exact Heq |]. split.
    + rewrite Hmap. destruct map; [| done]. split; eauto.
    + rewrite Hfields. simpl. by rewrite <- app_assoc.
Qed.

Lemma created_field_name_no_prefix (others : list OGRFieldDefn) (pszCollision : string)
    (d : OGRFieldDefn) :
  SetName d (created_field_name None (list_to_set (GetNameRef <$> others))
               pszCollision (GetNameRef d))
  = spec_created_name pszCollision others d.
Proof.
  unfold created_field_name, spec_created_name. f_equal.
  destruct (bool_decide (GetNameRef d ∈ GetNameRef <$> others)) eqn:Hin.
  - apply bool_decide_eq_true in Hin.
    assert (Hset : GetNameRef d ∈ (list_to_set (GetNameRef <$> others) : gset string))
      by (by apply elem_of_list_to_set).
    rewrite (bool_decide_eq_true_2 _ Hset).
    rewrite bool_decide_eq_false_2; [reflexivity |].
    intros Hempty. rewrite Hempty in Hset. by apply not_elem_of_empty in Hset.
  - apply bool_decide_eq_false in Hin.
    rewrite (bool_decide_eq_false_2 (GetNameRef d ∈ _)); [by rewrite andb_false_r |].
    intros Hset. apply Hin. by apply elem_of_list_to_set in Hset.
Qed.

Lemma created_field_name_empty (pszCollision osName : string) :
  created_field_name None ∅ pszCollision osName = osName.
Proof. unfold created_field_name. by rewrite bool_decide_eq_true_2. Qed.

Lemma created_field_name_prefix (pfx : string) (others : gset string)
    (pszCollision osName : string) :
  created_field_name (Some pfx) others pszCollision osName = String.append pfx osName.
Proof. reflexivity. Qed.

End SchemaProperties.

Section SchemaUnification.

Context (E : Collaborators).

Hypothesis driver_accepts : forall L d, ICreateField_ok E L d = true.

Lemma SetName_same (d : OGRFieldDefn) : SetName d (GetNameRef d) = d.
Proof. by destruct d. Qed.

(** The names one field-creating loop of [set_result_schema] gives, for
    the set of names the function has put together for the other side. *)
Lemma created_names_unified (pszOwn pszOther : option string) (pszCollision : string)
    (poDefnOther : option OGRFeatureDefn) (bOtherKnown : bool)
    (fields : list OGRFieldDefn) :
  (bOtherKnown = false -> poDefnOther = None) ->
  let bUnique :=
    bOtherKnown && negb (bool_decide (is_Some pszOwn))
    && negb (bool_decide (is_Some pszOther)) in
  let oSet : gset string :=
    if bUnique then list_to_set (GetNameRef <$> fields_of poDefnOther) else ∅ in
  (fun d => SetName d (created_field_name pszOwn oSet pszCollision (GetNameRef d)))
    <$> fields
  = unified_name pszOwn pszOther pszCollision (fields_of poDefnOther) <$> fields.
Proof.
  intros Hknown bUnique oSet. apply list_fmap_ext. intros i d _.
  subst oSet bUnique. unfold unified_name.
  destruct pszOwn as [pfx |]; [reflexivity |].
  rewrite (bool_decide_eq_false_2 (is_Some None)) by apply is_Some_None.
  destruct pszOther as [pfx |].
  - rewrite (bool_decide_eq_true_2 (is_Some (Some pfx))) by eauto.
    simpl negb. rewrite andb_false_r. cbv iota.
    by rewrite created_field_name_empty, SetName_same.
  - rewrite (bool_decide_eq_false_2 (is_Some None)) by apply is_Some_None.
    destruct bOtherKnown; simpl andb; cbv iota.
    + apply created_field_name_no_prefix.
    + rewrite (Hknown eq_refl). simpl fields_of.
      rewrite created_field_name_empty. unfold spec_created_name.
      rewrite bool_decide_eq_false_2; [reflexivity |]. simpl. apply not_elem_of_nil.
Qed.

Lemma set_result_schema_created (pLayerResult : OGRLayer)
    (poDefnInput : OGRFeatureDefn) (poDefnMethod : option OGRFeatureDefn)
    (mapInput mapMethod : option (list Z)) (combined : bool)
    (papszOptions : CSLConstList) (c : CPLState) :
  apoFieldDefn (GetLayerDefn pLayerResult) = [] ->
  adds_all_fields papszOptions ->
  (fields_of poDefnMethod <> [] -> is_Some mapMethod) ->
  let pszInputPrefix := CSLFetchNameValue papszOptions "INPUT_PREFIX" in
  let pszMethodPrefix := CSLFetchNameValue papszOptions "METHOD_PREFIX" in
  exists R' mapInput' mapMethod',
    set_result_schema E pLayerResult poDefnInput poDefnMethod mapInput mapMethod
      combined papszOptions c
    = (OGRERR_NONE, R', mapInput', mapMethod', c)
    /\ apoFieldDefn (GetLayerDefn R')
       = ((unified_name pszInputPrefix pszMethodPrefix "input_"
             (fields_of poDefnMethod) <$> apoFieldDefn poDefnInput)
          ++ (if combined
              then unified_name pszMethodPrefix pszInputPrefix "method_"
                     (apoFieldDefn poDefnInput) <$> fields_of poDefnMethod
              else []))%list.
Proof.
  intros Hempty (Hadd & Haddin & Haddm) Hmap pszInputPrefix pszMethodPrefix.
  unfold set_result_schema. unfold opt_bool in Hadd, Haddin, Haddm.
  rewrite Hadd, Haddin. simpl negb. cbv iota.
  unfold GetFieldCount. rewrite Hempty. simpl (0 <? _). cbv iota.
  fold pszInputPrefix pszMethodPrefix.
  set (bUnique := bool_decide (is_Some poDefnMethod)
                  && negb (bool_decide (is_Some pszInputPrefix))
                  && negb (bool_decide (is_Some pszMethodPrefix))).
  set (oSetIn := if bUnique then field_names poDefnInput else ∅).
  set (oSetM := match poDefnMethod with
                | Some defnMethod => if bUnique then field_names defnMethod else ∅
                | None => ∅
                end).
  destruct (create_fields_accepted E driver_accepts
              (CPLTestBool (CSLFetchNameValueDef papszOptions "SKIP_FAILURES" "NO"))
              pszInputPrefix oSetM "input_" (apoFieldDefn poDefnInput) 0
              pLayerResult mapInput c) as (R1 & mapI & Heq1 & _ & Hf1).
  rewrite Heq1.
  assert (Hin : apoFieldDefn (m_poDefn R1)
                = unified_name pszInputPrefix pszMethodPrefix "input_"
                    (fields_of poDefnMethod) <$> apoFieldDefn poDefnInput).
  { rewrite Hf1. unfold GetLayerDefn in Hempty. rewrite Hempty. simpl.
    assert (HoSet : oSetM
                    = if bool_decide (is_Some poDefnMethod)
                         && negb (bool_decide (is_Some pszInputPrefix))
                         && negb (bool_decide (is_Some pszMethodPrefix))
                      then list_to_set (GetNameRef <$> fields_of poDefnMethod) else ∅).
    { subst oSetM bUnique. destruct poDefnMethod; [reflexivity |]. simpl.
      reflexivity. }
    rewrite HoSet.
    apply (created_names_unified pszInputPrefix pszMethodPrefix "input_"
             poDefnMethod (bool_decide (is_Some poDefnMethod))).
    intros Hn. apply bool_decide_eq_false in Hn.
    destruct poDefnMethod; [exfalso; apply Hn; eauto | reflexivity]. }
  destruct combined; simpl negb; cbv iota.
  2:{ exists R1, mapI, mapMethod. split; [reflexivity |].
      unfold GetLayerDefn. rewrite Hin. by rewrite app_nil_r. }
  destruct poDefnMethod as [defnMethod |].
  2:{ exists R1, mapI, mapMethod. split; [by destruct mapMethod |].
      unfold GetLayerDefn. rewrite Hin. simpl. by rewrite app_nil_r. }
  destruct mapMethod as [mm |].
  2:{ exists R1, mapI, None. split; [reflexivity |].
      unfold GetLayerDefn. rewrite Hin. simpl in *.
      destruct (apoFieldDefn defnMethod) as [| d0 rest] eqn:Hm.
      - simpl. by rewrite app_nil_r.
      - exfalso. destruct Hmap as [x Hx]; [done | discriminate]. }
  rewrite Haddm.
  destruct (create_fields_accepted E driver_accepts
              (CPLTestBool (CSLFetchNameValueDef papszOptions "SKIP_FAILURES" "NO"))
              pszMethodPrefix oSetIn "method_" (apoFieldDefn defnMethod) 0
              R1 (Some mm) c) as (R2 & mapM & Heq2 & _ & Hf2).
  rewrite Heq2. exists R2, mapI, mapM. split; [reflexivity |].
  unfold GetLayerDefn. rewrite Hf2, Hin. f_equal. simpl fields_of.
  assert (HoSet : oSetIn
                  = if true && negb (bool_decide (is_Some pszMethodPrefix))
                       && negb (bool_decide (is_Some pszInputPrefix))
                    then list_to_set (GetNameRef <$> fields_of (Some poDefnInput))
                    else ∅).
  { subst oSetIn bUnique. rewrite (bool_decide_eq_true_2 (is_Some (Some defnMethod)));
      [| eauto].
    simpl. destruct (bool_decide (is_Some pszInputPrefix)),
      (bool_decide (is_Some pszMethodPrefix)); reflexivity. }
  rewrite HoSet.
  apply (created_names_unified pszMethodPrefix pszInputPrefix "method_"
           (Some poDefnInput) true).
  discriminate.
Qed.

End SchemaUnification.

(** C7.  Let the result schema be empty, the field options be left at
    their defaults and the driver accept every field.  Then
    [set_result_schema] succeeds and the result schema is the input
    fields followed, when schemas are combined, by the method fields,
    each under the name of [unified_name]: a supplied prefix of its own
    side wins, a prefix supplied for the other side only switches the
    renaming off, and with no prefix at all a field is renamed exactly
    when the other layer declares a field of that very name.  So with
    neither [INPUT_PREFIX] nor [METHOD_PREFIX] a name declared on both
    sides becomes [input_<name>] on the input side and [method_<name>]
    on the method side, and every other field keeps its name. *)
Theorem C7_collision_renaming :
  forall (E : Collaborators) (pLayerResult : OGRLayer)
         (poDefnInput : OGRFeatureDefn) (poDefnMethod : option OGRFeatureDefn)
         (mapInput mapMethod : option (list Z)) (combined : bool)
         (papszOptions : CSLConstList) (c : CPLState),
    (forall L d, ICreateField_ok E L d = true) ->
    apoFieldDefn (GetLayerDefn pLayerResult) = [] ->
    adds_all_fields papszOptions ->
    (fields_of poDefnMethod <> [] -> is_Some mapMethod) ->
    let pszInputPrefix := CSLFetchNameValue papszOptions "INPUT_PREFIX" in
    let pszMethodPrefix := CSLFetchNameValue papszOptions "METHOD_PREFIX" in
    exists R' mapInput' mapMethod',
      set_result_schema E pLayerResult poDefnInput poDefnMethod mapInput mapMethod
        combined papszOptions c
      = (OGRERR_NONE, R', mapInput', mapMethod', c)
      /\ apoFieldDefn (GetLayerDefn R')
         = ((unified_name pszInputPrefix pszMethodPrefix "input_"
               (fields_of poDefnMethod) <$> apoFieldDefn poDefnInput)
            ++ (if combined
                then unified_name pszMethodPrefix pszInputPrefix "method_"
                       (apoFieldDefn poDefnInput) <$> fields_of poDefnMethod
                else []))%list
      /\ (pszInputPrefix = None -> pszMethodPrefix = None ->
          apoFieldDefn (GetLayerDefn R')
          = ((spec_created_name "input_" (fields_of poDefnMethod)
                <$> apoFieldDefn poDefnInput)
             ++ (if combined
                 then spec_created_name "method_" (apoFieldDefn poDefnInput)
                        <$> fields_of poDefnMethod
                 else []))%list).
Proof.
  intros E R dI dM mI mM combined opts c Hacc Hempty Hadd Hmap pI pM.
  destruct (set_result_schema_created E Hacc R dI dM mI mM combined opts c
              Hempty Hadd Hmap) as (R' & mI' & mM' & Heq & Hfields).
  exists R', mI', mM'. split; [exact Heq |]. split; [exact Hfields |].
  intros HI HM. rewrite Hfields. subst pI pM. by rewrite HI, HM.
Qed.

Lemma C7_collision_renaming_witness :
  exists R' mapInput' mapMethod',
    set_result_schema Box.kernel (Box.layer [] [wkbUnknown] []) schema_input
      (Some schema_method) (Some [-1; -1]) (Some [-1; -1]) true [] cpl_initial
    = (OGRERR_NONE, R', mapInput', mapMethod', cpl_initial)
    /\ GetNameRef <$> apoFieldDefn (GetLayerDefn R')
       = ["input_name"; "id"; "method_name"; "area"].
Proof.
  destruct (C7_collision_renaming Box.kernel (Box.layer [] [wkbUnknown] [])
              schema_input (Some schema_method) (Some [-1; -1]) (Some [-1; -1])
              true [] cpl_initial)
    as (R' & mI & mM & Heq & _ & Hnames).
  - reflexivity.
  - reflexivity.
  - repeat split.
  - intros _. eauto.
  - exists R', mI, mM. split; [exact Heq |].
    rewrite Hnames by reflexivity. vm_compute. reflexivity.
Defined.

(** ** Geometries as a layer receives them *)

Section ConversionProperties.

Context (E : Collaborators).

Lemma set_convertGeoms_same (L : OGRLayer) : set_convertGeoms L (m_convertGeoms L) = L.
Proof. by destruct L. Qed.

(** The initialisation touches the conversion flags only. *)
Lemma ConvertGeoms_init_layer (L : OGRLayer) :
  ConvertGeoms_init E L = set_convertGeoms L (m_convertGeoms (ConvertGeoms_init E L)).
Proof.
  unfold ConvertGeoms_init. destruct (negb _); [done |].
  by rewrite set_convertGeoms_same.
Qed.

Lemma ConvertGeoms_init_called (L : OGRLayer) :
  m_bConvertGeomsIfNecessaryAlreadyCalled (m_convertGeoms (ConvertGeoms_init E L)) = true.
Proof.
  unfold ConvertGeoms_init.
  destruct (m_bConvertGeomsIfNecessaryAlreadyCalled (m_convertGeoms L)) eqn:H; by simpl.
Qed.

Lemma ConvertGeoms_init_done (L : OGRLayer) :
  m_bConvertGeomsIfNecessaryAlreadyCalled (m_convertGeoms L) = true ->
  ConvertGeoms_init E L = L.
Proof. intros H. unfold ConvertGeoms_init. by rewrite H. Qed.

Lemma ConvertGeoms_init_again (L : OGRLayer) :
  ConvertGeoms_init E (ConvertGeoms_init E L) = ConvertGeoms_init E L.
Proof. apply ConvertGeoms_init_done, ConvertGeoms_init_called. Qed.

Lemma ConvertGeoms_init_defn (L : OGRLayer) :
  m_poDefn (ConvertGeoms_init E L) = m_poDefn L.
Proof. by rewrite ConvertGeoms_init_layer. Qed.

Lemma ConvertGeoms_init_rows (L : OGRLayer) :
  drv_features (ConvertGeoms_init E L) = drv_features L.
Proof. by rewrite ConvertGeoms_init_layer. Qed.

Lemma ConvertGeomsIfNecessary_layer (L : OGRLayer) (z : OGRFeature) :
  (ConvertGeomsIfNecessary E L z).2 = ConvertGeoms_init E L.
Proof. unfold ConvertGeomsIfNecessary. by destruct (_ || _ || _). Qed.

Lemma ConvertGeomsIfNecessary_pair (L : OGRLayer) (z : OGRFeature) :
  ConvertGeomsIfNecessary E L z = (converted E L z, ConvertGeoms_init E L).
Proof.
  rewrite <- ConvertGeomsIfNecessary_layer with (z := z). unfold converted.
  by destruct (ConvertGeomsIfNecessary E L z).
Qed.

Lemma converted_fid (L : OGRLayer) (z : OGRFeature) : nFID (converted E L z) = nFID z.
Proof. unfold converted, ConvertGeomsIfNecessary. by destruct (_ || _ || _). Qed.

Lemma converted_fields (L : OGRLayer) (z : OGRFeature) :
  pauFields (converted E L z) = pauFields z.
Proof. unfold converted, ConvertGeomsIfNecessary. by destruct (_ || _ || _). Qed.

Lemma CreateFeature_converted (L : OGRLayer) (z : OGRFeature) (c : CPLState) :
  CreateFeature E L z c = ICreateFeature E (ConvertGeoms_init E L) (converted E L z) c.
Proof. unfold CreateFeature. by rewrite ConvertGeomsIfNecessary_pair. Qed.

Lemma converts_as_refl (R : OGRLayer) : converts_as E R R.
Proof. by split. Qed.

(** Layers that convert alike hand the same feature to their driver. *)
Lemma converted_as (R L : OGRLayer) (z : OGRFeature) :
  converts_as E R L -> converted E L z = converted E R z.
Proof.
  intros [Hd Hf]. unfold converted, ConvertGeomsIfNecessary, GetLayerDefn. simpl.
  rewrite Hf, !ConvertGeoms_init_defn, Hd. by destruct (_ || _ || _).
Qed.

(** An initialised layer keeps converting as before when its rows
    change. *)
Lemma converts_as_stored (R L : OGRLayer) (rows : list OGRFeature) :
  converts_as E R L ->
  converts_as E R (set_store (ConvertGeoms_init E L) (m_poDefn (ConvertGeoms_init E L)) rows).
Proof.
  intros [Hd Hf]. split.
  - simpl. by rewrite ConvertGeoms_init_defn.
  - rewrite ConvertGeoms_init_done; [exact Hf |]. simpl. apply ConvertGeoms_init_called.
Qed.

(** A layer that takes geometries as they are hands the feature on as
    it is. *)
Lemma converted_as_it_is (L : OGRLayer) (z : OGRFeature) :
  takes_geometries_as_they_are E L -> converted E L z = z.
Proof.
  intros (H1 & H2 & H3). unfold converted, ConvertGeomsIfNecessary.
  by rewrite H1, H2, H3.
Qed.

Lemma converted_geometry_as_it_is (L : OGRLayer) (g : OGRGeometry) :
  takes_geometries_as_they_are E L -> converted_geometry E L g = Some g.
Proof.
  intros (H1 & H2 & H3). unfold converted_geometry. by rewrite H1, H2, H3.
Qed.

(** The first geometry of the feature handed to the driver. *)
Lemma converted_first_geometry (L : OGRLayer) (z : OGRFeature) (g : OGRGeometry)
    (rest : list (option OGRGeometry)) :
  papoGeometries z = Some g :: rest ->
  GetGeometryRef (converted E L z) = converted_geometry E L g.
Proof.
  intros Hz. unfold converted, converted_geometry, ConvertGeomsIfNecessary,
    GetGeometryRef, GetGeomFieldRef.
  destruct (_ || _ || _); simpl; [| by rewrite Hz].
  rewrite Hz. change (Z.to_nat 0) with 0%nat.
  cbn [imap]. change ((?x :: ?l) !! 0%nat) with (Some x). cbn [default].
  change (Z.of_nat 0) with 0. unfold id. by destruct (0 <? _).
Qed.

End ConversionProperties.

(** ** Loops *)

Section LoopProperties.

Context (E : Collaborators) {St : Type}.

Lemma moved_moved (L : OGRLayer) (n n' : nat) (b b' : bool) :
  moved (moved L n b) n' b' = moved L n' b'.
Proof. reflexivity. Qed.

Lemma set_cursor_moved (L : OGRLayer) (n n' : nat) (b : bool) :
  set_cursor (moved L n b) n' = moved L n' b.
Proof. reflexivity. Qed.

Lemma set_flag_moved (L : OGRLayer) (n : nat) (b b' : bool) :
  set_bInFeatureIterator (moved L n b) b' = moved L n b'.
Proof. reflexivity. Qed.

Lemma moved_same (L : OGRLayer) :
  moved L (drv_iNextShapeId L) (m_bInFeatureIterator L) = L.
Proof. by destruct L. Qed.

Lemma passes_filters_moved (L : OGRLayer) (n : nat) (b : bool) (f : OGRFeature)
    (c : CPLState) :
  passes_filters E (moved L n b) f c = passes_filters E L f c.
Proof. reflexivity. Qed.

Lemma GetNextFeature_scan_moved (L : OGRLayer) (n : nat) (b : bool)
    (rows : list OGRFeature) (pos : nat) (c : CPLState) :
  GetNextFeature_scan E (moved L n b) rows pos c = GetNextFeature_scan E L rows pos c.
Proof.
  revert pos c. induction rows as [| f rest IH]; intros pos c; [reflexivity |].
  simpl. rewrite passes_filters_moved.
  destruct (passes_filters E L f c) as [[] c1]; [reflexivity | apply IH].
Qed.

(** [GetNextFeature] on a layer whose cursor stands at [pos]. *)
Lemma GetNextFeature_moved (L : OGRLayer) (pos : nat) (b : bool) (c : CPLState) :
  GetNextFeature E (moved L pos b) c
  = let '(f, pos', c') :=
      GetNextFeature_scan E L (drop pos (drv_features L)) pos c in
    (f, moved L pos' b, c').
Proof.
  unfold GetNextFeature. simpl drv_iNextShapeId. simpl drv_features.
  rewrite GetNextFeature_scan_moved.
  destruct (GetNextFeature_scan E L _ pos c) as [[f pos'] c']. reflexivity.
Qed.

(** The scan stops behind the row it returns, and at the end when it
    returns none. *)
Lemma GetNextFeature_scan_pos (L : OGRLayer) (rows : list OGRFeature) (pos : nat)
    (c : CPLState) :
  let '(f, pos', _) := GetNextFeature_scan E L rows pos c in
  (pos < pos' <= pos + length rows)%nat \/ (f = None /\ pos' = (pos + length rows)%nat).
Proof.
  revert pos c. induction rows as [| r rest IH]; intros pos c; simpl.
  - right. split; [reflexivity | lia].
  - destruct (passes_filters E L r c) as [[] c1].
    + left. lia.
    + specialize (IH (S pos) c1).
      destruct (GetNextFeature_scan E L rest (S pos) c1) as [[f pos'] c'].
      destruct IH as [IH | [IH1 IH2]]; [left; lia | right; split; [done | lia]].
Qed.

(** The loop between [__begin] and [__end], entered with the row the
    iterator holds already counted ([pos] rows are behind the cursor),
    is [feed] on that row and the rows that follow. *)
Lemma range_loop_feed (body : OGRFeature -> M St unit) (L : OGRLayer) :
  forall (rows : list OGRFeature) (fuel : nat) (pos : nat) (b : bool)
         (st : St) (c : CPLState),
    drop pos (drv_features L) = rows ->
    (length rows < fuel)%nat ->
    let '(f, pos1, c1) := GetNextFeature_scan E L rows pos c in
    exists it',
      range_loop E fuel body (mkIterator f false (bool_decide (f = None)))
        FeatureIterator_Private (moved L pos1 b) st c1
      = (let '(ex, pos', st', c') := feed E L body rows pos st c in
         (loop_exit ex, it', moved L pos' b, st', c'))
      /\ m_bError it' = false.
Proof.
  induction rows as [| r rest IH]; intros fuel pos b st c Hrows Hfuel.
  - destruct fuel as [| fuel]; [simpl in Hfuel; lia |].
    simpl. eexists. split; reflexivity.
  - assert (Hrest : drop (S pos) (drv_features L) = rest).
    { replace (S pos) with (1 + pos)%nat by lia.
      rewrite Nat.add_comm, <- drop_drop, Hrows. reflexivity. }
    simpl in Hfuel. simpl GetNextFeature_scan. simpl feed.
    destruct (passes_filters E L r c) as [[] c1].
    + (* the row passes: the iterator holds it *)
      destruct fuel as [| fuel]; [lia |].
      simpl range_loop.
      destruct (body r st c1) as [[[[] | []] st'] c'] eqn:Hbody.
      * (* fell through *)
        unfold FeatureIterator_incr. rewrite GetNextFeature_moved, Hrest.
        specialize (IH fuel (S pos) b st' c' Hrest ltac:(lia)).
        destruct (GetNextFeature_scan E L rest (S pos) c') as [[f pos1] c2].
        exact IH.
      * (* continue *)
        unfold FeatureIterator_incr. rewrite GetNextFeature_moved, Hrest.
        specialize (IH fuel (S pos) b st' c' Hrest ltac:(lia)).
        destruct (GetNextFeature_scan E L rest (S pos) c') as [[f pos1] c2].
        exact IH.
      * eexists. split; reflexivity.
      * eexists. split; reflexivity.
    + (* the row is skipped by the scan *)
      apply (IH fuel (S pos) b st c1 Hrest). lia.
Qed.

(** A range-based [for] on a layer whose flag is down is [feed] on the
    rows of the layer; it leaves the cursor where [feed] says and the
    flag down. *)
Lemma range_for_feed (body : OGRFeature -> M St unit) (L : OGRLayer)
    (st : St) (c : CPLState) :
  m_bInFeatureIterator L = false ->
  range_for E body L st c
  = let '(ex, pos', st', c') := feed E L body (drv_features L) 0 st c in
    (loop_exit ex, moved L pos' false, st', c').
Proof.
  intros Hflag. unfold range_for, begin, end_, FeatureIterator_new.
  rewrite Hflag.
  assert (HL : ResetReading L = moved L 0 false).
  { unfold ResetReading, moved. rewrite <- Hflag. by destruct L. }
  rewrite HL, GetNextFeature_moved.
  change (drop 0 (drv_features L)) with (drv_features L).
  pose proof (range_loop_feed body L (drv_features L)
                (S (length (drv_features L))) 0 true st c eq_refl ltac:(lia)) as H.
  destruct (GetNextFeature_scan E L (drv_features L) 0 c) as [[f pos1] c1].
  destruct H as (it' & H & Herr).
  rewrite set_flag_moved, H.
  destruct (feed E L body (drv_features L) 0 st c) as [[[ex pos'] st'] c'].
  unfold FeatureIterator_delete. rewrite Herr. simpl. reflexivity.
Qed.

Lemma set_flag_as_moved (L : OGRLayer) (b : bool) :
  set_bInFeatureIterator L b = moved L (drv_iNextShapeId L) b.
Proof. by destruct L. Qed.

(** Whatever the body does, the loop leaves its layer as it was up to
    the cursor, with the flag down. *)
Lemma range_for_layer (body : OGRFeature -> M St unit) (L : OGRLayer)
    (st : St) (c : CPLState) :
  exists pos, (range_for E body L st c).1.1.2 = moved L pos false.
Proof.
  destruct (m_bInFeatureIterator L) eqn:Hflag.
  - rewrite (range_for_busy E body L st c Hflag). simpl.
    eexists. apply set_flag_as_moved.
  - rewrite (range_for_feed body L st c Hflag).
    destruct (feed E L body (drv_features L) 0 st c) as [[[ex pos'] st'] c'].
    simpl. eauto.
Qed.

(** With no row to read the body is never run. *)
Lemma range_for_no_rows (body : OGRFeature -> M St unit) (L : OGRLayer)
    (st : St) (c : CPLState) :
  drv_features L = [] ->
  exists pos c', range_for E body L st c = (LoopEnd, moved L pos false, st, c').
Proof.
  intros Hrows. destruct (m_bInFeatureIterator L) eqn:Hflag.
  - rewrite (range_for_busy E body L st c Hflag), set_flag_as_moved. eauto.
  - rewrite (range_for_feed body L st c Hflag), Hrows. simpl. eauto.
Qed.

(** On a layer that is not being read and has no row, the loop leaves
    the error slot alone as well. *)
Lemma range_for_no_rows_idle (body : OGRFeature -> M St unit) (L : OGRLayer)
    (st : St) (c : CPLState) :
  drv_features L = [] -> m_bInFeatureIterator L = false ->
  range_for E body L st c = (LoopEnd, moved L 0 false, st, c).
Proof.
  intros Hrows Hflag. by rewrite (range_for_feed body L st c Hflag), Hrows.
Qed.

Lemma feed_preserves (P : St -> Prop) (body : OGRFeature -> M St unit)
    (L : OGRLayer) :
  (forall x, preserves P (body x)) ->
  forall rows pos st c, P st -> P (feed E L body rows pos st c).1.2.
Proof.
  intros Hbody. induction rows as [| r rest IH]; intros pos st c HP; [exact HP |].
  simpl. destruct (passes_filters E L r c) as [[] c1]; [| by apply IH].
  specialize (Hbody r st c1 HP).
  destruct (body r st c1) as [[[[] | []] st'] c']; simpl in Hbody;
    try (by apply IH); exact Hbody.
Qed.

(** A property of the state that every run of the body keeps is kept by
    the loop. *)
Lemma range_for_preserves (P : St -> Prop) (body : OGRFeature -> M St unit)
    (L : OGRLayer) (st : St) (c : CPLState) :
  (forall x, preserves P (body x)) -> P st -> P (range_for E body L st c).1.2.
Proof.
  intros Hbody HP. destruct (m_bInFeatureIterator L) eqn:Hflag.
  - by rewrite (range_for_busy E body L st c Hflag).
  - rewrite (range_for_feed body L st c Hflag).
    pose proof (feed_preserves P body L Hbody (drv_features L) 0 st c HP) as H.
    by destruct (feed E L body (drv_features L) 0 st c) as [[[ex pos'] st'] c'].
Qed.

End LoopProperties.

(** ** Rules for [preserves] *)

Section PreservesRules.

Context {St : Type} (P : St -> Prop).

Lemma preserves_mret {A : Type} (a : A) : preserves P (mret a).
Proof. by intros st c HP. Qed.

Lemma preserves_jump {A : Type} (j : Jump) : preserves P (jump j : M St A).
Proof. by intros st c HP. Qed.

Lemma preserves_cpl_do (f : CPLState -> CPLState) : preserves P (cpl_do f).
Proof. by intros st c HP. Qed.

Lemma preserves_mbind {A B : Type} (m : M St A) (k : A -> M St B) :
  preserves P m -> (forall a, preserves P (k a)) -> preserves P (mbind m k).
Proof.
  intros Hm Hk st c HP. unfold mbind. specialize (Hm st c HP).
  destruct (m st c) as [[[a | j] st'] c']; simpl in Hm; [| exact Hm].
  by apply Hk.
Qed.

Lemma preserves_when (b : bool) (m : M St unit) :
  preserves P m -> preserves P (when b m).
Proof. intros Hm. destruct b; [exact Hm | apply preserves_mret]. Qed.

End PreservesRules.

Section FramePreserves.

Context (E : Collaborators) {Loc : Type}.

(** What a block keeps when it only writes [ret] and the error slot. *)
Lemma set_ret_keeps (P : Frame Loc -> Prop) (r : OGRErr) :
  (forall l R r1 r2, P (mkFrame l R r1) -> P (mkFrame l R r2)) ->
  preserves P (set_ret r).
Proof. intros H [l R r0] c HP. simpl. by eapply H. Qed.

Lemma geos_keeps {A : Type} (P : Frame Loc -> Prop) (r : Geos A) :
  preserves P (geos r).
Proof. intros fr c HP. unfold geos. by destruct (geos_call r c). Qed.

Lemma last_error_is_set_keeps (P : Frame Loc -> Prop) :
  preserves P last_error_is_set.
Proof. by intros fr c HP. Qed.

Lemma get_loc_keeps (P : Frame Loc -> Prop) : preserves P get_loc.
Proof. by intros fr c HP. Qed.

Lemma abort_or_keeps (P : Frame Loc -> Prop) (bSkipFailures : bool)
    (recover : M (Frame Loc) unit) :
  (forall l R r1 r2, P (mkFrame l R r1) -> P (mkFrame l R r2)) ->
  preserves P recover -> preserves P (abort_or bSkipFailures recover).
Proof.
  intros H Hr. unfold abort_or. destruct bSkipFailures; simpl; [exact Hr |].
  apply preserves_mbind; [by apply set_ret_keeps | intros; apply preserves_jump].
Qed.

Lemma submit_feature_keeps_loc (Q : Loc -> Prop) (bSkipFailures : bool)
    (z : OGRFeature) :
  preserves (on_loc Q) (submit_feature E bSkipFailures z).
Proof.
  intros fr c HP. unfold submit_feature.
  destruct (CreateFeature E (f_result fr) z c) as [[ret R'] c'].
  destruct (negb (bool_decide (ret = OGRERR_NONE))), bSkipFailures; exact HP.
Qed.

Lemma set_loc_keeps_result (Q : OGRLayer -> Prop) (l : Loc) :
  preserves (on_result Q) (set_loc l).
Proof. by intros fr c HP. Qed.

End FramePreserves.

(** Steps that close a [preserves] goal on their own. *)
Ltac keep_ret := intros ? ? ? ?; exact id.

Ltac keep :=
  repeat
    match goal with
    | |- preserves _ (mbind _ _) => apply preserves_mbind; [| intros ?]
    | |- preserves _ (mret _) => apply preserves_mret
    | |- preserves _ (jump _) => apply preserves_jump
    | |- preserves _ (cpl_do _) => apply preserves_cpl_do
    | |- preserves _ (when _ _) => apply preserves_when
    | |- preserves _ (geos _) => apply geos_keeps
    | |- preserves _ last_error_is_set => apply last_error_is_set_keeps
    | |- preserves _ get_loc => apply get_loc_keeps
    | |- preserves _ (set_ret _) => apply set_ret_keeps; keep_ret
    | |- preserves _ (abort_or _ _) => apply abort_or_keeps; [keep_ret |]
    | |- preserves (on_loc _) (submit_feature _ _ _) => apply submit_feature_keeps_loc
    | |- preserves (on_other ?Q) (submit_feature _ _ _) =>
        apply (submit_feature_keeps_loc _ (fun o => Q (o_other o)))
    | |- preserves (on_result _) (set_loc _) => apply set_loc_keeps_result
    | |- preserves _ (if ?b then _ else _) => destruct b
    | |- preserves _ (match ?x with _ => _ end) => destruct x
    end.

(** ** The filters of the source layers across an overlay operation *)

Section FilterRestoration.

Context (E : Collaborators).

Lemma filter_kept_moved (D : OGRFeatureDefn) (F : option OGRGeometry)
    (L : OGRLayer) (pos : nat) (b : bool) :
  filter_kept D F L -> filter_kept D F (moved L pos b).
Proof. exact id. Qed.

(** Installing a geometry keeps [filter_kept]: without a geometry field
    the call is refused and the layer stays as it is. *)
Lemma SetSpatialFilter0_some_kept (D : OGRFeatureDefn) (F : option OGRGeometry)
    (L : OGRLayer) (g : OGRGeometry) (c : CPLState) :
  filter_kept D F L -> filter_kept D F (SetSpatialFilter0 E L (ptr_to g) c).1.2.
Proof.
  intros [HD HF]. unfold SetSpatialFilter0, SetSpatialFilter. simpl.
  destruct (ValidateGeometryFieldIndexForSetSpatialFilter L 0 (Some g) false c)
    as [ok c1] eqn:Hv.
  destruct ok; simpl; [| by split].
  split; [done |].
  intros H0. exfalso. revert Hv.
  unfold ValidateGeometryFieldIndexForSetSpatialFilter, GetLayerDefn.
  rewrite HD, H0. simpl. discriminate.
Qed.

(** Setting the filter that [filter_kept] speaks of installs it. *)
Lemma SetSpatialFilter0_restores (D : OGRFeatureDefn) (F : option OGRGeometry)
    (L : OGRLayer) (c : CPLState) :
  filter_kept D F L ->
  m_poFilterGeom (SetSpatialFilter0 E L (ptr_of F) c).1.2 = F
  /\ filter_kept D F (SetSpatialFilter0 E L (ptr_of F) c).1.2.
Proof.
  intros [HD HF]. destruct F as [g |].
  - split; [| by apply SetSpatialFilter0_some_kept].
    unfold SetSpatialFilter0, SetSpatialFilter. simpl.
    destruct (ValidateGeometryFieldIndexForSetSpatialFilter L 0 (Some g) false c)
      as [ok c1] eqn:Hv.
    destruct ok; simpl; [done |].
    apply HF. revert Hv.
    unfold ValidateGeometryFieldIndexForSetSpatialFilter, GetLayerDefn.
    rewrite HD. simpl.
    destruct (GetGeomFieldCount D) eqn:Hn; [done | |].
    + simpl. discriminate.
    + unfold GetGeomFieldCount in Hn. lia.
  - unfold SetSpatialFilter0, SetSpatialFilter, ISetSpatialFilter, InstallFilter.
    unfold same_as_filter, ptr_of, pointee. cbn.
    destruct (m_poFilterGeom L) as [f |] eqn:Hf; simpl; by repeat split.
Qed.

Lemma set_filter_from_kept (D : OGRFeatureDefn) (F : option OGRGeometry)
    (L : OGRLayer) (flt : option OGRGeometry) (x : OGRFeature) (c : CPLState) :
  filter_kept D F L -> filter_kept D F (set_filter_from E L flt x c).1.2.
Proof.
  intros HK. unfold set_filter_from.
  destruct (GetGeometryRef x) as [geom |]; [| exact HK].
  destruct flt as [flt |].
  - destruct (geos_call (geom_Intersects E geom flt) c) as [b c1].
    destruct (negb b); [exact HK |].
    destruct (geos_call (geom_Intersection E geom flt) c1) as [[g |] c2]; [| exact HK].
    pose proof (SetSpatialFilter0_some_kept D F L g c2 HK) as H.
    by destruct (SetSpatialFilter0 E L (ptr_to g) c2) as [[e L'] c3].
  - pose proof (SetSpatialFilter0_some_kept D F L geom c HK) as H.
    by destruct (SetSpatialFilter0 E L (ptr_to geom) c) as [[e L'] c1].
Qed.

Section OuterBlocks.

Context (Q : OGRLayer -> Prop).

Hypothesis Q_moved : forall L pos b, Q L -> Q (moved L pos b).

Lemma report_progress_keeps (pfnProgress : option GDALProgressFunc)
    (progress_max : Z) :
  preserves (on_other Q) (report_progress pfnProgress progress_max).
Proof.
  unfold report_progress. destruct pfnProgress as [pfn |]; [| apply preserves_mret].
  intros fr c HP.
  destruct (progress_due _ _); [destruct (negb _) |]; exact HP.
Qed.

Lemma prepare_x_keeps (P : Frame OuterLoc -> Prop) (b : bool) (g : OGRGeometry) :
  preserves P (prepare_x E b g).
Proof. unfold prepare_x. keep. Qed.

Lemma for_other_keeps {Loc : Type} (init : Loc)
    (body : OGRFeature -> M (Frame Loc) unit) :
  preserves (on_other Q) (for_other E init body).
Proof.
  intros fr c HP. unfold for_other.
  destruct (range_for_layer E body (o_other (f_loc fr))
              (mkFrame init (f_result fr) (f_ret fr)) c) as [pos Hpos].
  destruct (range_for E body _ _ c) as [[[ex L'] fr'] c'].
  simpl in Hpos. subst L'.
  destruct ex; simpl; by apply Q_moved.
Qed.

Lemma submit_leftover_keeps (bSkipFailures bPromoteToMulti : bool)
    (poDefnResult : OGRFeatureDefn) (x : OGRFeature) (map : option (list Z))
    (geom : option OGRGeometry) :
  preserves (on_other Q)
    (submit_leftover E bSkipFailures bPromoteToMulti poDefnResult x map geom).
Proof. unfold submit_leftover. keep. Qed.

End OuterBlocks.

Lemma setup_filter_kept (D : OGRFeatureDefn) (F : option OGRGeometry)
    (bSkipFailures : bool) (flt : option OGRGeometry) (x : OGRFeature) :
  preserves (on_other (filter_kept D F)) (setup_filter E bSkipFailures flt x).
Proof.
  unfold setup_filter. keep.
  intros fr c HP. unfold on_other in *.
  pose proof (set_filter_from_kept D F (o_other (f_loc fr)) flt x c HP) as H.
  by destruct (set_filter_from E (o_other (f_loc fr)) flt x c) as [[g L'] c'].
Qed.

End FilterRestoration.

Section BodiesKeepFilters.

Context (E : Collaborators) (D : OGRFeatureDefn) (F : option OGRGeometry).

Ltac keep_outer :=
  repeat
    (keep;
     match goal with
     | |- preserves (on_other _) (report_progress _ _) =>
         apply report_progress_keeps
     | |- preserves (on_other _) (setup_filter _ _ _ _) => apply setup_filter_kept
     | |- preserves _ (begin_x _ _ _ _ _ _) => unfold begin_x
     | |- preserves _ (Intersection_begin _ _ _ _ _ _ _ _) =>
         unfold Intersection_begin
     | |- preserves _ (prepare_x _ _ _) => apply prepare_x_keeps
     | |- preserves (on_other _) (for_other _ _ _) =>
         apply for_other_keeps; intros; by apply filter_kept_moved
     | |- preserves (on_other _) (submit_leftover _ _ _ _ _ _ _) =>
         apply submit_leftover_keeps
     end).

Lemma Intersection_x_kept pfn pmax b1 b2 b3 b4 b5 flt bEnv sEnv defn mI mM x :
  preserves (on_other (filter_kept D F))
    (Intersection_x E pfn pmax b1 b2 b3 b4 b5 flt bEnv sEnv defn mI mM x).
Proof. unfold Intersection_x. keep_outer. Qed.

Lemma Union_x_kept pfn pmax b1 b2 b3 b4 flt defn mI mM x :
  preserves (on_other (filter_kept D F))
    (Union_x E pfn pmax b1 b2 b3 b4 flt defn mI mM x).
Proof. unfold Union_x. keep_outer. Qed.

Lemma Union_y_kept pfn pmax b1 b2 flt defn mM x :
  preserves (on_other (filter_kept D F)) (Union_y E pfn pmax b1 b2 flt defn mM x).
Proof. unfold Union_y. keep_outer. Qed.

Lemma SymDifference_x_kept pfn pmax b1 b2 b3 flt defn map x :
  preserves (on_other (filter_kept D F))
    (SymDifference_x E pfn pmax b1 b2 b3 flt defn map x).
Proof. unfold SymDifference_x. keep_outer. Qed.

Lemma Identity_x_kept pfn pmax b1 b2 b3 b4 flt defn mI mM x :
  preserves (on_other (filter_kept D F))
    (Identity_x E pfn pmax b1 b2 b3 b4 flt defn mI mM x).
Proof. unfold Identity_x. keep_outer. Qed.

Lemma Update_x_kept pfn pmax b1 b2 flt defn mI x :
  preserves (on_other (filter_kept D F)) (Update_x E pfn pmax b1 b2 flt defn mI x).
Proof. unfold Update_x. keep_outer. Qed.

Lemma Update_y_keeps (Q : OGRLayer -> Prop) pfn pmax b1 defn mM y :
  preserves (on_other Q) (Update_y E pfn pmax b1 defn mM y).
Proof.
  unfold Update_y. simpl. keep; try apply report_progress_keeps.
Qed.

Lemma Clip_x_kept pfn pmax b1 b2 flt defn mI x :
  preserves (on_other (filter_kept D F)) (Clip_x E pfn pmax b1 b2 flt defn mI x).
Proof. unfold Clip_x. keep_outer. Qed.

Lemma Erase_x_kept pfn pmax b1 b2 flt defn mI x :
  preserves (on_other (filter_kept D F)) (Erase_x E pfn pmax b1 b2 flt defn mI x).
Proof. unfold Erase_x. keep_outer. Qed.

End BodiesKeepFilters.

Section WorldPreserves.

Context (E : Collaborators) (Qi Qm : OGRLayer -> Prop).

Hypothesis Qi_moved : forall L pos b, Qi L -> Qi (moved L pos b).
Hypothesis Qm_moved : forall L pos b, Qm L -> Qm (moved L pos b).

Lemma w_set_ret_keeps (r : OGRErr) : preserves (on_sources Qi Qm) (w_set_ret r).
Proof. by intros w c HP. Qed.

Lemma check_clone_keeps (r : OGRErr) : preserves (on_sources Qi Qm) (check_clone r).
Proof. unfold check_clone. keep. apply w_set_ret_keeps. Qed.

Lemma get_field_map_keeps (poDefn : OGRFeatureDefn) :
  preserves (on_sources Qi Qm) (get_field_map E poDefn).
Proof.
  unfold get_field_map. destruct (create_field_map E poDefn). keep.
  apply w_set_ret_keeps.
Qed.

Lemma get_result_schema_keeps dI dM mI mM combined opts :
  preserves (on_sources Qi Qm) (get_result_schema E dI dM mI mM combined opts).
Proof.
  intros w c HP. unfold get_result_schema.
  destruct (set_result_schema E _ _ _ _ _ _ _ c) as [[[[ret R'] m1] m2] c'].
  by destruct (negb _).
Qed.

Lemma w_get_keeps {A : Type} (f : World -> A) : preserves (on_sources Qi Qm) (w_get f).
Proof. by intros w c HP. Qed.

Lemma w_resolve_keep_lower_dim_keeps (b : bool) :
  preserves (on_sources Qi Qm) (w_resolve_keep_lower_dim b).
Proof.
  intros w c HP. unfold w_resolve_keep_lower_dim.
  by destruct (resolve_keep_lower_dim b (w_result w) c).
Qed.

Lemma final_progress_keeps (pfn : option GDALProgressFunc) :
  preserves (on_sources Qi Qm) (final_progress pfn).
Proof.
  unfold final_progress. destruct pfn as [pfn |]; [| apply preserves_mret].
  intros w c HP. by destruct (negb _).
Qed.

Lemma for_input_keeps (body : OGRFeature -> M (Frame OuterLoc) unit) :
  (forall x, preserves (on_other Qm) (body x)) ->
  preserves (on_sources Qi Qm) (for_input E body).
Proof.
  intros Hbody w c [Hi Hm]. unfold for_input.
  set (fr0 := mkFrame (mkOuter (w_method w) (w_counter w) (w_calls w))
                (w_result w) (w_ret w)).
  destruct (range_for_layer E body (w_input w) fr0 c) as [pos Hpos].
  pose proof (range_for_preserves E (on_other Qm) body (w_input w) fr0 c Hbody Hm)
    as Hother.
  destruct (range_for E body (w_input w) fr0 c) as [[[ex L'] fr] c'].
  simpl in Hpos, Hother. subst L'.
  destruct ex; simpl; (split; [by apply Qi_moved | exact Hother]).
Qed.

Lemma for_method_keeps (body : OGRFeature -> M (Frame OuterLoc) unit) :
  (forall x, preserves (on_other Qi) (body x)) ->
  preserves (on_sources Qi Qm) (for_method E body).
Proof.
  intros Hbody w c [Hi Hm]. unfold for_method.
  set (fr0 := mkFrame (mkOuter (w_input w) (w_counter w) (w_calls w))
                (w_result w) (w_ret w)).
  destruct (range_for_layer E body (w_method w) fr0 c) as [pos Hpos].
  pose proof (range_for_preserves E (on_other Qi) body (w_method w) fr0 c Hbody Hi)
    as Hother.
  destruct (range_for E body (w_method w) fr0 c) as [[[ex L'] fr] c'].
  simpl in Hpos, Hother. subst L'.
  destruct ex; simpl; (split; [exact Hother | by apply Qm_moved]).
Qed.

(** [GetExtent] only moves the cursor and the flag of its layer. *)
Lemma GetExtent_moved (L : OGRLayer) (iGeomField : Z) (bForce : bool) (c : CPLState) :
  exists pos b, (GetExtent E L iGeomField bForce c).1.2 = moved L pos b.
Proof.
  unfold GetExtent.
  destruct (_ || _ || _).
  - exists (drv_iNextShapeId L), (m_bInFeatureIterator L). simpl.
    symmetry. apply moved_same.
  - unfold IGetExtent. destruct (negb bForce).
    + exists (drv_iNextShapeId L), (m_bInFeatureIterator L). simpl.
      symmetry. apply moved_same.
    + destruct (range_for_layer E (IGetExtent_step E iGeomField) L
                  (mkEnv 0%Q 0%Q 0%Q 0%Q, false) c) as [pos Hpos].
      destruct (range_for E _ L _ c) as [[[ex L'] [ext bSet]] c'].
      simpl in Hpos. subst L'. simpl. by exists 0%nat, false.
Qed.

End WorldPreserves.

Section OperationsRestoreFilters.

Context (E : Collaborators).

Lemma restore_method_filter_kept (Qi : OGRLayer -> Prop) (D : OGRFeatureDefn)
    (F : option OGRGeometry) :
  preserves (on_sources Qi (filter_kept D F)) (restore_method_filter E F).
Proof.
  intros w c [Hi Hm]. unfold restore_method_filter.
  destruct (SetSpatialFilter0_restores E D F (w_method w) c Hm) as [_ H].
  destruct (SetSpatialFilter0 E (w_method w) (ptr_of F) c) as [[e L'] c']. by split.
Qed.

(** The block at [done:] of the operations that drive the method layer
    only. *)
Lemma done_restores_method (Fi : option OGRGeometry) (D : OGRFeatureDefn)
    (F : option OGRGeometry) (w : World) (c : CPLState) :
  on_sources (fun L => m_poFilterGeom L = Fi) (filter_kept D F) w ->
  let w' := (restore_method_filter E F w c).1.2 in
  m_poFilterGeom (w_input w') = Fi /\ m_poFilterGeom (w_method w') = F.
Proof.
  intros [Hi Hm]. unfold restore_method_filter.
  destruct (SetSpatialFilter0_restores E D F (w_method w) c Hm) as [H _].
  destruct (SetSpatialFilter0 E (w_method w) (ptr_of F) c) as [[e L'] c']. by split.
Qed.

(** The block at [done:] of [Union] and [SymDifference]. *)
Lemma done_restores_both (Di Dm : OGRFeatureDefn) (Fi Fm : option OGRGeometry)
    (w : World) (c : CPLState) :
  on_sources (filter_kept Di Fi) (filter_kept Dm Fm) w ->
  let r1 := restore_input_filter E Fi w c in
  let w' := (restore_method_filter E Fm r1.1.2 r1.2).1.2 in
  m_poFilterGeom (w_input w') = Fi /\ m_poFilterGeom (w_method w') = Fm.
Proof.
  intros [Hi Hm]. unfold restore_input_filter, restore_method_filter.
  destruct (SetSpatialFilter0_restores E Di Fi (w_input w) c Hi) as [H1 _].
  destruct (SetSpatialFilter0 E (w_input w) (ptr_of Fi) c) as [[e1 L1] c1]. simpl in *.
  destruct (SetSpatialFilter0_restores E Dm Fm (w_method w) c1 Hm) as [H2 _].
  destruct (SetSpatialFilter0 E (w_method w) (ptr_of Fm) c1) as [[e2 L2] c2]. by split.
Qed.

Lemma filter_kept_start (L : OGRLayer) : filter_kept (m_poDefn L) (m_poFilterGeom L) L.
Proof. by split. Qed.

Lemma w_method_extent_kept (Qi : OGRLayer -> Prop) (D : OGRFeatureDefn)
    (F : option OGRGeometry) :
  preserves (on_sources Qi (filter_kept D F)) (w_method_extent E).
Proof.
  intros w c [Hi Hm]. unfold w_method_extent.
  destruct (GetExtent_moved E (w_method w) 0 true c) as (pos & b & Hpos).
  destruct (GetExtent E (w_method w) 0 true c) as [[[err ext] L'] c'].
  simpl in Hpos. subst L'. by split.
Qed.

Ltac keep_world :=
  repeat
    first
      [ progress keep
      | match goal with
        | |- preserves _ (Intersection_resources _ _ _ _) =>
            unfold Intersection_resources
        | |- preserves _ (Union_resources _ _ _ _) => unfold Union_resources
        | |- preserves _ (Clip_resources _ _ _ _) => unfold Clip_resources
        | |- preserves _ (Erase_resources _ _ _ _) => unfold Erase_resources
        | |- preserves _ (check_clone _) => apply check_clone_keeps
        | |- preserves _ (get_field_map _ _) => apply get_field_map_keeps
        | |- preserves _ (get_result_schema _ _ _ _ _ _ _) =>
            apply get_result_schema_keeps
        | |- preserves _ (w_get _) => apply w_get_keeps
        | |- preserves _ (w_method_extent _) => apply w_method_extent_kept
        | |- preserves _ (w_resolve_keep_lower_dim _) =>
            apply w_resolve_keep_lower_dim_keeps
        | |- preserves _ (final_progress _) => apply final_progress_keeps
        | |- preserves _ (restore_method_filter _ _) =>
            apply restore_method_filter_kept
        | |- preserves _ (for_input _ _) =>
            apply for_input_keeps; [by intros; try apply filter_kept_moved | intros ?]
        | |- preserves _ (for_method _ _) =>
            apply for_method_keeps; [by intros; try apply filter_kept_moved | intros ?]
        end ].

(** The proof that is the same for every operation that drives the
    method layer only: the main part keeps the invariant, and the block
    at [done:] restores the filter. *)
Ltac restores_method this pLayerMethod c body_kept :=
  simpl negb; cbv iota; cbn [snd];
  match goal with
  | |- context [mbind ?a ?b (mkWorld ?i ?m ?r ?e ?n ?k) ?c0] =>
      let main := fresh "main" in
      let w0 := fresh "w0" in
      let Hmain := fresh "Hmain" in
      set (main := mbind a b); set (w0 := mkWorld i m r e n k);
      assert (Hmain : preserves
                        (on_sources (fun L => m_poFilterGeom L = m_poFilterGeom this)
                           (filter_kept (m_poDefn pLayerMethod)
                              (m_poFilterGeom pLayerMethod))) main)
        by (subst main; keep_world;
            first [apply body_kept | apply Update_y_keeps]);
      specialize (Hmain w0 c0 (conj eq_refl (filter_kept_start pLayerMethod)));
      destruct (main w0 c0) as [[? ?w] ?c1]; simpl in Hmain;
      match goal with
      | |- context [restore_method_filter E ?F ?w1 ?c1] =>
          let Hdone := fresh "Hdone" in
          pose proof (done_restores_method _ _ _ w1 c1 Hmain) as Hdone;
          destruct (restore_method_filter E F w1 c1) as [[? ?] ?]; exact Hdone
      end
  end.

Ltac restores_both this pLayerMethod c body_x body_y :=
  simpl negb; cbv iota; cbn [snd];
  match goal with
  | |- context [mbind ?a ?b (mkWorld ?i ?m ?r ?e ?n ?k) ?c0] =>
      let main := fresh "main" in
      let w0 := fresh "w0" in
      let Hmain := fresh "Hmain" in
      set (main := mbind a b); set (w0 := mkWorld i m r e n k);
      assert (Hmain : preserves
                        (on_sources
                           (filter_kept (m_poDefn this) (m_poFilterGeom this))
                           (filter_kept (m_poDefn pLayerMethod)
                              (m_poFilterGeom pLayerMethod))) main)
        by (subst main; keep_world; first [apply body_x | apply body_y]);
      specialize (Hmain w0 c0 (conj (filter_kept_start this)
                                    (filter_kept_start pLayerMethod)));
      destruct (main w0 c0) as [[? ?w] ?c1]; simpl in Hmain;
      match goal with
      | |- context [restore_input_filter E ?F ?w1 ?c1] =>
          let Hdone := fresh "Hdone" in
          pose proof (done_restores_both _ _ _ _ w1 c1 Hmain) as Hdone;
          simpl in Hdone;
          destruct (restore_input_filter E F w1 c1) as [[? ?] ?];
          destruct (restore_method_filter E _ _ _) as [[? ?] ?]; exact Hdone
      end
  end.

Lemma Erase_restores this pLayerMethod pLayerResult opts pfn c :
  filters_restored this pLayerMethod
    (OGRLayer_Erase E this pLayerMethod pLayerResult opts pfn c).
Proof.
  unfold filters_restored, OGRLayer_Erase, clone_spatial_filter.
  unfold GetSpatialFilter.
  destruct (haveGEOS E); [| done].
  restores_method this pLayerMethod c Erase_x_kept.
Qed.

Lemma Clip_restores this pLayerMethod pLayerResult opts pfn c :
  filters_restored this pLayerMethod
    (OGRLayer_Clip E this pLayerMethod pLayerResult opts pfn c).
Proof.
  unfold filters_restored, OGRLayer_Clip, clone_spatial_filter.
  unfold GetSpatialFilter.
  destruct (haveGEOS E); [| done].
  restores_method this pLayerMethod c Clip_x_kept.
Qed.

Lemma Update_restores this pLayerMethod pLayerResult opts pfn c :
  filters_restored this pLayerMethod
    (OGRLayer_Update E this pLayerMethod pLayerResult opts pfn c).
Proof.
  unfold filters_restored, OGRLayer_Update, clone_spatial_filter.
  unfold GetSpatialFilter.
  destruct (haveGEOS E); [| done].
  restores_method this pLayerMethod c Update_x_kept.
Qed.

Lemma Identity_restores this pLayerMethod pLayerResult opts pfn c :
  filters_restored this pLayerMethod
    (OGRLayer_Identity E this pLayerMethod pLayerResult opts pfn c).
Proof.
  unfold filters_restored, OGRLayer_Identity, clone_spatial_filter.
  unfold GetSpatialFilter.
  destruct (haveGEOS E); [| done].
  destruct (resolve_keep_lower_dim _ pLayerResult c) as [bKeep c0].
  restores_method this pLayerMethod c0 Identity_x_kept.
Qed.

Lemma Intersection_restores this pLayerMethod pLayerResult opts pfn c :
  filters_restored this pLayerMethod
    (OGRLayer_Intersection E this pLayerMethod pLayerResult opts pfn c).
Proof.
  unfold filters_restored, OGRLayer_Intersection, clone_spatial_filter.
  unfold GetSpatialFilter.
  destruct (haveGEOS E); [| done].
  restores_method this pLayerMethod c Intersection_x_kept.
Qed.

Lemma Union_restores this pLayerMethod pLayerResult opts pfn c :
  filters_restored this pLayerMethod
    (OGRLayer_Union E this pLayerMethod pLayerResult opts pfn c).
Proof.
  unfold filters_restored, OGRLayer_Union, clone_spatial_filter.
  unfold GetSpatialFilter.
  destruct (haveGEOS E); [| done].
  restores_both this pLayerMethod c Union_x_kept Union_y_kept.
Qed.

Lemma SymDifference_restores this pLayerMethod pLayerResult opts pfn c :
  filters_restored this pLayerMethod
    (OGRLayer_SymDifference E this pLayerMethod pLayerResult opts pfn c).
Proof.
  unfold filters_restored, OGRLayer_SymDifference, clone_spatial_filter.
  unfold GetSpatialFilter.
  destruct (haveGEOS E); [| done].
  restores_both this pLayerMethod c SymDifference_x_kept SymDifference_x_kept.
Qed.

End OperationsRestoreFilters.

(** C2 fails on the code for a filter on another geometry field than
    the first.  The block at [done:] puts the saved geometry back with
    [SetSpatialFilter (geometry)], which installs it on geometry field 0.
    Here the method layer has its filter on its second geometry field and
    its row passes; [Erase] of an input layer without rows returns
    [OGRERR_NONE] and hands the method layer back with the same filter
    geometry on its first geometry field, where the row no longer
    passes. *)
Lemma C2_filter_field_not_restored :
  let res := OGRLayer_Erase Box.kernel no_rows filtered_on_second_field empty_result []
               None cpl_initial in
  res.1.1 = OGRERR_NONE
  /\ GetSpatialFilter filtered_on_second_field = Some (Box.square 0 10)
  /\ m_iGeomFieldFilter filtered_on_second_field = 1
  /\ (GetNextFeature Box.kernel filtered_on_second_field cpl_initial).1.1
     = Some far_and_near
  /\ GetSpatialFilter (w_method res.1.2) = Some (Box.square 0 10)
  /\ m_iGeomFieldFilter (w_method res.1.2) = 0
  /\ (GetNextFeature Box.kernel (w_method res.1.2) cpl_initial).1.1 = None.
Proof. vm_compute. by repeat split. Qed.

(** ** Intersections of lower dimension *)

Section LowerDimension.

Context (E : Collaborators).

Lemma lower_dimension_off (x_geom y_geom z : OGRGeometry) :
  getDimension E x_geom = getDimension E y_geom ->
  getDimension E z < getDimension E x_geom ->
  lower_dimension E false x_geom y_geom z = true.
Proof.
  intros Heq Hlt. unfold lower_dimension. simpl.
  apply andb_true_iff. split; [by apply Z.eqb_eq | by apply Z.ltb_lt].
Qed.

(** What the two blocks of the pair loop of [Intersection] yield, and
    that neither writes to the result layer. *)
Lemma Intersection_pretest_yields bSkipFailures bPretestContainment p y_geom
    (fr : Frame unit) c :
  let r := Intersection_pretest E bSkipFailures bPretestContainment p y_geom fr c in
  f_result r.1.2 = f_result fr
  /\ forall z, r.1.1 = Val (Some z) ->
               z = y_geom
               /\ bPretestContainment && (OGRPreparedGeometryContains E p y_geom).1
                  = true.
Proof.
  unfold Intersection_pretest, mbind, mret, jump, cpl_do, geos, geos_call,
    last_error_is_set, when, abort_or, set_ret, mmodify, CPLGetLastErrorType.
  destruct bPretestContainment; simpl;
    destruct (OGRPreparedGeometryContains E p y_geom) as [[] []];
    destruct (OGRPreparedGeometryIntersects E p y_geom) as [[] []];
    destruct bSkipFailures; simpl; (split; [reflexivity |]);
    intros z Hz; try discriminate; by inversion Hz.
Qed.

Lemma Intersection_compute_yields bSkipFailures bKeepLowerDimGeom x_geom y_geom
    (fr : Frame unit) c :
  let r := Intersection_compute E bSkipFailures bKeepLowerDimGeom x_geom y_geom fr c in
  f_result r.1.2 = f_result fr
  /\ forall z, r.1.1 = Val z ->
               (geom_Intersection E x_geom y_geom).1 = Some z
               /\ IsEmpty E z = false
               /\ lower_dimension E bKeepLowerDimGeom x_geom y_geom z = false.
Proof.
  unfold Intersection_compute, mbind, mret, jump, cpl_do, geos, geos_call,
    last_error_is_set, when, abort_or, set_ret, mmodify, CPLGetLastErrorType.
  destruct (geom_Intersection E x_geom y_geom) as [[g |] []]; simpl;
    destruct bSkipFailures; simpl; try (split; [reflexivity | by intros z Hz]).
  all: destruct (IsEmpty E g) eqn:He; simpl;
    [split; [reflexivity | by intros z Hz] |].
  all: destruct (lower_dimension E bKeepLowerDimGeom x_geom y_geom g) eqn:Hl;
    simpl; (split; [reflexivity |]); intros z Hz; try discriminate;
    by inversion Hz; subst.
Qed.

Lemma Intersection_pair_lower_dimension bSkipFailures bPromoteToMulti
    bPretestContainment poDefnResult mapInput mapMethod x x_geom x_prepared_geom
    y y_geom (fr : Frame unit) c :
  GetGeometryRef y = Some y_geom ->
  getDimension E x_geom = getDimension E y_geom ->
  (forall z,
      pair_intersection E bPretestContainment x_geom x_prepared_geom y_geom = Some z ->
      getDimension E z < getDimension E x_geom) ->
  f_result
    (Intersection_pair E bSkipFailures bPromoteToMulti bPretestContainment false
       poDefnResult mapInput mapMethod x x_geom x_prepared_geom y fr c).1.2
  = f_result fr.
Proof.
  intros Hy Hdim Hz. unfold Intersection_pair. rewrite Hy.
  unfold pair_intersection in Hz. unfold mbind at 1.
  assert (Hcompute : forall (fr1 : Frame unit) c1,
             f_result fr1 = f_result fr ->
             (geom_Intersection E x_geom y_geom).1 = None
             \/ (forall z, (geom_Intersection E x_geom y_geom).1 = Some z ->
                           getDimension E z < getDimension E x_geom) ->
             f_result
               ((z_geom <- Intersection_compute E bSkipFailures false x_geom y_geom ;;
                 submit_feature E bSkipFailures
                   (SetGeometryDirectly
                      (SetFieldsFrom
                         (SetFieldsFrom (OGRFeature_new poDefnResult) x mapInput)
                         y mapMethod)
                      (promoted E bPromoteToMulti z_geom))) fr1 c1).1.2
             = f_result fr).
  { intros fr1 c1 Hfr1 Hlow. unfold mbind.
    destruct (Intersection_compute_yields bSkipFailures false x_geom y_geom fr1 c1)
      as [Hres Hval].
    destruct (Intersection_compute E bSkipFailures false x_geom y_geom fr1 c1)
      as [[[z |j] fr2] c2]; simpl in *; [| congruence].
    destruct (Hval z eq_refl) as (HI & _ & Hl).
    destruct Hlow as [Hnone | Hlow]; [congruence |].
    rewrite (lower_dimension_off x_geom y_geom z Hdim (Hlow z HI)) in Hl.
    discriminate. }
  destruct x_prepared_geom as [p |].
  - destruct (Intersection_pretest_yields bSkipFailures bPretestContainment p y_geom
                fr c) as [Hres Hval].
    destruct (Intersection_pretest E bSkipFailures bPretestContainment p y_geom fr c)
      as [[[[z |] | j] fr1] c1]; simpl in *; [| | exact Hres].
    + destruct (Hval z eq_refl) as [-> Hc]. rewrite Hc in Hz.
      specialize (Hz y_geom eq_refl). lia.
    + apply Hcompute; [exact Hres |].
      destruct (bPretestContainment && (OGRPreparedGeometryContains E p y_geom).1)
        eqn:Hc.
      * left. specialize (Hz y_geom eq_refl). lia.
      * right. exact Hz.
  - simpl. apply Hcompute; [reflexivity | right; exact Hz].
Qed.

Lemma Union_pair_lower_dimension bSkipFailures bPromoteToMulti poDefnResult
    mapInput mapMethod x x_geom x_prepared_geom y y_geom
    (fr : Frame (option OGRGeometry)) c :
  GetGeometryRef y = Some y_geom ->
  getDimension E x_geom = getDimension E y_geom ->
  (forall z, (geom_Intersection E x_geom y_geom).1 = Some z ->
             getDimension E z < getDimension E x_geom) ->
  let r := Union_pair E bSkipFailures bPromoteToMulti false poDefnResult mapInput
             mapMethod x x_geom x_prepared_geom y fr c in
  f_result r.1.2 = f_result fr /\ f_loc r.1.2 = f_loc fr.
Proof.
  intros Hy Hdim Hz. unfold Union_pair. rewrite Hy.
  unfold mbind, mret, jump, cpl_do, geos, geos_call, last_error_is_set, when,
    abort_or, set_ret, mmodify, CPLGetLastErrorType.
  destruct (geom_Intersection E x_geom y_geom) as [[g |] raised] eqn:HI.
  - pose proof (lower_dimension_off x_geom y_geom g Hdim (Hz g eq_refl)) as Hlow.
    destruct x_prepared_geom as [p |];
      [destruct (OGRPreparedGeometryIntersects E p y_geom) as [[] []] |];
      destruct raised, bSkipFailures; simpl;
      try rewrite Hlow, orb_true_r; by split.
  - destruct x_prepared_geom as [p |];
      [destruct (OGRPreparedGeometryIntersects E p y_geom) as [[] []] |];
      destruct raised, bSkipFailures; simpl; by split.
Qed.

Lemma keep_option_default (papszOptions : CSLConstList) :
  CSLFetchNameValue papszOptions "KEEP_LOWER_DIMENSION_GEOMETRIES" = None
  \/ CSLFetchNameValue papszOptions "KEEP_LOWER_DIMENSION_GEOMETRIES" = Some "YES" ->
  opt_bool papszOptions "KEEP_LOWER_DIMENSION_GEOMETRIES" "YES" = true.
Proof.
  unfold opt_bool, CSLFetchNameValueDef. by intros [-> | ->].
Qed.

End LowerDimension.

(** ** The status variable at the head of the loops *)

Section NormalRules.

Context {St : Type} (P : St -> Prop).

Lemma normal_mret {A : Type} (a : A) : preserves_normal P (mret a).
Proof. by intros st c HP. Qed.

Lemma normal_jump {A : Type} (j : Jump) : preserves_normal P (jump j : M St A).
Proof. intros st c HP. by destruct j. Qed.

Lemma normal_cpl_do (f : CPLState -> CPLState) : preserves_normal P (cpl_do f).
Proof. by intros st c HP. Qed.

Lemma normal_mbind {A B : Type} (m : M St A) (k : A -> M St B) :
  preserves_normal P m -> (forall a, preserves_normal P (k a)) ->
  preserves_normal P (mbind m k).
Proof.
  intros Hm Hk st c HP. unfold mbind. specialize (Hm st c HP).
  destruct (m st c) as [[[a | j] st'] c']; simpl in Hm.
  - by apply Hk.
  - simpl. by destruct j.
Qed.

Lemma normal_when (b : bool) (m : M St unit) :
  preserves_normal P m -> preserves_normal P (when b m).
Proof. intros Hm. destruct b; [exact Hm | apply normal_mret]. Qed.

Lemma normal_of_preserves {A : Type} (m : M St A) :
  preserves P m -> preserves_normal P m.
Proof.
  intros Hm st c HP. specialize (Hm st c HP).
  by destruct ((m st c).1.1) as [a | []].
Qed.

End NormalRules.

Section RetRules.

Context (E : Collaborators) {Loc : Type}.

Lemma normal_set_ret_none : preserves_normal (@ret_ok Loc) (set_ret OGRERR_NONE).
Proof. by intros fr c HP. Qed.

Lemma normal_set_loc (l : Loc) : preserves_normal (@ret_ok Loc) (set_loc l).
Proof. by intros fr c HP. Qed.

Lemma normal_get_loc : preserves_normal (@ret_ok Loc) get_loc.
Proof. by intros fr c HP. Qed.

Lemma normal_geos {A : Type} (r : Geos A) : preserves_normal (@ret_ok Loc) (geos r).
Proof. intros fr c HP. unfold geos. by destruct (geos_call r c). Qed.

Lemma normal_last_error : preserves_normal (@ret_ok Loc) last_error_is_set.
Proof. by intros fr c HP. Qed.

Lemma normal_abort_or (bSkipFailures : bool) (recover : M (Frame Loc) unit) :
  preserves_normal ret_ok recover ->
  preserves_normal ret_ok (abort_or bSkipFailures recover).
Proof.
  intros Hr. unfold abort_or. destruct bSkipFailures; [exact Hr |].
  by intros fr c HP.
Qed.

Lemma normal_submit_feature (bSkipFailures : bool) (z : OGRFeature) :
  preserves_normal (@ret_ok Loc) (submit_feature E bSkipFailures z).
Proof.
  intros fr c HP. unfold submit_feature.
  destruct (CreateFeature E (f_result fr) z c) as [[ret R'] c'].
  destruct (bool_decide (ret = OGRERR_NONE)) eqn:Hret; simpl.
  - by apply bool_decide_eq_true in Hret.
  - by destruct bSkipFailures.
Qed.

End RetRules.

Ltac norm :=
  repeat
    match goal with
    | |- preserves_normal _ (mbind _ _) => apply normal_mbind; [| intros ?]
    | |- preserves_normal _ (mret _) => apply normal_mret
    | |- preserves_normal _ (jump _) => apply normal_jump
    | |- preserves_normal _ (cpl_do _) => apply normal_cpl_do
    | |- preserves_normal _ (when _ _) => apply normal_when
    | |- preserves_normal _ (geos _) => apply normal_geos
    | |- preserves_normal _ last_error_is_set => apply normal_last_error
    | |- preserves_normal _ get_loc => apply normal_get_loc
    | |- preserves_normal _ (set_loc _) => apply normal_set_loc
    | |- preserves_normal _ (set_ret OGRERR_NONE) => apply normal_set_ret_none
    | |- preserves_normal _ (abort_or _ _) => apply normal_abort_or
    | |- preserves_normal _ (submit_feature _ _ _) => apply normal_submit_feature
    | |- preserves_normal _ (if ?b then _ else _) => destruct b
    | |- preserves_normal _ (match ?x with _ => _ end) => destruct x
    end.

Section RetAtLoopHead.

Context (E : Collaborators).

Lemma feed_normal {St : Type} (P : St -> Prop) (body : OGRFeature -> M St unit)
    (L : OGRLayer) :
  (forall x, preserves_normal P (body x)) ->
  forall rows pos st c, P st ->
    match (feed E L body rows pos st c).1.1.1 with
    | FeedDone => True
    | _ => P (feed E L body rows pos st c).1.2
    end.
Proof.
  intros Hbody. induction rows as [| r rest IH]; intros pos st c HP; [exact HP |].
  simpl. destruct (passes_filters E L r c) as [[] c1]; [| by apply IH].
  specialize (Hbody r st c1 HP).
  destruct (body r st c1) as [[[[] | []] st'] c']; simpl in Hbody;
    try (by apply IH); done.
Qed.

Lemma range_for_normal {St : Type} (P : St -> Prop) (body : OGRFeature -> M St unit)
    (L : OGRLayer) (st : St) (c : CPLState) :
  (forall x, preserves_normal P (body x)) -> P st ->
  match (range_for E body L st c).1.1.1 with
  | LoopDone => True
  | LoopEnd => P (range_for E body L st c).1.2
  end.
Proof.
  intros Hbody HP. destruct (m_bInFeatureIterator L) eqn:Hflag.
  - by rewrite (range_for_busy E body L st c Hflag).
  - rewrite (range_for_feed E body L st c Hflag).
    pose proof (feed_normal P body L Hbody (drv_features L) 0 st c HP) as H.
    by destruct (feed E L body (drv_features L) 0 st c) as [[[[] pos'] st'] c'].
Qed.

Lemma normal_report_progress pfn pmax :
  preserves_normal ret_ok (report_progress pfn pmax).
Proof.
  unfold report_progress. destruct pfn as [pfn |]; [| apply normal_mret].
  intros fr c HP. destruct (progress_due _ _); [destruct (negb _) |]; done.
Qed.

Lemma normal_setup_filter bSkipFailures flt x :
  preserves_normal ret_ok (setup_filter E bSkipFailures flt x).
Proof.
  unfold setup_filter. norm.
  intros fr c HP. by destruct (set_filter_from E _ flt x c) as [[g L'] c'].
Qed.

Lemma normal_prepare_x {Loc : Type} b g :
  preserves_normal (@ret_ok Loc) (prepare_x E b g).
Proof. unfold prepare_x. norm. Qed.

Lemma normal_for_other {Loc : Type} (init : Loc)
    (body : OGRFeature -> M (Frame Loc) unit) :
  (forall y, preserves_normal ret_ok (body y)) ->
  preserves_normal ret_ok (for_other E init body).
Proof.
  intros Hbody fr c HP. unfold for_other.
  pose proof (range_for_normal ret_ok body (o_other (f_loc fr))
                (mkFrame init (f_result fr) (f_ret fr)) c Hbody HP) as H.
  by destruct (range_for E body _ _ c) as [[[[] L'] fr'] c'].
Qed.

Lemma normal_submit_leftover bSkipFailures bPromoteToMulti defn x map geom :
  preserves_normal ret_ok
    (submit_leftover E bSkipFailures bPromoteToMulti defn x map geom).
Proof. unfold submit_leftover. norm. Qed.

Lemma normal_subtract bSkipFailures recover y_geom :
  preserves_normal ret_ok recover ->
  preserves_normal ret_ok (subtract E bSkipFailures recover y_geom).
Proof. intros Hr. unfold subtract. norm. exact Hr. Qed.

Lemma normal_Intersection_pair b1 b2 b3 b4 defn mI mM x x_geom x_prep y :
  preserves_normal ret_ok
    (Intersection_pair E b1 b2 b3 b4 defn mI mM x x_geom x_prep y).
Proof.
  unfold Intersection_pair, Intersection_pretest, Intersection_compute. norm.
Qed.

Lemma normal_Union_pair b1 b2 b3 defn mI mM x x_geom x_prep y :
  preserves_normal ret_ok (Union_pair E b1 b2 b3 defn mI mM x x_geom x_prep y).
Proof.
  unfold Union_pair. norm; apply normal_subtract; norm.
Qed.

Lemma normal_Intersection_begin pfn pmax bSkipFailures flt bEnv sEnv x :
  preserves_normal ret_ok
    (Intersection_begin E pfn pmax bSkipFailures flt bEnv sEnv x).
Proof.
  unfold Intersection_begin. norm;
    first [apply normal_report_progress | apply normal_setup_filter].
Qed.

Lemma normal_begin_x pfn pmax bSkipFailures flt x :
  preserves_normal ret_ok (begin_x E pfn pmax bSkipFailures flt x).
Proof.
  unfold begin_x. norm; first [apply normal_report_progress | apply normal_setup_filter].
Qed.

Lemma normal_Intersection_x pfn pmax b1 b2 b3 b4 b5 flt bEnv sEnv defn mI mM x :
  preserves_normal ret_ok
    (Intersection_x E pfn pmax b1 b2 b3 b4 b5 flt bEnv sEnv defn mI mM x).
Proof.
  unfold Intersection_x. norm.
  - apply normal_Intersection_begin.
  - apply normal_prepare_x.
  - apply normal_for_other. intros y. apply normal_Intersection_pair.
Qed.

Lemma normal_Union_x pfn pmax b1 b2 b3 b4 flt defn mI mM x :
  preserves_normal ret_ok (Union_x E pfn pmax b1 b2 b3 b4 flt defn mI mM x).
Proof.
  unfold Union_x. norm.
  - apply normal_begin_x.
  - apply normal_prepare_x.
  - apply normal_for_other. intros y. apply normal_Union_pair.
  - apply normal_submit_leftover.
Qed.

End RetAtLoopHead.

(** ** The block [get resources] *)

Section YieldsRules.

Context {St : Type}.

Lemma yields_mret {A : Type} (P : St -> Prop) (a : A) :
  yields P (fun a' st => a' = a /\ P st) (mret a).
Proof. by intros st c HP. Qed.

Lemma yields_mbind {A B : Type} (P : St -> Prop) (Q : A -> St -> Prop)
    (R : B -> St -> Prop) (m : M St A) (k : A -> M St B) :
  yields P Q m -> (forall a, yields (Q a) R (k a)) -> yields P R (mbind m k).
Proof.
  intros Hm Hk st c HP. unfold mbind. specialize (Hm st c HP).
  destruct (m st c) as [[[a | j] st'] c']; simpl in Hm; [| done].
  by apply Hk.
Qed.

Lemma yields_weaken {A : Type} (P P' : St -> Prop) (Q Q' : A -> St -> Prop)
    (m : M St A) :
  yields P Q m -> (forall st, P' st -> P st) -> (forall a st, Q a st -> Q' a st) ->
  yields P' Q' m.
Proof.
  intros Hm HP HQ st c HP'. specialize (Hm st c (HP st HP')).
  destruct ((m st c).1.1); [by apply HQ | done].
Qed.

End YieldsRules.

Section ResourcesAtEntry.

Context (E : Collaborators) (this pLayerMethod pLayerResult : OGRLayer).

Lemma at_entry_start :
  at_entry this pLayerMethod pLayerResult
    (mkWorld this pLayerMethod pLayerResult OGRERR_NONE 0 0).
Proof.
  split; [done |]. split; [done |]. split; [| done].
  exists (drv_iNextShapeId pLayerMethod), (m_bInFeatureIterator pLayerMethod).
  split; [symmetry; apply moved_same | by intros ->].
Qed.

Lemma check_clone_entry (r : OGRErr) :
  yields (at_entry this pLayerMethod pLayerResult)
    (fun _ => at_entry this pLayerMethod pLayerResult) (check_clone r).
Proof.
  intros w c (_ & HP). unfold check_clone, mbind, w_set_ret, mmodify. simpl.
  destruct (bool_decide (r = OGRERR_NONE)) eqn:Hr; simpl; [| done].
  apply bool_decide_eq_true in Hr. by split.
Qed.

Lemma get_field_map_entry (poDefn : OGRFeatureDefn) :
  yields (at_entry this pLayerMethod pLayerResult)
    (fun _ => at_entry this pLayerMethod pLayerResult) (get_field_map E poDefn).
Proof.
  intros w c (_ & HP). unfold get_field_map.
  destruct (create_field_map E poDefn) as [r map].
  unfold mbind, w_set_ret, mmodify. simpl.
  destruct (bool_decide (r = OGRERR_NONE)) eqn:Hr; simpl; [| done].
  apply bool_decide_eq_true in Hr. by split.
Qed.

Lemma CreateField_rows (L : OGRLayer) (d : OGRFieldDefn) (c : CPLState) :
  drv_features (CreateField E L d c).1.2 = drv_features L.
Proof. unfold CreateField. by destruct (ICreateField_ok E L d). Qed.

Lemma create_fields_rows bSkipFailures pszPrefix others pszCollision fields :
  forall iField L map c,
    drv_features
      (create_fields E bSkipFailures pszPrefix others pszCollision fields iField
         L map c).1.1.2
    = drv_features L.
Proof.
  induction fields as [| d rest IH]; intros iField L map c; [done |].
  simpl.
  pose proof (CreateField_rows L
                (SetName d (created_field_name pszPrefix others pszCollision
                              (GetNameRef d))) c) as Hrows.
  destruct (CreateField E L _ c) as [[ret R1] c1]. simpl in Hrows.
  destruct (negb (bool_decide (ret = OGRERR_NONE)) && negb bSkipFailures);
    [exact Hrows |].
  by rewrite IH.
Qed.

Lemma set_result_schema_rows (L : OGRLayer) dI dM mI mM combined opts c :
  drv_features (set_result_schema E L dI dM mI mM combined opts c).1.1.1.2
  = drv_features L.
Proof.
  unfold set_result_schema.
  destruct (negb (CPLTestBool _)); [done |].
  destruct (0 <? GetFieldCount (GetLayerDefn L)).
  { by destruct mM as [m |], dM as [d |]. }
  set (others := match dM with Some _ => _ | None => _ end).
  destruct (CPLTestBool (CSLFetchNameValueDef opts "ADD_INPUT_FIELDS" "YES")).
  - pose proof (create_fields_rows
                  (CPLTestBool (CSLFetchNameValueDef opts "SKIP_FAILURES" "NO"))
                  (CSLFetchNameValue opts "INPUT_PREFIX") others "input_"
                  (apoFieldDefn dI) 0 L mI c) as H1.
    destruct (create_fields E _ _ others _ (apoFieldDefn dI) 0 L mI c)
      as [[[r1 R1] mI'] c1].
    simpl in H1. destruct r1 as [ret | ret]; [| exact H1].
    destruct (negb combined); [exact H1 |].
    destruct mM as [m |]; [| exact H1]. destruct dM as [d |]; [| exact H1].
    destruct (CPLTestBool _); [| exact H1].
    match goal with
    | |- context [create_fields E ?a ?b ?o ?p ?f 0 R1 ?mm c1] =>
        pose proof (create_fields_rows a b o p f 0 R1 mm c1) as H2;
        destruct (create_fields E a b o p f 0 R1 mm c1) as [[[r2 R2] mM'] c2]
    end.
    simpl in H2. simpl. congruence.
  - destruct (negb combined); [done |].
    destruct mM as [m |]; [| done]. destruct dM as [d |]; [| done].
    destruct (CPLTestBool _); [| done].
    match goal with
    | |- context [create_fields E ?a ?b ?o ?p ?f 0 L ?mm c] =>
        pose proof (create_fields_rows a b o p f 0 L mm c) as H2;
        destruct (create_fields E a b o p f 0 L mm c) as [[[r2 R2] mM'] c2]
    end.
    exact H2.
Qed.

Lemma get_result_schema_entry dI dM mI mM combined opts :
  yields (at_entry this pLayerMethod pLayerResult)
    (fun _ => at_entry this pLayerMethod pLayerResult)
    (get_result_schema E dI dM mI mM combined opts).
Proof.
  intros w c (_ & Hi & Hm & Hr & Hc & Hk). unfold get_result_schema.
  pose proof (set_result_schema_rows (w_result w) dI dM mI mM combined opts c) as Hrows.
  destruct (set_result_schema E _ _ _ _ _ _ _ c) as [[[[ret R'] m1] m2] c'].
  simpl in Hrows.
  destruct (bool_decide (ret = OGRERR_NONE)) eqn:Hret; simpl; [| done].
  apply bool_decide_eq_true in Hret. unfold at_entry. simpl.
  split; [done |]. split; [done |]. split; [exact Hm |]. split; [congruence | done].
Qed.

(** [GetExtent] leaves the flag of an idle layer down. *)
Lemma GetExtent_idle (L : OGRLayer) (iGeomField : Z) (bForce : bool) (c : CPLState) :
  exists pos b, (GetExtent E L iGeomField bForce c).1.2 = moved L pos b
                /\ (m_bInFeatureIterator L = false -> b = false).
Proof.
  unfold GetExtent.
  destruct (_ || _ || _).
  - exists (drv_iNextShapeId L), (m_bInFeatureIterator L). simpl.
    split; [symmetry; apply moved_same | done].
  - unfold IGetExtent. destruct (negb bForce).
    + exists (drv_iNextShapeId L), (m_bInFeatureIterator L). simpl.
      split; [symmetry; apply moved_same | done].
    + destruct (range_for_layer E (IGetExtent_step E iGeomField) L
                  (mkEnv 0%Q 0%Q 0%Q 0%Q, false) c) as [pos Hpos].
      destruct (range_for E _ L _ c) as [[[ex L'] [ext bSet]] c'].
      simpl in Hpos. subst L'. simpl. by exists 0%nat, false.
Qed.

Lemma w_method_extent_entry :
  yields (at_entry this pLayerMethod pLayerResult)
    (fun _ => at_entry this pLayerMethod pLayerResult) (w_method_extent E).
Proof.
  intros w c (Hret & Hi & (pos & b & Hm & Hb) & Hr & Hc & Hk). unfold w_method_extent.
  destruct (GetExtent_idle (w_method w) 0 true c) as (pos' & b' & Hpos & Hb').
  destruct (GetExtent E (w_method w) 0 true c) as [[[err ext] L'] c'].
  simpl in Hpos. subst L'. unfold at_entry. simpl.
  split; [done |]. split; [done |]. split; [| done].
  exists pos', b'. rewrite Hm, moved_moved. split; [done |].
  intros Hidle. apply Hb'. rewrite Hm. simpl. by apply Hb.
Qed.

Lemma Intersection_resources_entry opts :
  yields (at_entry this pLayerMethod pLayerResult)
    (fun r w => r_poDefnResult r = GetLayerDefn (w_result w)
                /\ at_entry this pLayerMethod pLayerResult w)
    (Intersection_resources E this pLayerMethod opts).
Proof.
  unfold Intersection_resources.
  eapply yields_mbind; [apply check_clone_entry | intros ?; simpl].
  eapply yields_mbind; [apply get_field_map_entry | intros mI; simpl].
  eapply yields_mbind; [apply get_field_map_entry | intros mM; simpl].
  eapply yields_mbind; [apply get_result_schema_entry | intros maps; simpl].
  intros w c HP. unfold mbind, w_get.
  pose proof (w_method_extent_entry w c HP) as H1. unfold w_method_extent in *.
  destruct (GetExtent E (w_method w) 0 true c) as [[[err ext] L'] c'].
  simpl in *. unfold w_resolve_keep_lower_dim. simpl.
  destruct (resolve_keep_lower_dim _ (w_result w) c') as [b c2]. simpl.
  split; [done | exact H1].
Qed.

Lemma Union_resources_entry opts :
  yields (at_entry this pLayerMethod pLayerResult)
    (fun r w => r_poDefnResult r = GetLayerDefn (w_result w)
                /\ at_entry this pLayerMethod pLayerResult w)
    (Union_resources E this pLayerMethod opts).
Proof.
  unfold Union_resources.
  eapply yields_mbind; [apply check_clone_entry | intros ?; simpl].
  eapply yields_mbind; [apply check_clone_entry | intros ?; simpl].
  eapply yields_mbind; [apply get_field_map_entry | intros mI; simpl].
  eapply yields_mbind; [apply get_field_map_entry | intros mM; simpl].
  eapply yields_mbind; [apply get_result_schema_entry | intros maps; simpl].
  intros w c HP. unfold mbind, w_get, w_resolve_keep_lower_dim. simpl.
  by destruct (resolve_keep_lower_dim _ (w_result w) c) as [b c2].
Qed.

Lemma Clip_resources_entry opts :
  yields (at_entry this pLayerMethod pLayerResult)
    (fun r w => r_poDefnResult r = GetLayerDefn (w_result w)
                /\ at_entry this pLayerMethod pLayerResult w)
    (Clip_resources E this pLayerMethod opts).
Proof.
  unfold Clip_resources.
  eapply yields_mbind; [apply check_clone_entry | intros ?; simpl].
  eapply yields_mbind; [apply get_field_map_entry | intros mI; simpl].
  eapply yields_mbind; [apply get_result_schema_entry | intros maps; simpl].
  by intros w c HP.
Qed.

Lemma Erase_resources_entry opts :
  yields (at_entry this pLayerMethod pLayerResult)
    (fun r w => r_poDefnResult r = GetLayerDefn (w_result w)
                /\ at_entry this pLayerMethod pLayerResult w)
    (Erase_resources E this pLayerMethod opts).
Proof.
  unfold Erase_resources.
  eapply yields_mbind; [apply check_clone_entry | intros ?; simpl].
  eapply yields_mbind; [apply get_field_map_entry | intros mI; simpl].
  eapply yields_mbind; [apply get_result_schema_entry | intros maps; simpl].
  by intros w c HP.
Qed.

End ResourcesAtEntry.

(** ** A loop that stops at a row *)

Section LoopStops.

Context (E : Collaborators).

Lemma feed_app {St : Type} (body : OGRFeature -> M St unit) (L : OGRLayer)
    (pre rest : list OGRFeature) :
  forall pos st c,
    feed E L body (pre ++ rest)%list pos st c
    = match feed E L body pre pos st c with
      | (FeedEnd, n, st1, c1) => feed E L body rest n st1 c1
      | other => other
      end.
Proof.
  induction pre as [| r pre' IH]; intros pos st c; [done |].
  simpl. destruct (passes_filters E L r c) as [[] c1]; [| by apply IH].
  destruct (body r st c1) as [[[[] | []] st'] c']; by try apply IH.
Qed.

Lemma feed_end_pos {St : Type} (body : OGRFeature -> M St unit) (L : OGRLayer)
    (rows : list OGRFeature) :
  forall pos st c n st' c',
    feed E L body rows pos st c = (FeedEnd, n, st', c') ->
    n = (pos + length rows)%nat.
Proof.
  induction rows as [| r rest IH]; intros pos st c n st' c' H; simpl in H.
  - injection H as <- _ _. simpl. lia.
  - simpl. destruct (passes_filters E L r c) as [[] c1].
    + destruct (body r st c1) as [[[[] | []] st1] c2];
        try (apply IH in H; lia); done.
    + apply IH in H. lia.
Qed.

Lemma for_input_feed (body : OGRFeature -> M (Frame OuterLoc) unit) (w : World)
    (c : CPLState) :
  m_bInFeatureIterator (w_input w) = false ->
  for_input E body w c
  = let '(ex, pos, fr, c') :=
      feed E (w_input w) body (drv_features (w_input w)) 0 (input_frame w) c in
    (match ex with FeedDone => Jmp JDone | _ => Val tt end,
     mkWorld (moved (w_input w) pos false) (o_other (f_loc fr)) (f_result fr)
       (f_ret fr) (o_counter (f_loc fr)) (o_calls (f_loc fr)),
     c').
Proof.
  intros Hflag. unfold for_input.
  change (mkFrame (mkOuter (w_method w) (w_counter w) (w_calls w))
            (w_result w) (w_ret w)) with (input_frame w).
  rewrite (range_for_feed E body (w_input w) (input_frame w) c Hflag).
  by destruct (feed E (w_input w) body (drv_features (w_input w)) 0 (input_frame w) c)
    as [[[[] pos] fr] c'].
Qed.

Lemma for_method_feed (body : OGRFeature -> M (Frame OuterLoc) unit) (w : World)
    (c : CPLState) :
  m_bInFeatureIterator (w_method w) = false ->
  for_method E body w c
  = let '(ex, pos, fr, c') :=
      feed E (w_method w) body (drv_features (w_method w)) 0
        (mkFrame (mkOuter (w_input w) (w_counter w) (w_calls w))
           (w_result w) (w_ret w)) c in
    (match ex with FeedDone => Jmp JDone | _ => Val tt end,
     mkWorld (o_other (f_loc fr)) (moved (w_method w) pos false) (f_result fr)
       (f_ret fr) (o_counter (f_loc fr)) (o_calls (f_loc fr)),
     c').
Proof.
  intros Hflag. unfold for_method.
  rewrite (range_for_feed E body (w_method w) _ c Hflag).
  by destruct (feed E (w_method w) body (drv_features (w_method w)) 0 _ c)
    as [[[[] pos] fr] c'].
Qed.

(** When the creation of the prepared geometry fails at [x], the loop
    ends there by [goto done], with [ret] still [OGRERR_NONE]; the rows
    behind [x] are not looked at. *)
Lemma prepare_failure_stops (L : OGRLayer)
    (head : OGRFeature -> M (Frame OuterLoc) OGRGeometry)
    (body : OGRFeature -> M (Frame OuterLoc) unit)
    (pre post : list OGRFeature) (x : OGRFeature) (fr fr2 : Frame OuterLoc)
    (c : CPLState) :
  (forall fr1 c1 x_geom fr' c',
     head x fr1 c1 = (Val x_geom, fr', c') ->
     OGRCreatePreparedGeometry E x_geom = None ->
     body x fr1 c1 = (Jmp JDone, fr', c')) ->
  (forall x', preserves_normal ret_ok (body x')) ->
  preserves_normal ret_ok (head x) ->
  ret_ok fr ->
  prepare_failure E L head body pre x fr c = Some fr2 ->
  ret_ok fr2
  /\ exists c', feed E L body (pre ++ x :: post)%list 0 fr c
                = (FeedDone, S (length pre), fr2, c').
Proof.
  intros Hstop Hbody Hhead Hret Hfail. unfold prepare_failure in Hfail.
  rewrite feed_app.
  pose proof (feed_normal E ret_ok body L Hbody pre 0 fr c Hret) as Hpre.
  pose proof (feed_end_pos body L pre 0 fr c) as Hpos.
  destruct (feed E L body pre 0 fr c) as [[[[] n] fr1] c1]; try done.
  simpl in Hpre. specialize (Hpos n fr1 c1 eq_refl). simpl in Hpos. subst n.
  simpl. destruct (passes_filters E L x c1) as [[] c2]; [| done].
  specialize (Hhead fr1 c2 Hpre).
  destruct (head x fr1 c2) as [[[x_geom | j] fr'] c'] eqn:Hx; [| done].
  simpl in Hhead.
  destruct (OGRCreatePreparedGeometry E x_geom) eqn:Hprep; [done |].
  injection Hfail as <-.
  rewrite (Hstop fr1 c2 x_geom fr' c' Hx Hprep). split; [exact Hhead |].
  by exists c'.
Qed.

Lemma Intersection_x_prepare_fails pfn pmax b1 b2 b4 b5 flt bEnv sEnv defn mI mM x
    fr1 c1 x_geom fr' c' :
  Intersection_begin E pfn pmax b1 flt bEnv sEnv x fr1 c1 = (Val x_geom, fr', c') ->
  OGRCreatePreparedGeometry E x_geom = None ->
  Intersection_x E pfn pmax b1 b2 true b4 b5 flt bEnv sEnv defn mI mM x fr1 c1
  = (Jmp JDone, fr', c').
Proof.
  intros Hx Hprep. unfold Intersection_x, mbind. rewrite Hx.
  unfold prepare_x. by rewrite Hprep.
Qed.

Lemma Union_x_prepare_fails pfn pmax b1 b2 b4 flt defn mI mM x
    fr1 c1 x_geom fr' c' :
  begin_x E pfn pmax b1 flt x fr1 c1 = (Val x_geom, fr', c') ->
  OGRCreatePreparedGeometry E x_geom = None ->
  Union_x E pfn pmax b1 b2 true b4 flt defn mI mM x fr1 c1 = (Jmp JDone, fr', c').
Proof.
  intros Hx Hprep. unfold Union_x, mbind. rewrite Hx.
  unfold prepare_x. by rewrite Hprep.
Qed.

Lemma restore_method_filter_rest (F : option OGRGeometry) (w : World) (c : CPLState) :
  let w' := (restore_method_filter E F w c).1.2 in
  w_input w' = w_input w /\ w_result w' = w_result w /\ w_ret w' = w_ret w
  /\ w_counter w' = w_counter w /\ w_calls w' = w_calls w.
Proof.
  unfold restore_method_filter.
  by destruct (SetSpatialFilter0 E (w_method w) (ptr_of F) c) as [[e L'] c'].
Qed.

Lemma restore_input_filter_rest (F : option OGRGeometry) (w : World) (c : CPLState) :
  let w' := (restore_input_filter E F w c).1.2 in
  w_method w' = w_method w /\ w_result w' = w_result w /\ w_ret w' = w_ret w
  /\ w_counter w' = w_counter w /\ w_calls w' = w_calls w.
Proof.
  unfold restore_input_filter.
  by destruct (SetSpatialFilter0 E (w_input w) (ptr_of F) c) as [[e L'] c'].
Qed.

Lemma Intersection_prepare_failure this pLayerMethod pLayerResult opts pfn c
    r w c1 pre x post fr :
  haveGEOS E = true ->
  opt_bool opts "USE_PREPARED_GEOMETRIES" "YES" = true ->
  m_bInFeatureIterator this = false ->
  drv_features this = (pre ++ x :: post)%list ->
  Intersection_resources E this pLayerMethod opts
    (mkWorld this pLayerMethod pLayerResult OGRERR_NONE 0 0) c = (Val r, w, c1) ->
  prepare_failure E this (Intersection_head E this pLayerMethod opts pfn c r)
    (Intersection_body E this pLayerMethod opts pfn c r) pre x (input_frame w) c1
  = Some fr ->
  let res := OGRLayer_Intersection E this pLayerMethod pLayerResult opts pfn c in
  f_ret fr = OGRERR_NONE
  /\ res.1.1 = OGRERR_NONE
  /\ w_result res.1.2 = f_result fr
  /\ w_counter res.1.2 = o_counter (f_loc fr)
  /\ w_calls res.1.2 = o_calls (f_loc fr)
  /\ drv_iNextShapeId (w_input res.1.2) = S (length pre).
Proof.
  intros HGEOS Hprep Hflag Hrows Hres Hfail.
  pose proof (Intersection_resources_entry E this pLayerMethod pLayerResult opts
                _ c (at_entry_start this pLayerMethod pLayerResult)) as Hentry.
  rewrite Hres in Hentry. simpl in Hentry.
  destruct Hentry as (_ & Hret & Hin & _).
  assert (Hstop : ret_ok fr
                  /\ exists c', feed E this
                                  (Intersection_body E this pLayerMethod opts pfn c r)
                                  (pre ++ x :: post)%list 0 (input_frame w) c1
                                = (FeedDone, S (length pre), fr, c')).
  { apply (prepare_failure_stops this
             (Intersection_head E this pLayerMethod opts pfn c r)); try done.
    - intros fr1 c2 x_geom fr' c' Hx Hnone.
      unfold Intersection_body. rewrite Hprep.
      by apply (Intersection_x_prepare_fails _ _ _ _ _ _ _ _ _ _ _ _ _ _ _ x_geom).
    - intros x'. apply normal_Intersection_x.
    - apply normal_Intersection_begin. }
  destruct Hstop as (Hok & c' & Hfeed). intros res.
  assert (Hrun : exists w' c3,
             res = (w_ret w', w', c3)
             /\ w_input w' = moved this (S (length pre)) false
             /\ w_result w' = f_result fr /\ w_ret w' = f_ret fr
             /\ w_counter w' = o_counter (f_loc fr)
             /\ w_calls w' = o_calls (f_loc fr)).
  { subst res. unfold OGRLayer_Intersection. rewrite HGEOS. simpl negb. cbv iota zeta.
    unfold mbind at 1. rewrite Hres. unfold mbind at 1.
    rewrite for_input_feed by (by rewrite Hin).
    rewrite Hin, Hrows.
    unfold Intersection_body in Hfeed. rewrite Hfeed.
    match goal with
    | |- context [restore_method_filter E ?F ?w1 ?c2] =>
        pose proof (restore_method_filter_rest F w1 c2) as Hdone;
        destruct (restore_method_filter E F w1 c2) as [[? w'] c3]
    end.
    by exists w', c3. }
  destruct Hrun as (w' & c3 & -> & H1 & H2 & H3 & H4 & H5). simpl.
  rewrite H1, H2, H3, H4, H5. by repeat split.
Qed.

Lemma Union_prepare_failure this pLayerMethod pLayerResult opts pfn c
    r w c1 pre x post fr :
  haveGEOS E = true ->
  opt_bool opts "USE_PREPARED_GEOMETRIES" "YES" = true ->
  m_bInFeatureIterator this = false ->
  drv_features this = (pre ++ x :: post)%list ->
  Union_resources E this pLayerMethod opts
    (mkWorld this pLayerMethod pLayerResult OGRERR_NONE 0 0) c = (Val r, w, c1) ->
  prepare_failure E this (Union_head E this pLayerMethod opts pfn c)
    (Union_body E this pLayerMethod opts pfn c r) pre x (input_frame w) c1
  = Some fr ->
  let res := OGRLayer_Union E this pLayerMethod pLayerResult opts pfn c in
  f_ret fr = OGRERR_NONE
  /\ res.1.1 = OGRERR_NONE
  /\ w_result res.1.2 = f_result fr
  /\ w_counter res.1.2 = o_counter (f_loc fr)
  /\ w_calls res.1.2 = o_calls (f_loc fr).
Proof.
  intros HGEOS Hprep Hflag Hrows Hres Hfail.
  pose proof (Union_resources_entry E this pLayerMethod pLayerResult opts
                _ c (at_entry_start this pLayerMethod pLayerResult)) as Hentry.
  rewrite Hres in Hentry. simpl in Hentry.
  destruct Hentry as (_ & Hret & Hin & _).
  assert (Hstop : ret_ok fr
                  /\ exists c', feed E this
                                  (Union_body E this pLayerMethod opts pfn c r)
                                  (pre ++ x :: post)%list 0 (input_frame w) c1
                                = (FeedDone, S (length pre), fr, c')).
  { apply (prepare_failure_stops this (Union_head E this pLayerMethod opts pfn c));
      try done.
    - intros fr1 c2 x_geom fr' c' Hx Hnone.
      unfold Union_body. rewrite Hprep.
      by apply (Union_x_prepare_fails _ _ _ _ _ _ _ _ _ _ _ _ x_geom).
    - intros x'. apply normal_Union_x.
    - apply normal_begin_x. }
  destruct Hstop as (Hok & c' & Hfeed). intros res.
  assert (Hrun : exists w' c3,
             res = (w_ret w', w', c3)
             /\ w_result w' = f_result fr /\ w_ret w' = f_ret fr
             /\ w_counter w' = o_counter (f_loc fr)
             /\ w_calls w' = o_calls (f_loc fr)).
  { subst res. unfold OGRLayer_Union. rewrite HGEOS. simpl negb. cbv iota zeta.
    unfold mbind at 1. rewrite Hres. unfold mbind at 1.
    rewrite for_input_feed by (by rewrite Hin).
    rewrite Hin, Hrows.
    unfold Union_body in Hfeed. rewrite Hfeed.
    match goal with
    | |- context [restore_input_filter E ?F ?w1 ?c2] =>
        pose proof (restore_input_filter_rest F w1 c2) as Hdone1;
        destruct (restore_input_filter E F w1 c2) as [[? w'] c3]
    end.
    match goal with
    | |- context [restore_method_filter E ?F ?w1 ?c2] =>
        pose proof (restore_method_filter_rest F w1 c2) as Hdone2;
        destruct (restore_method_filter E F w1 c2) as [[? w''] c4]
    end.
    simpl in Hdone1, Hdone2.
    destruct Hdone1 as (_ & G2 & G3 & G4 & G5).
    destruct Hdone2 as (_ & H2 & H3 & H4 & H5).
    exists w'', c4. rewrite H2, H3, H4, H5, G2, G3, G4, G5. by repeat split. }
  destruct Hrun as (w' & c3 & -> & H2 & H3 & H4 & H5). simpl.
  rewrite H2, H3, H4, H5. by repeat split.
Qed.

End LoopStops.

(** C9.  [Intersection] and [Union] with [USE_PREPARED_GEOMETRIES] on:
    when the outer loop comes to an input feature [x] for which no
    prepared geometry can be made, the operation leaves for [done:] at
    once.  The variable [ret] holds [OGRERR_NONE] at that moment, and
    that is the status returned; the result layer, the progress counter
    and the number of calls made to the progress callback are those of
    that moment, so no feature behind [x] is processed (for
    [Intersection] the cursor of the input layer stands right behind
    [x]), and the result holds what the features before [x] gave.  The
    option is on when it is not given. *)
Theorem C9_prepared_failure_returns_success :
  forall (E : Collaborators) (this pLayerMethod pLayerResult : OGRLayer)
         (papszOptions : CSLConstList) (pfnProgress : option GDALProgressFunc)
         (c : CPLState) (pre post : list OGRFeature) (x : OGRFeature),
    haveGEOS E = true ->
    opt_bool papszOptions "USE_PREPARED_GEOMETRIES" "YES" = true ->
    m_bInFeatureIterator this = false ->
    drv_features this = (pre ++ x :: post)%list ->
    opt_bool [] "USE_PREPARED_GEOMETRIES" "YES" = true
    /\ (forall r w c1 fr,
          Intersection_resources E this pLayerMethod papszOptions
            (mkWorld this pLayerMethod pLayerResult OGRERR_NONE 0 0) c
          = (Val r, w, c1) ->
          prepare_failure E this
            (Intersection_head E this pLayerMethod papszOptions pfnProgress c r)
            (Intersection_body E this pLayerMethod papszOptions pfnProgress c r)
            pre x (input_frame w) c1
          = Some fr ->
          let res := OGRLayer_Intersection E this pLayerMethod pLayerResult
                       papszOptions pfnProgress c in
          f_ret fr = OGRERR_NONE
          /\ res.1.1 = OGRERR_NONE
          /\ w_result res.1.2 = f_result fr
          /\ w_counter res.1.2 = o_counter (f_loc fr)
          /\ w_calls res.1.2 = o_calls (f_loc fr)
          /\ drv_iNextShapeId (w_input res.1.2) = S (length pre))
    /\ (forall r w c1 fr,
          Union_resources E this pLayerMethod papszOptions
            (mkWorld this pLayerMethod pLayerResult OGRERR_NONE 0 0) c
          = (Val r, w, c1) ->
          prepare_failure E this
            (Union_head E this pLayerMethod papszOptions pfnProgress c)
            (Union_body E this pLayerMethod papszOptions pfnProgress c r)
            pre x (input_frame w) c1
          = Some fr ->
          let res := OGRLayer_Union E this pLayerMethod pLayerResult
                       papszOptions pfnProgress c in
          f_ret fr = OGRERR_NONE
          /\ res.1.1 = OGRERR_NONE
          /\ w_result res.1.2 = f_result fr
          /\ w_counter res.1.2 = o_counter (f_loc fr)
          /\ w_calls res.1.2 = o_calls (f_loc fr)).
Proof.
  intros E this pLayerMethod pLayerResult opts pfn c pre post x HGEOS Hprep Hflag Hrows.
  split; [reflexivity |]. split.
  - intros r w c1 fr Hres Hfail.
    by apply (Intersection_prepare_failure E this pLayerMethod pLayerResult opts pfn c
                r w c1 pre x post fr).
  - intros r w c1 fr Hres Hfail.
    by apply (Union_prepare_failure E this pLayerMethod pLayerResult opts pfn c
                r w c1 pre x post fr).
Qed.

(** On three squares A, B and C against one long square, with a kernel
    that cannot prepare B: both operations return [OGRERR_NONE] with the
    one intersection A gave ([Union] also has the rest of A); C is never
    looked at. *)
Lemma C9_prepared_failure_returns_success_witness :
  let E := Box.kernel_preparing_left_of 18 in
  let I := OGRLayer_Intersection E three_squares long_square empty_result [] None
             cpl_initial in
  let U := OGRLayer_Union E three_squares long_square empty_result [] None
             cpl_initial in
  (I.1.1 = OGRERR_NONE
   /\ length (drv_features (w_result I.1.2)) = 1%nat
   /\ drv_iNextShapeId (w_input I.1.2) = 2%nat)
  /\ (U.1.1 = OGRERR_NONE /\ length (drv_features (w_result U.1.2)) = 2%nat).
Proof.
  cbv zeta.
  destruct (C9_prepared_failure_returns_success (Box.kernel_preparing_left_of 18)
              three_squares long_square empty_result [] None cpl_initial
              [Box.row 0 "A" (Some (Box.square 0 10))]
              [Box.row 2 "C" (Some (Box.square 12 16))]
              (Box.row 1 "B" (Some (Box.square 20 30)))
              eq_refl eq_refl eq_refl eq_refl) as (_ & HI & HU).
  split.
  - edestruct HI as (_ & H1 & H2 & _ & _ & H3).
    + vm_compute. reflexivity.
    + vm_compute. reflexivity.
    + split; [exact H1 |]. split; [| exact H3].
      rewrite H2. reflexivity.
  - edestruct HU as (_ & H1 & H2 & _).
    + vm_compute. reflexivity.
    + vm_compute. reflexivity.
    + split; [exact H1 |]. rewrite H2. reflexivity.
Defined.

(** ** A method layer without rows *)

Section NoMethodRows.

Context (E : Collaborators).

Lemma SetSpatialFilter_rows (L : OGRLayer) (iGeomField : Z)
    (poFilter : OGRGeometryPtr) (c : CPLState) :
  drv_features (SetSpatialFilter E L iGeomField poFilter c).1.2 = drv_features L.
Proof.
  unfold SetSpatialFilter.
  destruct (if iGeomField =? 0 then _ else _) as [[] c1]; [| done].
  unfold ISetSpatialFilter.
  by destruct (InstallFilter_layer E (set_iGeomFieldFilter L iGeomField) poFilter)
    as [-> | (b & g & p & e & ->)].
Qed.

Lemma set_filter_from_rows (L : OGRLayer) (flt : option OGRGeometry) (x : OGRFeature)
    (c : CPLState) :
  drv_features (set_filter_from E L flt x c).1.2 = drv_features L.
Proof.
  unfold set_filter_from. destruct (GetGeometryRef x) as [geom |]; [| done].
  destruct flt as [f |].
  - destruct (geos_call (geom_Intersects E geom f) c) as [[] c1]; [| done].
    cbn [negb]. destruct (geos_call (geom_Intersection E geom f) c1) as [[g |] c2];
      [| done].
    pose proof (SetSpatialFilter_rows L 0 (ptr_to g) c2) as H.
    unfold SetSpatialFilter0. by destruct (SetSpatialFilter E L 0 (ptr_to g) c2) as [[? ?] ?].
  - pose proof (SetSpatialFilter_rows L 0 (ptr_to geom) c) as H.
    unfold SetSpatialFilter0.
    by destruct (SetSpatialFilter E L 0 (ptr_to geom) c) as [[? ?] ?].
Qed.

Lemma report_progress_no_pairs rows pfn pmax :
  preserves (no_pairs rows) (report_progress pfn pmax).
Proof.
  unfold report_progress. destruct pfn as [pfn |]; [| apply preserves_mret].
  intros fr c HP. destruct (progress_due _ _); [destruct (negb _) |]; exact HP.
Qed.

Lemma setup_filter_no_pairs rows bSkipFailures flt x :
  preserves (no_pairs rows) (setup_filter E bSkipFailures flt x).
Proof.
  unfold setup_filter. keep.
  intros fr c [Hr Ho].
  pose proof (set_filter_from_rows (o_other (f_loc fr)) flt x c) as H.
  destruct (set_filter_from E _ flt x c) as [[g L'] c']. simpl in *.
  split; [done | simpl; congruence].
Qed.

Lemma begin_x_no_pairs rows pfn pmax bSkipFailures flt x :
  preserves (no_pairs rows) (begin_x E pfn pmax bSkipFailures flt x).
Proof.
  unfold begin_x. apply preserves_mbind;
    [apply report_progress_no_pairs | intros ?; apply setup_filter_no_pairs].
Qed.

Lemma Intersection_begin_no_pairs rows pfn pmax bSkipFailures flt bEnv sEnv x :
  preserves (no_pairs rows)
    (Intersection_begin E pfn pmax bSkipFailures flt bEnv sEnv x).
Proof.
  unfold Intersection_begin. keep;
    first [apply report_progress_no_pairs | apply setup_filter_no_pairs].
Qed.

(** Without rows in the other layer the inner loop runs no body. *)
Lemma for_other_no_rows {Loc : Type} (init : Loc)
    (body : OGRFeature -> M (Frame Loc) unit) (fr : Frame OuterLoc) (c : CPLState) :
  drv_features (o_other (f_loc fr)) = [] ->
  exists pos c',
    for_other E init body fr c
    = (Val init,
       mkFrame (mkOuter (moved (o_other (f_loc fr)) pos false)
                  (o_counter (f_loc fr)) (o_calls (f_loc fr)))
         (f_result fr) (f_ret fr), c').
Proof.
  intros Hrows. unfold for_other.
  destruct (range_for_no_rows E body (o_other (f_loc fr))
              (mkFrame init (f_result fr) (f_ret fr)) c Hrows) as (pos & c' & ->).
  by exists pos, c'.
Qed.

Lemma Intersection_x_no_pairs rows pfn pmax b1 b2 b3 b4 b5 flt bEnv sEnv defn mI mM x :
  preserves (no_pairs rows)
    (Intersection_x E pfn pmax b1 b2 b3 b4 b5 flt bEnv sEnv defn mI mM x).
Proof.
  intros fr c HP. unfold Intersection_x, mbind.
  pose proof (Intersection_begin_no_pairs rows pfn pmax b1 flt bEnv sEnv x fr c HP)
    as H1.
  destruct (Intersection_begin E pfn pmax b1 flt bEnv sEnv x fr c)
    as [[[x_geom | j] fr1] c1]; simpl in H1; [| exact H1].
  unfold prepare_x.
  destruct b3; [destruct (OGRCreatePreparedGeometry E x_geom); [| exact H1] |];
    simpl;
    match goal with
    | |- context [for_other E tt ?body fr1 c1] =>
        destruct (for_other_no_rows tt body fr1 c1 (proj2 H1)) as (pos & c' & ->)
    end; exact H1.
Qed.

Lemma Clip_x_no_pairs rows pfn pmax b1 b2 flt defn mI x :
  preserves (no_pairs rows) (Clip_x E pfn pmax b1 b2 flt defn mI x).
Proof.
  intros fr c HP. unfold Clip_x, mbind.
  pose proof (begin_x_no_pairs rows pfn pmax b1 flt x fr c HP) as H1.
  destruct (begin_x E pfn pmax b1 flt x fr c) as [[[x_geom | j] fr1] c1];
    simpl in H1; [| exact H1].
  destruct (for_other_no_rows None (Clip_pair E b1) fr1 c1 (proj2 H1))
    as (pos & c' & ->).
  exact H1.
Qed.

Lemma for_input_no_method_rows rows (body : OGRFeature -> M (Frame OuterLoc) unit) :
  (forall x, preserves (no_pairs rows) (body x)) ->
  preserves (no_method_rows rows) (for_input E body).
Proof.
  intros Hbody w c HP. unfold for_input.
  pose proof (range_for_preserves E (no_pairs rows) body (w_input w)
                (mkFrame (mkOuter (w_method w) (w_counter w) (w_calls w))
                   (w_result w) (w_ret w)) c Hbody HP) as H.
  destruct (range_for E body (w_input w) _ c) as [[[ex L'] fr] c'].
  by destruct ex.
Qed.

Lemma check_clone_no_method_rows rows r :
  preserves (no_method_rows rows) (check_clone r).
Proof. intros w c HP. unfold check_clone, mbind. simpl. by destruct (negb _). Qed.

Lemma get_field_map_no_method_rows rows poDefn :
  preserves (no_method_rows rows) (get_field_map E poDefn).
Proof.
  intros w c HP. unfold get_field_map. destruct (create_field_map E poDefn).
  unfold mbind. simpl. by destruct (negb _).
Qed.

Lemma get_result_schema_no_method_rows rows dI dM mI mM combined opts :
  preserves (no_method_rows rows) (get_result_schema E dI dM mI mM combined opts).
Proof.
  intros w c [Hr Hm]. unfold get_result_schema.
  pose proof (set_result_schema_rows E (w_result w) dI dM mI mM combined opts c) as H.
  destruct (set_result_schema E _ _ _ _ _ _ _ c) as [[[[ret R'] m1] m2] c'].
  simpl in H. destruct (negb _); (split; [simpl; congruence | done]).
Qed.

Lemma w_method_extent_no_method_rows rows :
  preserves (no_method_rows rows) (w_method_extent E).
Proof.
  intros w c [Hr Hm]. unfold w_method_extent.
  destruct (GetExtent_moved E (w_method w) 0 true c) as (pos & b & Hpos).
  destruct (GetExtent E (w_method w) 0 true c) as [[[err ext] L'] c'].
  simpl in Hpos. subst L'. by split.
Qed.

Lemma w_resolve_keep_lower_dim_no_method_rows rows b :
  preserves (no_method_rows rows) (w_resolve_keep_lower_dim b).
Proof.
  intros w c HP. unfold w_resolve_keep_lower_dim.
  by destruct (resolve_keep_lower_dim b (w_result w) c).
Qed.

Lemma final_progress_no_method_rows rows pfn :
  preserves (no_method_rows rows) (final_progress pfn).
Proof.
  unfold final_progress. destruct pfn as [pfn |]; [| apply preserves_mret].
  intros w c HP. by destruct (negb _).
Qed.

Lemma restore_method_filter_rows (F : option OGRGeometry) (w : World) (c : CPLState) :
  w_result (restore_method_filter E F w c).1.2 = w_result w.
Proof.
  unfold restore_method_filter.
  by destruct (SetSpatialFilter0 E (w_method w) (ptr_of F) c) as [[e L'] c'].
Qed.

Lemma Intersection_no_method_rows this pLayerMethod pLayerResult opts pfn c :
  drv_features pLayerMethod = [] ->
  drv_features
    (w_result (OGRLayer_Intersection E this pLayerMethod pLayerResult opts pfn c).1.2)
  = drv_features pLayerResult.
Proof.
  intros Hrows. unfold OGRLayer_Intersection.
  destruct (haveGEOS E); [| done]. simpl negb. cbv iota zeta.
  match goal with
  | |- context [mbind ?a ?b ?w0 c] =>
      assert (Hmain : preserves (no_method_rows (drv_features pLayerResult))
                        (mbind a b));
      [| specialize (Hmain w0 c (conj eq_refl Hrows));
         destruct (mbind a b w0 c) as [[r w] c1] ]
  end.
  { unfold Intersection_resources.
    repeat (apply preserves_mbind; [| intros ?]);
      first [ apply check_clone_no_method_rows | apply get_field_map_no_method_rows
            | apply get_result_schema_no_method_rows
            | apply w_method_extent_no_method_rows
            | apply w_resolve_keep_lower_dim_no_method_rows
            | apply final_progress_no_method_rows
            | apply preserves_mret
            | intros ? ? HP; exact HP
            | apply for_input_no_method_rows; intros x;
              apply Intersection_x_no_pairs ]. }
  pose proof (restore_method_filter_rows (clone_spatial_filter pLayerMethod).2 w c1) as H.
  destruct (restore_method_filter E _ w c1) as [[? w'] c2]. simpl in *.
  rewrite H. apply Hmain.
Qed.

Lemma Clip_no_method_rows this pLayerMethod pLayerResult opts pfn c :
  drv_features pLayerMethod = [] ->
  drv_features (w_result (OGRLayer_Clip E this pLayerMethod pLayerResult opts pfn c).1.2)
  = drv_features pLayerResult.
Proof.
  intros Hrows. unfold OGRLayer_Clip.
  destruct (haveGEOS E); [| done]. simpl negb. cbv iota zeta.
  match goal with
  | |- context [mbind ?a ?b ?w0 c] =>
      assert (Hmain : preserves (no_method_rows (drv_features pLayerResult))
                        (mbind a b));
      [| specialize (Hmain w0 c (conj eq_refl Hrows));
         destruct (mbind a b w0 c) as [[r w] c1] ]
  end.
  { unfold Clip_resources.
    repeat (apply preserves_mbind; [| intros ?]);
      first [ apply check_clone_no_method_rows | apply get_field_map_no_method_rows
            | apply get_result_schema_no_method_rows
            | apply final_progress_no_method_rows
            | apply preserves_mret
            | intros ? ? HP; exact HP
            | apply for_input_no_method_rows; intros x; apply Clip_x_no_pairs ]. }
  pose proof (restore_method_filter_rows (clone_spatial_filter pLayerMethod).2 w c1) as H.
  destruct (restore_method_filter E _ w c1) as [[? w'] c2]. simpl in *.
  rewrite H. apply Hmain.
Qed.

End NoMethodRows.

(** ** Input features that meet nothing *)

Section Leftovers.

Context (E : Collaborators).

Lemma quiet_moved (L : OGRLayer) (pos : nat) : quiet L -> quiet (moved L pos false).
Proof. by intros (H1 & H2 & H3). Qed.

Lemma SetSpatialFilter0_quiet (L : OGRLayer) (poFilter : OGRGeometryPtr)
    (c : CPLState) :
  quiet L ->
  exists L', SetSpatialFilter0 E L poFilter c = (OGRERR_NONE, L', c) /\ quiet L'.
Proof.
  intros (H1 & H2 & H3). unfold SetSpatialFilter0, SetSpatialFilter.
  change (0 =? 0) with true. cbv iota.
  assert (Hval : (match pointee L poFilter with
                  | Some _ =>
                      ValidateGeometryFieldIndexForSetSpatialFilter L 0
                        (pointee L poFilter) false c
                  | None => (true, c)
                  end) = (true, c)).
  { destruct (pointee L poFilter) as [g |]; [| done].
    unfold ValidateGeometryFieldIndexForSetSpatialFilter.
    rewrite (bool_decide_eq_true_2 (is_Some (Some g))) by eauto.
    change (0 =? 0) with true. cbn [negb andb].
    replace (0 >=? GetGeomFieldCount (GetLayerDefn L)) with false; [done |].
    symmetry. rewrite Z.geb_leb. apply Z.leb_gt. exact H3. }
  rewrite Hval. unfold ISetSpatialFilter.
  destruct (InstallFilter_layer E (set_iGeomFieldFilter L 0) poFilter)
    as [-> | (b & g & p & e & ->)];
    eexists; (split; [reflexivity | by repeat split]).
Qed.

Lemma report_progress_continues pfn pmax (fr : Frame OuterLoc) (c : CPLState) :
  progress_continues pfn ->
  exists n k,
    report_progress pfn pmax fr c
    = (Val tt,
       mkFrame (mkOuter (o_other (f_loc fr)) n k) (f_result fr) (f_ret fr), c).
Proof.
  intros Hpfn. unfold report_progress. destruct pfn as [f |].
  - destruct (progress_due _ _).
    + rewrite (Hpfn f eq_refl). simpl. eauto.
    + eauto.
  - exists (o_counter (f_loc fr)), (o_calls (f_loc fr)). by destruct fr as [[] ? ?].
Qed.

(** The head of the body on a quiet other layer with no filter of its
    own: it leaves by [continue] when [x] has no geometry and yields the
    geometry otherwise; the result layer and [ret] are as before. *)
Lemma begin_x_quiet pfn pmax bSkipFailures x (R : OGRLayer) (acc : list OGRFeature)
    (fr : Frame OuterLoc) (c : CPLState) :
  progress_continues pfn -> leftover_state E R acc fr ->
  exists fr' c',
    begin_x E pfn pmax bSkipFailures None x fr c
    = (match GetGeometryRef x with Some g => Val g | None => Jmp JContinue end,
       fr', c')
    /\ leftover_state E R acc fr' /\ f_result fr' = f_result fr.
Proof.
  intros Hpfn (Hret & Hacc & Hconv & Hq). unfold begin_x, mbind.
  destruct (report_progress_continues pfn pmax fr c Hpfn) as (n & k & ->).
  unfold setup_filter, mbind, cpl_do, set_filter_from, last_error_is_set. simpl.
  destruct (GetGeometryRef x) as [g |].
  - destruct (SetSpatialFilter0_quiet (o_other (f_loc fr)) (ptr_to g) (CPLErrorReset c)
                Hq) as (L' & -> & Hq').
    rewrite (bool_decide_eq_true_2 (CPLGetLastErrorType (CPLErrorReset c) = CE_None))
      by done.
    simpl. eexists _, _. split; [reflexivity |]. by split.
  - rewrite (bool_decide_eq_true_2 (CPLGetLastErrorType (CPLErrorReset c) = CE_None))
      by done.
    simpl. eexists _, _. split; [reflexivity |]. by split.
Qed.

Lemma for_other_quiet {Loc : Type} (init : Loc)
    (body : OGRFeature -> M (Frame Loc) unit) (fr : Frame OuterLoc) (c : CPLState) :
  quiet (o_other (f_loc fr)) ->
  for_other E init body fr c
  = (Val init,
     mkFrame (mkOuter (moved (o_other (f_loc fr)) 0 false)
                (o_counter (f_loc fr)) (o_calls (f_loc fr)))
       (f_result fr) (f_ret fr), c).
Proof.
  intros (H1 & H2 & H3). unfold for_other.
  by rewrite (range_for_no_rows_idle E body (o_other (f_loc fr)) _ c H1 H2).
Qed.

(** An accepted feature without identifier is stored as the result
    layer converts it. *)
Lemma submit_feature_stored {Loc : Type} bSkipFailures (z : OGRFeature)
    (R : OGRLayer) (fr : Frame Loc) (c : CPLState) :
  (forall L f, ICreateFeature_ok E L f = true) ->
  nFID z = OGRNullFID ->
  converts_as E R (f_result fr) ->
  exists R',
    submit_feature E bSkipFailures z fr c
    = (Val tt, mkFrame (f_loc fr) R' OGRERR_NONE, c)
    /\ drv_features R' = stored (drv_features (f_result fr)) [converted E R z]
    /\ converts_as E R R'.
Proof.
  intros Hok Hfid Hconv. unfold submit_feature.
  rewrite CreateFeature_converted. unfold ICreateFeature.
  rewrite Hok, converted_fid, Hfid, Z.eqb_refl. simpl.
  eexists. split; [reflexivity |]. split.
  - simpl. rewrite ConvertGeoms_init_rows, (converted_as E R _ z Hconv).
    unfold stored. simpl. by rewrite converted_fields.
  - by apply converts_as_stored.
Qed.

Lemma leftover_feature_fid bPromoteToMulti defn map x g :
  nFID (leftover_feature E bPromoteToMulti defn map x g) = OGRNullFID.
Proof. unfold leftover_feature, SetFieldsFrom. by destruct map. Qed.

Lemma stored_app (rows zs1 zs2 : list OGRFeature) :
  stored rows (zs1 ++ zs2)%list = stored (stored rows zs1) zs2.
Proof. unfold stored. apply fold_left_app. Qed.

(** One row of [Erase] against a quiet method layer. *)
Lemma Erase_x_leftover pfn pmax bSkipFailures bPromoteToMulti defn map x
    (R : OGRLayer) (acc : list OGRFeature) (fr : Frame OuterLoc) (c : CPLState) :
  progress_continues pfn ->
  (forall L f, ICreateFeature_ok E L f = true) ->
  leftover_state E R acc fr ->
  let r := Erase_x E pfn pmax bSkipFailures bPromoteToMulti None defn map x fr c in
  (r.1.1 = Val tt \/ r.1.1 = Jmp JContinue)
  /\ leftover_state E R
       (stored acc
          (option_list (converted E R
                          <$> (leftover_feature E bPromoteToMulti defn map x
                                 <$> with_area E x))))
       r.1.2.
Proof.
  intros Hpfn Hok Hst r. subst r. unfold Erase_x, mbind.
  destruct (begin_x_quiet pfn pmax bSkipFailures x R acc fr c Hpfn Hst)
    as (fr1 & c1 & -> & (Hret & Hacc & Hconv & Hq) & Hres).
  unfold with_area. destruct (GetGeometryRef x) as [g |]; [| by split; [right |]].
  rewrite (for_other_quiet g (Erase_pair E bSkipFailures) fr1 c1 Hq).
  destruct (IsEmpty E g); simpl.
  - split; [by left |]. split; [done |]. split; [done |]. split; [done |].
    by apply quiet_moved.
  - match goal with
    | |- context [submit_feature E ?b ?z ?fr0 ?c0] =>
        destruct (submit_feature_stored b z R fr0 c0 Hok
                    (leftover_feature_fid _ _ _ _ _) Hconv)
          as (R' & -> & Hrows & Hconv')
    end.
    cbn [f_result f_loc f_ret] in Hrows. rewrite Hacc in Hrows.
    split; [by left |]. split; [done |]. split; [exact Hrows |].
    split; [exact Hconv' |]. by apply quiet_moved.
Qed.

(** One row of the first loop of [Union] against a quiet method layer. *)
Lemma Union_x_leftover pfn pmax bSkipFailures bPromoteToMulti bUsePrepared bKeep
    defn mI mM x (R : OGRLayer) (acc : list OGRFeature) (fr : Frame OuterLoc)
    (c : CPLState) :
  progress_continues pfn ->
  (forall L f, ICreateFeature_ok E L f = true) ->
  (bUsePrepared = true -> forall g, is_Some (OGRCreatePreparedGeometry E g)) ->
  leftover_state E R acc fr ->
  let r := Union_x E pfn pmax bSkipFailures bPromoteToMulti bUsePrepared bKeep None
             defn mI mM x fr c in
  (r.1.1 = Val tt \/ r.1.1 = Jmp JContinue)
  /\ leftover_state E R
       (stored acc
          (option_list (converted E R
                          <$> (leftover_feature E bPromoteToMulti defn mI x
                                 <$> with_area E x))))
       r.1.2.
Proof.
  intros Hpfn Hok Hprep Hst r. subst r. unfold Union_x, mbind.
  destruct (begin_x_quiet pfn pmax bSkipFailures x R acc fr c Hpfn Hst)
    as (fr1 & c1 & -> & (Hret & Hacc & Hconv & Hq) & Hres).
  unfold with_area. destruct (GetGeometryRef x) as [g |]; [| by split; [right |]].
  assert (Hp : exists p, prepare_x E bUsePrepared g fr1 c1 = (Val p, fr1, c1)).
  { unfold prepare_x. destruct bUsePrepared; [| by eexists].
    destruct (Hprep eq_refl g) as [p ->]. by eexists. }
  destruct Hp as [p ->].
  rewrite (for_other_quiet (Some g) _ fr1 c1 Hq).
  unfold submit_leftover. destruct (IsEmpty E g); simpl.
  - split; [by left |]. split; [done |]. split; [done |]. split; [done |].
    by apply quiet_moved.
  - match goal with
    | |- context [submit_feature E ?b ?z ?fr0 ?c0] =>
        destruct (submit_feature_stored b z R fr0 c0 Hok
                    (leftover_feature_fid _ _ _ _ _) Hconv)
          as (R' & -> & Hrows & Hconv')
    end.
    cbn [f_result f_loc f_ret] in Hrows. rewrite Hacc in Hrows.
    split; [by left |]. split; [done |]. split; [exact Hrows |].
    split; [exact Hconv' |]. by apply quiet_moved.
Qed.

(** A loop whose body, row by row, appends to the result layer what
    [out] says and never leaves the loop. *)
Lemma feed_leftovers (L : OGRLayer) (body : OGRFeature -> M (Frame OuterLoc) unit)
    (R : OGRLayer) (out : OGRFeature -> option OGRFeature) :
  (forall x acc fr c,
     leftover_state E R acc fr ->
     ((body x fr c).1.1 = Val tt \/ (body x fr c).1.1 = Jmp JContinue)
     /\ leftover_state E R (stored acc (option_list (out x))) (body x fr c).1.2) ->
  forall rows pos acc fr c,
    leftover_state E R acc fr ->
    let r := feed E L body rows pos fr c in
    r.1.1.1 = FeedEnd
    /\ leftover_state E R
         (stored acc
            (omap (fun x => if (passes_filters E L x cpl_initial).1
                            then out x else None) rows))
         r.1.2.
Proof.
  intros Hbody. induction rows as [| x rest IH]; intros pos acc fr c Hst; [done |].
  simpl.
  rewrite (passes_filters_value E L x cpl_initial c).
  destruct (passes_filters E L x c) as [[] c1]; simpl.
  - destruct (Hbody x acc fr c1 Hst) as [Hex Hst'].
    destruct (body x fr c1) as [[[[] | j] fr'] c'] eqn:Hb; simpl in Hex, Hst'.
    + specialize (IH (S pos) _ fr' c' Hst').
      destruct (out x) as [z |]; simpl in *; exact IH.
    + destruct Hex as [Hex | Hex]; [done |]. injection Hex as ->.
      specialize (IH (S pos) _ fr' c' Hst').
      destruct (out x) as [z |]; simpl in *; exact IH.
  - by apply IH.
Qed.

End Leftovers.

Section LeftoversOfOperations.

Context (E : Collaborators).

Lemma final_progress_continues pfn (w : World) (c : CPLState) :
  progress_continues pfn ->
  exists k,
    final_progress pfn w c
    = (Val tt,
       mkWorld (w_input w) (w_method w) (w_result w) (w_ret w) (w_counter w) k, c).
Proof.
  intros Hpfn. unfold final_progress. destruct pfn as [f |].
  - rewrite (Hpfn f eq_refl). simpl. eauto.
  - exists (w_calls w). by destruct w.
Qed.

Lemma leftover_state_at_entry this pLayerMethod pLayerResult (w : World) :
  quiet pLayerMethod ->
  at_entry this pLayerMethod pLayerResult w ->
  leftover_state E (w_result w) (drv_features pLayerResult) (input_frame w).
Proof.
  intros Hq (Hret & _ & (pos & b & Hm & Hb) & Hrows & _).
  split; [exact Hret |]. split; [exact Hrows |].
  split; [apply converts_as_refl |]. simpl.
  rewrite Hm, (Hb (proj1 (proj2 Hq))). by apply quiet_moved.
Qed.

(** The features the loop stores, row by row, are the converted
    leftovers of the rows. *)
Lemma converted_leftovers (L R : OGRLayer) bPromoteToMulti defn map
    (rows : list OGRFeature) :
  omap (fun x => if (passes_filters E L x cpl_initial).1
                 then converted E R
                        <$> (leftover_feature E bPromoteToMulti defn map x
                               <$> with_area E x)
                 else None) rows
  = converted E R <$> omap (input_leftover E L bPromoteToMulti defn map) rows.
Proof.
  unfold input_leftover. induction rows as [| x rest IH]; [done |].
  cbn [omap list_omap]. rewrite IH.
  destruct (passes_filters E L x cpl_initial).1; [| done].
  by destruct (with_area E x).
Qed.

Lemma Erase_leftovers this pLayerMethod pLayerResult opts pfn c r w c1 :
  haveGEOS E = true ->
  quiet pLayerMethod ->
  GetSpatialFilter pLayerMethod = None ->
  m_bInFeatureIterator this = false ->
  progress_continues pfn ->
  (forall L f, ICreateFeature_ok E L f = true) ->
  Erase_resources E this pLayerMethod opts
    (mkWorld this pLayerMethod pLayerResult OGRERR_NONE 0 0) c = (Val r, w, c1) ->
  let res := OGRLayer_Erase E this pLayerMethod pLayerResult opts pfn c in
  res.1.1 = OGRERR_NONE
  /\ drv_features (w_result res.1.2)
     = stored (drv_features pLayerResult)
         (converted E (w_result w)
            <$> omap (input_leftover E this (opt_bool opts "PROMOTE_TO_MULTI" "NO")
                       (r_poDefnResult r) (r_mapInput r))
                  (drv_features this)).
Proof.
  intros HGEOS Hq Hflt Hflag Hpfn Hok Hres res.
  pose proof (Erase_resources_entry E this pLayerMethod pLayerResult opts
                _ c (at_entry_start this pLayerMethod pLayerResult)) as Hentry.
  rewrite Hres in Hentry. simpl in Hentry. destruct Hentry as [_ Hentry].
  pose proof (leftover_state_at_entry _ _ _ w Hq Hentry) as Hst.
  destruct Hentry as (_ & Hin & _).
  assert (Hrun : exists w' c3,
             res = (w_ret w', w', c3) /\ w_ret w' = OGRERR_NONE
             /\ drv_features (w_result w')
                = stored (drv_features pLayerResult)
                    (converted E (w_result w)
                       <$> omap (input_leftover E this
                                   (opt_bool opts "PROMOTE_TO_MULTI" "NO")
                                   (r_poDefnResult r) (r_mapInput r))
                             (drv_features this))).
  { subst res. unfold OGRLayer_Erase. rewrite HGEOS. simpl negb. cbv iota zeta.
    unfold mbind at 1. rewrite Hres. unfold mbind at 1.
    rewrite for_input_feed by (by rewrite Hin).
    rewrite Hin. unfold clone_spatial_filter. cbn [snd]. rewrite Hflt.
    match goal with
    | |- context [feed E this ?body ?rows 0 ?fr0 ?c0] =>
        pose proof (feed_leftovers E this body (w_result w)
                      (fun x => converted E (w_result w)
                                  <$> (leftover_feature E
                                         (opt_bool opts "PROMOTE_TO_MULTI" "NO")
                                         (r_poDefnResult r) (r_mapInput r) x
                                       <$> with_area E x))
                      (fun x' acc' f' c'' =>
                         Erase_x_leftover E pfn _ _ _ _ _ x' (w_result w) acc' f' c''
                           Hpfn Hok)
                      rows 0 _ fr0 c0 Hst) as Hfeed;
        destruct (feed E this body rows 0 fr0 c0) as [[[ex pos] fr'] c']
    end.
    simpl in Hfeed. destruct Hfeed as [-> (Hret' & Hrows' & _)].
    rewrite converted_leftovers in Hrows'.
    destruct (final_progress_continues pfn
                (mkWorld (moved this pos false) (o_other (f_loc fr')) (f_result fr')
                   (f_ret fr') (o_counter (f_loc fr')) (o_calls (f_loc fr'))) c' Hpfn)
      as [k ->].
    match goal with
    | |- context [restore_method_filter E ?F ?w1 ?c2] =>
        pose proof (restore_method_filter_rest E F w1 c2) as Hdone;
        destruct (restore_method_filter E F w1 c2) as [[? w'] c3]
    end.
    simpl in Hdone. destruct Hdone as (_ & H2 & H3 & _).
    exists w', c3. rewrite H2, H3. by repeat split. }
  destruct Hrun as (w' & c3 & -> & H1 & H2). by split.
Qed.

Lemma Union_leftovers this pLayerMethod pLayerResult opts pfn c r w c1 :
  haveGEOS E = true ->
  quiet pLayerMethod ->
  GetSpatialFilter pLayerMethod = None ->
  m_bInFeatureIterator this = false ->
  progress_continues pfn ->
  (forall L f, ICreateFeature_ok E L f = true) ->
  (opt_bool opts "USE_PREPARED_GEOMETRIES" "YES" = true ->
   forall g, is_Some (OGRCreatePreparedGeometry E g)) ->
  Union_resources E this pLayerMethod opts
    (mkWorld this pLayerMethod pLayerResult OGRERR_NONE 0 0) c = (Val r, w, c1) ->
  let res := OGRLayer_Union E this pLayerMethod pLayerResult opts pfn c in
  res.1.1 = OGRERR_NONE
  /\ drv_features (w_result res.1.2)
     = stored (drv_features pLayerResult)
         (converted E (w_result w)
            <$> omap (input_leftover E this (opt_bool opts "PROMOTE_TO_MULTI" "NO")
                       (r_poDefnResult r) (r_mapInput r))
                  (drv_features this)).
Proof.
  intros HGEOS Hq Hflt Hflag Hpfn Hok Hprep Hres res.
  pose proof (Union_resources_entry E this pLayerMethod pLayerResult opts
                _ c (at_entry_start this pLayerMethod pLayerResult)) as Hentry.
  rewrite Hres in Hentry. simpl in Hentry. destruct Hentry as [_ Hentry].
  pose proof (leftover_state_at_entry _ _ _ w Hq Hentry) as Hst.
  destruct Hentry as (_ & Hin & _).
  assert (Hrun : exists w' c3,
             res = (w_ret w', w', c3) /\ w_ret w' = OGRERR_NONE
             /\ drv_features (w_result w')
                = stored (drv_features pLayerResult)
                    (converted E (w_result w)
                       <$> omap (input_leftover E this
                                   (opt_bool opts "PROMOTE_TO_MULTI" "NO")
                                   (r_poDefnResult r) (r_mapInput r))
                             (drv_features this))).
  { subst res. unfold OGRLayer_Union. rewrite HGEOS. simpl negb. cbv iota zeta.
    unfold mbind at 1. rewrite Hres. unfold mbind at 1.
    rewrite for_input_feed by (by rewrite Hin).
    rewrite Hin. unfold clone_spatial_filter. cbn [snd]. rewrite Hflt.
    match goal with
    | |- context [feed E this ?body ?rows 0 ?fr0 ?c0] =>
        pose proof (feed_leftovers E this body (w_result w)
                      (fun x => converted E (w_result w)
                                  <$> (leftover_feature E
                                         (opt_bool opts "PROMOTE_TO_MULTI" "NO")
                                         (r_poDefnResult r) (r_mapInput r) x
                                       <$> with_area E x))
                      (fun x' acc' f' c'' =>
                         Union_x_leftover E pfn _ _ _ _ _ _ _ _ x' (w_result w) acc' f' c''
                           Hpfn Hok Hprep)
                      rows 0 _ fr0 c0 Hst) as Hfeed;
        destruct (feed E this body rows 0 fr0 c0) as [[[ex pos] fr'] c']
    end.
    simpl in Hfeed. destruct Hfeed as [-> (Hret' & Hrows' & _ & Hq')].
    rewrite converted_leftovers in Hrows'.
    unfold mbind at 1. unfold restore_method_filter at 1. cbn [w_method].
    destruct (SetSpatialFilter0_quiet E (o_other (f_loc fr')) (ptr_of None) c' Hq')
      as (L' & -> & (Hq1 & Hq2 & Hq3)).
    unfold mbind at 1.
    rewrite for_method_feed by exact Hq2.
    cbn [w_method]. rewrite Hq1. cbn [feed].
    match goal with
    | |- context [final_progress pfn ?w1 ?c2] =>
        destruct (final_progress_continues pfn w1 c2 Hpfn) as [k ->]
    end.
    match goal with
    | |- context [restore_input_filter E ?F ?w1 ?c2] =>
        pose proof (restore_input_filter_rest E F w1 c2) as Hdone1;
        destruct (restore_input_filter E F w1 c2) as [[? w'] c3]
    end.
    match goal with
    | |- context [restore_method_filter E ?F ?w1 ?c2] =>
        pose proof (restore_method_filter_rest E F w1 c2) as Hdone2;
        destruct (restore_method_filter E F w1 c2) as [[? w''] c4]
    end.
    simpl in Hdone1, Hdone2.
    destruct Hdone1 as (_ & G2 & G3 & _). destruct Hdone2 as (_ & H2 & H3 & _).
    exists w'', c4. rewrite H2, H3, G2, G3. by repeat split. }
  destruct Hrun as (w' & c3 & -> & H1 & H2). by split.
Qed.

End LeftoversOfOperations.

Section LeftoverGeometries.

Context (E : Collaborators).

Lemma stored_geometries (zs : list OGRFeature) :
  forall rows,
    papoGeometries <$> stored rows zs
    = ((papoGeometries <$> rows) ++ (papoGeometries <$> zs))%list.
Proof.
  induction zs as [| z rest IH]; intros rows; simpl.
  - by rewrite app_nil_r.
  - unfold stored in *. simpl. rewrite IH, fmap_app. simpl.
    by rewrite <- app_assoc.
Qed.

Lemma GetGeometryRef_geometries (zs : list OGRFeature) :
  GetGeometryRef <$> zs
  = (fun geoms => default None (geoms !! 0%nat)) <$> (papoGeometries <$> zs).
Proof. rewrite <- list_fmap_compose. by apply list_fmap_ext. Qed.

Lemma leftover_feature_geometry defn map x g :
  0 < GetGeomFieldCount defn ->
  default None (papoGeometries (leftover_feature E false defn map x g) !! 0%nat)
  = Some g.
Proof.
  intros Hgeom. unfold leftover_feature, SetGeometryDirectly, promoted. simpl.
  assert (Hg : papoGeometries (SetFieldsFrom (OGRFeature_new defn) x map)
               = replicate (length (apoGeomFieldDefn defn)) None).
  { unfold SetFieldsFrom. by destruct map. }
  rewrite Hg. unfold GetGeomFieldCount in Hgeom.
  destruct (apoGeomFieldDefn defn); [simpl in Hgeom; lia | done].
Qed.

Lemma leftover_feature_geometries defn map x g :
  0 < GetGeomFieldCount defn ->
  exists rest, papoGeometries (leftover_feature E false defn map x g) = Some g :: rest.
Proof.
  intros Hgeom. unfold leftover_feature, SetGeometryDirectly, promoted. simpl.
  assert (Hg : papoGeometries (SetFieldsFrom (OGRFeature_new defn) x map)
               = replicate (length (apoGeomFieldDefn defn)) None).
  { unfold SetFieldsFrom. by destruct map. }
  rewrite Hg. unfold GetGeomFieldCount in Hgeom.
  destruct (apoGeomFieldDefn defn); [simpl in Hgeom; lia | by eexists].
Qed.

(** The features added for the input rows carry the geometries of
    those rows as the result layer converts them, when the schema the
    features are built on has a geometry field and no promotion is asked
    for. *)
Lemma leftover_geometries (L R : OGRLayer) defn map (rows0 rows : list OGRFeature) :
  0 < GetGeomFieldCount defn ->
  GetGeometryRef
    <$> drop (length rows0)
          (stored rows0 (converted E R <$> omap (input_leftover E L false defn map) rows))
  = converted_geometry E R <$> input_areas E L rows.
Proof.
  intros Hgeom. rewrite GetGeometryRef_geometries, fmap_drop, stored_geometries.
  rewrite drop_app_length' by (by rewrite length_fmap).
  rewrite <- GetGeometryRef_geometries.
  unfold input_areas, input_leftover.
  induction rows as [| x rest IH]; [done |]. simpl.
  destruct (passes_filters E L x cpl_initial).1; [| exact IH].
  destruct (with_area E x) as [g |]; [| exact IH]. simpl.
  f_equal; [| exact IH].
  destruct (leftover_feature_geometries defn map x g Hgeom) as [tl Htl].
  by apply converted_first_geometry with (rest := tl).
Qed.

(** They carry the geometries unchanged when the result layer takes
    geometries as they are. *)
Lemma leftover_geometries_as_they_are (R : OGRLayer) (gs : list OGRGeometry) :
  takes_geometries_as_they_are E R ->
  converted_geometry E R <$> gs = Some <$> gs.
Proof.
  intros HR. apply list_fmap_ext. intros i g _.
  by apply converted_geometry_as_it_is.
Qed.

End LeftoverGeometries.




(** * Further properties *)

(** ** Reading a layer through *)

Section ReadingThrough.

Context (E : Collaborators).

(** A body that only updates its state sees the passing rows one after
    the other. *)
Lemma feed_fold {St : Type} (f : OGRFeature -> St -> St) (L : OGRLayer)
    (rows : list OGRFeature) :
  forall pos st c,
    exists c',
      feed E L (fun x => mmodify (f x)) rows pos st c
      = (FeedEnd, (pos + length rows)%nat,
         fold_left (fun s x => f x s) (passing E L rows) st, c').
Proof.
  induction rows as [| x rest IH]; intros pos st c; simpl.
  - exists c. by rewrite Nat.add_0_r.
  - unfold passing. simpl.
    rewrite (passes_filters_value E L x cpl_initial c).
    destruct (passes_filters E L x c) as [[] c1]; simpl.
    + destruct (IH (S pos) (f x st) c1) as [c' ->]. exists c'.
      by rewrite Nat.add_succ_r.
    + destruct (IH (S pos) st c1) as [c' ->]. exists c'.
      by rewrite Nat.add_succ_r.
Qed.

Lemma fold_left_count (rows : list OGRFeature) (n : Z) :
  fold_left (fun (s : Z) (_ : OGRFeature) => s + 1) rows n
  = n + Z.of_nat (length rows).
Proof.
  revert n. induction rows as [| x rest IH]; intros n; simpl; [lia |].
  rewrite IH. lia.
Qed.

(** [GetNextFeature] hands out the first passing row behind the cursor
    and leaves the cursor where the passing rows that follow are the
    rest. *)
Lemma GetNextFeature_scan_passing (L : OGRLayer) (rows : list OGRFeature) :
  forall pos c,
    let r := GetNextFeature_scan E L rows pos c in
    r.1.1 = head (passing E L rows)
    /\ (pos <= r.1.2 <= pos + length rows)%nat
    /\ passing E L (drop (r.1.2 - pos) rows) = tail (passing E L rows).
Proof.
  induction rows as [| x rest IH]; intros pos c; simpl.
  - split; [done |]. split; [lia |]. by rewrite drop_nil.
  - unfold passing. simpl.
    rewrite (passes_filters_value E L x cpl_initial c).
    destruct (passes_filters E L x c) as [[] c1]; simpl.
    + split; [done |]. split; [lia |].
      by replace (S pos - pos)%nat with 1%nat by lia.
    + destruct (IH (S pos) c1) as (H1 & H2 & H3).
      split; [exact H1 |]. split; [lia |].
      replace ((GetNextFeature_scan E L rest (S pos) c1).1.2 - pos)%nat
        with (S ((GetNextFeature_scan E L rest (S pos) c1).1.2 - S pos)) by lia.
      exact H3.
Qed.

Lemma drop_passing_step (L : OGRLayer) (rows : list OGRFeature) (pos pos' : nat) :
  (pos <= pos')%nat ->
  drop (pos' - pos) (drop pos rows) = drop pos' rows.
Proof. intros H. rewrite drop_drop. f_equal. lia. Qed.

(** After [k] successful fetches from the start, what is left to fetch
    are the passing rows but the first [k]. *)
Lemma SetNextByIndex_loop_passing (L : OGRLayer) (n : nat) :
  forall pos b c k,
    (k <= length (passing E L (drv_features L)))%nat ->
    passing E L (drop pos (drv_features L)) = drop k (passing E L (drv_features L)) ->
    let r := SetNextByIndex_loop E n (moved L pos b) c in
    ((k + n <= length (passing E L (drv_features L)))%nat ->
     r.1.1 = OGRERR_NONE
     /\ exists pos', r.1.2 = moved L pos' b
          /\ passing E L (drop pos' (drv_features L))
             = drop (k + n) (passing E L (drv_features L)))
    /\ ((length (passing E L (drv_features L)) < k + n)%nat ->
        r.1.1 = OGRERR_FAILURE /\ exists pos', r.1.2 = moved L pos' b).
Proof.
  induction n as [| n IH]; intros pos b c k Hle Hleft; simpl.
  - split.
    + intros _. split; [done |]. exists pos. by rewrite Nat.add_0_r.
    + intros H. lia.
  - rewrite GetNextFeature_moved.
    destruct (GetNextFeature_scan_passing L (drop pos (drv_features L)) pos c)
      as (H1 & H2 & H3).
    destruct (GetNextFeature_scan E L (drop pos (drv_features L)) pos c)
      as [[f pos1] c1]. simpl in H1, H2, H3.
    rewrite (drop_passing_step L (drv_features L) pos pos1) in H3 by lia.
    rewrite Hleft in H1, H3.
    destruct f as [f |].
    + assert (Hk : (k < length (passing E L (drv_features L)))%nat).
      { destruct (drop k (passing E L (drv_features L))) eqn:Hd; [done |].
        apply (f_equal length) in Hd. rewrite length_drop in Hd. simpl in Hd. lia. }
      assert (Hnext : passing E L (drop pos1 (drv_features L))
                      = drop (S k) (passing E L (drv_features L))).
      { rewrite H3. destruct (drop k (passing E L (drv_features L))) eqn:Hd; [done |].
        simpl. replace (S k) with (1 + k)%nat by lia.
        rewrite Nat.add_comm, <- drop_drop, Hd. done. }
      specialize (IH pos1 b c1 (S k) Hk Hnext). simpl in IH.
      replace (k + S n)%nat with (S k + n)%nat by lia. exact IH.
    + assert (Hk : (length (passing E L (drv_features L)) <= k)%nat).
      { destruct (drop k (passing E L (drv_features L))) eqn:Hd; [| done].
        apply (f_equal length) in Hd. rewrite length_drop in Hd. simpl in Hd. lia. }
      split; [intros H; lia |]. intros _. split; [done |]. by exists pos1.
Qed.

End ReadingThrough.

(** X1.  A range-based [for] over a layer that is not being read hands
    to its body exactly the rows that pass the installed filters, in the
    order of the layer, runs to the end, and leaves the cursor behind the
    last row and the flag down: a body that folds [f] over what it sees
    ends with the fold of [f] over the passing rows. *)
Theorem range_for_visits_passing_rows :
  forall (E : Collaborators) (St : Type) (f : OGRFeature -> St -> St)
         (L : OGRLayer) (st : St) (c : CPLState),
    m_bInFeatureIterator L = false ->
    let r := range_for E (fun x => mmodify (f x)) L st c in
    r.1.1.1 = LoopEnd
    /\ r.1.1.2 = moved L (length (drv_features L)) false
    /\ r.1.2 = fold_left (fun s x => f x s) (passing E L (drv_features L)) st.
Proof.
  intros E St f L st c Hflag r. subst r.
  rewrite (range_for_feed E _ L st c Hflag).
  destruct (feed_fold E f L (drv_features L) 0 st c) as [c' ->]. by repeat split.
Qed.

Lemma range_for_visits_passing_rows_witness :
  (range_for Box.kernel (fun x => mmodify (fun acc => nFID x :: acc))
     four_squares_filtered [] cpl_initial).1.2
  = [3; 2; 0].
Proof.
  destruct (range_for_visits_passing_rows Box.kernel (list Z)
              (fun x acc => nFID x :: acc) four_squares_filtered [] cpl_initial
              eq_refl) as (_ & _ & H).
  rewrite H. reflexivity.
Defined.

(** X2.  [GetFeatureCount (TRUE)] on a layer that is not being read
    counts the rows that pass the installed filters and leaves the layer
    as it was, reset to its first row. *)
Theorem GetFeatureCount_forced :
  forall (E : Collaborators) (L : OGRLayer) (c : CPLState),
    m_bInFeatureIterator L = false ->
    let r := GetFeatureCount E L true c in
    r.1.1 = Z.of_nat (length (passing E L (drv_features L)))
    /\ r.1.2 = moved L 0 false.
Proof.
  intros E L c Hflag r. subst r. unfold GetFeatureCount. simpl negb. cbv iota.
  destruct (range_for_visits_passing_rows E Z (fun _ n => n + 1) L 0 c Hflag)
    as (_ & H2 & H3).
  destruct (range_for E (fun _ => mmodify (fun n => n + 1)) L 0 c)
    as [[[ex L'] n] c'].
  simpl in H2, H3. subst L' n. split; [| done].
  by rewrite fold_left_count.
Qed.

Lemma GetFeatureCount_forced_witness :
  (GetFeatureCount Box.kernel four_squares_filtered true cpl_initial).1.1 = 3.
Proof.
  destruct (GetFeatureCount_forced Box.kernel four_squares_filtered cpl_initial
              eq_refl) as [H _].
  rewrite H. reflexivity.
Defined.

(** X3.  [SetNextByIndex]: a negative index is refused and the layer is
    not touched.  Otherwise the layer is rewound and [nIndex] features
    are fetched: when that many rows pass the filters the call succeeds
    and the next [GetNextFeature] yields the passing row of that index
    (none when the index is the number of passing rows); when fewer rows
    pass, the call fails.  Only the cursor of the layer moves. *)
Theorem SetNextByIndex_positions :
  forall (E : Collaborators) (L : OGRLayer) (nIndex : Z) (c : CPLState),
    let rows := passing E L (drv_features L) in
    let r := SetNextByIndex E L nIndex c in
    (nIndex < 0 -> r = (OGRERR_FAILURE, L, c))
    /\ (0 <= nIndex <= Z.of_nat (length rows) ->
        r.1.1 = OGRERR_NONE
        /\ (GetNextFeature E r.1.2 r.2).1.1 = rows !! Z.to_nat nIndex)
    /\ (Z.of_nat (length rows) < nIndex -> r.1.1 = OGRERR_FAILURE)
    /\ exists pos, r.1.2 = moved L pos (m_bInFeatureIterator L).
Proof.
  intros E L nIndex c rows r. subst r. unfold SetNextByIndex.
  destruct (nIndex <? 0) eqn:Hneg.
  - apply Z.ltb_lt in Hneg. split; [done |]. split; [lia |]. split; [lia |].
    exists (drv_iNextShapeId L). simpl. symmetry. apply moved_same.
  - apply Z.ltb_ge in Hneg.
    assert (HL : ResetReading L = moved L 0 (m_bInFeatureIterator L))
      by (by destruct L).
    rewrite HL.
    destruct (SetNextByIndex_loop_passing E L (Z.to_nat nIndex) 0
                (m_bInFeatureIterator L) c 0 ltac:(lia) eq_refl) as [Hok Hfail].
    simpl in Hok, Hfail. fold rows in Hok, Hfail.
    split; [lia |]. split; [| split].
    + intros Hle. destruct (Hok ltac:(lia)) as (H1 & pos' & H2 & H3).
      split; [exact H1 |]. rewrite H2, GetNextFeature_moved.
      destruct (GetNextFeature_scan_passing E L (drop pos' (drv_features L)) pos'
                  (SetNextByIndex_loop E (Z.to_nat nIndex)
                     (moved L 0 (m_bInFeatureIterator L)) c).2) as (H4 & _).
      destruct (GetNextFeature_scan E L (drop pos' (drv_features L)) pos' _)
        as [[f pos1] c1].
      simpl in *. rewrite H4, H3. fold rows.
      rewrite head_lookup, lookup_drop. f_equal. lia.
    + intros Hgt. by destruct (Hfail ltac:(lia)) as [H1 _].
    + destruct (le_gt_dec (Z.to_nat nIndex) (length rows)) as [Hle | Hgt].
      * destruct (Hok ltac:(lia)) as (_ & pos' & H2 & _). by exists pos'.
      * destruct (Hfail ltac:(lia)) as (_ & pos' & H2). by exists pos'.
Qed.

Lemma SetNextByIndex_positions_witness :
  let r := SetNextByIndex Box.kernel four_squares_filtered 2 cpl_initial in
  r.1.1 = OGRERR_NONE
  /\ nFID <$> (GetNextFeature Box.kernel r.1.2 r.2).1.1 = Some 3
  /\ (SetNextByIndex Box.kernel four_squares_filtered 4 cpl_initial).1.1
     = OGRERR_FAILURE.
Proof.
  cbv zeta.
  destruct (SetNextByIndex_positions Box.kernel four_squares_filtered 2 cpl_initial)
    as (_ & H1 & _).
  destruct (SetNextByIndex_positions Box.kernel four_squares_filtered 4 cpl_initial)
    as (_ & _ & H2 & _).
  destruct (H1 ltac:(vm_compute; split; discriminate)) as [H3 H4].
  split; [exact H3 |]. split; [by rewrite H4 |].
  apply H2. vm_compute. reflexivity.
Defined.

(** ** The extent of a layer *)

Section Extent.

Context (E : Collaborators).

Lemma dlt_not_nan (a b : double) : dlt a b = true -> isnan a = false /\ isnan b = false.
Proof. by destruct a, b. Qed.

Lemma Contains_refl (a : OGREnvelope) :
  has_nan a = false -> OGREnvelope_Contains a a = true.
Proof.
  unfold has_nan, OGREnvelope_Contains, dge. rewrite !orb_false_iff.
  intros [[[H1 H2] H3] H4]. by rewrite !dle_refl.
Qed.

Lemma Contains_trans (a b c : OGREnvelope) :
  OGREnvelope_Contains a b = true -> OGREnvelope_Contains b c = true ->
  OGREnvelope_Contains a c = true.
Proof.
  unfold OGREnvelope_Contains, dge. rewrite !andb_true_iff.
  intros [[[H1 H2] H3] H4] [[[G1 G2] G3] G4].
  repeat split; eauto using dle_trans.
Qed.

(** Merging an envelope into an extent without NaN gives an extent
    without NaN that holds the old extent, and the envelope when that has
    no NaN either. *)
Lemma merged_extent_Contains (e o : OGREnvelope) :
  has_nan e = false ->
  has_nan (merged_extent e o) = false
  /\ OGREnvelope_Contains (merged_extent e o) e = true
  /\ (has_nan o = false -> OGREnvelope_Contains (merged_extent e o) o = true).
Proof.
  unfold has_nan, OGREnvelope_Contains, merged_extent, dge, dgt. simpl.
  rewrite !orb_false_iff. intros [[[E1 E2] E3] E4].
  destruct (dlt (MinX o) (MinX e)) eqn:H1, (dlt (MaxX e) (MaxX o)) eqn:H2,
    (dlt (MinY o) (MinY e)) eqn:H3, (dlt (MaxY e) (MaxY o)) eqn:H4;
    repeat match goal with
           | H : dlt _ _ = true |- _ =>
               pose proof (dlt_not_nan _ _ H) as [? ?];
               pose proof (dlt_dle _ _ H); clear H
           end;
    (split; [by repeat split |]);
    (split; [rewrite !andb_true_iff; repeat split; auto using dle_refl |]);
    intros [[[O1 O2] O3] O4];
    rewrite !andb_true_iff; repeat split; auto using dle_refl, not_dlt_dle.
Qed.

(** The extent after more envelopes were merged into one without NaN
    holds that one and each of them that has no NaN, and each of its
    bounds is a bound of one of them. *)
Lemma merged_extents (es : list OGREnvelope) :
  forall e,
    has_nan e = false ->
    let r := fold_left merged_extent es e in
    OGREnvelope_Contains r e = true
    /\ Forall (fun o => has_nan o = false -> OGREnvelope_Contains r o = true) es
    /\ MinX r ∈ MinX <$> e :: es /\ MaxX r ∈ MaxX <$> e :: es
    /\ MinY r ∈ MinY <$> e :: es /\ MaxY r ∈ MaxY <$> e :: es.
Proof.
  induction es as [| o rest IH]; intros e He; simpl.
  - split; [by apply Contains_refl |]. split; [constructor |].
    repeat split; by apply list_elem_of_singleton.
  - destruct (merged_extent_Contains e o He) as (Hm & Hme & Hmo).
    destruct (IH (merged_extent e o) Hm) as (H0 & H1 & H2 & H3 & H4 & H5).
    assert (Hin : forall (f : OGREnvelope -> double) (v : double),
               (f (merged_extent e o) = f e \/ f (merged_extent e o) = f o) ->
               v ∈ f <$> merged_extent e o :: rest -> v ∈ f <$> e :: o :: rest).
    { intros f v Hf Hv. rewrite fmap_cons in Hv. apply elem_of_cons in Hv.
      rewrite !fmap_cons.
      destruct Hv as [-> | Hv]; [| by do 2 apply list_elem_of_further].
      destruct Hf as [-> | ->];
        [apply list_elem_of_here | apply list_elem_of_further, list_elem_of_here]. }
    split; [by eapply Contains_trans |].
    split.
    { constructor; [| exact H1]. intros Ho. eapply Contains_trans; [exact H0 |].
      by apply Hmo. }
    split; [apply (Hin MinX); [simpl; destruct (dlt _ _); auto | exact H2] |].
    split; [apply (Hin MaxX); [simpl; destruct (dgt _ _); auto | exact H3] |].
    split; [apply (Hin MinY); [simpl; destruct (dlt _ _); auto | exact H4] |].
    apply (Hin MaxY); [simpl; destruct (dgt _ _); auto | exact H5].
Qed.

Lemma extent_steps_set (es : list OGREnvelope) (e : OGREnvelope) :
  fold_left extent_step es (e, true) = (fold_left merged_extent es e, true).
Proof. revert e. induction es as [| o rest IH]; intros e; [done | apply IH]. Qed.

(** The loop from its start: the extent is set when one of the
    envelopes has no NaN; it then holds each envelope without NaN, and
    each of its bounds is a bound of one of the envelopes. *)
Lemma extent_steps (es : list OGREnvelope) :
  forall e0,
    let r := fold_left extent_step es (e0, false) in
    r.2 = negb (forallb has_nan es)
    /\ (r.2 = true ->
        Forall (fun o => has_nan o = false -> OGREnvelope_Contains r.1 o = true) es
        /\ MinX r.1 ∈ MinX <$> es /\ MaxX r.1 ∈ MaxX <$> es
        /\ MinY r.1 ∈ MinY <$> es /\ MaxY r.1 ∈ MaxY <$> es).
Proof.
  induction es as [| o rest IH]; intros e0; [by split |].
  cbn [fold_left forallb].
  change (extent_step (e0, false) o) with (o, negb (has_nan o)).
  destruct (has_nan o) eqn:Ho; cbn [negb andb].
  - destruct (IH o) as [H1 H2]. split; [exact H1 |].
    intros Hset. destruct (H2 Hset) as (G1 & G2 & G3 & G4 & G5).
    split; [constructor; [by rewrite Ho | exact G1] |].
    rewrite !fmap_cons. repeat split; by apply list_elem_of_further.
  - rewrite extent_steps_set. cbn [fst snd]. split; [done |]. intros _.
    destruct (merged_extents rest o Ho) as (H0 & H1 & H2).
    split; [by constructor | exact H2].
Qed.

(** What the body of the loop of [IGetExtent] does to its state. *)
Lemma IGetExtent_step_merges (iGeomField : Z) (x : OGRFeature)
    (st : OGREnvelope * bool) (c : CPLState) :
  IGetExtent_step E iGeomField x st c
  = (Val tt,
     match GetGeomFieldRef x iGeomField with
     | Some g => if IsEmpty E g then st else extent_step st (getEnvelope E g)
     | None => st
     end, c).
Proof.
  unfold IGetExtent_step, extent_step. destruct st as [ext bSet].
  destruct (GetGeomFieldRef x iGeomField) as [g |]; [| done].
  destruct (IsEmpty E g); [done |]. by destruct bSet.
Qed.

Lemma feed_IGetExtent (L : OGRLayer) (iGeomField : Z) (rows : list OGRFeature) :
  forall pos st c,
    exists pos' c',
      feed E L (IGetExtent_step E iGeomField) rows pos st c
      = (FeedEnd, pos',
         fold_left extent_step
           (getEnvelope E <$> extent_geometries E L iGeomField rows) st, c').
Proof.
  unfold extent_geometries, passing.
  induction rows as [| x rest IH]; intros pos st c; simpl; [by eexists _, _ |].
  rewrite (passes_filters_value E L x cpl_initial c).
  destruct (passes_filters E L x c) as [[] c1]; simpl; [| apply IH].
  rewrite IGetExtent_step_merges.
  destruct (GetGeomFieldRef x iGeomField) as [g |]; [| apply IH].
  destruct (IsEmpty E g); [apply IH |].
  destruct (IH (S pos) (extent_step st (getEnvelope E g)) c1) as (pos' & c' & ->).
  by exists pos', c'.
Qed.

Lemma forallb_has_nan (gs : list OGRGeometry) :
  forallb has_nan (getEnvelope E <$> gs)
  = forallb (fun g => has_nan (getEnvelope E g)) gs.
Proof.
  induction gs as [| g rest IH]; [done |].
  rewrite fmap_cons. cbn [forallb]. by rewrite IH.
Qed.

Lemma forallb_none_has_nan (gs : list OGRGeometry) :
  Forall (fun g => has_nan (getEnvelope E g) = false) gs -> gs <> [] ->
  forallb (fun g => has_nan (getEnvelope E g)) gs = false.
Proof. intros H Hne. destruct H as [| g rest Hg _]; [done |]. simpl. by rewrite Hg. Qed.

End Extent.



(** ** What an overlay operation touches *)

Section FootprintOfBodies.

Context (E : Collaborators) (Qr : OGRLayer -> Prop).

Hypothesis Qr_written : kept_by_writing E Qr.

Lemma submit_feature_result {Loc : Type} bSkipFailures (z : OGRFeature) :
  preserves (@on_result Loc Qr) (submit_feature E bSkipFailures z).
Proof.
  intros fr c HP. unfold submit_feature.
  pose proof (proj1 Qr_written (f_result fr) z c HP) as H.
  destruct (CreateFeature E (f_result fr) z c) as [[ret R'] c'].
  by destruct (negb (bool_decide (ret = OGRERR_NONE))), bSkipFailures.
Qed.

Ltac keep_inner :=
  repeat
    (keep;
     match goal with
     | |- preserves (on_result _) (submit_feature _ _ _) =>
         apply submit_feature_result
     | |- preserves _ (subtract _ _ _ _) => unfold subtract
     end).

Lemma Intersection_pair_result b1 b2 b3 b4 defn mI mM x x_geom x_prep y :
  preserves (on_result Qr)
    (Intersection_pair E b1 b2 b3 b4 defn mI mM x x_geom x_prep y).
Proof.
  unfold Intersection_pair, Intersection_pretest, Intersection_compute. keep_inner.
Qed.

Lemma Union_pair_result b1 b2 b3 defn mI mM x x_geom x_prep y :
  preserves (on_result Qr) (Union_pair E b1 b2 b3 defn mI mM x x_geom x_prep y).
Proof. unfold Union_pair. keep_inner. Qed.

Lemma Identity_pair_result b1 b2 b3 defn mI mM x x_geom x_prep y :
  preserves (on_result Qr) (Identity_pair E b1 b2 b3 defn mI mM x x_geom x_prep y).
Proof. unfold Identity_pair. keep_inner. Qed.

Lemma SymDifference_pair_result b1 b2 y :
  preserves (on_result Qr) (SymDifference_pair E b1 b2 y).
Proof. unfold SymDifference_pair. keep_inner. Qed.

Lemma subtract_pair_result b1 y :
  preserves (on_result Qr) (subtract_pair E b1 y).
Proof. unfold subtract_pair. keep_inner. Qed.

Lemma Clip_pair_result b1 y : preserves (on_result Qr) (Clip_pair E b1 y).
Proof. unfold Clip_pair. keep_inner. Qed.

Lemma Erase_pair_result b1 y : preserves (on_result Qr) (Erase_pair E b1 y).
Proof. unfold Erase_pair. keep_inner. Qed.

Section Outer.

Context (Qo : OGRLayer -> Prop).

Hypothesis Qo_read : kept_by_reading Qo.
Hypothesis Qo_filtered : kept_by_filtering E Qo.

Lemma report_progress_layers pfn pmax :
  preserves (on_layers Qo Qr) (report_progress pfn pmax).
Proof.
  unfold report_progress. destruct pfn as [pfn |]; [| apply preserves_mret].
  intros fr c HP. destruct (progress_due _ _); [destruct (negb _) |]; exact HP.
Qed.

Lemma set_filter_from_layers (L : OGRLayer) flt x c :
  Qo L -> Qo (set_filter_from E L flt x c).1.2.
Proof.
  intros HQ. unfold set_filter_from.
  destruct (GetGeometryRef x) as [geom |]; [| exact HQ].
  destruct flt as [f |].
  - destruct (geos_call (geom_Intersects E geom f) c) as [b c1].
    destruct (negb b); [exact HQ |].
    destruct (geos_call (geom_Intersection E geom f) c1) as [[g |] c2]; [| exact HQ].
    pose proof (Qo_filtered L (ptr_to g) c2 HQ) as H.
    by destruct (SetSpatialFilter0 E L (ptr_to g) c2) as [[e L'] c3].
  - pose proof (Qo_filtered L (ptr_to geom) c HQ) as H.
    by destruct (SetSpatialFilter0 E L (ptr_to geom) c) as [[e L'] c1].
Qed.

Lemma setup_filter_layers bSkipFailures flt x :
  preserves (on_layers Qo Qr) (setup_filter E bSkipFailures flt x).
Proof.
  unfold setup_filter. keep.
  intros fr c [Ho Hr].
  pose proof (set_filter_from_layers (o_other (f_loc fr)) flt x c Ho) as H.
  by destruct (set_filter_from E (o_other (f_loc fr)) flt x c) as [[g L'] c'].
Qed.

Lemma for_other_layers {Loc : Type} (init : Loc)
    (body : OGRFeature -> M (Frame Loc) unit) :
  (forall y, preserves (on_result Qr) (body y)) ->
  preserves (on_layers Qo Qr) (for_other E init body).
Proof.
  intros Hbody fr c [Ho Hr]. unfold for_other.
  destruct (range_for_layer E body (o_other (f_loc fr))
              (mkFrame init (f_result fr) (f_ret fr)) c) as [pos Hpos].
  pose proof (range_for_preserves E (on_result Qr) body (o_other (f_loc fr))
                (mkFrame init (f_result fr) (f_ret fr)) c Hbody Hr) as Hres.
  destruct (range_for E body _ _ c) as [[[ex L'] fr'] c'].
  simpl in Hpos, Hres. subst L'.
  destruct ex; (split; [by apply Qo_read | exact Hres]).
Qed.

Lemma submit_feature_layers bSkipFailures (z : OGRFeature) :
  preserves (on_layers Qo Qr) (submit_feature E bSkipFailures z).
Proof.
  intros fr c [Ho Hr].
  pose proof (submit_feature_result bSkipFailures z fr c Hr) as H.
  unfold submit_feature in *.
  destruct (CreateFeature E (f_result fr) z c) as [[ret R'] c'].
  by destruct (negb (bool_decide (ret = OGRERR_NONE))), bSkipFailures.
Qed.

Ltac keep_layers :=
  repeat
    (keep;
     match goal with
     | |- preserves _ (report_progress _ _) => apply report_progress_layers
     | |- preserves _ (setup_filter _ _ _ _) => apply setup_filter_layers
     | |- preserves _ (begin_x _ _ _ _ _ _) => unfold begin_x
     | |- preserves _ (Intersection_begin _ _ _ _ _ _ _ _) =>
         unfold Intersection_begin
     | |- preserves _ (prepare_x _ _ _) => apply prepare_x_keeps
     | |- preserves _ (submit_leftover _ _ _ _ _ _ _) => unfold submit_leftover
     | |- preserves _ (submit_feature _ _ _) => apply submit_feature_layers
     | |- preserves _ (for_other _ _ _) =>
         apply for_other_layers; intros ?;
         lazymatch goal with
         | |- preserves _ (Intersection_pair _ _ _ _ _ _ _ _ _ _ _ _) =>
             apply Intersection_pair_result
         | |- preserves _ (Union_pair _ _ _ _ _ _ _ _ _ _ _) =>
             apply Union_pair_result
         | |- preserves _ (Identity_pair _ _ _ _ _ _ _ _ _ _ _) =>
             apply Identity_pair_result
         | |- preserves _ (SymDifference_pair _ _ _ _) =>
             apply SymDifference_pair_result
         | |- preserves _ (subtract_pair _ _ _) => apply subtract_pair_result
         | |- preserves _ (Clip_pair _ _ _) => apply Clip_pair_result
         | |- preserves _ (Erase_pair _ _ _) => apply Erase_pair_result
         end
     end).

Lemma Intersection_x_layers pfn pmax b1 b2 b3 b4 b5 flt bEnv sEnv defn mI mM x :
  preserves (on_layers Qo Qr)
    (Intersection_x E pfn pmax b1 b2 b3 b4 b5 flt bEnv sEnv defn mI mM x).
Proof. unfold Intersection_x. keep_layers. Qed.

Lemma Union_x_layers pfn pmax b1 b2 b3 b4 flt defn mI mM x :
  preserves (on_layers Qo Qr) (Union_x E pfn pmax b1 b2 b3 b4 flt defn mI mM x).
Proof. unfold Union_x. keep_layers. Qed.

Lemma Union_y_layers pfn pmax b1 b2 flt defn mM x :
  preserves (on_layers Qo Qr) (Union_y E pfn pmax b1 b2 flt defn mM x).
Proof. unfold Union_y. keep_layers. Qed.

Lemma SymDifference_x_layers pfn pmax b1 b2 b3 flt defn map x :
  preserves (on_layers Qo Qr) (SymDifference_x E pfn pmax b1 b2 b3 flt defn map x).
Proof. unfold SymDifference_x. keep_layers. Qed.

Lemma Identity_x_layers pfn pmax b1 b2 b3 b4 flt defn mI mM x :
  preserves (on_layers Qo Qr) (Identity_x E pfn pmax b1 b2 b3 b4 flt defn mI mM x).
Proof. unfold Identity_x. keep_layers. Qed.

Lemma Update_x_layers pfn pmax b1 b2 flt defn mI x :
  preserves (on_layers Qo Qr) (Update_x E pfn pmax b1 b2 flt defn mI x).
Proof. unfold Update_x. keep_layers. Qed.

Lemma Update_y_layers pfn pmax b1 defn mM y :
  preserves (on_layers Qo Qr) (Update_y E pfn pmax b1 defn mM y).
Proof. unfold Update_y. simpl. keep_layers. Qed.

Lemma Clip_x_layers pfn pmax b1 b2 flt defn mI x :
  preserves (on_layers Qo Qr) (Clip_x E pfn pmax b1 b2 flt defn mI x).
Proof. unfold Clip_x. keep_layers. Qed.

Lemma Erase_x_layers pfn pmax b1 b2 flt defn mI x :
  preserves (on_layers Qo Qr) (Erase_x E pfn pmax b1 b2 flt defn mI x).
Proof. unfold Erase_x. keep_layers. Qed.

End Outer.

End FootprintOfBodies.

Section FootprintOfOperations.

Context (E : Collaborators) (Qi Qm Qr : OGRLayer -> Prop).

Hypothesis Qi_read : kept_by_reading Qi.
Hypothesis Qi_filtered : kept_by_filtering E Qi.
Hypothesis Qm_read : kept_by_reading Qm.
Hypothesis Qm_filtered : kept_by_filtering E Qm.
Hypothesis Qr_written : kept_by_writing E Qr.

Section Schema.

Hypothesis Qr_fields : forall L d c, Qr L -> Qr (CreateField E L d c).1.2.

Lemma create_fields_written bSkipFailures pszPrefix others pszCollision fields :
  forall iField L map c,
    Qr L ->
    Qr (create_fields E bSkipFailures pszPrefix others pszCollision fields iField
          L map c).1.1.2.
Proof.
  induction fields as [| d rest IH]; intros iField L map c HQ; [done |].
  simpl.
  pose proof (Qr_fields L
                (SetName d (created_field_name pszPrefix others pszCollision
                              (GetNameRef d))) c HQ) as H.
  destruct (CreateField E L _ c) as [[ret R1] c1]. simpl in H.
  destruct (negb (bool_decide (ret = OGRERR_NONE)) && negb bSkipFailures);
    [exact H |].
  by apply IH.
Qed.

Lemma set_result_schema_written (L : OGRLayer) dI dM mI mM combined opts c :
  Qr L -> Qr (set_result_schema E L dI dM mI mM combined opts c).1.1.1.2.
Proof.
  intros HQ. unfold set_result_schema.
  destruct (negb (CPLTestBool _)); [done |].
  destruct (0 <? GetFieldCount (GetLayerDefn L)).
  { by destruct mM as [m |], dM as [d |]. }
  set (others := match dM with Some _ => _ | None => _ end).
  destruct (CPLTestBool (CSLFetchNameValueDef opts "ADD_INPUT_FIELDS" "YES")).
  - pose proof (create_fields_written
                  (CPLTestBool (CSLFetchNameValueDef opts "SKIP_FAILURES" "NO"))
                  (CSLFetchNameValue opts "INPUT_PREFIX") others "input_"
                  (apoFieldDefn dI) 0 L mI c HQ) as H1.
    destruct (create_fields E _ _ others _ (apoFieldDefn dI) 0 L mI c)
      as [[[r1 R1] mI'] c1].
    simpl in H1. destruct r1 as [ret | ret]; [| exact H1].
    destruct (negb combined); [exact H1 |].
    destruct mM as [m |]; [| exact H1]. destruct dM as [d |]; [| exact H1].
    destruct (CPLTestBool _); [| exact H1].
    match goal with
    | |- context [create_fields E ?a ?b ?o ?p ?f 0 R1 ?mm c1] =>
        pose proof (create_fields_written a b o p f 0 R1 mm c1 H1) as H2;
        destruct (create_fields E a b o p f 0 R1 mm c1) as [[[r2 R2] mM'] c2]
    end.
    exact H2.
  - destruct (negb combined); [done |].
    destruct mM as [m |]; [| done]. destruct dM as [d |]; [| done].
    destruct (CPLTestBool _); [| done].
    match goal with
    | |- context [create_fields E ?a ?b ?o ?p ?f 0 L ?mm c] =>
        pose proof (create_fields_written a b o p f 0 L mm c HQ) as H2;
        destruct (create_fields E a b o p f 0 L mm c) as [[[r2 R2] mM'] c2]
    end.
    exact H2.
Qed.

Lemma get_result_schema_fields dI dM mI mM combined opts :
  preserves (on_world Qi Qm Qr) (get_result_schema E dI dM mI mM combined opts).
Proof.
  intros w c (Hi & Hm & Hr). unfold get_result_schema.
  pose proof (set_result_schema_written (w_result w) dI dM mI mM combined opts c Hr)
    as H.
  destruct (set_result_schema E _ _ _ _ _ _ _ c) as [[[[ret R'] m1] m2] c'].
  by destruct (negb _).
Qed.

End Schema.

Lemma w_set_ret_world r : preserves (on_world Qi Qm Qr) (w_set_ret r).
Proof. intros w c HP. exact HP. Qed.

Lemma check_clone_world r : preserves (on_world Qi Qm Qr) (check_clone r).
Proof. unfold check_clone. keep. apply w_set_ret_world. Qed.

Lemma get_field_map_world poDefn :
  preserves (on_world Qi Qm Qr) (get_field_map E poDefn).
Proof.
  unfold get_field_map. destruct (create_field_map E poDefn). keep.
  apply w_set_ret_world.
Qed.

Lemma get_result_schema_world dI dM mI mM combined opts :
  preserves (on_world Qi Qm Qr) (get_result_schema E dI dM mI mM combined opts).
Proof. apply get_result_schema_fields. apply Qr_written. Qed.

Lemma w_get_world {A : Type} (f : World -> A) :
  preserves (on_world Qi Qm Qr) (w_get f).
Proof. intros w c HP. exact HP. Qed.

Lemma w_method_extent_world : preserves (on_world Qi Qm Qr) (w_method_extent E).
Proof.
  intros w c (Hi & Hm & Hr). unfold w_method_extent.
  destruct (GetExtent_moved E (w_method w) 0 true c) as (pos & b & Hpos).
  destruct (GetExtent E (w_method w) 0 true c) as [[[err ext] L'] c'].
  simpl in Hpos. subst L'. split; [done |]. split; [by apply Qm_read | done].
Qed.

Lemma w_resolve_keep_lower_dim_world b :
  preserves (on_world Qi Qm Qr) (w_resolve_keep_lower_dim b).
Proof.
  intros w c HP. unfold w_resolve_keep_lower_dim.
  by destruct (resolve_keep_lower_dim b (w_result w) c).
Qed.

Lemma final_progress_world pfn : preserves (on_world Qi Qm Qr) (final_progress pfn).
Proof.
  unfold final_progress. destruct pfn as [pfn |]; [| apply preserves_mret].
  intros w c HP. by destruct (negb _).
Qed.

Lemma for_input_world (body : OGRFeature -> M (Frame OuterLoc) unit) :
  (forall x, preserves (on_layers Qm Qr) (body x)) ->
  preserves (on_world Qi Qm Qr) (for_input E body).
Proof.
  intros Hbody w c (Hi & Hm & Hr). unfold for_input.
  set (fr0 := mkFrame (mkOuter (w_method w) (w_counter w) (w_calls w))
                (w_result w) (w_ret w)).
  destruct (range_for_layer E body (w_input w) fr0 c) as [pos Hpos].
  pose proof (range_for_preserves E (on_layers Qm Qr) body (w_input w) fr0 c Hbody
                (conj Hm Hr)) as [Ho Hres].
  destruct (range_for E body (w_input w) fr0 c) as [[[ex L'] fr] c'].
  simpl in Hpos, Ho, Hres. subst L'.
  destruct ex; (split; [by apply Qi_read | by split]).
Qed.

Lemma for_method_world (body : OGRFeature -> M (Frame OuterLoc) unit) :
  (forall x, preserves (on_layers Qi Qr) (body x)) ->
  preserves (on_world Qi Qm Qr) (for_method E body).
Proof.
  intros Hbody w c (Hi & Hm & Hr). unfold for_method.
  set (fr0 := mkFrame (mkOuter (w_input w) (w_counter w) (w_calls w))
                (w_result w) (w_ret w)).
  destruct (range_for_layer E body (w_method w) fr0 c) as [pos Hpos].
  pose proof (range_for_preserves E (on_layers Qi Qr) body (w_method w) fr0 c Hbody
                (conj Hi Hr)) as [Ho Hres].
  destruct (range_for E body (w_method w) fr0 c) as [[[ex L'] fr] c'].
  simpl in Hpos, Ho, Hres. subst L'.
  destruct ex; (split; [done | split; [by apply Qm_read | done]]).
Qed.

Lemma restore_method_filter_world F :
  preserves (on_world Qi Qm Qr) (restore_method_filter E F).
Proof.
  intros w c (Hi & Hm & Hr). unfold restore_method_filter.
  pose proof (Qm_filtered (w_method w) (ptr_of F) c Hm) as H.
  by destruct (SetSpatialFilter0 E (w_method w) (ptr_of F) c) as [[e L'] c'].
Qed.

Lemma restore_input_filter_world F :
  preserves (on_world Qi Qm Qr) (restore_input_filter E F).
Proof.
  intros w c (Hi & Hm & Hr). unfold restore_input_filter.
  pose proof (Qi_filtered (w_input w) (ptr_of F) c Hi) as H.
  by destruct (SetSpatialFilter0 E (w_input w) (ptr_of F) c) as [[e L'] c'].
Qed.

Ltac keep_footprint :=
  repeat
    first
      [ progress keep
      | lazymatch goal with
        | |- preserves _ (Intersection_resources _ _ _ _) =>
            unfold Intersection_resources
        | |- preserves _ (Union_resources _ _ _ _) => unfold Union_resources
        | |- preserves _ (Clip_resources _ _ _ _) => unfold Clip_resources
        | |- preserves _ (Erase_resources _ _ _ _) => unfold Erase_resources
        | |- preserves _ (check_clone _) => apply check_clone_world
        | |- preserves _ (get_field_map _ _) => apply get_field_map_world
        | |- preserves _ (get_result_schema _ _ _ _ _ _ _) =>
            apply get_result_schema_world
        | |- preserves _ (w_get _) => apply w_get_world
        | |- preserves _ (w_method_extent _) => apply w_method_extent_world
        | |- preserves _ (w_resolve_keep_lower_dim _) =>
            apply w_resolve_keep_lower_dim_world
        | |- preserves _ (final_progress _) => apply final_progress_world
        | |- preserves _ (restore_method_filter _ _) =>
            apply restore_method_filter_world
        | |- preserves _ (restore_input_filter _ _) =>
            apply restore_input_filter_world
        | |- preserves _ (for_input _ ?body) =>
            apply for_input_world; intros ?;
            lazymatch body with
            | Intersection_x _ _ _ _ _ _ _ _ _ _ _ _ _ _ =>
                by apply Intersection_x_layers
            | Union_x _ _ _ _ _ _ _ _ _ _ _ => by apply Union_x_layers
            | SymDifference_x _ _ _ _ _ _ _ _ _ => by apply SymDifference_x_layers
            | Identity_x _ _ _ _ _ _ _ _ _ _ _ => by apply Identity_x_layers
            | Update_x _ _ _ _ _ _ _ _ => by apply Update_x_layers
            | Clip_x _ _ _ _ _ _ _ _ => by apply Clip_x_layers
            | Erase_x _ _ _ _ _ _ _ _ => by apply Erase_x_layers
            end
        | |- preserves _ (for_method _ ?body) =>
            apply for_method_world; intros ?;
            lazymatch body with
            | Union_y _ _ _ _ _ _ _ _ => by apply Union_y_layers
            | SymDifference_x _ _ _ _ _ _ _ _ _ => by apply SymDifference_x_layers
            | Update_y _ _ _ _ _ _ => by apply Update_y_layers
            end
        end ].

(** The main part of an operation and the block at [done:] keep the
    property of the three layers. *)
Ltac footprint :=
  simpl negb; cbv iota zeta; cbn [snd];
  lazymatch goal with
  | |- context [mbind ?a ?b (mkWorld ?i ?m ?r ?e ?n ?k) ?c0] =>
      let Hmain := fresh "Hmain" in
      assert (Hmain : preserves (on_world Qi Qm Qr) (mbind a b))
        by keep_footprint;
      specialize (Hmain (mkWorld i m r e n k) c0
                    ltac:(repeat split; assumption));
      destruct (mbind a b (mkWorld i m r e n k) c0) as [[? ?w] ?c1];
      simpl in Hmain;
      repeat
        match goal with
        | |- context [restore_input_filter E ?F ?w1 ?c1] =>
            let H := fresh "Hdone" in
            pose proof (restore_input_filter_world F w1 c1 Hmain) as H;
            destruct (restore_input_filter E F w1 c1) as [[? ?w] ?c];
            simpl in H; clear Hmain; rename H into Hmain
        | |- context [restore_method_filter E ?F ?w1 ?c1] =>
            let H := fresh "Hdone" in
            pose proof (restore_method_filter_world F w1 c1 Hmain) as H;
            destruct (restore_method_filter E F w1 c1) as [[? ?w] ?c];
            simpl in H; clear Hmain; rename H into Hmain
        end;
      exact Hmain
  end.

Section Operations.

Context (this pLayerMethod pLayerResult : OGRLayer) (opts : CSLConstList)
  (pfn : option GDALProgressFunc) (c : CPLState).

Hypothesis Hi : Qi this.
Hypothesis Hm : Qm pLayerMethod.
Hypothesis Hr : Qr pLayerResult.

Lemma Intersection_footprint :
  on_world Qi Qm Qr
    (OGRLayer_Intersection E this pLayerMethod pLayerResult opts pfn c).1.2.
Proof.
  unfold OGRLayer_Intersection, clone_spatial_filter.
  destruct (haveGEOS E); [| by repeat split]. footprint.
Qed.

Lemma Union_footprint :
  on_world Qi Qm Qr (OGRLayer_Union E this pLayerMethod pLayerResult opts pfn c).1.2.
Proof.
  unfold OGRLayer_Union, clone_spatial_filter.
  destruct (haveGEOS E); [| by repeat split]. footprint.
Qed.

Lemma SymDifference_footprint :
  on_world Qi Qm Qr
    (OGRLayer_SymDifference E this pLayerMethod pLayerResult opts pfn c).1.2.
Proof.
  unfold OGRLayer_SymDifference, clone_spatial_filter.
  destruct (haveGEOS E); [| by repeat split]. footprint.
Qed.

Lemma Identity_footprint :
  on_world Qi Qm Qr
    (OGRLayer_Identity E this pLayerMethod pLayerResult opts pfn c).1.2.
Proof.
  unfold OGRLayer_Identity, clone_spatial_filter.
  destruct (haveGEOS E); [| by repeat split].
  destruct (resolve_keep_lower_dim _ pLayerResult c) as [bKeep c0]. footprint.
Qed.

Lemma Update_footprint :
  on_world Qi Qm Qr (OGRLayer_Update E this pLayerMethod pLayerResult opts pfn c).1.2.
Proof.
  unfold OGRLayer_Update, clone_spatial_filter.
  destruct (haveGEOS E); [| by repeat split]. footprint.
Qed.

Lemma Clip_footprint :
  on_world Qi Qm Qr (OGRLayer_Clip E this pLayerMethod pLayerResult opts pfn c).1.2.
Proof.
  unfold OGRLayer_Clip, clone_spatial_filter.
  destruct (haveGEOS E); [| by repeat split]. footprint.
Qed.

Lemma Erase_footprint :
  on_world Qi Qm Qr (OGRLayer_Erase E this pLayerMethod pLayerResult opts pfn c).1.2.
Proof.
  unfold OGRLayer_Erase, clone_spatial_filter.
  destruct (haveGEOS E); [| by repeat split]. footprint.
Qed.

End Operations.

End FootprintOfOperations.

Section Footprint.

Context (E : Collaborators).

Lemma same_store_refl (L : OGRLayer) : same_store L L.
Proof. by repeat split. Qed.

Lemma same_store_read (L0 : OGRLayer) : kept_by_reading (same_store L0).
Proof. intros L pos b HQ. exact HQ. Qed.

Lemma same_store_filtered (L0 : OGRLayer) : kept_by_filtering E (same_store L0).
Proof.
  intros L g c HQ. unfold SetSpatialFilter0, SetSpatialFilter.
  destruct (if 0 =? 0 then _ else _) as [[|] c1]; [| exact HQ].
  unfold ISetSpatialFilter.
  by destruct (InstallFilter_layer E (set_iGeomFieldFilter L 0) g)
    as [-> | (b & f & p & e & ->)].
Qed.

Lemma grown_from_refl (R0 : OGRLayer) : grown_from R0 R0.
Proof. repeat split; try done; [by destruct R0 | by left]. Qed.

Lemma grown_from_init (R0 L : OGRLayer) :
  grown_from R0 L -> grown_from R0 (ConvertGeoms_init E L).
Proof.
  intros (Hrows & Hfields & Hrest & Hgeom & Hconv).
  rewrite ConvertGeoms_init_layer. simpl.
  split; [done |]. split; [done |]. split; [| split; [done |]].
  - rewrite Hrest at 1. reflexivity.
  - right. apply ConvertGeoms_init_called.
Qed.

Lemma grown_from_written (R0 : OGRLayer) : kept_by_writing E (grown_from R0).
Proof.
  split.
  - intros L z c HL. rewrite CreateFeature_converted.
    destruct (grown_from_init R0 L HL) as (Hrows & Hfields & Hrest & Hgeom & Hconv).
    unfold ICreateFeature.
    destruct (ICreateFeature_ok E _ _); [| by repeat split]. simpl.
    split; [by apply prefix_app_r |]. split; [done |]. split; [| done].
    rewrite Hrest at 1. reflexivity.
  - intros L d c (Hrows & Hfields & Hrest & Hgeom & Hconv).
    unfold CreateField.
    destruct (ICreateField_ok E L d); [| by repeat split]. simpl.
    split; [done |]. split; [by apply prefix_app_r |]. split; [| done].
    rewrite Hrest at 1. reflexivity.
Qed.

End Footprint.

(** X5: none of the seven overlay operations changes the rows, the schema
    or the attribute filter of its input layer or of its method layer,
    with any options, any progress callback, any collaborators and any
    error state, and however the operation ends. *)
Theorem overlay_sources_keep_their_store (E : Collaborators)
    (this pLayerMethod pLayerResult : OGRLayer) (papszOptions : CSLConstList)
    (pfnProgress : option GDALProgressFunc) (c : CPLState) :
  let kept (res : OGRErr * World * CPLState) :=
    same_store this (w_input res.1.2)
    /\ same_store pLayerMethod (w_method res.1.2) in
  kept (OGRLayer_Intersection E this pLayerMethod pLayerResult papszOptions
          pfnProgress c)
  /\ kept (OGRLayer_Union E this pLayerMethod pLayerResult papszOptions
             pfnProgress c)
  /\ kept (OGRLayer_SymDifference E this pLayerMethod pLayerResult papszOptions
             pfnProgress c)
  /\ kept (OGRLayer_Identity E this pLayerMethod pLayerResult papszOptions
             pfnProgress c)
  /\ kept (OGRLayer_Update E this pLayerMethod pLayerResult papszOptions
             pfnProgress c)
  /\ kept (OGRLayer_Clip E this pLayerMethod pLayerResult papszOptions
             pfnProgress c)
  /\ kept (OGRLayer_Erase E this pLayerMethod pLayerResult papszOptions
             pfnProgress c).
Proof.
  intros kept. unfold kept.
  pose proof (same_store_read this) as Hir.
  pose proof (same_store_filtered E this) as Hif.
  pose proof (same_store_read pLayerMethod) as Hmr.
  pose proof (same_store_filtered E pLayerMethod) as Hmf.
  assert (Hw : kept_by_writing E (fun _ : OGRLayer => True)) by done.
  pose proof (same_store_refl this) as Hi.
  pose proof (same_store_refl pLayerMethod) as Hm.
  split; [| split; [| split; [| split; [| split; [| split]]]]];
    match goal with
    | |- same_store _ (w_input ?w) /\ _ =>
        cut (on_world (same_store this) (same_store pLayerMethod)
               (fun _ => True) w); [by intros (? & ? & _) |]
    end.
  - by apply Intersection_footprint.
  - by apply Union_footprint.
  - by apply SymDifference_footprint.
  - by apply Identity_footprint.
  - by apply Update_footprint.
  - by apply Clip_footprint.
  - by apply Erase_footprint.
Qed.

Section FirstField.

Context (E : Collaborators).

Lemma on_first_field_read (L0 : OGRLayer) : kept_by_reading (on_first_field L0).
Proof. intros L pos b HQ. exact HQ. Qed.

Lemma on_first_field_filtered (L0 : OGRLayer) :
  kept_by_filtering E (on_first_field L0).
Proof.
  intros L g c HQ. unfold SetSpatialFilter0, SetSpatialFilter.
  destruct (if 0 =? 0 then _ else _) as [[|] c1]; [| exact HQ].
  unfold ISetSpatialFilter.
  by destruct (InstallFilter_layer E (set_iGeomFieldFilter L 0) g)
    as [-> | (b & f & p & e & ->)].
Qed.

End FirstField.

(** X19.  Each of the seven overlay operations hands back both source
    layers with the filter geometry they had at the call, which is what
    [GetSpatialFilter] returns, whatever the options, the progress
    callback, the kernel, the allocator and the drivers do: on normal
    completion, on a fatal error for a pair, on cancellation, on a failed
    allocation, and also when the operation stops before touching
    anything because the kernel is missing.  A source layer that had its
    filter on its first geometry field has it on that field afterwards;
    for a filter on another geometry field nothing is said. *)
Theorem overlay_filter_geometries_restored :
  forall (E : Collaborators) (this pLayerMethod pLayerResult : OGRLayer)
         (papszOptions : CSLConstList) (pfnProgress : option GDALProgressFunc)
         (c : CPLState),
    let restored (res : OGRErr * World * CPLState) :=
      filters_restored this pLayerMethod res
      /\ first_field_kept this pLayerMethod res in
    restored
      (OGRLayer_Intersection E this pLayerMethod pLayerResult papszOptions pfnProgress c)
    /\ restored
         (OGRLayer_Union E this pLayerMethod pLayerResult papszOptions pfnProgress c)
    /\ restored
         (OGRLayer_SymDifference E this pLayerMethod pLayerResult papszOptions
            pfnProgress c)
    /\ restored
         (OGRLayer_Identity E this pLayerMethod pLayerResult papszOptions pfnProgress c)
    /\ restored
         (OGRLayer_Update E this pLayerMethod pLayerResult papszOptions pfnProgress c)
    /\ restored
         (OGRLayer_Clip E this pLayerMethod pLayerResult papszOptions pfnProgress c)
    /\ restored
         (OGRLayer_Erase E this pLayerMethod pLayerResult papszOptions pfnProgress c).
Proof.
  intros E this pLayerMethod pLayerResult opts pfn c restored. unfold restored.
  pose proof (on_first_field_read this) as Hir.
  pose proof (on_first_field_filtered E this) as Hif.
  pose proof (on_first_field_read pLayerMethod) as Hmr.
  pose proof (on_first_field_filtered E pLayerMethod) as Hmf.
  assert (Hw : kept_by_writing E (fun _ : OGRLayer => True)) by done.
  assert (Hi : on_first_field this this) by (by intros ?).
  assert (Hm : on_first_field pLayerMethod pLayerMethod) by (by intros ?).
  split; [| split; [| split; [| split; [| split; [| split]]]]];
    (split;
     [ first [ apply Intersection_restores | apply Union_restores
             | apply SymDifference_restores | apply Identity_restores
             | apply Update_restores | apply Clip_restores | apply Erase_restores ]
     | match goal with
       | |- first_field_kept _ _ (?op _ _ _ _ _ _ _) =>
           cut (on_world (on_first_field this) (on_first_field pLayerMethod)
                  (fun _ => True) (op E this pLayerMethod pLayerResult opts pfn c).1.2);
           [by intros (? & ? & _) |]
       end ]).
  - by apply Intersection_footprint.
  - by apply Union_footprint.
  - by apply SymDifference_footprint.
  - by apply Identity_footprint.
  - by apply Update_footprint.
  - by apply Clip_footprint.
  - by apply Erase_footprint.
Qed.

(** X6: each of the seven overlay operations only appends to the result
    layer: the rows and the fields the result layer had stay in place in
    front of what the operation adds, and its geometry fields, spatial
    filter, attribute filter, read cursor and iterator flag are as
    before, however the operation ends. *)
Theorem overlay_result_only_grows (E : Collaborators)
    (this pLayerMethod pLayerResult : OGRLayer) (papszOptions : CSLConstList)
    (pfnProgress : option GDALProgressFunc) (c : CPLState) :
  let grown (res : OGRErr * World * CPLState) :=
    grown_from pLayerResult (w_result res.1.2) in
  grown (OGRLayer_Intersection E this pLayerMethod pLayerResult papszOptions
           pfnProgress c)
  /\ grown (OGRLayer_Union E this pLayerMethod pLayerResult papszOptions
              pfnProgress c)
  /\ grown (OGRLayer_SymDifference E this pLayerMethod pLayerResult papszOptions
              pfnProgress c)
  /\ grown (OGRLayer_Identity E this pLayerMethod pLayerResult papszOptions
              pfnProgress c)
  /\ grown (OGRLayer_Update E this pLayerMethod pLayerResult papszOptions
              pfnProgress c)
  /\ grown (OGRLayer_Clip E this pLayerMethod pLayerResult papszOptions
              pfnProgress c)
  /\ grown (OGRLayer_Erase E this pLayerMethod pLayerResult papszOptions
              pfnProgress c).
Proof.
  intros grown. unfold grown.
  assert (Hr : kept_by_reading (fun _ : OGRLayer => True)) by done.
  assert (Hf : kept_by_filtering E (fun _ : OGRLayer => True)) by done.
  pose proof (grown_from_written E pLayerResult) as Hw.
  pose proof (grown_from_refl pLayerResult) as H0.
  split; [| split; [| split; [| split; [| split; [| split]]]]];
    match goal with
    | |- grown_from _ (w_result ?w) =>
        cut (on_world (fun _ => True) (fun _ => True) (grown_from pLayerResult) w);
        [by intros (_ & _ & ?) |]
    end.
  - by apply Intersection_footprint.
  - by apply Union_footprint.
  - by apply SymDifference_footprint.
  - by apply Identity_footprint.
  - by apply Update_footprint.
  - by apply Clip_footprint.
  - by apply Erase_footprint.
Qed.

(** ** Cancelling an overlay operation *)

Section StopsRules.

Context {St : Type} (P D : St -> Prop).

Lemma stops_mbind {A B : Type} (m : M St A) (k : A -> M St B) :
  stops P D m -> (forall a, stops P D (k a)) -> stops P D (mbind m k).
Proof.
  intros Hm Hk st c HP. unfold mbind. specialize (Hm st c HP).
  destruct (m st c) as [[[a | j] st'] c']; simpl in Hm.
  - by apply Hk.
  - simpl. by destruct j.
Qed.

Lemma stops_of_preserves {A : Type} (m : M St A) :
  (forall st, P st -> D st) -> preserves P m -> stops P D m.
Proof.
  intros HPD Hm st c HP. specialize (Hm st c HP).
  destruct ((m st c).1.1) as [a | []]; auto.
Qed.

Lemma feed_stops (E : Collaborators) (body : OGRFeature -> M St unit)
    (L : OGRLayer) :
  (forall x, stops P D (body x)) ->
  forall rows pos st c, P st ->
    match (feed E L body rows pos st c).1.1.1 with
    | FeedDone => D (feed E L body rows pos st c).1.2
    | _ => P (feed E L body rows pos st c).1.2
    end.
Proof.
  intros Hbody. induction rows as [| r rest IH]; intros pos st c HP; [exact HP |].
  simpl. destruct (passes_filters E L r c) as [[] c1]; [| by apply IH].
  specialize (Hbody r st c1 HP).
  destruct (body r st c1) as [[[[] | []] st'] c']; simpl in Hbody;
    try (by apply IH); done.
Qed.

Lemma range_for_stops (E : Collaborators) (body : OGRFeature -> M St unit)
    (L : OGRLayer) (st : St) (c : CPLState) :
  (forall x, stops P D (body x)) -> P st ->
  match (range_for E body L st c).1.1.1 with
  | LoopDone => D (range_for E body L st c).1.2
  | LoopEnd => P (range_for E body L st c).1.2
  end.
Proof.
  intros Hbody HP. destruct (m_bInFeatureIterator L) eqn:Hflag.
  - by rewrite (range_for_busy E body L st c Hflag).
  - rewrite (range_for_feed E body L st c Hflag).
    pose proof (feed_stops E body L Hbody (drv_features L) 0 st c HP) as H.
    by destruct (feed E L body (drv_features L) 0 st c) as [[[[] pos'] st'] c'].
Qed.

End StopsRules.

Section Cancellation.

Context (E : Collaborators) (N : nat) (pfn : GDALProgressFunc).

Hypothesis pfn_cancels : forall args, pfn N args = false.

Lemma report_progress_stops pmax :
  stops (on_loc (calls_le N)) (cancelled_at N) (report_progress (Some pfn) pmax).
Proof.
  intros fr c HP. unfold report_progress, on_loc, calls_le, cancelled_at in *.
  destruct (progress_due _ _); [| exact HP].
  destruct (pfn (o_calls (f_loc fr)) _) eqn:Hp; simpl.
  - assert (o_calls (f_loc fr) <> N) by (intros Heq; rewrite Heq, pfn_cancels in Hp; done).
    lia.
  - destruct (decide (o_calls (f_loc fr) = N)) as [-> | Hne]; [by right | left; lia].
Qed.

Lemma setup_filter_calls bSkipFailures flt x :
  preserves (on_loc (calls_le N)) (setup_filter E bSkipFailures flt x).
Proof.
  unfold setup_filter. keep.
  intros fr c HP. by destruct (set_filter_from E _ flt x c) as [[g L'] c'].
Qed.

Lemma for_other_calls {Loc : Type} (init : Loc)
    (body : OGRFeature -> M (Frame Loc) unit) :
  preserves (on_loc (calls_le N)) (for_other E init body).
Proof.
  intros fr c HP. unfold for_other.
  by destruct (range_for E body _ _ c) as [[[[] L'] fr'] c'].
Qed.

Ltac keep_calls :=
  repeat
    (keep;
     match goal with
     | |- preserves _ (setup_filter _ _ _ _) => apply setup_filter_calls
     | |- preserves _ (prepare_x _ _ _) => apply prepare_x_keeps
     | |- preserves _ (submit_leftover _ _ _ _ _ _ _) => unfold submit_leftover
     | |- preserves _ (for_other _ _ _) => apply for_other_calls
     end).

Ltac halt :=
  repeat
    lazymatch goal with
    | |- stops _ _ (mbind _ _) => apply stops_mbind; [| intros ?]
    | |- stops _ _ (begin_x _ _ _ _ _ _) => unfold begin_x
    | |- stops _ _ (Intersection_begin _ _ _ _ _ _ _ _) => unfold Intersection_begin
    | |- stops _ _ (report_progress (Some _) _) => apply report_progress_stops
    | |- stops _ _ _ =>
        apply stops_of_preserves; [by left | by keep_calls]
    end.

Lemma Intersection_x_stops pmax b1 b2 b3 b4 b5 flt bEnv sEnv defn mI mM x :
  stops (on_loc (calls_le N)) (cancelled_at N)
    (Intersection_x E (Some pfn) pmax b1 b2 b3 b4 b5 flt bEnv sEnv defn mI mM x).
Proof. unfold Intersection_x. halt. Qed.

Lemma Union_x_stops pmax b1 b2 b3 b4 flt defn mI mM x :
  stops (on_loc (calls_le N)) (cancelled_at N)
    (Union_x E (Some pfn) pmax b1 b2 b3 b4 flt defn mI mM x).
Proof. unfold Union_x. halt. Qed.

Lemma Union_y_stops pmax b1 b2 flt defn mM x :
  stops (on_loc (calls_le N)) (cancelled_at N)
    (Union_y E (Some pfn) pmax b1 b2 flt defn mM x).
Proof. unfold Union_y. halt. Qed.

Lemma SymDifference_x_stops pmax b1 b2 b3 flt defn map x :
  stops (on_loc (calls_le N)) (cancelled_at N)
    (SymDifference_x E (Some pfn) pmax b1 b2 b3 flt defn map x).
Proof. unfold SymDifference_x. halt. Qed.

Lemma Identity_x_stops pmax b1 b2 b3 b4 flt defn mI mM x :
  stops (on_loc (calls_le N)) (cancelled_at N)
    (Identity_x E (Some pfn) pmax b1 b2 b3 b4 flt defn mI mM x).
Proof. unfold Identity_x. halt. Qed.

Lemma Update_x_stops pmax b1 b2 flt defn mI x :
  stops (on_loc (calls_le N)) (cancelled_at N)
    (Update_x E (Some pfn) pmax b1 b2 flt defn mI x).
Proof. unfold Update_x. halt. Qed.

Lemma Update_y_stops pmax b1 defn mM y :
  stops (on_loc (calls_le N)) (cancelled_at N)
    (Update_y E (Some pfn) pmax b1 defn mM y).
Proof.
  unfold Update_y. apply stops_mbind; [apply report_progress_stops | intros ?].
  destruct (StealGeometry y) as [[y_geom |] y']; halt.
Qed.

Lemma Clip_x_stops pmax b1 b2 flt defn mI x :
  stops (on_loc (calls_le N)) (cancelled_at N)
    (Clip_x E (Some pfn) pmax b1 b2 flt defn mI x).
Proof. unfold Clip_x. halt. Qed.

Lemma Erase_x_stops pmax b1 b2 flt defn mI x :
  stops (on_loc (calls_le N)) (cancelled_at N)
    (Erase_x E (Some pfn) pmax b1 b2 flt defn mI x).
Proof. unfold Erase_x. halt. Qed.

End Cancellation.

Section CancellationOfOperations.

Context (E : Collaborators) (N : nat) (pfn : GDALProgressFunc).

Hypothesis pfn_cancels : forall args, pfn N args = false.

Lemma w_set_ret_calls r : preserves (w_calls_le N) (w_set_ret r).
Proof. intros w c HP. exact HP. Qed.

Lemma check_clone_calls r : preserves (w_calls_le N) (check_clone r).
Proof. unfold check_clone. keep. apply w_set_ret_calls. Qed.

Lemma get_field_map_calls poDefn : preserves (w_calls_le N) (get_field_map E poDefn).
Proof.
  unfold get_field_map. destruct (create_field_map E poDefn). keep.
  apply w_set_ret_calls.
Qed.

Lemma get_result_schema_calls dI dM mI mM combined opts :
  preserves (w_calls_le N) (get_result_schema E dI dM mI mM combined opts).
Proof.
  intros w c HP. unfold get_result_schema.
  destruct (set_result_schema E _ _ _ _ _ _ _ c) as [[[[ret R'] m1] m2] c'].
  by destruct (negb _).
Qed.

Lemma w_get_calls {A : Type} (f : World -> A) : preserves (w_calls_le N) (w_get f).
Proof. intros w c HP. exact HP. Qed.

Lemma w_method_extent_calls : preserves (w_calls_le N) (w_method_extent E).
Proof.
  intros w c HP. unfold w_method_extent.
  by destruct (GetExtent E (w_method w) 0 true c) as [[[err ext] L'] c'].
Qed.

Lemma w_resolve_keep_lower_dim_calls b :
  preserves (w_calls_le N) (w_resolve_keep_lower_dim b).
Proof.
  intros w c HP. unfold w_resolve_keep_lower_dim.
  by destruct (resolve_keep_lower_dim b (w_result w) c).
Qed.

Lemma restore_method_filter_calls F :
  preserves (w_calls_le N) (restore_method_filter E F).
Proof.
  intros w c HP. unfold restore_method_filter.
  by destruct (SetSpatialFilter0 E (w_method w) (ptr_of F) c) as [[e L'] c'].
Qed.

Lemma restore_method_filter_cancelled F :
  preserves (w_cancelled_at N) (restore_method_filter E F).
Proof.
  intros w c HP. unfold restore_method_filter.
  by destruct (SetSpatialFilter0 E (w_method w) (ptr_of F) c) as [[e L'] c'].
Qed.

Lemma restore_input_filter_cancelled F :
  preserves (w_cancelled_at N) (restore_input_filter E F).
Proof.
  intros w c HP. unfold restore_input_filter.
  by destruct (SetSpatialFilter0 E (w_input w) (ptr_of F) c) as [[e L'] c'].
Qed.

Lemma final_progress_stops :
  stops (w_calls_le N) (w_cancelled_at N) (final_progress (Some pfn)).
Proof.
  intros w c HP. unfold final_progress, w_calls_le, w_cancelled_at in *.
  destruct (pfn (w_calls w) (1, 1)) eqn:Hp; simpl.
  - assert (w_calls w <> N) by (intros Heq; rewrite Heq, pfn_cancels in Hp; done).
    lia.
  - destruct (decide (w_calls w = N)) as [-> | Hne]; [by right | left; lia].
Qed.

Lemma for_input_stops (body : OGRFeature -> M (Frame OuterLoc) unit) :
  (forall x, stops (on_loc (calls_le N)) (cancelled_at N) (body x)) ->
  stops (w_calls_le N) (w_cancelled_at N) (for_input E body).
Proof.
  intros Hbody w c HP. unfold for_input.
  pose proof (range_for_stops (on_loc (calls_le N)) (cancelled_at N) E body
                (w_input w)
                (mkFrame (mkOuter (w_method w) (w_counter w) (w_calls w))
                   (w_result w) (w_ret w)) c Hbody HP) as H.
  destruct (range_for E body (w_input w) _ c) as [[[ex L'] fr] c'].
  by destruct ex.
Qed.

Lemma for_method_stops (body : OGRFeature -> M (Frame OuterLoc) unit) :
  (forall x, stops (on_loc (calls_le N)) (cancelled_at N) (body x)) ->
  stops (w_calls_le N) (w_cancelled_at N) (for_method E body).
Proof.
  intros Hbody w c HP. unfold for_method.
  pose proof (range_for_stops (on_loc (calls_le N)) (cancelled_at N) E body
                (w_method w)
                (mkFrame (mkOuter (w_input w) (w_counter w) (w_calls w))
                   (w_result w) (w_ret w)) c Hbody HP) as H.
  destruct (range_for E body (w_method w) _ c) as [[[ex L'] fr] c'].
  by destruct ex.
Qed.

Ltac keep_w :=
  repeat
    first
      [ progress keep
      | lazymatch goal with
        | |- preserves _ (Intersection_resources _ _ _ _) =>
            unfold Intersection_resources
        | |- preserves _ (Union_resources _ _ _ _) => unfold Union_resources
        | |- preserves _ (Clip_resources _ _ _ _) => unfold Clip_resources
        | |- preserves _ (Erase_resources _ _ _ _) => unfold Erase_resources
        | |- preserves _ (check_clone _) => apply check_clone_calls
        | |- preserves _ (get_field_map _ _) => apply get_field_map_calls
        | |- preserves _ (get_result_schema _ _ _ _ _ _ _) =>
            apply get_result_schema_calls
        | |- preserves _ (w_get _) => apply w_get_calls
        | |- preserves _ (w_method_extent _) => apply w_method_extent_calls
        | |- preserves _ (w_resolve_keep_lower_dim _) =>
            apply w_resolve_keep_lower_dim_calls
        | |- preserves _ (restore_method_filter _ _) =>
            apply restore_method_filter_calls
        end ].

Ltac halt_w :=
  repeat
    lazymatch goal with
    | |- stops _ _ (mbind _ _) => apply stops_mbind; [| intros ?]
    | |- stops _ _ (final_progress (Some _)) => apply final_progress_stops
    | |- stops _ _ (for_input _ ?body) =>
        apply for_input_stops; intros ?;
        lazymatch body with
        | Intersection_x _ _ _ _ _ _ _ _ _ _ _ _ _ _ =>
            by apply Intersection_x_stops
        | Union_x _ _ _ _ _ _ _ _ _ _ _ => by apply Union_x_stops
        | SymDifference_x _ _ _ _ _ _ _ _ _ => by apply SymDifference_x_stops
        | Identity_x _ _ _ _ _ _ _ _ _ _ _ => by apply Identity_x_stops
        | Update_x _ _ _ _ _ _ _ _ => by apply Update_x_stops
        | Clip_x _ _ _ _ _ _ _ _ => by apply Clip_x_stops
        | Erase_x _ _ _ _ _ _ _ _ => by apply Erase_x_stops
        end
    | |- stops _ _ (for_method _ ?body) =>
        apply for_method_stops; intros ?;
        lazymatch body with
        | Union_y _ _ _ _ _ _ _ _ => by apply Union_y_stops
        | SymDifference_x _ _ _ _ _ _ _ _ _ => by apply SymDifference_x_stops
        | Update_y _ _ _ _ _ _ => by apply Update_y_stops
        end
    | |- stops _ _ _ => apply stops_of_preserves; [by left | by keep_w]
    end.

(** The state in which an operation returns. *)
Ltac cancelled :=
  simpl negb; cbv iota zeta; cbn [snd];
  lazymatch goal with
  | |- context [mbind ?a ?b (mkWorld ?i ?m ?r ?e ?n ?k) ?c0] =>
      let Hmain := fresh "Hmain" in
      assert (Hmain : stops (w_calls_le N) (w_cancelled_at N) (mbind a b))
        by halt_w;
      specialize (Hmain (mkWorld i m r e n k) c0 ltac:(unfold w_calls_le; simpl; lia));
      destruct (mbind a b (mkWorld i m r e n k) c0) as [[?r ?w] ?c1];
      simpl in Hmain;
      match goal with
      | H : match ?r0 with _ => _ end |- _ =>
          let Hd := fresh "Hdone" in
          assert (Hd : w_cancelled_at N w)
            by (destruct r0 as [? | []]; auto; by left);
          clear H
      end;
      repeat
        match goal with
        | Hd : w_cancelled_at N ?w1
          |- context [restore_input_filter E ?F ?w1 ?c1] =>
            let H := fresh "Hrest" in
            pose proof (restore_input_filter_cancelled F w1 c1 Hd) as H;
            destruct (restore_input_filter E F w1 c1) as [[? ?w] ?c];
            simpl in H; clear Hd
        | Hd : w_cancelled_at N ?w1
          |- context [restore_method_filter E ?F ?w1 ?c1] =>
            let H := fresh "Hrest" in
            pose proof (restore_method_filter_cancelled F w1 c1 Hd) as H;
            destruct (restore_method_filter E F w1 c1) as [[? ?w] ?c];
            simpl in H; clear Hd
        end;
      assumption
  end.

Section Operations.

Context (this pLayerMethod pLayerResult : OGRLayer) (opts : CSLConstList)
  (c : CPLState).

Lemma Intersection_cancelled :
  w_cancelled_at N
    (OGRLayer_Intersection E this pLayerMethod pLayerResult opts (Some pfn) c).1.2.
Proof.
  unfold OGRLayer_Intersection, clone_spatial_filter.
  destruct (haveGEOS E); [| left; simpl; lia]. cancelled.
Qed.

Lemma Union_cancelled :
  w_cancelled_at N
    (OGRLayer_Union E this pLayerMethod pLayerResult opts (Some pfn) c).1.2.
Proof.
  unfold OGRLayer_Union, clone_spatial_filter.
  destruct (haveGEOS E); [| left; simpl; lia]. cancelled.
Qed.

Lemma SymDifference_cancelled :
  w_cancelled_at N
    (OGRLayer_SymDifference E this pLayerMethod pLayerResult opts (Some pfn) c).1.2.
Proof.
  unfold OGRLayer_SymDifference, clone_spatial_filter.
  destruct (haveGEOS E); [| left; simpl; lia]. cancelled.
Qed.

Lemma Identity_cancelled :
  w_cancelled_at N
    (OGRLayer_Identity E this pLayerMethod pLayerResult opts (Some pfn) c).1.2.
Proof.
  unfold OGRLayer_Identity, clone_spatial_filter.
  destruct (haveGEOS E); [| left; simpl; lia].
  destruct (resolve_keep_lower_dim _ pLayerResult c) as [bKeep c0]. cancelled.
Qed.

Lemma Update_cancelled :
  w_cancelled_at N
    (OGRLayer_Update E this pLayerMethod pLayerResult opts (Some pfn) c).1.2.
Proof.
  unfold OGRLayer_Update, clone_spatial_filter.
  destruct (haveGEOS E); [| left; simpl; lia]. cancelled.
Qed.

Lemma Clip_cancelled :
  w_cancelled_at N
    (OGRLayer_Clip E this pLayerMethod pLayerResult opts (Some pfn) c).1.2.
Proof.
  unfold OGRLayer_Clip, clone_spatial_filter.
  destruct (haveGEOS E); [| left; simpl; lia]. cancelled.
Qed.

Lemma Erase_cancelled :
  w_cancelled_at N
    (OGRLayer_Erase E this pLayerMethod pLayerResult opts (Some pfn) c).1.2.
Proof.
  unfold OGRLayer_Erase, clone_spatial_filter.
  destruct (haveGEOS E); [| left; simpl; lia]. cancelled.
Qed.

End Operations.

End CancellationOfOperations.

Section StatusOfOperations.

Context (E : Collaborators) (this pLayerMethod pLayerResult : OGRLayer)
  (opts : CSLConstList) (pfn : option GDALProgressFunc) (c : CPLState).

Hypothesis geos_present : haveGEOS E = true.

Ltac returned_ret :=
  rewrite geos_present; simpl negb; cbv iota zeta;
  repeat
    match goal with
    | |- context [match ?x with _ => _ end] => destruct x
    end;
  reflexivity.

Lemma Intersection_returns_ret :
  (OGRLayer_Intersection E this pLayerMethod pLayerResult opts pfn c).1.1
  = w_ret (OGRLayer_Intersection E this pLayerMethod pLayerResult opts pfn c).1.2.
Proof. unfold OGRLayer_Intersection. returned_ret. Qed.

Lemma Union_returns_ret :
  (OGRLayer_Union E this pLayerMethod pLayerResult opts pfn c).1.1
  = w_ret (OGRLayer_Union E this pLayerMethod pLayerResult opts pfn c).1.2.
Proof. unfold OGRLayer_Union. returned_ret. Qed.

Lemma SymDifference_returns_ret :
  (OGRLayer_SymDifference E this pLayerMethod pLayerResult opts pfn c).1.1
  = w_ret (OGRLayer_SymDifference E this pLayerMethod pLayerResult opts pfn c).1.2.
Proof. unfold OGRLayer_SymDifference. returned_ret. Qed.

Lemma Identity_returns_ret :
  (OGRLayer_Identity E this pLayerMethod pLayerResult opts pfn c).1.1
  = w_ret (OGRLayer_Identity E this pLayerMethod pLayerResult opts pfn c).1.2.
Proof. unfold OGRLayer_Identity. returned_ret. Qed.

Lemma Update_returns_ret :
  (OGRLayer_Update E this pLayerMethod pLayerResult opts pfn c).1.1
  = w_ret (OGRLayer_Update E this pLayerMethod pLayerResult opts pfn c).1.2.
Proof. unfold OGRLayer_Update. returned_ret. Qed.

Lemma Clip_returns_ret :
  (OGRLayer_Clip E this pLayerMethod pLayerResult opts pfn c).1.1
  = w_ret (OGRLayer_Clip E this pLayerMethod pLayerResult opts pfn c).1.2.
Proof. unfold OGRLayer_Clip. returned_ret. Qed.

Lemma Erase_returns_ret :
  (OGRLayer_Erase E this pLayerMethod pLayerResult opts pfn c).1.1
  = w_ret (OGRLayer_Erase E this pLayerMethod pLayerResult opts pfn c).1.2.
Proof. unfold OGRLayer_Erase. returned_ret. Qed.

End StatusOfOperations.

(** X7: a progress callback that answers false at its call number [N]
    (counting from 0), whatever it is asked, is not called again by any of
    the seven overlay operations, and an operation that made that call
    returns [OGRERR_FAILURE]. *)
Theorem cancelling_callback_stops_overlay (E : Collaborators)
    (this pLayerMethod pLayerResult : OGRLayer) (papszOptions : CSLConstList)
    (pfn : GDALProgressFunc) (N : nat) (c : CPLState) :
  (forall args, pfn N args = false) ->
  let stopped (res : OGRErr * World * CPLState) :=
    (w_calls res.1.2 <= S N)%nat
    /\ (w_calls res.1.2 = S N -> res.1.1 = OGRERR_FAILURE) in
  stopped (OGRLayer_Intersection E this pLayerMethod pLayerResult papszOptions
             (Some pfn) c)
  /\ stopped (OGRLayer_Union E this pLayerMethod pLayerResult papszOptions
                (Some pfn) c)
  /\ stopped (OGRLayer_SymDifference E this pLayerMethod pLayerResult
                papszOptions (Some pfn) c)
  /\ stopped (OGRLayer_Identity E this pLayerMethod pLayerResult papszOptions
                (Some pfn) c)
  /\ stopped (OGRLayer_Update E this pLayerMethod pLayerResult papszOptions
                (Some pfn) c)
  /\ stopped (OGRLayer_Clip E this pLayerMethod pLayerResult papszOptions
                (Some pfn) c)
  /\ stopped (OGRLayer_Erase E this pLayerMethod pLayerResult papszOptions
                (Some pfn) c).
Proof.
  intros Hpfn stopped.
  assert (Hstop : forall res : OGRErr * World * CPLState,
             w_cancelled_at N res.1.2 ->
             (haveGEOS E = true -> res.1.1 = w_ret res.1.2) ->
             (haveGEOS E = false -> w_calls res.1.2 = 0%nat) ->
             stopped res).
  { intros res [Hle | [Hcalls Hret]] Hgeos Hnone; (split; [lia |]); intros Heq.
    - lia.
    - destruct (haveGEOS E); [by rewrite Hgeos | specialize (Hnone eq_refl); lia]. }
  split; [| split; [| split; [| split; [| split; [| split]]]]]; apply Hstop.
  - by apply Intersection_cancelled.
  - intros Hg. by apply Intersection_returns_ret.
  - intros Hg. unfold OGRLayer_Intersection. by rewrite Hg.
  - by apply Union_cancelled.
  - intros Hg. by apply Union_returns_ret.
  - intros Hg. unfold OGRLayer_Union. by rewrite Hg.
  - by apply SymDifference_cancelled.
  - intros Hg. by apply SymDifference_returns_ret.
  - intros Hg. unfold OGRLayer_SymDifference. by rewrite Hg.
  - by apply Identity_cancelled.
  - intros Hg. by apply Identity_returns_ret.
  - intros Hg. unfold OGRLayer_Identity. by rewrite Hg.
  - by apply Update_cancelled.
  - intros Hg. by apply Update_returns_ret.
  - intros Hg. unfold OGRLayer_Update. by rewrite Hg.
  - by apply Clip_cancelled.
  - intros Hg. by apply Clip_returns_ret.
  - intros Hg. unfold OGRLayer_Clip. by rewrite Hg.
  - by apply Erase_cancelled.
  - intros Hg. by apply Erase_returns_ret.
  - intros Hg. unfold OGRLayer_Erase. by rewrite Hg.
Qed.

Lemma cancelling_callback_stops_overlay_witness :
  (forall args : Z * Z, counted_callback 2 2%nat args = false)
  /\ w_calls (OGRLayer_Erase Box.kernel (counted four_squares) (Box.layer [] [wkbPolygon] [])
                (Box.layer [] [wkbPolygon] []) [] (Some (counted_callback 2))
                cpl_initial).1.2 = 3%nat
  /\ (OGRLayer_Erase Box.kernel (counted four_squares) (Box.layer [] [wkbPolygon] [])
        (Box.layer [] [wkbPolygon] []) [] (Some (counted_callback 2))
        cpl_initial).1.1 = OGRERR_FAILURE.
Proof.
  split; [done |]. split; [by vm_compute |].
  apply (cancelling_callback_stops_overlay Box.kernel (counted four_squares)
           (Box.layer [] [wkbPolygon] []) (Box.layer [] [wkbPolygon] []) []
           (counted_callback 2) 2 cpl_initial); [done | by vm_compute].
Defined.

(** ** The size of the result of an overlay operation *)

Section GrowsRules.

Context {St : Type} (P : nat -> St -> Prop).

Hypothesis P_mono : forall b b' st, (b <= b')%nat -> P b st -> P b' st.

Lemma grows_of_preserves {A : Type} (k : nat) (m : M St A) :
  (forall b, preserves (P b) m) -> grows P k m.
Proof.
  intros Hm b st c HP. apply (P_mono b); [lia |]. by apply Hm.
Qed.

Lemma grows_mbind {A B : Type} (a b : nat) (m : M St A) (k : A -> M St B) :
  grows P a m -> (forall x, grows P b (k x)) -> grows P (a + b) (mbind m k).
Proof.
  intros Hm Hk b0 st c HP. unfold mbind. specialize (Hm b0 st c HP).
  destruct (m st c) as [[[x | j] st'] c']; simpl in Hm.
  - apply (P_mono (b0 + a + b)); [lia |]. by apply Hk.
  - apply (P_mono (b0 + a)); [lia | exact Hm].
Qed.

Lemma grows_le {A : Type} (k k' : nat) (m : M St A) :
  (k <= k')%nat -> grows P k m -> grows P k' m.
Proof.
  intros Hk Hm b st c HP. apply (P_mono (b + k)); [lia |]. by apply Hm.
Qed.

(** A step that keeps every bound, in front of the rest or behind it. *)
Lemma grows_after {A B : Type} (n : nat) (m : M St A) (k : A -> M St B) :
  (forall b, preserves (P b) m) -> (forall x, grows P n (k x)) ->
  grows P n (mbind m k).
Proof.
  intros Hm Hk. apply (grows_le (0 + n)); [lia |].
  apply grows_mbind; [by apply grows_of_preserves | exact Hk].
Qed.

Lemma grows_before {A B : Type} (n : nat) (m : M St A) (k : A -> M St B) :
  grows P n m -> (forall x b, preserves (P b) (k x)) -> grows P n (mbind m k).
Proof.
  intros Hm Hk. apply (grows_le (n + 0)); [lia |].
  apply grows_mbind; [exact Hm | intros x; by apply grows_of_preserves].
Qed.

(** A loop whose body raises the bound by at most [k] raises it by at
    most [k] for each row of its layer. *)
Lemma feed_grows (E : Collaborators) (k : nat) (body : OGRFeature -> M St unit)
    (L : OGRLayer) :
  (forall x, grows P k (body x)) ->
  forall rows pos b st c,
    P b st -> P (b + k * length rows)%nat (feed E L body rows pos st c).1.2.
Proof.
  intros Hbody. induction rows as [| r rest IH]; intros pos b st c HP.
  { apply (P_mono b); [lia | exact HP]. }
  simpl feed. destruct (passes_filters E L r c) as [[] c1].
  - specialize (Hbody r b st c1 HP).
    destruct (body r st c1) as [[[[] | []] st'] c']; simpl in Hbody;
      try (apply (P_mono (b + k + k * length rest)); [simpl; lia | by apply IH]);
      (apply (P_mono (b + k)); [simpl; lia | exact Hbody]).
  - apply (P_mono (b + k * length rest)); [simpl; lia | by apply IH].
Qed.

Lemma range_for_grows (E : Collaborators) (k : nat)
    (body : OGRFeature -> M St unit) (L : OGRLayer) (b : nat) (st : St)
    (c : CPLState) :
  (forall x, grows P k (body x)) -> P b st ->
  P (b + k * length (drv_features L))%nat (range_for E body L st c).1.2.
Proof.
  intros Hbody HP. destruct (m_bInFeatureIterator L) eqn:Hflag.
  - rewrite (range_for_busy E body L st c Hflag). simpl.
    apply (P_mono b); [lia | exact HP].
  - rewrite (range_for_feed E body L st c Hflag).
    pose proof (feed_grows E k body L Hbody (drv_features L) 0 b st c HP) as H.
    by destruct (feed E L body (drv_features L) 0 st c) as [[[ex pos'] st'] c'].
Qed.

End GrowsRules.

Section RowsOfLayers.

Context (E : Collaborators).

Lemma rows_are_read (n : nat) : kept_by_reading (rows_are n).
Proof. intros L pos b HQ. exact HQ. Qed.

Lemma rows_are_filtered (n : nat) : kept_by_filtering E (rows_are n).
Proof.
  intros L g c HQ. unfold SetSpatialFilter0, SetSpatialFilter.
  destruct (if 0 =? 0 then _ else _) as [[|] c1]; [| exact HQ].
  unfold ISetSpatialFilter.
  by destruct (InstallFilter_layer E (set_iGeomFieldFilter L 0) g)
    as [-> | (b & f & p & e & ->)].
Qed.

Lemma rows_le_fields (b : nat) (L : OGRLayer) (d : OGRFieldDefn) (c : CPLState) :
  rows_le b L -> rows_le b (CreateField E L d c).1.2.
Proof. intros HQ. unfold CreateField. by destruct (ICreateField_ok E L d). Qed.

Lemma rows_le_feature (b : nat) (L : OGRLayer) (z : OGRFeature) (c : CPLState) :
  rows_le b L -> rows_le (b + 1) (CreateFeature E L z c).1.2.
Proof.
  unfold rows_le. rewrite CreateFeature_converted. unfold ICreateFeature. intros HQ.
  destruct (ICreateFeature_ok E _ _); simpl; rewrite ConvertGeoms_init_rows;
    [rewrite length_app; simpl |]; lia.
Qed.

Lemma inner_rows_mono {Loc : Type} (b b' : nat) (fr : Frame Loc) :
  (b <= b')%nat -> inner_rows b fr -> inner_rows b' fr.
Proof. unfold inner_rows, on_result, rows_le. lia. Qed.

Lemma outer_rows_mono (n b b' : nat) (fr : Frame OuterLoc) :
  (b <= b')%nat -> outer_rows n b fr -> outer_rows n b' fr.
Proof. unfold outer_rows, on_layers, rows_le. intros ? []. split; [done | lia]. Qed.

Lemma world_rows_mono (n m b b' : nat) (w : World) :
  (b <= b')%nat -> world_rows n m b w -> world_rows n m b' w.
Proof.
  unfold world_rows, on_world, rows_le. intros ? (? & ? & ?).
  split; [done |]. split; [done | lia].
Qed.

Lemma submit_feature_grows {Loc : Type} bSkipFailures (z : OGRFeature) :
  grows (@inner_rows Loc) 1 (submit_feature E bSkipFailures z).
Proof.
  intros b fr c HP. unfold submit_feature.
  pose proof (rows_le_feature b (f_result fr) z c HP) as H.
  destruct (CreateFeature E (f_result fr) z c) as [[ret R'] c'].
  by destruct (negb (bool_decide (ret = OGRERR_NONE))), bSkipFailures.
Qed.

Lemma submit_feature_grows_outer (n : nat) bSkipFailures (z : OGRFeature) :
  grows (outer_rows n) 1 (submit_feature E bSkipFailures z).
Proof.
  intros b fr c [Ho Hr]. unfold submit_feature.
  pose proof (rows_le_feature b (f_result fr) z c Hr) as H.
  destruct (CreateFeature E (f_result fr) z c) as [[ret R'] c'].
  by destruct (negb (bool_decide (ret = OGRERR_NONE))), bSkipFailures.
Qed.

(** Steps of a loop body that write no feature. *)
Ltac quiet :=
  solve
    [ intros ?; unfold inner_rows, outer_rows;
      repeat
        (keep;
         try match goal with
             | |- preserves _ (subtract _ _ _ _) => unfold subtract
             | |- preserves _ (Intersection_pretest _ _ _ _ _) =>
                 unfold Intersection_pretest
             | |- preserves _ (Intersection_compute _ _ _ _ _) =>
                 unfold Intersection_compute
             | |- preserves _ (report_progress _ _) =>
                 apply report_progress_layers
             | |- preserves _ (setup_filter _ _ _ _) =>
                 apply setup_filter_layers; apply rows_are_filtered
             | |- preserves _ (begin_x _ _ _ _ _ _) => unfold begin_x
             | |- preserves _ (Intersection_begin _ _ _ _ _ _ _ _) =>
                 unfold Intersection_begin
             | |- preserves _ (prepare_x _ _ _) => apply prepare_x_keeps
             | |- preserves _ (for_other _ _ _) =>
                 apply for_other_layers; [apply rows_are_read | intros ?];
                 lazymatch goal with
                 | |- preserves _ (SymDifference_pair _ _ _ _) =>
                     apply SymDifference_pair_result
                 | |- preserves _ (subtract_pair _ _ _) =>
                     apply subtract_pair_result
                 | |- preserves _ (Clip_pair _ _ _) => apply Clip_pair_result
                 | |- preserves _ (Erase_pair _ _ _) => apply Erase_pair_result
                 end
             end) ].

(** The bound of a block with at most one [CreateFeature] at its end. *)
Ltac one_feature mono :=
  cbv zeta;
  repeat
    match goal with
    | |- grows _ _ (mbind _ _) =>
        apply (grows_after _ mono); [quiet | intros ?]
    | |- grows inner_rows _ (submit_feature _ _ _) => apply submit_feature_grows
    | |- grows (outer_rows _) _ (submit_feature _ _ _) =>
        apply submit_feature_grows_outer
    | |- grows _ _ (if ?b then _ else _) => destruct b
    | |- grows _ _ (match ?x with _ => _ end) => destruct x
    | |- grows _ _ _ => apply (grows_of_preserves _ mono); quiet
    end.

Lemma Intersection_pair_grows b1 b2 b3 b4 defn mI mM x x_geom x_prep y :
  grows inner_rows 1
    (Intersection_pair E b1 b2 b3 b4 defn mI mM x x_geom x_prep y).
Proof. unfold Intersection_pair. one_feature (@inner_rows_mono unit). Qed.

Lemma Union_pair_grows b1 b2 b3 defn mI mM x x_geom x_prep y :
  grows inner_rows 1 (Union_pair E b1 b2 b3 defn mI mM x x_geom x_prep y).
Proof. unfold Union_pair. one_feature (@inner_rows_mono (option OGRGeometry)). Qed.

Lemma Identity_pair_grows b1 b2 b3 defn mI mM x x_geom x_prep y :
  grows inner_rows 1 (Identity_pair E b1 b2 b3 defn mI mM x x_geom x_prep y).
Proof.
  unfold Identity_pair. one_feature (@inner_rows_mono (option OGRGeometry)).
Qed.

Section Outer.

Context (n : nat).

(** An inner loop whose body writes at most [k] features writes at most
    [k] for each row of the other layer. *)
Lemma for_other_grows {Loc : Type} (k : nat) (init : Loc)
    (body : OGRFeature -> M (Frame Loc) unit) :
  (forall y, grows inner_rows k (body y)) ->
  grows (outer_rows n) (k * n) (for_other E init body).
Proof.
  intros Hbody b fr c [Ho Hr]. unfold for_other.
  destruct (range_for_layer E body (o_other (f_loc fr))
              (mkFrame init (f_result fr) (f_ret fr)) c) as [pos Hpos].
  pose proof (range_for_grows inner_rows inner_rows_mono E k body
                (o_other (f_loc fr)) b (mkFrame init (f_result fr) (f_ret fr)) c
                Hbody Hr) as Hres.
  destruct (range_for E body _ _ c) as [[[ex L'] fr'] c'].
  simpl in Hpos, Hres. subst L'. rewrite Ho in Hres.
  destruct ex; (split; [exact Ho | exact Hres]).
Qed.

Lemma submit_leftover_grows b1 b2 defn x map geom :
  grows (outer_rows n) 1 (submit_leftover E b1 b2 defn x map geom).
Proof. unfold submit_leftover. one_feature (outer_rows_mono n). Qed.

Lemma Intersection_x_grows pfn pmax b1 b2 b3 b4 b5 flt bEnv sEnv defn mI mM x :
  grows (outer_rows n) (1 * n)
    (Intersection_x E pfn pmax b1 b2 b3 b4 b5 flt bEnv sEnv defn mI mM x).
Proof.
  unfold Intersection_x.
  apply (grows_after _ (outer_rows_mono n)); [quiet | intros x_geom].
  apply (grows_after _ (outer_rows_mono n)); [quiet | intros x_prep].
  apply (grows_before _ (outer_rows_mono n)); [| intros; apply preserves_mret].
  apply for_other_grows. intros y. apply Intersection_pair_grows.
Qed.

Lemma Union_x_grows pfn pmax b1 b2 b3 b4 flt defn mI mM x :
  grows (outer_rows n) (1 * n + 1)
    (Union_x E pfn pmax b1 b2 b3 b4 flt defn mI mM x).
Proof.
  unfold Union_x.
  apply (grows_after _ (outer_rows_mono n)); [quiet | intros x_geom].
  apply (grows_after _ (outer_rows_mono n)); [quiet | intros x_prep].
  apply (grows_mbind _ (outer_rows_mono n)).
  - apply for_other_grows. intros y. apply Union_pair_grows.
  - intros g. apply submit_leftover_grows.
Qed.

Lemma Identity_x_grows pfn pmax b1 b2 b3 b4 flt defn mI mM x :
  grows (outer_rows n) (1 * n + 1)
    (Identity_x E pfn pmax b1 b2 b3 b4 flt defn mI mM x).
Proof.
  unfold Identity_x.
  apply (grows_after _ (outer_rows_mono n)); [quiet | intros x_geom].
  apply (grows_after _ (outer_rows_mono n)); [quiet | intros x_prep].
  apply (grows_mbind _ (outer_rows_mono n)).
  - apply for_other_grows. intros y. apply Identity_pair_grows.
  - intros g. apply submit_leftover_grows.
Qed.

Lemma Union_y_grows pfn pmax b1 b2 flt defn mM x :
  grows (outer_rows n) 1 (Union_y E pfn pmax b1 b2 flt defn mM x).
Proof.
  unfold Union_y. one_feature (outer_rows_mono n). apply submit_leftover_grows.
Qed.

Lemma SymDifference_x_grows pfn pmax b1 b2 b3 flt defn map x :
  grows (outer_rows n) 1 (SymDifference_x E pfn pmax b1 b2 b3 flt defn map x).
Proof.
  unfold SymDifference_x. one_feature (outer_rows_mono n).
  apply submit_leftover_grows.
Qed.

Lemma Update_x_grows pfn pmax b1 b2 flt defn mI x :
  grows (outer_rows n) 1 (Update_x E pfn pmax b1 b2 flt defn mI x).
Proof.
  unfold Update_x. one_feature (outer_rows_mono n). apply submit_leftover_grows.
Qed.

Lemma Update_y_grows pfn pmax b1 defn mM y :
  grows (outer_rows n) 1 (Update_y E pfn pmax b1 defn mM y).
Proof.
  unfold Update_y.
  apply (grows_after _ (outer_rows_mono n)); [quiet | intros ?].
  destruct (StealGeometry y) as [[y_geom |] y']; one_feature (outer_rows_mono n).
Qed.

Lemma Clip_x_grows pfn pmax b1 b2 flt defn mI x :
  grows (outer_rows n) 1 (Clip_x E pfn pmax b1 b2 flt defn mI x).
Proof. unfold Clip_x. one_feature (outer_rows_mono n). Qed.

Lemma Erase_x_grows pfn pmax b1 b2 flt defn mI x :
  grows (outer_rows n) 1 (Erase_x E pfn pmax b1 b2 flt defn mI x).
Proof. unfold Erase_x. one_feature (outer_rows_mono n). Qed.

End Outer.

End RowsOfLayers.

Section SizeOfOperations.

Context (E : Collaborators) (n m : nat).

Lemma for_input_grows (k : nat) (body : OGRFeature -> M (Frame OuterLoc) unit) :
  (forall x, grows (outer_rows m) k (body x)) ->
  grows (world_rows n m) (k * n) (for_input E body).
Proof.
  intros Hbody b w c (Hi & Hm & Hr). unfold for_input.
  set (fr0 := mkFrame (mkOuter (w_method w) (w_counter w) (w_calls w))
                (w_result w) (w_ret w)).
  destruct (range_for_layer E body (w_input w) fr0 c) as [pos Hpos].
  pose proof (range_for_grows (outer_rows m) (outer_rows_mono m) E k body
                (w_input w) b fr0 c Hbody (conj Hm Hr)) as [Ho Hres].
  destruct (range_for E body (w_input w) fr0 c) as [[[ex L'] fr] c'].
  simpl in Hpos, Ho, Hres. subst L'. rewrite Hi in Hres.
  destruct ex; (split; [exact Hi | by split]).
Qed.

Lemma for_method_grows (k : nat) (body : OGRFeature -> M (Frame OuterLoc) unit) :
  (forall x, grows (outer_rows n) k (body x)) ->
  grows (world_rows n m) (k * m) (for_method E body).
Proof.
  intros Hbody b w c (Hi & Hm & Hr). unfold for_method.
  set (fr0 := mkFrame (mkOuter (w_input w) (w_counter w) (w_calls w))
                (w_result w) (w_ret w)).
  destruct (range_for_layer E body (w_method w) fr0 c) as [pos Hpos].
  pose proof (range_for_grows (outer_rows n) (outer_rows_mono n) E k body
                (w_method w) b fr0 c Hbody (conj Hi Hr)) as [Ho Hres].
  destruct (range_for E body (w_method w) fr0 c) as [[[ex L'] fr] c'].
  simpl in Hpos, Ho, Hres. subst L'. rewrite Hm in Hres.
  destruct ex; (split; [exact Ho | by split]).
Qed.

(** Steps of an operation that write no feature. *)
Ltac quiet_w :=
  solve
    [ intros; unfold world_rows;
      repeat
        first
          [ progress keep
          | lazymatch goal with
            | |- preserves _ (Intersection_resources _ _ _ _) =>
                unfold Intersection_resources
            | |- preserves _ (Union_resources _ _ _ _) => unfold Union_resources
            | |- preserves _ (Clip_resources _ _ _ _) => unfold Clip_resources
            | |- preserves _ (Erase_resources _ _ _ _) => unfold Erase_resources
            | |- preserves _ (check_clone _) => apply check_clone_world
            | |- preserves _ (get_field_map _ _) => apply get_field_map_world
            | |- preserves _ (get_result_schema _ _ _ _ _ _ _) =>
                apply get_result_schema_fields; apply rows_le_fields
            | |- preserves _ (w_get _) => apply w_get_world
            | |- preserves _ (w_method_extent _) =>
                apply w_method_extent_world; apply rows_are_read
            | |- preserves _ (w_resolve_keep_lower_dim _) =>
                apply w_resolve_keep_lower_dim_world
            | |- preserves _ (final_progress _) => apply final_progress_world
            | |- preserves _ (restore_method_filter _ _) =>
                apply restore_method_filter_world; apply rows_are_filtered
            | |- preserves _ (restore_input_filter _ _) =>
                apply restore_input_filter_world; apply rows_are_filtered
            end ] ].

(** The bound of the main part of an operation: what comes before its
    loops writes no feature, and each loop writes what its body writes
    for each row of its layer. *)
Ltac loops :=
  repeat
    lazymatch goal with
    | |- grows _ _ (mbind (for_input _ _) (fun _ => final_progress _)) =>
        apply (grows_before _ (world_rows_mono n m));
        [apply for_input_grows; intros ? | quiet_w]
    | |- grows _ _ (mbind (for_method _ _) (fun _ => final_progress _)) =>
        apply (grows_before _ (world_rows_mono n m));
        [apply for_method_grows; intros ? | quiet_w]
    | |- grows _ _ (mbind (for_input _ _) _) =>
        apply (grows_mbind _ (world_rows_mono n m));
        [apply for_input_grows; intros ? | intros ?]
    | |- grows _ _ (mbind _ _) =>
        apply (grows_after _ (world_rows_mono n m)); [quiet_w | intros ?]
    end.

(** The main part of an operation, then the block at [done:], which
    writes no feature. *)
Ltac result_size K :=
  simpl negb; cbv iota zeta; cbn [snd];
  lazymatch goal with
  | |- context [mbind ?a ?b (mkWorld ?i ?j ?r ?e ?u ?k) ?c0] =>
      let Hmain := fresh "Hmain" in
      assert (Hmain : grows (world_rows n m) K (mbind a b));
      [loops |
       specialize (Hmain (length (drv_features r)) (mkWorld i j r e u k) c0
                     ltac:(repeat split; (assumption || apply le_n)));
       destruct (mbind a b (mkWorld i j r e u k) c0) as [[? ?w] ?c1];
       simpl in Hmain;
       repeat
         match goal with
         | |- context [restore_input_filter E ?F ?w1 ?c1] =>
             let H := fresh "Hdone" in
             pose proof (restore_input_filter_world E _ _ _
                           (rows_are_filtered E n) F w1 c1 Hmain) as H;
             destruct (restore_input_filter E F w1 c1) as [[? ?w] ?c];
             simpl in H; clear Hmain; rename H into Hmain
         | |- context [restore_method_filter E ?F ?w1 ?c1] =>
             let H := fresh "Hdone" in
             pose proof (restore_method_filter_world E _ _ _
                           (rows_are_filtered E m) F w1 c1 Hmain) as H;
             destruct (restore_method_filter E F w1 c1) as [[? ?w] ?c];
             simpl in H; clear Hmain; rename H into Hmain
         end;
       exact (proj2 (proj2 Hmain))]
  end.

Section Operations.

Context (this pLayerMethod pLayerResult : OGRLayer) (opts : CSLConstList)
  (pfn : option GDALProgressFunc) (c : CPLState).

Hypothesis Hn : rows_are n this.
Hypothesis Hm : rows_are m pLayerMethod.

Lemma unsupported_size (k : nat) : at_most_added pLayerResult k pLayerResult.
Proof. unfold at_most_added. lia. Qed.

Lemma Intersection_size :
  at_most_added pLayerResult (1 * m * n)
    (w_result (OGRLayer_Intersection E this pLayerMethod pLayerResult opts pfn c).1.2).
Proof.
  unfold OGRLayer_Intersection, clone_spatial_filter.
  destruct (haveGEOS E); [| apply unsupported_size].
  result_size (1 * m * n)%nat. apply Intersection_x_grows.
Qed.

Lemma Union_size :
  at_most_added pLayerResult ((1 * m + 1) * n + 1 * m)
    (w_result (OGRLayer_Union E this pLayerMethod pLayerResult opts pfn c).1.2).
Proof.
  unfold OGRLayer_Union, clone_spatial_filter.
  destruct (haveGEOS E); [| apply unsupported_size].
  result_size ((1 * m + 1) * n + 1 * m)%nat;
    [apply Union_x_grows | apply Union_y_grows].
Qed.

Lemma SymDifference_size :
  at_most_added pLayerResult (1 * n + 1 * m)
    (w_result
       (OGRLayer_SymDifference E this pLayerMethod pLayerResult opts pfn c).1.2).
Proof.
  unfold OGRLayer_SymDifference, clone_spatial_filter.
  destruct (haveGEOS E); [| apply unsupported_size].
  result_size (1 * n + 1 * m)%nat; apply SymDifference_x_grows.
Qed.

Lemma Identity_size :
  at_most_added pLayerResult ((1 * m + 1) * n)
    (w_result (OGRLayer_Identity E this pLayerMethod pLayerResult opts pfn c).1.2).
Proof.
  unfold OGRLayer_Identity, clone_spatial_filter.
  destruct (haveGEOS E); [| apply unsupported_size].
  destruct (resolve_keep_lower_dim _ pLayerResult c) as [bKeep c0].
  result_size ((1 * m + 1) * n)%nat. apply Identity_x_grows.
Qed.

Lemma Update_size :
  at_most_added pLayerResult (1 * n + 1 * m)
    (w_result (OGRLayer_Update E this pLayerMethod pLayerResult opts pfn c).1.2).
Proof.
  unfold OGRLayer_Update, clone_spatial_filter.
  destruct (haveGEOS E); [| apply unsupported_size].
  result_size (1 * n + 1 * m)%nat; [apply Update_x_grows | apply Update_y_grows].
Qed.

Lemma Clip_size :
  at_most_added pLayerResult (1 * n)
    (w_result (OGRLayer_Clip E this pLayerMethod pLayerResult opts pfn c).1.2).
Proof.
  unfold OGRLayer_Clip, clone_spatial_filter.
  destruct (haveGEOS E); [| apply unsupported_size].
  result_size (1 * n)%nat. apply Clip_x_grows.
Qed.

Lemma Erase_size :
  at_most_added pLayerResult (1 * n)
    (w_result (OGRLayer_Erase E this pLayerMethod pLayerResult opts pfn c).1.2).
Proof.
  unfold OGRLayer_Erase, clone_spatial_filter.
  destruct (haveGEOS E); [| apply unsupported_size].
  result_size (1 * n)%nat. apply Erase_x_grows.
Qed.

End Operations.

End SizeOfOperations.

(** X16: the number of features an overlay operation writes is bounded
    by the numbers [n] and [m] of rows of its input layer and of its
    method layer: the result layer gains at most [n * m] rows in
    [Intersection], [n * (m + 1) + m] in [Union], [n + m] in
    [SymDifference] and in [Update], [n * (m + 1)] in [Identity], and [n]
    in [Clip] and in [Erase], with any options, filters, progress
    callback and collaborators, and however the operation ends. *)
Theorem overlay_result_size (E : Collaborators)
    (this pLayerMethod pLayerResult : OGRLayer) (papszOptions : CSLConstList)
    (pfnProgress : option GDALProgressFunc) (c : CPLState) :
  let n := length (drv_features this) in
  let m := length (drv_features pLayerMethod) in
  let added (k : nat) (res : OGRErr * World * CPLState) :=
    at_most_added pLayerResult k (w_result res.1.2) in
  added (n * m)%nat
    (OGRLayer_Intersection E this pLayerMethod pLayerResult papszOptions
       pfnProgress c)
  /\ added (n * (m + 1) + m)%nat
       (OGRLayer_Union E this pLayerMethod pLayerResult papszOptions pfnProgress c)
  /\ added (n + m)%nat
       (OGRLayer_SymDifference E this pLayerMethod pLayerResult papszOptions
          pfnProgress c)
  /\ added (n * (m + 1))%nat
       (OGRLayer_Identity E this pLayerMethod pLayerResult papszOptions
          pfnProgress c)
  /\ added (n + m)%nat
       (OGRLayer_Update E this pLayerMethod pLayerResult papszOptions pfnProgress c)
  /\ added n
       (OGRLayer_Clip E this pLayerMethod pLayerResult papszOptions pfnProgress c)
  /\ added n
       (OGRLayer_Erase E this pLayerMethod pLayerResult papszOptions pfnProgress c).
Proof.
  intros n m added. unfold added.
  assert (Hle : forall k k' R, (k <= k')%nat ->
                  at_most_added pLayerResult k R -> at_most_added pLayerResult k' R).
  { unfold at_most_added. intros k k' R ? ?. lia. }
  split; [| split; [| split; [| split; [| split; [| split]]]]].
  - apply (Hle (1 * m * n)%nat); [lia |]. by apply Intersection_size.
  - apply (Hle ((1 * m + 1) * n + 1 * m)%nat); [lia |]. by apply Union_size.
  - apply (Hle (1 * n + 1 * m)%nat); [lia |]. by apply SymDifference_size.
  - apply (Hle ((1 * m + 1) * n)%nat); [lia |]. by apply Identity_size.
  - apply (Hle (1 * n + 1 * m)%nat); [lia |]. by apply Update_size.
  - apply (Hle (1 * n)%nat); [lia |]. by apply Clip_size with (m := m).
  - apply (Hle (1 * n)%nat); [lia |]. by apply Erase_size with (m := m).
Qed.

(** ** Pairs that meet in a lower dimension *)

Section GrowsOverRows.

Context {St : Type} (P : nat -> St -> Prop).

Hypothesis P_mono : forall b b' st, (b <= b')%nat -> P b st -> P b' st.

(** [grows_mbind] when what follows is only known for the values the
    first step yields. *)
Lemma grows_mbind_yielded {A B : Type} (R : A -> Prop) (a b : nat) (m : M St A)
    (k : A -> M St B) :
  grows P a m -> (forall st c v, (m st c).1.1 = Val v -> R v) ->
  (forall v, R v -> grows P b (k v)) -> grows P (a + b) (mbind m k).
Proof.
  intros Hm HR Hk b0 st c HP. unfold mbind.
  specialize (Hm b0 st c HP). specialize (HR st c).
  destruct (m st c) as [[[v | j] st'] c']; simpl in Hm, HR.
  - apply (P_mono (b0 + a + b)); [lia |]. apply Hk; [by apply HR | exact Hm].
  - apply (P_mono (b0 + a)); [lia | exact Hm].
Qed.

(** [feed_grows] and [range_for_grows] when the body is only known for
    the rows of the layer. *)
Lemma feed_grows_over (E : Collaborators) (k : nat) (body : OGRFeature -> M St unit)
    (L : OGRLayer) :
  forall rows,
    (forall x, x ∈ rows -> grows P k (body x)) ->
    forall pos b st c,
      P b st -> P (b + k * length rows)%nat (feed E L body rows pos st c).1.2.
Proof.
  induction rows as [| r rest IH]; intros Hbody pos b st c HP.
  { apply (P_mono b); [lia | exact HP]. }
  assert (Hrest : forall x, x ∈ rest -> grows P k (body x)).
  { intros x Hx. apply Hbody. by apply list_elem_of_further. }
  simpl feed. destruct (passes_filters E L r c) as [[] c1].
  - pose proof (Hbody r (list_elem_of_here _ _) b st c1 HP) as Hr.
    destruct (body r st c1) as [[[[] | []] st'] c']; simpl in Hr;
      try (apply (P_mono (b + k + k * length rest)); [simpl; lia | by apply IH]);
      (apply (P_mono (b + k)); [simpl; lia | exact Hr]).
  - apply (P_mono (b + k * length rest)); [simpl; lia | by apply IH].
Qed.

Lemma range_for_grows_over (E : Collaborators) (k : nat)
    (body : OGRFeature -> M St unit) (L : OGRLayer) (b : nat) (st : St)
    (c : CPLState) :
  (forall x, x ∈ drv_features L -> grows P k (body x)) -> P b st ->
  P (b + k * length (drv_features L))%nat (range_for E body L st c).1.2.
Proof.
  intros Hbody HP. destruct (m_bInFeatureIterator L) eqn:Hflag.
  - rewrite (range_for_busy E body L st c Hflag). simpl.
    apply (P_mono b); [lia | exact HP].
  - rewrite (range_for_feed E body L st c Hflag).
    pose proof (feed_grows_over E k body L (drv_features L) Hbody 0 b st c HP) as H.
    by destruct (feed E L body (drv_features L) 0 st c) as [[[ex pos'] st'] c'].
Qed.

End GrowsOverRows.

Section LowerDimensionOfRows.

Context (E : Collaborators).

Lemma rows_same_read (rows : list OGRFeature) : kept_by_reading (rows_same rows).
Proof. intros L pos b HQ. exact HQ. Qed.

Lemma rows_same_filtered (rows : list OGRFeature) :
  kept_by_filtering E (rows_same rows).
Proof.
  intros L g c HQ. unfold SetSpatialFilter0, SetSpatialFilter.
  destruct (if 0 =? 0 then _ else _) as [[|] c1]; [| exact HQ].
  unfold ISetSpatialFilter.
  by destruct (InstallFilter_layer E (set_iGeomFieldFilter L 0) g)
    as [-> | (b & f & p & e & ->)].
Qed.

Lemma outer_rows_of_mono (rows : list OGRFeature) (b b' : nat)
    (fr : Frame OuterLoc) :
  (b <= b')%nat -> outer_rows_of rows b fr -> outer_rows_of rows b' fr.
Proof.
  unfold outer_rows_of, on_layers, rows_le. intros ? []. split; [done | lia].
Qed.

Lemma world_rows_of_mono (rowsI rowsM : list OGRFeature) (b b' : nat) (w : World) :
  (b <= b')%nat -> world_rows_of rowsI rowsM b w -> world_rows_of rowsI rowsM b' w.
Proof.
  unfold world_rows_of, on_world, rows_le. intros ? (? & ? & ?).
  split; [done |]. split; [done | lia].
Qed.

(** The head of the body of an outer loop yields the geometry of its
    row. *)
Lemma set_filter_from_geometry (L : OGRLayer) flt x c g :
  (set_filter_from E L flt x c).1.1 = Some g -> GetGeometryRef x = Some g.
Proof.
  unfold set_filter_from. destruct (GetGeometryRef x) as [geom |]; [| done].
  destruct flt as [f |].
  - destruct (geos_call (geom_Intersects E geom f) c) as [[] c1]; [| done].
    cbn [negb]. destruct (geos_call (geom_Intersection E geom f) c1) as [[i |] c2];
      [| done].
    by destruct (SetSpatialFilter0 E L (ptr_to i) c2) as [[? ?] ?].
  - by destruct (SetSpatialFilter0 E L (ptr_to geom) c) as [[? ?] ?].
Qed.

Lemma setup_filter_geometry bSkipFailures flt x (fr : Frame OuterLoc) c g :
  (setup_filter E bSkipFailures flt x fr c).1.1 = Val g -> GetGeometryRef x = Some g.
Proof.
  unfold setup_filter, mbind, cpl_do, last_error_is_set, when, abort_or, set_ret,
    mmodify, mret, jump.
  pose proof (set_filter_from_geometry (o_other (f_loc fr)) flt x (CPLErrorReset c))
    as Hg.
  destruct (set_filter_from E _ flt x (CPLErrorReset c)) as [[[g' |] L'] c'];
    simpl in *;
    destruct (bool_decide (CPLGetLastErrorType c' = CE_None)); simpl;
    destruct bSkipFailures; simpl; try done;
    intros [= <-]; by apply Hg.
Qed.

Lemma begin_x_geometry pfn pmax bSkipFailures flt x (fr : Frame OuterLoc) c g :
  (begin_x E pfn pmax bSkipFailures flt x fr c).1.1 = Val g ->
  GetGeometryRef x = Some g.
Proof.
  unfold begin_x, mbind.
  destruct (report_progress pfn pmax fr c) as [[[[] | j] fr1] c1]; [| done].
  apply setup_filter_geometry.
Qed.

Lemma Intersection_begin_geometry pfn pmax bSkipFailures flt bEnv sEnv x
    (fr : Frame OuterLoc) c g :
  (Intersection_begin E pfn pmax bSkipFailures flt bEnv sEnv x fr c).1.1 = Val g ->
  GetGeometryRef x = Some g.
Proof.
  unfold Intersection_begin, mbind.
  destruct (report_progress pfn pmax fr c) as [[[[] | j] fr1] c1]; [| done].
  match goal with
  | |- context [?m fr1 c1] =>
      match m with
      | (if bEnv then _ else _) =>
          destruct (m fr1 c1) as [[[[] | j] fr2] c2]; [| done]
      end
  end.
  apply setup_filter_geometry.
Qed.

Lemma prepare_x_prepared {Loc : Type} bUsePreparedGeometries x_geom
    (fr : Frame Loc) c p :
  (prepare_x E bUsePreparedGeometries x_geom fr c).1.1 = Val p ->
  p = x_prepared E bUsePreparedGeometries x_geom.
Proof.
  unfold prepare_x, x_prepared. destruct bUsePreparedGeometries; [| by intros [= <-]].
  destruct (OGRCreatePreparedGeometry E x_geom); [by intros [= <-] | done].
Qed.

(** Steps of a loop body that write no feature. *)
Ltac silent :=
  solve
    [ intros ?; unfold inner_rows, outer_rows_of;
      repeat
        (keep;
         try match goal with
             | |- preserves _ (report_progress _ _) =>
                 apply report_progress_layers
             | |- preserves _ (setup_filter _ _ _ _) =>
                 apply setup_filter_layers; apply rows_same_filtered
             | |- preserves _ (begin_x _ _ _ _ _ _) => unfold begin_x
             | |- preserves _ (Intersection_begin _ _ _ _ _ _ _ _) =>
                 unfold Intersection_begin
             | |- preserves _ (prepare_x _ _ _) => apply prepare_x_keeps
             | |- preserves _ (for_other _ _ _) =>
                 apply for_other_layers; [apply rows_same_read | intros ?];
                 apply subtract_pair_result
             end) ].

(** With the option off, a pair of lower dimension writes nothing. *)
Lemma Intersection_pair_off bSkipFailures bPromoteToMulti bUsePreparedGeometries
    bPretestContainment defn mI mM x x_geom y :
  GetGeometryRef x = Some x_geom ->
  meets_in_lower_dimension E bUsePreparedGeometries bPretestContainment x y ->
  grows inner_rows 0
    (Intersection_pair E bSkipFailures bPromoteToMulti bPretestContainment false
       defn mI mM x x_geom (x_prepared E bUsePreparedGeometries x_geom) y).
Proof.
  intros Hx Hlow b fr c HP. unfold inner_rows, on_result in *.
  rewrite Nat.add_0_r.
  destruct (GetGeometryRef y) as [y_geom |] eqn:Hy.
  - destruct (Hlow x_geom y_geom Hx Hy) as [Hdim Hz].
    by rewrite (Intersection_pair_lower_dimension E bSkipFailures bPromoteToMulti
                  bPretestContainment defn mI mM x x_geom _ y y_geom fr c Hy Hdim Hz).
  - unfold Intersection_pair. by rewrite Hy.
Qed.

Lemma Union_pair_off bSkipFailures bPromoteToMulti bUsePreparedGeometries
    defn mI mM x x_geom y :
  GetGeometryRef x = Some x_geom ->
  meets_in_lower_dimension E bUsePreparedGeometries false x y ->
  grows inner_rows 0
    (Union_pair E bSkipFailures bPromoteToMulti false defn mI mM x x_geom
       (x_prepared E bUsePreparedGeometries x_geom) y).
Proof.
  intros Hx Hlow b fr c HP. unfold inner_rows, on_result in *.
  rewrite Nat.add_0_r.
  destruct (GetGeometryRef y) as [y_geom |] eqn:Hy.
  - destruct (Hlow x_geom y_geom Hx Hy) as [Hdim Hz].
    assert (Hz' : forall z, (geom_Intersection E x_geom y_geom).1 = Some z ->
                            getDimension E z < getDimension E x_geom).
    { intros z HI. apply Hz. unfold pair_intersection.
      by destruct (x_prepared E bUsePreparedGeometries x_geom). }
    by rewrite (proj1 (Union_pair_lower_dimension E bSkipFailures bPromoteToMulti
                         defn mI mM x x_geom _ y y_geom fr c Hy Hdim Hz')).
  - unfold Union_pair. by rewrite Hy.
Qed.

Section OverRows.

Context (rows : list OGRFeature).

(** An inner loop whose body writes at most [k] features for the rows
    of the other layer writes at most [k] for each of them. *)
Lemma for_other_grows_over {Loc : Type} (k : nat) (init : Loc)
    (body : OGRFeature -> M (Frame Loc) unit) :
  (forall y, y ∈ rows -> grows inner_rows k (body y)) ->
  grows (outer_rows_of rows) (k * length rows) (for_other E init body).
Proof.
  intros Hbody b fr c [Ho Hr]. unfold for_other.
  destruct (range_for_layer E body (o_other (f_loc fr))
              (mkFrame init (f_result fr) (f_ret fr)) c) as [pos Hpos].
  unfold rows_same in Ho.
  pose proof (range_for_grows_over inner_rows inner_rows_mono E k body
                (o_other (f_loc fr)) b (mkFrame init (f_result fr) (f_ret fr)) c)
    as Hres.
  rewrite Ho in Hres. specialize (Hres Hbody Hr).
  destruct (range_for E body _ _ c) as [[[ex L'] fr'] c'].
  simpl in Hpos, Hres. subst L'.
  destruct ex; (split; [exact Ho | exact Hres]).
Qed.

Lemma submit_feature_grows_of bSkipFailures (z : OGRFeature) :
  grows (outer_rows_of rows) 1 (submit_feature E bSkipFailures z).
Proof.
  intros b fr c [Ho Hr]. unfold submit_feature.
  pose proof (rows_le_feature E b (f_result fr) z c Hr) as H.
  destruct (CreateFeature E (f_result fr) z c) as [[ret R'] c'].
  by destruct (negb (bool_decide (ret = OGRERR_NONE))), bSkipFailures.
Qed.

Lemma submit_leftover_grows_of b1 b2 defn x map geom :
  grows (outer_rows_of rows) 1 (submit_leftover E b1 b2 defn x map geom).
Proof.
  unfold submit_leftover. destruct geom as [g |].
  - destruct (IsEmpty E g).
    + apply (grows_of_preserves _ (outer_rows_of_mono rows)). intros b.
      apply preserves_mret.
    + apply submit_feature_grows_of.
  - apply (grows_of_preserves _ (outer_rows_of_mono rows)). intros b.
    apply preserves_mret.
Qed.

(** One row of [Intersection] that meets the rows of the method layer in
    a lower dimension writes nothing. *)
Lemma Intersection_x_off pfn pmax b1 b2 bUsePreparedGeometries bPretestContainment
    flt bEnv sEnv defn mI mM x :
  (forall y, y ∈ rows ->
     meets_in_lower_dimension E bUsePreparedGeometries bPretestContainment x y) ->
  grows (outer_rows_of rows) 0
    (Intersection_x E pfn pmax b1 b2 bUsePreparedGeometries bPretestContainment false
       flt bEnv sEnv defn mI mM x).
Proof.
  intros Hlow. unfold Intersection_x.
  apply (grows_mbind_yielded _ (outer_rows_of_mono rows)
           (fun g => GetGeometryRef x = Some g) 0 0).
  { apply (grows_of_preserves _ (outer_rows_of_mono rows)). silent. }
  { intros fr c g. apply Intersection_begin_geometry. }
  intros x_geom Hx.
  apply (grows_mbind_yielded _ (outer_rows_of_mono rows)
           (fun p => p = x_prepared E bUsePreparedGeometries x_geom) 0 0).
  { apply (grows_of_preserves _ (outer_rows_of_mono rows)). silent. }
  { intros fr c p. apply prepare_x_prepared. }
  intros p ->.
  apply (grows_before _ (outer_rows_of_mono rows)); [| intros; apply preserves_mret].
  apply (for_other_grows_over 0). intros y Hy.
  apply Intersection_pair_off; [exact Hx | by apply Hlow].
Qed.

(** One row of the first loop of [Union] that meets the rows of the
    method layer in a lower dimension writes its leftover at most. *)
Lemma Union_x_off pfn pmax b1 b2 bUsePreparedGeometries flt defn mI mM x :
  (forall y, y ∈ rows -> meets_in_lower_dimension E bUsePreparedGeometries false x y) ->
  grows (outer_rows_of rows) 1
    (Union_x E pfn pmax b1 b2 bUsePreparedGeometries false flt defn mI mM x).
Proof.
  intros Hlow. unfold Union_x.
  apply (grows_mbind_yielded _ (outer_rows_of_mono rows)
           (fun g => GetGeometryRef x = Some g) 0 1).
  { apply (grows_of_preserves _ (outer_rows_of_mono rows)). silent. }
  { intros fr c g. apply begin_x_geometry. }
  intros x_geom Hx.
  apply (grows_mbind_yielded _ (outer_rows_of_mono rows)
           (fun p => p = x_prepared E bUsePreparedGeometries x_geom) 0 1).
  { apply (grows_of_preserves _ (outer_rows_of_mono rows)). silent. }
  { intros fr c p. apply prepare_x_prepared. }
  intros p ->.
  apply (grows_mbind _ (outer_rows_of_mono rows) 0 1).
  - apply (for_other_grows_over 0). intros y Hy.
    apply Union_pair_off; [exact Hx | by apply Hlow].
  - intros g. apply submit_leftover_grows_of.
Qed.

Lemma Union_y_grows_of pfn pmax b1 b2 flt defn mM y :
  grows (outer_rows_of rows) 1 (Union_y E pfn pmax b1 b2 flt defn mM y).
Proof.
  unfold Union_y.
  apply (grows_after _ (outer_rows_of_mono rows)); [silent | intros y_geom].
  apply (grows_after _ (outer_rows_of_mono rows)); [silent | intros g].
  apply submit_leftover_grows_of.
Qed.

End OverRows.

End LowerDimensionOfRows.

Section LowerDimensionOfOperations.

Context (E : Collaborators) (rowsI rowsM : list OGRFeature).

Lemma for_input_grows_over (k : nat) (body : OGRFeature -> M (Frame OuterLoc) unit) :
  (forall x, x ∈ rowsI -> grows (outer_rows_of rowsM) k (body x)) ->
  grows (world_rows_of rowsI rowsM) (k * length rowsI) (for_input E body).
Proof.
  intros Hbody b w c (Hi & Hm & Hr). unfold for_input.
  set (fr0 := mkFrame (mkOuter (w_method w) (w_counter w) (w_calls w))
                (w_result w) (w_ret w)).
  destruct (range_for_layer E body (w_input w) fr0 c) as [pos Hpos].
  unfold rows_same in Hi.
  pose proof (range_for_grows_over (outer_rows_of rowsM) (outer_rows_of_mono rowsM)
                E k body (w_input w) b fr0 c) as Hres.
  rewrite Hi in Hres. destruct (Hres Hbody (conj Hm Hr)) as [Ho Hrows].
  destruct (range_for E body (w_input w) fr0 c) as [[[ex L'] fr] c'].
  simpl in Hpos, Ho, Hrows. subst L'.
  destruct ex; (split; [exact Hi | by split]).
Qed.

Lemma for_method_grows_of (k : nat) (body : OGRFeature -> M (Frame OuterLoc) unit) :
  (forall y, grows (outer_rows_of rowsI) k (body y)) ->
  grows (world_rows_of rowsI rowsM) (k * length rowsM) (for_method E body).
Proof.
  intros Hbody b w c (Hi & Hm & Hr). unfold for_method.
  set (fr0 := mkFrame (mkOuter (w_input w) (w_counter w) (w_calls w))
                (w_result w) (w_ret w)).
  destruct (range_for_layer E body (w_method w) fr0 c) as [pos Hpos].
  unfold rows_same in Hm.
  pose proof (range_for_grows (outer_rows_of rowsI) (outer_rows_of_mono rowsI)
                E k body (w_method w) b fr0 c Hbody (conj Hi Hr)) as [Ho Hrows].
  rewrite Hm in Hrows.
  destruct (range_for E body (w_method w) fr0 c) as [[[ex L'] fr] c'].
  simpl in Hpos, Ho, Hrows. subst L'.
  destruct ex; (split; [exact Ho | by split]).
Qed.

Lemma GetGeomType_fields (T : OGRwkbGeometryType) (L : OGRLayer) (d : OGRFieldDefn)
    (c : CPLState) :
  GetGeomType L = T -> GetGeomType (CreateField E L d c).1.2 = T.
Proof. intros HQ. unfold CreateField. by destruct (ICreateField_ok E L d). Qed.

(** Steps of an operation that write no feature; [fields] shows that
    [CreateField] keeps the property of the result layer. *)
Ltac silent_w fields :=
  solve
    [ intros; unfold world_rows_of;
      repeat
        first
          [ progress keep
          | lazymatch goal with
            | |- preserves _ (Intersection_resources _ _ _ _) =>
                unfold Intersection_resources
            | |- preserves _ (Union_resources _ _ _ _) => unfold Union_resources
            | |- preserves _ (check_clone _) => apply check_clone_world
            | |- preserves _ (get_field_map _ _) => apply get_field_map_world
            | |- preserves _ (get_result_schema _ _ _ _ _ _ _) =>
                apply get_result_schema_fields; fields
            | |- preserves _ (w_get _) => apply w_get_world
            | |- preserves _ (w_method_extent _) =>
                apply w_method_extent_world;
                first [apply rows_same_read | by intros ? ? ? ?]
            | |- preserves _ (w_resolve_keep_lower_dim _) =>
                apply w_resolve_keep_lower_dim_world
            | |- preserves _ (final_progress _) => apply final_progress_world
            | |- preserves _ (restore_method_filter _ _) =>
                apply restore_method_filter_world; apply rows_same_filtered
            | |- preserves _ (restore_input_filter _ _) =>
                apply restore_input_filter_world; apply rows_same_filtered
            end ] ].

(** What the block [get resources] makes of the option is what the test
    makes of it on the result layer it leaves. *)
Lemma Intersection_resources_resolve this pLayerMethod opts w0 c r w c1 :
  Intersection_resources E this pLayerMethod opts w0 c = (Val r, w, c1) ->
  exists c0,
    (r_bKeepLowerDimGeom r, c1)
    = resolve_keep_lower_dim
        (opt_bool opts "KEEP_LOWER_DIMENSION_GEOMETRIES" "YES") (w_result w) c0.
Proof.
  unfold Intersection_resources, mbind.
  destruct (check_clone _ w0 c) as [[[[] | j] w1] c1']; [| done].
  destruct (get_field_map E _ w1 c1') as [[[mI | j] w2] c2]; [| done].
  destruct (get_field_map E _ w2 c2) as [[[mM | j] w3] c3]; [| done].
  destruct (get_result_schema E _ _ _ _ _ _ w3 c3) as [[[maps | j] w4] c4]; [| done].
  unfold w_get, w_method_extent, w_resolve_keep_lower_dim, mret.
  destruct (GetExtent E (w_method w4) 0 true c4) as [[[err ext] L'] c5]. cbn [w_result].
  destruct (resolve_keep_lower_dim _ (w_result w4) c5) as [b c6] eqn:Hb.
  intros [= <- <- <-]. exists c5. simpl. by rewrite Hb.
Qed.

Lemma Union_resources_resolve this pLayerMethod opts w0 c r w c1 :
  Union_resources E this pLayerMethod opts w0 c = (Val r, w, c1) ->
  exists c0,
    (r_bKeepLowerDimGeom r, c1)
    = resolve_keep_lower_dim
        (opt_bool opts "KEEP_LOWER_DIMENSION_GEOMETRIES" "YES") (w_result w) c0.
Proof.
  unfold Union_resources, mbind.
  destruct (check_clone _ w0 c) as [[[[] | j] w1] c1']; [| done].
  destruct (check_clone _ w1 c1') as [[[[] | j] w1'] c1'']; [| done].
  destruct (get_field_map E _ w1' c1'') as [[[mI | j] w2] c2]; [| done].
  destruct (get_field_map E _ w2 c2) as [[[mM | j] w3] c3]; [| done].
  destruct (get_result_schema E _ _ _ _ _ _ w3 c3) as [[[maps | j] w4] c4]; [| done].
  unfold w_get, w_resolve_keep_lower_dim, mret.
  destruct (resolve_keep_lower_dim _ (w_result w4) c4) as [b c6] eqn:Hb.
  intros [= <- <- <-]. exists c4. simpl. by rewrite Hb.
Qed.

Lemma resolve_keep_lower_dim_off (opts : CSLConstList) (R : OGRLayer) (c : CPLState) :
  CSLFetchNameValue opts "KEEP_LOWER_DIMENSION_GEOMETRIES" = None
  \/ CSLFetchNameValue opts "KEEP_LOWER_DIMENSION_GEOMETRIES" = Some "YES" ->
  GetGeomType R <> wkbUnknown ->
  resolve_keep_lower_dim (opt_bool opts "KEEP_LOWER_DIMENSION_GEOMETRIES" "YES") R c
  = (false, mkCPL (CPLGetLastErrorType c) (keep_lower_dim_note :: cpl_log c)).
Proof.
  intros Hopt Htype.
  rewrite (keep_option_default opts Hopt). unfold resolve_keep_lower_dim.
  by rewrite (bool_decide_eq_false_2 _ Htype).
Qed.

Section Operations.

Context (this pLayerMethod pLayerResult : OGRLayer) (opts : CSLConstList)
  (pfn : option GDALProgressFunc) (c : CPLState).

Hypothesis Hi : rows_same rowsI this.
Hypothesis Hm : rows_same rowsM pLayerMethod.
Hypothesis Hopt :
  CSLFetchNameValue opts "KEEP_LOWER_DIMENSION_GEOMETRIES" = None
  \/ CSLFetchNameValue opts "KEEP_LOWER_DIMENSION_GEOMETRIES" = Some "YES".
Hypothesis Htype : GetGeomType pLayerResult <> wkbUnknown.

Lemma world_rows_of_start :
  world_rows_of rowsI rowsM (length (drv_features pLayerResult))
    (mkWorld this pLayerMethod pLayerResult OGRERR_NONE 0 0).
Proof. split; [exact Hi |]. split; [exact Hm |]. apply le_n. Qed.

Lemma Intersection_resources_off r w c1 :
  Intersection_resources E this pLayerMethod opts (mkWorld this pLayerMethod pLayerResult OGRERR_NONE 0 0) c = (Val r, w, c1) ->
  r_bKeepLowerDimGeom r = false
  /\ exists c0, c1 = mkCPL (CPLGetLastErrorType c0) (keep_lower_dim_note :: cpl_log c0).
Proof.
  intros Hres.
  assert (Hkept : preserves (on_world (fun _ => True) (fun _ => True)
                               (fun R => GetGeomType R = GetGeomType pLayerResult))
                    (Intersection_resources E this pLayerMethod opts)).
  { silent_w ltac:(apply GetGeomType_fields). }
  specialize (Hkept (mkWorld this pLayerMethod pLayerResult OGRERR_NONE 0 0) c ltac:(by repeat split)). rewrite Hres in Hkept.
  destruct Hkept as (_ & _ & Ht). simpl in Ht.
  destruct (Intersection_resources_resolve _ _ _ _ _ _ _ _ Hres) as [c0 H0].
  rewrite resolve_keep_lower_dim_off in H0 by (done || by rewrite Ht).
  injection H0 as -> ->. split; [done | by exists c0].
Qed.

Lemma Union_resources_off r w c1 :
  Union_resources E this pLayerMethod opts (mkWorld this pLayerMethod pLayerResult OGRERR_NONE 0 0) c = (Val r, w, c1) ->
  r_bKeepLowerDimGeom r = false
  /\ exists c0, c1 = mkCPL (CPLGetLastErrorType c0) (keep_lower_dim_note :: cpl_log c0).
Proof.
  intros Hres.
  assert (Hkept : preserves (on_world (fun _ => True) (fun _ => True)
                               (fun R => GetGeomType R = GetGeomType pLayerResult))
                    (Union_resources E this pLayerMethod opts)).
  { silent_w ltac:(apply GetGeomType_fields). }
  specialize (Hkept (mkWorld this pLayerMethod pLayerResult OGRERR_NONE 0 0) c ltac:(by repeat split)). rewrite Hres in Hkept.
  destruct Hkept as (_ & _ & Ht). simpl in Ht.
  destruct (Union_resources_resolve _ _ _ _ _ _ _ _ Hres) as [c0 H0].
  rewrite resolve_keep_lower_dim_off in H0 by (done || by rewrite Ht).
  injection H0 as -> ->. split; [done | by exists c0].
Qed.

(** [Intersection] writes no feature when every pair of rows meets in a
    lower dimension. *)
Lemma Intersection_lower_dimension_size :
  pairs_meet_in_lower_dimension E (opt_bool opts "USE_PREPARED_GEOMETRIES" "YES")
    (opt_bool opts "PRETEST_CONTAINMENT" "NO") rowsI rowsM ->
  at_most_added pLayerResult 0
    (w_result (OGRLayer_Intersection E this pLayerMethod pLayerResult opts pfn c).1.2).
Proof.
  intros Hlow. unfold OGRLayer_Intersection, clone_spatial_filter.
  destruct (haveGEOS E); [| apply unsupported_size].
  simpl negb. cbv iota zeta. cbn [snd].
  match goal with
  | |- context [mbind ?a ?b ?w0 c] =>
      assert (Hmain : world_rows_of rowsI rowsM (length (drv_features pLayerResult) + 0)
                        (mbind a b (mkWorld this pLayerMethod pLayerResult OGRERR_NONE 0 0) c).1.2);
      [| destruct (mbind a b (mkWorld this pLayerMethod pLayerResult OGRERR_NONE 0 0) c) as [[? w] c1] ]
  end.
  { unfold mbind at 1.
    assert (Hkept : preserves
                      (world_rows_of rowsI rowsM (length (drv_features pLayerResult)))
                      (Intersection_resources E this pLayerMethod opts)).
    { silent_w ltac:(apply rows_le_fields). }
    specialize (Hkept (mkWorld this pLayerMethod pLayerResult OGRERR_NONE 0 0) c world_rows_of_start).
    pose proof (Intersection_resources_off) as Hoff.
    destruct (Intersection_resources E this pLayerMethod opts (mkWorld this pLayerMethod pLayerResult OGRERR_NONE 0 0) c)
      as [[[r | j] w] c1].
    - destruct (Hoff r w c1 eq_refl) as [-> _]. clear Hoff. simpl in Hkept.
      revert Hkept. generalize (length (drv_features pLayerResult)). intros b Hkept.
      revert b w c1 Hkept.
      change (grows (world_rows_of rowsI rowsM) 0
                (mbind (for_input E
                          (Intersection_x E pfn (GetFeatureCount E this false c).1.1
                             (opt_bool opts "SKIP_FAILURES" "NO")
                             (opt_bool opts "PROMOTE_TO_MULTI" "NO")
                             (opt_bool opts "USE_PREPARED_GEOMETRIES" "YES")
                             (opt_bool opts "PRETEST_CONTAINMENT" "NO") false
                             (GetSpatialFilter pLayerMethod) (r_bEnvelopeSet r)
                             (r_sEnvelopeMethod r) (r_poDefnResult r) (r_mapInput r)
                             (r_mapMethod r)))
                   (fun _ => final_progress pfn))).
      apply (grows_before _ (world_rows_of_mono rowsI rowsM));
        [| silent_w ltac:(apply rows_le_fields)].
      apply (for_input_grows_over 0). intros x Hx.
      apply Intersection_x_off. intros y Hy. by apply Hlow.
    - simpl in *. by rewrite Nat.add_0_r. }
  rewrite Nat.add_0_r in Hmain. simpl in Hmain.
  match goal with
  | |- context [restore_method_filter E ?F w c1] =>
      pose proof (restore_method_filter_world E _ _ _ (rows_same_filtered E rowsM)
                    F w c1 Hmain) as Hdone;
      destruct (restore_method_filter E F w c1) as [[? w'] c2]
  end.
  simpl in Hdone. unfold at_most_added. rewrite Nat.add_0_r.
  exact (proj2 (proj2 Hdone)).
Qed.

(** [Union] writes leftovers only when every pair of rows meets in a
    lower dimension: at most one feature for each row of either layer. *)
Lemma Union_lower_dimension_size :
  pairs_meet_in_lower_dimension E (opt_bool opts "USE_PREPARED_GEOMETRIES" "YES")
    false rowsI rowsM ->
  at_most_added pLayerResult (length rowsI + length rowsM)
    (w_result (OGRLayer_Union E this pLayerMethod pLayerResult opts pfn c).1.2).
Proof.
  intros Hlow. unfold OGRLayer_Union, clone_spatial_filter.
  destruct (haveGEOS E); [| apply unsupported_size].
  simpl negb. cbv iota zeta. cbn [snd].
  match goal with
  | |- context [mbind ?a ?b ?w0 c] =>
      assert (Hmain : world_rows_of rowsI rowsM
                        (length (drv_features pLayerResult)
                         + (1 * length rowsI + 1 * length rowsM))
                        (mbind a b (mkWorld this pLayerMethod pLayerResult OGRERR_NONE 0 0) c).1.2);
      [| destruct (mbind a b (mkWorld this pLayerMethod pLayerResult OGRERR_NONE 0 0) c) as [[? w] c1] ]
  end.
  { unfold mbind at 1.
    assert (Hkept : preserves
                      (world_rows_of rowsI rowsM (length (drv_features pLayerResult)))
                      (Union_resources E this pLayerMethod opts)).
    { silent_w ltac:(apply rows_le_fields). }
    specialize (Hkept (mkWorld this pLayerMethod pLayerResult OGRERR_NONE 0 0) c world_rows_of_start).
    pose proof (Union_resources_off) as Hoff.
    destruct (Union_resources E this pLayerMethod opts (mkWorld this pLayerMethod pLayerResult OGRERR_NONE 0 0) c) as [[[r | j] w] c1].
    - destruct (Hoff r w c1 eq_refl) as [-> _]. clear Hoff. simpl in Hkept.
      revert Hkept. generalize (length (drv_features pLayerResult)). intros b Hkept.
      revert b w c1 Hkept.
      match goal with
      | |- forall b w c1, _ -> world_rows_of _ _ _ (?m w c1).1.2 =>
          change (grows (world_rows_of rowsI rowsM)
                    (1 * length rowsI + 1 * length rowsM) m)
      end.
      apply (grows_mbind _ (world_rows_of_mono rowsI rowsM)).
      + apply for_input_grows_over. intros x Hx.
        apply Union_x_off. intros y Hy. by apply Hlow.
      + intros ?.
        apply (grows_after _ (world_rows_of_mono rowsI rowsM));
          [silent_w ltac:(apply rows_le_fields) | intros ?].
        apply (grows_before _ (world_rows_of_mono rowsI rowsM));
          [| silent_w ltac:(apply rows_le_fields)].
        apply for_method_grows_of. intros y. apply Union_y_grows_of.
    - simpl in *. eapply world_rows_of_mono; [| exact Hkept]. lia. }
  simpl in Hmain.
  match goal with
  | |- context [restore_input_filter E ?F w c1] =>
      pose proof (restore_input_filter_world E _ _ _ (rows_same_filtered E rowsI)
                    F w c1 Hmain) as Hdone1;
      destruct (restore_input_filter E F w c1) as [[? w1] c2]
  end.
  simpl in Hdone1.
  match goal with
  | |- context [restore_method_filter E ?F w1 c2] =>
      pose proof (restore_method_filter_world E _ _ _ (rows_same_filtered E rowsM)
                    F w1 c2 Hdone1) as Hdone2;
      destruct (restore_method_filter E F w1 c2) as [[? w2] c3]
  end.
  simpl in Hdone2. unfold at_most_added.
  pose proof (proj2 (proj2 Hdone2)) as H. unfold rows_le in H. simpl. lia.
Qed.

End Operations.

End LowerDimensionOfOperations.



(** ** Installing and clearing a spatial filter *)

(** X8: with an index of one of the layer's geometry fields,
    [SetSpatialFilter] accepts a geometry object other than the filter
    the layer holds without a message: from then on [GetSpatialFilter]
    returns that geometry, the filter is on that field with the envelope
    of the geometry, reading starts over at the first row, rows, schema
    and attribute filter are as before, and [FilterGeometry] rejects
    every geometry whose envelope lies apart from that envelope on one
    side, which is every geometry whose envelope does not meet it when no
    bound of either is NaN.  Handed the filter object the layer holds,
    [SetSpatialFilter] only records the index: the filter stays and
    reading does not start over.  Clearing the filter on the same index
    is accepted too: reading starts over, and then [FilterGeometry]
    accepts everything. *)
Theorem SetSpatialFilter_installs_and_clears (E : Collaborators) (L : OGRLayer)
    (iGeomField : Z) (g : OGRGeometry) (c : CPLState) :
  0 <= iGeomField < GetGeomFieldCount (GetLayerDefn L) ->
  exists L' L'',
    SetSpatialFilter E L iGeomField (ptr_to g) c = (OGRERR_NONE, L', c)
    /\ GetSpatialFilter L' = Some g
    /\ m_iGeomFieldFilter L' = iGeomField
    /\ m_sFilterEnvelope L' = getEnvelope E g
    /\ drv_iNextShapeId L' = 0%nat
    /\ same_store L L'
    /\ (forall geom c1,
          envelopes_disjoint (getEnvelope E geom) (getEnvelope E g) = true ->
          FilterGeometry E L' (Some geom) c1 = (false, c1))
    /\ (forall geom c1,
          has_nan (getEnvelope E g) = false ->
          has_nan (getEnvelope E geom) = false ->
          OGREnvelope_Intersects (getEnvelope E g) (getEnvelope E geom) = false ->
          FilterGeometry E L' (Some geom) c1 = (false, c1))
    /\ SetSpatialFilter E L iGeomField ptr_own_filter c
       = (OGRERR_NONE, set_iGeomFieldFilter L iGeomField, c)
    /\ (forall pos b,
          SetSpatialFilter E (moved L' pos b) iGeomField ptr_own_filter c
          = (OGRERR_NONE, moved L' pos b, c))
    /\ (forall pos b,
          SetSpatialFilter E (moved L' pos b) iGeomField ptr_null c
          = (OGRERR_NONE, moved L'' 0 b, c))
    /\ GetSpatialFilter L'' = None
    /\ drv_iNextShapeId L'' = 0%nat
    /\ same_store L L''
    /\ (forall poGeometry c1, FilterGeometry E L'' poGeometry c1 = (true, c1)).
Proof.
  intros Hi.
  assert (Hvalid : forall (L0 : OGRLayer) (poGeomIn : option OGRGeometry),
             GetLayerDefn L0 = GetLayerDefn L ->
             ValidateGeometryFieldIndexForSetSpatialFilter L0 iGeomField poGeomIn
               false c = (true, c)).
  { intros L0 poGeomIn Hdefn.
    unfold ValidateGeometryFieldIndexForSetSpatialFilter. rewrite Hdefn.
    destruct ((iGeomField =? 0) && _ && _); [reflexivity |].
    replace (iGeomField <? 0) with false by lia.
    replace (iGeomField >=? GetGeomFieldCount (GetLayerDefn L)) with false by lia.
    reflexivity. }
  assert (Hset : forall (L0 : OGRLayer) (poFilter : OGRGeometryPtr),
             GetLayerDefn L0 = GetLayerDefn L ->
             SetSpatialFilter E L0 iGeomField poFilter c
             = (OGRERR_NONE, (ISetSpatialFilter E L0 iGeomField poFilter).2, c)).
  { intros L0 poFilter Hdefn. unfold SetSpatialFilter.
    assert (Hok : (if iGeomField =? 0
                   then match pointee L0 poFilter with
                        | Some _ =>
                            ValidateGeometryFieldIndexForSetSpatialFilter L0 0
                              (pointee L0 poFilter) false c
                        | None => (true, c)
                        end
                   else ValidateGeometryFieldIndexForSetSpatialFilter L0
                          iGeomField (pointee L0 poFilter) false c) = (true, c)).
    { destruct (iGeomField =? 0) eqn:Hz.
      - apply Z.eqb_eq in Hz. destruct (pointee L0 poFilter) as [o |]; [| reflexivity].
        rewrite <- Hz at 1. rewrite <- (Hvalid L0 (Some o) Hdefn). by rewrite Hz.
      - by apply Hvalid. }
    rewrite Hok. unfold ISetSpatialFilter.
    by destruct (InstallFilter E (set_iGeomFieldFilter L0 iGeomField) poFilter)
      as [[] L2]. }
  set (L' := ResetReading
               (set_filter (set_iGeomFieldFilter L iGeomField)
                  (IsRectangle E g) (Some g)
                  (OGRCreatePreparedGeometry E g) (getEnvelope E g))).
  set (L'' := ResetReading
                (set_filter (set_iGeomFieldFilter L' iGeomField) false None None
                   (m_sFilterEnvelope L'))).
  exists L', L''.
  split; [by rewrite Hset |].
  split; [reflexivity |]. split; [reflexivity |]. split; [reflexivity |].
  split; [reflexivity |]. split; [by repeat split |].
  split.
  { intros geom c1 Hd. apply FilterGeometry_apart; [by eexists | exact Hd]. }
  split.
  { intros geom c1 Hg Hgeom Hd.
    apply FilterGeometry_disjoint; [by eexists | exact Hgeom | exact Hg | exact Hd]. }
  split; [by rewrite Hset |].
  split; [intros pos b; by rewrite Hset |].
  split; [intros pos b; by rewrite Hset |].
  split; [reflexivity |]. split; [reflexivity |]. split; [by repeat split |].
  intros poGeometry c1. by apply FilterGeometry_no_filter.
Qed.

Lemma SetSpatialFilter_installs_and_clears_witness :
  0 <= 0 < GetGeomFieldCount (GetLayerDefn four_squares)
  /\ exists L' L'',
       SetSpatialFilter Box.kernel four_squares 0 (ptr_to (Box.square 0 20)) cpl_initial
       = (OGRERR_NONE, L', cpl_initial)
       /\ GetSpatialFilter L' = Some (Box.square 0 20)
       /\ m_iGeomFieldFilter L' = 0
       /\ m_sFilterEnvelope L' = getEnvelope Box.kernel (Box.square 0 20)
       /\ drv_iNextShapeId L' = 0%nat
       /\ same_store four_squares L'
       /\ (forall geom c1,
             envelopes_disjoint (getEnvelope Box.kernel geom)
               (getEnvelope Box.kernel (Box.square 0 20)) = true ->
             FilterGeometry Box.kernel L' (Some geom) c1 = (false, c1))
       /\ (forall geom c1,
             has_nan (getEnvelope Box.kernel (Box.square 0 20)) = false ->
             has_nan (getEnvelope Box.kernel geom) = false ->
             OGREnvelope_Intersects (getEnvelope Box.kernel (Box.square 0 20))
               (getEnvelope Box.kernel geom) = false ->
             FilterGeometry Box.kernel L' (Some geom) c1 = (false, c1))
       /\ SetSpatialFilter Box.kernel four_squares 0 ptr_own_filter cpl_initial
          = (OGRERR_NONE, set_iGeomFieldFilter four_squares 0, cpl_initial)
       /\ (forall pos b,
             SetSpatialFilter Box.kernel (moved L' pos b) 0 ptr_own_filter cpl_initial
             = (OGRERR_NONE, moved L' pos b, cpl_initial))
       /\ (forall pos b,
             SetSpatialFilter Box.kernel (moved L' pos b) 0 ptr_null cpl_initial
             = (OGRERR_NONE, moved L'' 0 b, cpl_initial))
       /\ GetSpatialFilter L'' = None
       /\ drv_iNextShapeId L'' = 0%nat
       /\ same_store four_squares L''
       /\ (forall poGeometry c1,
             FilterGeometry Box.kernel L'' poGeometry c1 = (true, c1)).
Proof.
  split; [by vm_compute |].
  apply (SetSpatialFilter_installs_and_clears Box.kernel four_squares 0
           (Box.square 0 20) cpl_initial).
  by vm_compute.
Defined.

(** ** Reading a feature by its identifier *)

Section QueryingProperties.

Context (E : Collaborators)
  (Compile : OGRLayer -> string -> CPLState -> OGRErr * CPLState).

Lemma SetAttributeFilter_layer (QL : QueriedLayer) (q : option string)
    (c : CPLState) :
  exists pos,
    q_layer (SetAttributeFilter Compile QL q c).1.2
    = set_cursor (set_pszAttrQueryString (q_layer QL) q) pos.
Proof.
  unfold SetAttributeFilter.
  assert (Hsame : forall L : OGRLayer, L = set_cursor L (drv_iNextShapeId L))
    by (by intros []).
  destruct q as [q |]; [destruct (String.length q =? 0)%nat |];
    try destruct (m_poAttrQuery QL); try destruct (Compile _ q c);
    simpl; eauto.
Qed.

Lemma passes_without_filters (L : OGRLayer) (f : OGRFeature) (c : CPLState) :
  m_poFilterGeom L = None -> m_pszAttrQueryString L = None ->
  passes_filters E L f c = (true, c).
Proof. intros Hg Hq. unfold passes_filters. by rewrite Hg, Hq. Qed.

(** Without filters the loop of [GetFeature] stops at the first row with
    the identifier and leaves the error state alone. *)
Lemma feed_GetFeature (L : OGRLayer) (nFIDIn : Z) (rows : list OGRFeature) :
  m_poFilterGeom L = None -> m_pszAttrQueryString L = None ->
  forall pos c,
    let res := feed E L (GetFeature_body nFIDIn) rows pos None c in
    res.1.2 = List.find (fun f => nFID f =? nFIDIn) rows /\ res.2 = c.
Proof.
  intros Hg Hq. induction rows as [| r rest IH]; intros pos c; [done |].
  simpl. rewrite (passes_without_filters L r c Hg Hq).
  unfold GetFeature_body.
  destruct (nFID r =? nFIDIn); [done |]. apply IH.
Qed.

Lemma SetSpatialFilter_store (L : OGRLayer) (i : Z) (g : OGRGeometryPtr)
    (c : CPLState) :
  let L' := (SetSpatialFilter E L i g c).1.2 in
  same_store L L' /\ m_bInFeatureIterator L' = m_bInFeatureIterator L.
Proof.
  unfold SetSpatialFilter.
  destruct (if i =? 0 then _ else _) as [[|] c1]; [| by repeat split].
  unfold ISetSpatialFilter.
  by destruct (InstallFilter_layer E (set_iGeomFieldFilter L i) g)
    as [-> | (b & f & p & e & ->)].
Qed.

Lemma SetSpatialFilter_clear (L : OGRLayer) (c : CPLState) :
  m_poFilterGeom (SetSpatialFilter E L 0 ptr_null c).1.2 = None.
Proof.
  unfold SetSpatialFilter, ISetSpatialFilter, InstallFilter. cbn.
  by destruct (m_poFilterGeom L) eqn:Hg.
Qed.

Lemma SetSpatialFilter_back (L : OGRLayer) (i : Z) (g : option OGRGeometry)
    (c : CPLState) :
  m_poFilterGeom L = None ->
  (i = 0 /\ g = None) \/ 0 <= i < GetGeomFieldCount (GetLayerDefn L) ->
  let L' := (SetSpatialFilter E L i (ptr_of g) c).1.2 in
  m_poFilterGeom L' = g /\ m_iGeomFieldFilter L' = i.
Proof.
  intros Hnone Hok. unfold SetSpatialFilter.
  replace (pointee L (ptr_of g)) with g by (by destruct g).
  assert (Hvalid : forall c0,
            0 <= i < GetGeomFieldCount (GetLayerDefn L) ->
            ValidateGeometryFieldIndexForSetSpatialFilter L i g false c0
            = (true, c0)).
  { intros c0 Hi. unfold ValidateGeometryFieldIndexForSetSpatialFilter.
    destruct ((i =? 0) && _ && _); [reflexivity |].
    rewrite (proj2 (Z.ltb_ge _ _)) by lia.
    rewrite Z.geb_leb, (proj2 (Z.leb_gt _ _)) by lia. reflexivity. }
  assert (Hpass : (if i =? 0
                   then match g with
                        | Some _ =>
                            ValidateGeometryFieldIndexForSetSpatialFilter L 0 g
                              false c
                        | None => (true, c)
                        end
                   else ValidateGeometryFieldIndexForSetSpatialFilter L i g false c)
                  = (true, c)).
  { destruct Hok as [[-> ->] | Hi]; [reflexivity |].
    destruct (i =? 0) eqn:Hz; [| by apply Hvalid].
    apply Z.eqb_eq in Hz. subst i. destruct g; [by apply Hvalid | reflexivity]. }
  rewrite Hpass. unfold ISetSpatialFilter, InstallFilter.
  destruct g as [g |]; cbn; [done |]. by rewrite Hnone.
Qed.

Lemma range_for_GetFeature (L : OGRLayer) (nFIDIn : Z) (c : CPLState) :
  m_poFilterGeom L = None -> m_pszAttrQueryString L = None ->
  let res := range_for E (GetFeature_body nFIDIn) L None c in
  res.1.2
  = (if m_bInFeatureIterator L then None
     else List.find (fun f => nFID f =? nFIDIn) (drv_features L))
  /\ exists pos, res.1.1.2 = moved L pos false.
Proof.
  intros Hg Hq res. split; [| apply range_for_layer].
  unfold res. destruct (m_bInFeatureIterator L) eqn:Hflag.
  - by rewrite (range_for_busy E _ L None c Hflag).
  - rewrite (range_for_feed E _ L None c Hflag).
    pose proof (feed_GetFeature L nFIDIn (drv_features L) Hg Hq 0%nat c) as [H _].
    by destruct (feed E L _ (drv_features L) 0 None c) as [[[ex pos'] st'] c'].
Qed.

End QueryingProperties.

(** X17: [GetFeature] returns the first row of the layer that has the
    identifier, whatever spatial filter and attribute filter are installed,
    and nothing when no row has it or when the layer is being iterated
    over.  It leaves the rows, the schema and the attribute filter text of
    the layer as they were, and puts the spatial filter back on its field
    when that field is one of the layer. *)
Theorem GetFeature_finds_by_identifier (E : Collaborators)
    (Compile : OGRLayer -> string -> CPLState -> OGRErr * CPLState)
    (QL : QueriedLayer) (nFIDIn : Z) (c : CPLState) :
  let L := q_layer QL in
  let res := GetFeature E Compile QL nFIDIn c in
  let L' := q_layer res.1.2 in
  res.1.1
  = (if m_bInFeatureIterator L then None
     else List.find (fun f => nFID f =? nFIDIn) (drv_features L))
  /\ same_store L L'
  /\ (filter_installable L ->
      m_poFilterGeom L' = m_poFilterGeom L
      /\ m_iGeomFieldFilter L' = m_iGeomFieldFilter L).
Proof.
  intros L res L'. unfold L', res, GetFeature. clear L' res.
  destruct (SetAttributeFilter_layer Compile QL None c) as [p1 H1].
  destruct (SetAttributeFilter Compile QL None c) as [[e1 QL1] c1].
  simpl in H1.
  pose proof (SetSpatialFilter_store E (q_layer QL1) 0 ptr_null c1) as H2.
  pose proof (SetSpatialFilter_clear E (q_layer QL1) c1) as H2g.
  destruct (SetSpatialFilter E (q_layer QL1) 0 ptr_null c1) as [[e2 L2] c2].
  simpl in H2, H2g. destruct H2 as [(H2r & H2d & H2q) H2f].
  rewrite H1 in H2r, H2d, H2q, H2f. simpl in H2r, H2d, H2q, H2f.
  pose proof (range_for_GetFeature E L2 nFIDIn c2 H2g H2q) as [H3 [p3 H3l]].
  destruct (range_for E (GetFeature_body nFIDIn) L2 None c2)
    as [[[ex L3] poFeature] c3].
  simpl in H3, H3l. rewrite H2f, H2r in H3.
  destruct (SetAttributeFilter_layer Compile (mkQueried L3 (m_poAttrQuery QL1))
              (m_pszAttrQueryString (q_layer QL)) c3) as [p4 H4].
  destruct (SetAttributeFilter Compile _ (m_pszAttrQueryString (q_layer QL)) c3)
    as [[e4 QL4] c4].
  simpl in H4.
  pose proof (SetSpatialFilter_store E (q_layer QL4)
                (m_iGeomFieldFilter (q_layer QL))
                (ptr_of (m_poFilterGeom (q_layer QL))) c4)
    as H5.
  pose proof (SetSpatialFilter_back E (q_layer QL4)
                (m_iGeomFieldFilter (q_layer QL)) (m_poFilterGeom (q_layer QL)) c4)
    as H5g.
  destruct (SetSpatialFilter E (q_layer QL4) _ _ c4) as [[e5 L5] c5].
  simpl in H5, H5g. destruct H5 as [(H5r & H5d & H5q) _].
  rewrite H4, H3l in H5r, H5d, H5q, H5g. simpl in H5r, H5d, H5q, H5g.
  simpl. split; [exact H3 |]. unfold same_store, L.
  split; [split; [congruence | split; congruence] |].
  intros Hok. apply H5g; [exact H2g |]. rewrite H2d. exact Hok.
Qed.

Lemma GetFeature_finds_by_identifier_witness :
  let QL := mkQueried four_squares_filtered None in
  let res :=
    GetFeature Box.kernel (fun _ _ c => (OGRERR_NONE, c)) QL 1 cpl_initial in
  filter_installable (q_layer QL)
  /\ res.1.1 = Some (Box.row 1 "B" (Some (Box.square 40 50)))
  /\ m_poFilterGeom (q_layer res.1.2) = Some (Box.square 0 20)
  /\ m_iGeomFieldFilter (q_layer res.1.2) = 0.
Proof.
  cbv zeta.
  assert (Hok : filter_installable four_squares_filtered).
  { right. vm_compute. split; [discriminate | reflexivity]. }
  destruct (GetFeature_finds_by_identifier Box.kernel
              (fun _ _ c => (OGRERR_NONE, c))
              (mkQueried four_squares_filtered None) 1 cpl_initial)
    as (Hfound & _ & Hback).
  split; [exact Hok |].
  split; [rewrite Hfound; reflexivity |].
  destruct (Hback Hok) as [Hg Hi].
  split; [rewrite Hg; reflexivity | rewrite Hi; reflexivity].
Defined.

(** ** Moving a field *)

Section MovingAField.

Lemma fill_loop_spec (f : Z -> Z) (n : nat) :
  forall (i : nat) (panMap : list Z),
    (i + n <= length panMap)%nat ->
    (fill_loop n f (Z.of_nat i) panMap).1 = Z.of_nat (i + n)
    /\ length (fill_loop n f (Z.of_nat i) panMap).2 = length panMap
    /\ forall k,
         (fill_loop n f (Z.of_nat i) panMap).2 !! k
         = if decide (i <= k < i + n)%nat then Some (f (Z.of_nat k))
           else panMap !! k.
Proof.
  induction n as [| n IH]; intros i panMap Hlen; simpl.
  - split; [f_equal; lia |]. split; [done |]. intros k.
    destruct (decide _); [lia | done].
  - rewrite Nat2Z.id.
    replace (Z.of_nat i + 1) with (Z.of_nat (S i)) by lia.
    destruct (IH (S i) (<[i := f (Z.of_nat i)]> panMap)) as (H1 & H2 & H3).
    { rewrite length_insert. lia. }
    split; [rewrite H1; f_equal; lia |].
    split; [by rewrite H2, length_insert |].
    intros k. rewrite H3.
    destruct (decide (S i <= k < S i + n)%nat), (decide (i <= k < i + S n)%nat);
      try lia; try done.
    + destruct (decide (k = i)) as [-> | Hne].
      * rewrite list_lookup_insert_eq by lia. done.
      * lia.
    + rewrite list_lookup_insert_ne by lia. done.
Qed.

Lemma fill_upto_spec (f : Z -> Z) (i hi : nat) (panMap : list Z) :
  (i <= hi <= length panMap)%nat ->
  exists panMap',
    fill_upto (Z.of_nat i) (Z.of_nat hi) f panMap = (Z.of_nat hi, panMap')
    /\ length panMap' = length panMap
    /\ forall k,
         panMap' !! k
         = if decide (i <= k < hi)%nat then Some (f (Z.of_nat k)) else panMap !! k.
Proof.
  intros Hle. unfold fill_upto.
  replace (Z.to_nat (Z.of_nat hi - Z.of_nat i)) with (hi - i)%nat by lia.
  destruct (fill_loop_spec f (hi - i) i panMap) as (H1 & H2 & H3); [lia |].
  destruct (fill_loop (hi - i) f (Z.of_nat i) panMap) as [i' panMap'].
  simpl in *. exists panMap'. split; [f_equal; lia |]. split; [exact H2 |].
  intros k. rewrite H3.
  destruct (decide (i <= k < i + (hi - i))%nat), (decide (i <= k < hi)%nat);
    try lia; done.
Qed.

Lemma moved_to_lookup (n o w k : nat) :
  (o < n)%nat -> (w < n)%nat ->
  moved_to o w (Z.of_nat o) (seqZ 0 (Z.of_nat n)) !! k
  = if decide (k < n)%nat then
      Some (if decide (k = w) then Z.of_nat o
            else if decide (k < w)%nat
                 then (if decide (k < o)%nat then Z.of_nat k else Z.of_nat k + 1)
                 else (if decide (k <= o)%nat then Z.of_nat k - 1 else Z.of_nat k))
    else None.
Proof.
  intros Ho Hw. unfold moved_to.
  assert (Hlen : length (delete o (seqZ 0 (Z.of_nat n))) = (n - 1)%nat).
  { rewrite length_delete; [rewrite length_seqZ; lia |].
    rewrite lookup_seqZ_lt by lia. by eexists. }
  assert (Htake : length (take w (delete o (seqZ 0 (Z.of_nat n)))) = w).
  { rewrite length_take, Hlen. lia. }
  destruct (decide (k < w)%nat) as [Hkw | Hkw].
  - rewrite lookup_app_l by lia. rewrite lookup_take_lt by lia.
    destruct (decide (k < n)%nat); [| lia].
    destruct (decide (k = w)); [lia |].
    destruct (decide (k < o)%nat).
    + rewrite list_lookup_delete_lt by lia. rewrite lookup_seqZ_lt by lia.
      f_equal; lia.
    + rewrite list_lookup_delete_ge by lia. rewrite lookup_seqZ_lt by lia.
      f_equal; lia.
  - destruct (decide (k = w)) as [-> | Hne].
    + rewrite list_lookup_middle by done. destruct (decide (w < n)%nat); [done | lia].
    + rewrite lookup_app_r by lia. rewrite Htake.
      rewrite lookup_cons_ne_0 by lia. rewrite lookup_drop.
      replace (w + Init.Nat.pred (k - w))%nat with (k - 1)%nat by lia.
      destruct (decide (k < n)%nat).
      * destruct (decide (k <= o)%nat).
        -- rewrite list_lookup_delete_lt by lia. rewrite lookup_seqZ_lt by lia.
           f_equal; lia.
        -- rewrite list_lookup_delete_ge by lia. rewrite lookup_seqZ_lt by lia.
           f_equal; lia.
      * apply lookup_ge_None_2. rewrite Hlen. lia.
Qed.

Lemma ReorderField_panMap_moved (n o w : nat) (block : list Z) :
  (o < n)%nat -> (w < n)%nat -> o <> w -> length block = n ->
  ReorderField_panMap (Z.of_nat n) (Z.of_nat o) (Z.of_nat w) block
  = moved_to o w (Z.of_nat o) (seqZ 0 (Z.of_nat n)).
Proof.
  intros Ho Hw Hne Hlen. apply list_eq. intros k.
  rewrite moved_to_lookup by done.
  unfold ReorderField_panMap.
  destruct (Z.of_nat o <? Z.of_nat w) eqn:Hlt.
  - apply Z.ltb_lt in Hlt.
    destruct (fill_upto_spec (fun i => i) 0 o block) as (m1 & E1 & L1 & K1); [lia |].
    change (Z.of_nat 0) with 0 in E1. rewrite E1.
    destruct (fill_upto_spec (fun i => i + 1) o w m1) as (m2 & E2 & L2 & K2); [lia |].
    rewrite E2.
    destruct (fill_upto_spec (fun i => i) (S w) n
                (<[Z.to_nat (Z.of_nat w) := Z.of_nat o]> m2))
      as (m3 & E3 & L3 & K3); [rewrite length_insert; lia |].
    replace (Z.of_nat w + 1) with (Z.of_nat (S w)) by lia. rewrite E3. simpl.
    rewrite K3, Nat2Z.id.
    destruct (decide (S w <= k < n)%nat).
    + destruct (decide (k < n)%nat); [| lia]. destruct (decide (k = w)); [lia |].
      destruct (decide (k < w)%nat); [lia |]. destruct (decide (k <= o)%nat); [lia | done].
    + destruct (decide (k = w)) as [-> | Hkw].
      * rewrite list_lookup_insert_eq by lia. destruct (decide (w < n)%nat); [done | lia].
      * rewrite list_lookup_insert_ne by lia. rewrite K2.
        destruct (decide (o <= k < w)%nat).
        -- destruct (decide (k < n)%nat); [| lia]. destruct (decide (k < w)%nat); [| lia].
           destruct (decide (k < o)%nat); [lia | done].
        -- rewrite K1. destruct (decide (0 <= k < o)%nat).
           ++ destruct (decide (k < n)%nat); [| lia]. destruct (decide (k < w)%nat); [| lia].
              destruct (decide (k < o)%nat); [done | lia].
           ++ destruct (decide (k < n)%nat); [lia |].
              apply lookup_ge_None_2. lia.
  - apply Z.ltb_ge in Hlt.
    destruct (fill_upto_spec (fun i => i) 0 w block) as (m1 & E1 & L1 & K1); [lia |].
    change (Z.of_nat 0) with 0 in E1. rewrite E1.
    destruct (fill_upto_spec (fun i => i - 1) (S w) (S o)
                (<[Z.to_nat (Z.of_nat w) := Z.of_nat o]> m1))
      as (m2 & E2 & L2 & K2); [rewrite length_insert; lia |].
    replace (Z.of_nat w + 1) with (Z.of_nat (S w)) by lia.
    replace (Z.of_nat o + 1) with (Z.of_nat (S o)) by lia. rewrite E2.
    rewrite length_insert in L2.
    destruct (fill_upto_spec (fun i => i) (S o) n m2) as (m3 & E3 & L3 & K3); [lia |].
    rewrite E3. simpl. rewrite K3.
    destruct (decide (S o <= k < n)%nat).
    + destruct (decide (k < n)%nat); [| lia]. destruct (decide (k = w)); [lia |].
      destruct (decide (k < w)%nat); [lia |]. destruct (decide (k <= o)%nat); [lia | done].
    + rewrite K2, Nat2Z.id. destruct (decide (S w <= k < S o)%nat).
      * destruct (decide (k < n)%nat); [| lia]. destruct (decide (k = w)); [lia |].
        destruct (decide (k < w)%nat); [lia |]. destruct (decide (k <= o)%nat); [done | lia].
      * destruct (decide (k = w)) as [-> | Hkw].
        -- rewrite list_lookup_insert_eq by lia. destruct (decide (w < n)%nat); [done | lia].
        -- rewrite list_lookup_insert_ne by lia. rewrite K1.
           destruct (decide (0 <= k < w)%nat).
           ++ destruct (decide (k < n)%nat); [| lia]. destruct (decide (k < w)%nat); [| lia].
              destruct (decide (k < o)%nat); [done | lia].
           ++ destruct (decide (k < n)%nat); [lia |].
              apply lookup_ge_None_2. lia.
Qed.

End MovingAField.

(** X9: [ReorderField] with two different valid positions hands the
    driver's [ReorderFields] the positions [0 .. n-1] with [iOldFieldPos]
    taken out and put back at index [iNewFieldPos], all others keeping
    their order, whatever the allocated block held before.  With twice
    the same valid position it returns [OGRERR_NONE] and does nothing;
    with a position that is negative or not below the number of fields it
    reports "Invalid field index" and returns [OGRERR_FAILURE]; in
    neither case is the driver called. *)
Theorem ReorderField_moves_one_field
    (ReorderFields : OGRLayer -> list Z -> CPLState -> OGRErr * OGRLayer * CPLState)
    (CPLMalloc_ints : Z -> list Z) (L : OGRLayer) (iOldFieldPos iNewFieldPos : Z)
    (c : CPLState) :
  let nFieldCount := GetFieldCount (GetLayerDefn L) in
  length (CPLMalloc_ints nFieldCount) = Z.to_nat nFieldCount ->
  (0 <= iOldFieldPos < nFieldCount -> 0 <= iNewFieldPos < nFieldCount ->
   iOldFieldPos <> iNewFieldPos ->
   ReorderField ReorderFields CPLMalloc_ints L iOldFieldPos iNewFieldPos c
   = ReorderFields L
       (moved_to (Z.to_nat iOldFieldPos) (Z.to_nat iNewFieldPos) iOldFieldPos
          (seqZ 0 nFieldCount))
       c)
  /\ (0 <= iOldFieldPos < nFieldCount -> iNewFieldPos = iOldFieldPos ->
      ReorderField ReorderFields CPLMalloc_ints L iOldFieldPos iNewFieldPos c
      = (OGRERR_NONE, L, c))
  /\ (~ 0 <= iOldFieldPos < nFieldCount \/ ~ 0 <= iNewFieldPos < nFieldCount ->
      ReorderField ReorderFields CPLMalloc_ints L iOldFieldPos iNewFieldPos c
      = (OGRERR_FAILURE, L,
         CPLError CE_Failure CPLE_NotSupported "Invalid field index" c)).
Proof.
  intros nFieldCount Hblock. unfold ReorderField. fold nFieldCount.
  split; [| split].
  - intros Ho Hw Hne.
    replace ((iOldFieldPos <? 0) || (iOldFieldPos >=? nFieldCount)) with false by lia.
    replace ((iNewFieldPos <? 0) || (iNewFieldPos >=? nFieldCount)) with false by lia.
    replace (iNewFieldPos =? iOldFieldPos) with false by lia.
    f_equal.
    rewrite <- (Z2Nat.id nFieldCount) at 1 2 by lia.
    rewrite <- (Z2Nat.id iOldFieldPos) at 1 3 by lia.
    rewrite <- (Z2Nat.id iNewFieldPos) at 1 by lia.
    rewrite ReorderField_panMap_moved; [| lia | lia | lia |].
    + by rewrite !Z2Nat.id by lia.
    + by rewrite Z2Nat.id by lia.
  - intros Ho ->.
    replace ((iOldFieldPos <? 0) || (iOldFieldPos >=? nFieldCount)) with false by lia.
    by rewrite Z.eqb_refl.
  - intros Hbad.
    destruct ((iOldFieldPos <? 0) || (iOldFieldPos >=? nFieldCount)) eqn:H1;
      [reflexivity |].
    destruct ((iNewFieldPos <? 0) || (iNewFieldPos >=? nFieldCount)) eqn:H2;
      [reflexivity |].
    lia.
Qed.

Lemma ReorderField_moves_one_field_witness :
  length (sevens (GetFieldCount (GetLayerDefn five_fields)))
  = Z.to_nat (GetFieldCount (GetLayerDefn five_fields))
  /\ GetNameRef
     <$> apoFieldDefn
           (GetLayerDefn
              (ReorderField reordering_driver sevens five_fields 1 3 cpl_initial).1.2)
     = ["0"; "2"; "3"; "1"; "4"]
  /\ GetNameRef
     <$> apoFieldDefn
           (GetLayerDefn
              (ReorderField reordering_driver sevens five_fields 3 1 cpl_initial).1.2)
     = ["0"; "3"; "1"; "2"; "4"].
Proof.
  split; [by vm_compute |].
  destruct (ReorderField_moves_one_field reordering_driver sevens five_fields 1 3
              cpl_initial) as [H13 _]; [by vm_compute |].
  destruct (ReorderField_moves_one_field reordering_driver sevens five_fields 3 1
              cpl_initial) as [H31 _]; [by vm_compute |].
  rewrite H13, H31 by (vm_compute; (split + idtac); congruence).
  by vm_compute.
Defined.

(** ** Updating a feature *)

Section UpdatingProperties.

Lemma first_invalid_index_None (n : Z) (panIdx : list Z) (i : Z) :
  first_invalid_index n panIdx i = None <-> indexes_below n panIdx.
Proof.
  unfold indexes_below. revert i. induction panIdx as [| v rest IH]; intros i; simpl.
  - split; [constructor | done].
  - destruct ((v <? 0) || (v >=? n)) eqn:Hv.
    + split; [done |]. intros H. inversion H; subst. lia.
    + rewrite IH. split.
      * intros H. constructor; [lia | done].
      * intros H. by inversion H.
Qed.

Lemma first_invalid_index_Some (n : Z) (panIdx : list Z) (i j v : Z) :
  first_invalid_index n panIdx i = Some (j, v) ->
  i <= j
  /\ panIdx !! Z.to_nat (j - i) = Some v
  /\ ~ 0 <= v < n
  /\ indexes_below n (take (Z.to_nat (j - i)) panIdx).
Proof.
  unfold indexes_below. revert i. induction panIdx as [| u rest IH]; intros i; simpl;
    [done |].
  destruct ((u <? 0) || (u >=? n)) eqn:Hu.
  - intros [= <- <-]. rewrite Z.sub_diag. simpl.
    split; [lia |]. split; [done |]. split; [lia | constructor].
  - intros H. destruct (IH (i + 1) H) as (Hle & Hlook & Hbad & Hpre).
    split; [lia |].
    replace (Z.to_nat (j - i)) with (S (Z.to_nat (j - (i + 1)))) by lia. simpl.
    split; [done |]. split; [done |]. constructor; [lia | done].
Qed.

End UpdatingProperties.

(** X10: [UpdateFeature] first has [ConvertGeomsIfNecessary] convert
    the geometries of the feature, which touches nothing of the layer
    but the flags that function keeps.  It then hands the feature to the
    driver's [IUpdateFeature] exactly when every updated field index is
    the index of a field of the layer and every updated geometry field
    index that of a geometry field.  Otherwise it returns
    [OGRERR_FAILURE] with one error and leaves the layer alone, the
    driver not being called; the message names the first offending
    position and its entry, field indexes being looked at before geometry
    field indexes. *)
Theorem UpdateFeature_validates_indexes (E : Collaborators)
    (IUpdateFeature :
       OGRLayer -> OGRFeature -> list Z -> list Z -> bool -> CPLState ->
       OGRErr * OGRLayer * CPLState)
    (L : OGRLayer) (poFeature : OGRFeature)
    (panUpdatedFieldsIdx panUpdatedGeomFieldsIdx : list Z)
    (bUpdateStyleString : bool) (c : CPLState) :
  let run :=
    UpdateFeature E IUpdateFeature L poFeature panUpdatedFieldsIdx
      panUpdatedGeomFieldsIdx bUpdateStyleString c in
  let nFieldCount := GetFieldCount (GetLayerDefn L) in
  let nGeomFieldCount := GetGeomFieldCount (GetLayerDefn L) in
  let L1 := (ConvertGeomsIfNecessary E L poFeature).2 in
  L1 = set_convertGeoms L (m_convertGeoms L1)
  /\ (m_bConvertGeomsIfNecessaryAlreadyCalled (m_convertGeoms L) = true -> L1 = L)
  /\ (indexes_below nFieldCount panUpdatedFieldsIdx ->
      indexes_below nGeomFieldCount panUpdatedGeomFieldsIdx ->
      run = IUpdateFeature L1 (ConvertGeomsIfNecessary E L poFeature).1
              panUpdatedFieldsIdx panUpdatedGeomFieldsIdx bUpdateStyleString c)
  /\ (~ indexes_below nFieldCount panUpdatedFieldsIdx ->
      exists (i : nat) (v : Z),
        panUpdatedFieldsIdx !! i = Some v
        /\ ~ 0 <= v < nFieldCount
        /\ indexes_below nFieldCount (take i panUpdatedFieldsIdx)
        /\ run = (OGRERR_FAILURE, L1,
                  CPLError CE_Failure CPLE_AppDefined
                    (String.append "Invalid panUpdatedFieldsIdx["
                       (String.append (pretty (Z.of_nat i))
                          (String.append "] = " (pretty v))))
                    c))
  /\ (indexes_below nFieldCount panUpdatedFieldsIdx ->
      ~ indexes_below nGeomFieldCount panUpdatedGeomFieldsIdx ->
      exists (i : nat) (v : Z),
        panUpdatedGeomFieldsIdx !! i = Some v
        /\ ~ 0 <= v < nGeomFieldCount
        /\ indexes_below nGeomFieldCount (take i panUpdatedGeomFieldsIdx)
        /\ run = (OGRERR_FAILURE, L1,
                  CPLError CE_Failure CPLE_AppDefined
                    (String.append "Invalid panUpdatedGeomFieldsIdx["
                       (String.append (pretty (Z.of_nat i))
                          (String.append "] = " (pretty v))))
                    c)).
Proof.
  intros run nFieldCount nGeomFieldCount L1. unfold run, L1, UpdateFeature.
  rewrite ConvertGeomsIfNecessary_pair. cbn [fst snd].
  unfold GetLayerDefn. rewrite ConvertGeoms_init_defn.
  fold (GetLayerDefn L). fold nFieldCount nGeomFieldCount.
  split; [apply ConvertGeoms_init_layer |].
  split; [apply ConvertGeoms_init_done |].
  split; [| split].
  - intros Hf Hg.
    apply first_invalid_index_None with (i := 0) in Hf.
    apply first_invalid_index_None with (i := 0) in Hg.
    by rewrite Hf, Hg.
  - intros Hf.
    destruct (first_invalid_index nFieldCount panUpdatedFieldsIdx 0)
      as [[j v] |] eqn:Hfirst.
    + destruct (first_invalid_index_Some _ _ _ _ _ Hfirst) as (Hle & Hlook & Hbad & Hpre).
      rewrite Z.sub_0_r in Hlook, Hpre.
      exists (Z.to_nat j), v. rewrite Z2Nat.id by lia. done.
    + by apply first_invalid_index_None in Hfirst.
  - intros Hf Hg.
    apply first_invalid_index_None with (i := 0) in Hf. rewrite Hf.
    destruct (first_invalid_index nGeomFieldCount panUpdatedGeomFieldsIdx 0)
      as [[j v] |] eqn:Hfirst.
    + destruct (first_invalid_index_Some _ _ _ _ _ Hfirst) as (Hle & Hlook & Hbad & Hpre).
      rewrite Z.sub_0_r in Hlook, Hpre.
      exists (Z.to_nat j), v. rewrite Z2Nat.id by lia. done.
    + by apply first_invalid_index_None in Hfirst.
Qed.

Lemma UpdateFeature_validates_indexes_witness :
  let L1 := (ConvertGeomsIfNecessary Box.kernel five_fields (Box.row 0 "A" None)).2 in
  (indexes_below (GetFieldCount (GetLayerDefn five_fields)) [0; 4]
   /\ indexes_below (GetGeomFieldCount (GetLayerDefn five_fields)) [0]
   /\ UpdateFeature Box.kernel accepting_IUpdateFeature five_fields
        (Box.row 0 "A" None) [0; 4] [0] false cpl_initial
      = (OGRERR_NONE, L1, cpl_initial))
  /\ (~ indexes_below (GetFieldCount (GetLayerDefn five_fields)) [0; 7; -1]
      /\ exists (i : nat) (v : Z),
           [0; 7; -1] !! i = Some v
           /\ ~ 0 <= v < GetFieldCount (GetLayerDefn five_fields)
           /\ indexes_below (GetFieldCount (GetLayerDefn five_fields))
                (take i [0; 7; -1])
           /\ UpdateFeature Box.kernel accepting_IUpdateFeature five_fields
                (Box.row 0 "A" None) [0; 7; -1] [0] false cpl_initial
              = (OGRERR_FAILURE, L1,
                 CPLError CE_Failure CPLE_AppDefined
                   (String.append "Invalid panUpdatedFieldsIdx["
                      (String.append (pretty (Z.of_nat i))
                         (String.append "] = " (pretty v))))
                   cpl_initial)).
Proof.
  cbv zeta.
  assert (Hok : indexes_below (GetFieldCount (GetLayerDefn five_fields)) [0; 4]).
  { repeat constructor; by vm_compute. }
  assert (Hgeom : indexes_below (GetGeomFieldCount (GetLayerDefn five_fields)) [0]).
  { repeat constructor; by vm_compute. }
  assert (Hbad : ~ indexes_below (GetFieldCount (GetLayerDefn five_fields)) [0; 7; -1]).
  { intros H. inversion H as [| ? ? _ H1]. inversion H1 as [| ? ? H7 _].
    vm_compute in H7. destruct H7 as [_ H7]. discriminate H7. }
  split.
  - split; [exact Hok |]. split; [exact Hgeom |].
    destruct (UpdateFeature_validates_indexes Box.kernel accepting_IUpdateFeature
                five_fields (Box.row 0 "A" None) [0; 4] [0] false cpl_initial)
      as (_ & _ & H & _).
    exact (H Hok Hgeom).
  - split; [exact Hbad |].
    destruct (UpdateFeature_validates_indexes Box.kernel accepting_IUpdateFeature
                five_fields (Box.row 0 "A" None) [0; 7; -1] [0] false cpl_initial)
      as (_ & _ & _ & H & _).
    exact (H Hbad).
Defined.

(** * The PDS data source *)

Section CleanStringProperties.

Lemma c_str_no_NUL (s : list ascii) : PDS.NUL ∉ s -> PDS.c_str s = s.
Proof.
  induction s as [| ch rest IH]; intros Hnul; [done |]. simpl.
  destruct (Ascii.eqb ch PDS.NUL) eqn:Heq.
  - apply Ascii.eqb_eq in Heq. subst ch. exfalso. apply Hnul. by left.
  - f_equal. apply IH. intros Hin. apply Hnul. by right.
Qed.

Lemma spaces_to_underscores_no_space (s : list ascii) :
  " "%char ∉ PDS.spaces_to_underscores s.
Proof.
  unfold PDS.spaces_to_underscores. intros Hin.
  apply list_elem_of_fmap in Hin as (ch & Heq & _).
  destruct (Ascii.eqb ch " "%char) eqn:Hch; [discriminate |].
  apply Ascii.eqb_neq in Hch. by subst ch.
Qed.

End CleanStringProperties.

(** X11: on a string without NUL characters, [CleanString] never writes
    outside its buffer.  A string of at least two characters that starts
    and ends with a double quote, or starts and ends with a single quote,
    loses its first and its last character and has each space between
    them replaced by an underscore, so the result is two characters
    shorter and holds no space; every other string is left as it is. *)
Theorem CleanString_strips_quotes (osInput : PDS.CPLString) :
  PDS.NUL ∉ osInput ->
  (forall (q : ascii) (inner : list ascii),
     q = PDS.double_quote \/ q = PDS.single_quote ->
     osInput = q :: inner ++ [q] ->
     PDS.CleanString osInput = Some (PDS.spaces_to_underscores inner)
     /\ (" "%char ∉ PDS.spaces_to_underscores inner)
     /\ length (PDS.spaces_to_underscores inner) = (length osInput - 2)%nat)
  /\ ((forall (q : ascii) (inner : list ascii),
         q = PDS.double_quote \/ q = PDS.single_quote ->
         osInput <> q :: inner ++ [q]) ->
      PDS.CleanString osInput = Some osInput).
Proof.
  intros Hnul. split.
  - intros q inner Hq ->. unfold PDS.CleanString.
    assert (Hhead : head (q :: inner ++ [q]) = Some q) by done.
    assert (Hlast : last (q :: inner ++ [q]) = Some q).
    { change (q :: inner ++ [q]) with (((q :: inner) ++ [q])%list). apply last_snoc. }
    rewrite Hhead, Hlast.
    replace ((length (q :: inner ++ [q]) <? 2)%nat) with false
      by (symmetry; apply Nat.ltb_ge; simpl; rewrite length_app; simpl; lia).
    assert (Hquoted : negb (bool_decide (Some q = Some PDS.double_quote)
                            && bool_decide (Some q = Some PDS.double_quote))
                      && negb (bool_decide (Some q = Some PDS.single_quote)
                               && bool_decide (Some q = Some PDS.single_quote))
                      = false).
    { destruct Hq as [-> | ->]; by vm_compute. }
    rewrite Hquoted. simpl.
    rewrite drop_0, c_str_no_NUL.
    2:{ intros Hin. apply Hnul. by right. }
    rewrite length_app. simpl.
    replace (length inner + 1)%nat with (S (length inner)) by lia.
    rewrite take_app_length.
    split; [done |]. split; [apply spaces_to_underscores_no_space |].
    unfold PDS.spaces_to_underscores. rewrite length_fmap, ?length_app. simpl. lia.
  - intros Hnot. unfold PDS.CleanString.
    destruct ((length osInput <? 2)%nat) eqn:Hlen; [done |].
    apply Nat.ltb_ge in Hlen. simpl.
    destruct (negb (bool_decide (head osInput = Some PDS.double_quote)
                    && bool_decide (last osInput = Some PDS.double_quote))
              && negb (bool_decide (head osInput = Some PDS.single_quote)
                       && bool_decide (last osInput = Some PDS.single_quote)))
      eqn:Hq; [done |].
    exfalso.
    assert (Hshape : exists q, (q = PDS.double_quote \/ q = PDS.single_quote)
                               /\ head osInput = Some q /\ last osInput = Some q).
    { apply andb_false_iff in Hq as [Hq | Hq]; apply negb_false_iff in Hq;
        apply andb_true_iff in Hq as [H1 H2];
        apply bool_decide_eq_true in H1; apply bool_decide_eq_true in H2;
        eauto. }
    destruct Hshape as (q & Hqq & Hhead & Hlast).
    destruct osInput as [| a rest]; [done |]. simpl in Hhead. injection Hhead as ->.
    destruct (decide (rest = [])) as [-> | Hne]; [simpl in Hlen; lia |].
    destruct (exists_last Hne) as (inner & b & ->).
    change (q :: inner ++ [b]) with (((q :: inner) ++ [b])%list) in Hlast.
    rewrite last_snoc in Hlast. injection Hlast as ->.
    by apply (Hnot q inner).
Qed.

Lemma CleanString_strips_quotes_witness :
  (PDS.NUL ∉ list_ascii_of_string "'MY TABLE 1'")
  /\ PDS.CleanString (list_ascii_of_string "'MY TABLE 1'")
     = Some (list_ascii_of_string "MY_TABLE_1")
  /\ PDS.CleanString (list_ascii_of_string "'MY TABLE 1")
     = Some (list_ascii_of_string "'MY TABLE 1").
Proof.
  assert (Hnul : forall s, PDS.NUL ∉ list_ascii_of_string s <->
                           forallb (fun ch => negb (Ascii.eqb ch PDS.NUL))
                             (list_ascii_of_string s) = true).
  { intros s. rewrite forallb_forall. split.
    - intros Hnot ch Hin. apply negb_true_iff, Ascii.eqb_neq. intros ->.
      by apply Hnot, list_elem_of_In.
    - intros Hall Hin. apply list_elem_of_In in Hin. apply Hall in Hin.
      by rewrite Ascii.eqb_refl in Hin. }
  assert (H1 : PDS.NUL ∉ list_ascii_of_string "'MY TABLE 1'")
    by (apply Hnul; by vm_compute).
  assert (H2 : PDS.NUL ∉ list_ascii_of_string "'MY TABLE 1")
    by (apply Hnul; by vm_compute).
  split; [exact H1 |]. split.
  - destruct (CleanString_strips_quotes (list_ascii_of_string "'MY TABLE 1'") H1)
      as [Hq _].
    destruct (Hq PDS.single_quote (list_ascii_of_string "MY TABLE 1")) as [Hc _];
      [by right | by vm_compute | exact Hc].
  - apply (CleanString_strips_quotes (list_ascii_of_string "'MY TABLE 1") H2).
    intros q inner _ Heq.
    assert (Hlast : last (list_ascii_of_string "'MY TABLE 1") = Some q).
    { rewrite Heq. change (q :: inner ++ [q]) with (((q :: inner) ++ [q])%list).
      apply last_snoc. }
    assert (Hhead : head (list_ascii_of_string "'MY TABLE 1") = Some q)
      by (by rewrite Heq).
    vm_compute in Hlast, Hhead. congruence.
Defined.

(** One step through a bind of the option monad. *)
Ltac bind_step :=
  match goal with
  | |- (?m ≫= ?f) = _ -> _ =>
      let x := fresh "x" in
      destruct m as [x |] eqn:?;
      [change (Some x ≫= f) with (f x); cbv beta
      | let H := fresh in intros H; discriminate H]
  end.

Section LoadTableProperties.

Local Open Scope list_scope.

Context (GetKeyword : PDS.CPLString -> option PDS.CPLString)
  (CSLTokenizeString2 : PDS.CPLString -> PDS.CPLString -> list PDS.CPLString)
  (atoi : PDS.CPLString -> Z)
  (strstr : PDS.CPLString -> PDS.CPLString -> bool)
  (CPLGetPathSafe : PDS.CPLString -> PDS.CPLString)
  (CPLFormCIFilenameSafe : PDS.CPLString -> PDS.CPLString -> PDS.CPLString)
  (GetLayerByName : list PDS.OGRPDSLayer -> PDS.CPLString -> bool)
  (VSIFOpenL : PDS.CPLString -> CPLState -> option PDS.VSILFILE * CPLState)
  (VSI_MALLOC_VERBOSE : Z -> CPLState -> bool * CPLState).

Hypothesis atoi_int : forall s, - PDS.INT_MAX - 1 <= atoi s <= PDS.INT_MAX.

Lemma wrap_int_exact (z : Z) :
  - PDS.INT_MAX - 1 <= z <= PDS.INT_MAX -> PDS.wrap_int z = z.
Proof.
  unfold PDS.wrap_int, PDS.INT_MAX. intros Hz.
  rewrite Z.mod_small by lia. lia.
Qed.

Lemma accepted_product (n nRecordSize : Z) :
  0 < nRecordSize -> 0 <= n ->
  (n >? Z.quot PDS.INT_MAX nRecordSize) = false ->
  0 <= n * nRecordSize <= PDS.INT_MAX.
Proof.
  intros Hrs Hn Hle.
  assert (Hq : n <= PDS.INT_MAX / nRecordSize).
  { rewrite Z.quot_div_nonneg in Hle by (unfold PDS.INT_MAX; lia). lia. }
  split; [nia |].
  pose proof (Z.mul_div_le PDS.INT_MAX nRecordSize Hrs). nia.
Qed.

Lemma LoadTable_location_exact (pszFilename : PDS.CPLString) (nRecordSize : Z)
    (osTableLink : PDS.CPLString) (c : CPLState) osTableFilename nStartBytes c' :
  0 < nRecordSize ->
  PDS.LoadTable_location GetKeyword CSLTokenizeString2 atoi strstr CPLGetPathSafe
    CPLFormCIFilenameSafe pszFilename nRecordSize osTableLink c
  = Some (Some (osTableFilename, nStartBytes), c') ->
  nStartBytes
  = PDS.exact_StartBytes GetKeyword CSLTokenizeString2 atoi strstr nRecordSize
      osTableLink
  /\ 0 <= nStartBytes <= PDS.INT_MAX.
Proof.
  intros Hrs. unfold PDS.LoadTable_location, PDS.exact_StartBytes.
  destruct (bool_decide (head (PDS.GetKeywordDef GetKeyword osTableLink []) = Some "("%char)).
  - destruct (PDS.GetKeywordSub GetKeyword CSLTokenizeString2 osTableLink 1 [])
      as [osFile |]; [| done]. simpl.
    destruct (PDS.GetKeywordSub GetKeyword CSLTokenizeString2 osTableLink 2 [])
      as [osStart |]; [| done]. simpl.
    pose proof (atoi_int (PDS.c_str osStart)) as Hint.
    destruct (atoi (PDS.c_str osStart) <=? 0) eqn:Hpos; [done |]. simpl.
    replace (0 <? nRecordSize) with true by lia. simpl.
    destruct (atoi (PDS.c_str osStart) >? Z.quot PDS.INT_MAX nRecordSize) eqn:Hbig;
      [done |].
    assert (Hprod : 0 <= atoi (PDS.c_str osStart) * nRecordSize <= PDS.INT_MAX).
    { apply accepted_product; [done | lia | done]. }
    rewrite (wrap_int_exact (atoi (PDS.c_str osStart) - 1)) by lia.
    rewrite (wrap_int_exact ((atoi (PDS.c_str osStart) - 1) * nRecordSize))
      by (unfold PDS.INT_MAX in *; nia).
    match goal with
    | |- (if ?b then _ else _) = _ -> _ => destruct b; [intros [=] |]
    end.
    destruct (PDS.CleanString osFile); simpl; [| intros [=]].
    intros [= _ <- _]. split; [done | unfold PDS.INT_MAX in *; nia].
  - destruct (negb (bool_decide (PDS.GetKeywordDef GetKeyword osTableLink [] = []))
              && match head (PDS.GetKeywordDef GetKeyword osTableLink []) with
                 | Some ch => PDS.is_digit ch
                 | None => false
                 end) eqn:Hnum.
    + apply andb_true_iff in Hnum as [_ Hdigit]. rewrite Hdigit.
      pose proof (atoi_int (PDS.c_str (PDS.GetKeywordDef GetKeyword osTableLink [])))
        as Hint.
      destruct (atoi _ <=? 1) eqn:Hone; [done |].
      rewrite wrap_int_exact by lia.
      destruct (strstr _ _); simpl.
      * intros [= _ <- _]. split; [done | lia].
      * replace (0 <? nRecordSize) with true by lia. simpl.
        destruct (_ >? _) eqn:Hbig; [done |].
        pose proof (fun H => accepted_product _ nRecordSize Hrs H Hbig) as Hprod.
        specialize (Hprod ltac:(lia)).
        rewrite wrap_int_exact by lia.
        intros [= _ <- _]. split; [done | lia].
    + destruct (PDS.CleanString _); simpl; [| intros [=]].
      intros [= _ <- _].
      destruct (match head (PDS.GetKeywordDef GetKeyword osTableLink []) with
                | Some ch => PDS.is_digit ch
                | None => false
                end) eqn:Hdigit.
      * rewrite andb_true_r in Hnum. apply negb_false_iff, bool_decide_eq_true in Hnum.
        by rewrite Hnum in Hdigit.
      * split; [done | unfold PDS.INT_MAX; lia].
Qed.

Lemma LoadTable_outcome (papoLayers : list PDS.OGRPDSLayer)
    (pszFilename : PDS.CPLString) (nRecordSize : Z) (osTableID : PDS.CPLString)
    (c : CPLState) (b : bool) (papoLayers' : list PDS.OGRPDSLayer) (c' : CPLState) :
  0 < nRecordSize ->
  PDS.LoadTable GetKeyword CSLTokenizeString2 atoi strstr CPLGetPathSafe
    CPLFormCIFilenameSafe GetLayerByName VSIFOpenL VSI_MALLOC_VERBOSE papoLayers
    pszFilename nRecordSize osTableID c
  = Some (b, papoLayers', c') ->
  if b then
    exists L,
      papoLayers' = papoLayers ++ [L]
      /\ PDS.GetLayer papoLayers' (Z.of_nat (length papoLayers)) = Some L
      /\ PDS.osTableID L = osTableID
      /\ PDS.osLabelFilename L = pszFilename
      /\ PDS.nRecordSize L = nRecordSize
      /\ 0 <= PDS.nRecords L
      /\ PDS.nStartBytes L
         = PDS.exact_StartBytes GetKeyword CSLTokenizeString2 atoi strstr
             nRecordSize (PDS.text "^" ++ osTableID)
      /\ 0 <= PDS.nStartBytes L <= PDS.INT_MAX
  else papoLayers' = papoLayers.
Proof.
  intros Hrs. unfold PDS.LoadTable.
  bind_step. destruct x as [[[file off] |] c1]; [| by intros [= <- <- _]].
  match goal with
  | Hloc : PDS.LoadTable_location _ _ _ _ _ _ _ _ _ _ = _ |- _ =>
      destruct (LoadTable_location_exact _ _ _ _ _ _ _ Hrs Hloc) as [Hoff Hrange]
  end.
  bind_step.
  match goal with
  | |- (if ?cond then _ else _) = _ -> _ => destruct cond eqn:Hmissing
  end; [by intros [= <- <- _] |].
  apply orb_false_iff in Hmissing as [_ Hrecords]. apply Z.ltb_ge in Hrecords.
  bind_step.
  match goal with
  | |- (if ?cond then _ else _) = _ -> _ => destruct cond
  end; [by intros [= <- <- _] |].
  destruct (VSIFOpenL file c1) as [[fp |] c2]; [| by intros [= <- <- _]].
  bind_step.
  destruct (VSI_MALLOC_VERBOSE _ c2) as [[] c3]; cbn [negb];
    [| by intros [= <- <- _]].
  intros [= <- <- _]. eexists. split; [reflexivity |].
  split.
  { unfold PDS.GetLayer. rewrite length_app. simpl length.
    rewrite (proj2 (Z.ltb_ge _ _)) by lia.
    rewrite Z.geb_leb, (proj2 (Z.leb_gt _ _)) by lia.
    cbn [orb]. rewrite Nat2Z.id. by apply list_lookup_middle. }
  cbn [PDS.osTableID PDS.osLabelFilename PDS.nRecordSize PDS.nRecords PDS.nStartBytes].
  repeat split; try done; lia.
Qed.

End LoadTableProperties.

(** X12: a call of [LoadTable] with a positive record size that does not
    run into undefined behaviour either fails and leaves the list of
    layers as it was, or succeeds and appends exactly one layer, which
    [GetLayer] then returns at the index the list had as its length.  The
    layer carries the table identifier, the label file name and the record
    size it was given and a row count that is not negative; its start
    offset is the one exact arithmetic gives (no 32-bit product wrapped
    around) and lies between 0 and [INT_MAX].  [atoi] is taken to return
    an [int]. *)
Theorem LoadTable_appends_one_layer
    (GetKeyword : PDS.CPLString -> option PDS.CPLString)
    (CSLTokenizeString2 : PDS.CPLString -> PDS.CPLString -> list PDS.CPLString)
    (atoi : PDS.CPLString -> Z)
    (strstr : PDS.CPLString -> PDS.CPLString -> bool)
    (CPLGetPathSafe : PDS.CPLString -> PDS.CPLString)
    (CPLFormCIFilenameSafe : PDS.CPLString -> PDS.CPLString -> PDS.CPLString)
    (GetLayerByName : list PDS.OGRPDSLayer -> PDS.CPLString -> bool)
    (VSIFOpenL : PDS.CPLString -> CPLState -> option PDS.VSILFILE * CPLState)
    (VSI_MALLOC_VERBOSE : Z -> CPLState -> bool * CPLState)
    (papoLayers : list PDS.OGRPDSLayer) (pszFilename : PDS.CPLString)
    (nRecordSize : Z) (osTableID : PDS.CPLString) (c : CPLState)
    (b : bool) (papoLayers' : list PDS.OGRPDSLayer) (c' : CPLState) :
  (forall s, - PDS.INT_MAX - 1 <= atoi s <= PDS.INT_MAX) ->
  0 < nRecordSize ->
  PDS.LoadTable GetKeyword CSLTokenizeString2 atoi strstr CPLGetPathSafe
    CPLFormCIFilenameSafe GetLayerByName VSIFOpenL VSI_MALLOC_VERBOSE papoLayers
    pszFilename nRecordSize osTableID c
  = Some (b, papoLayers', c') ->
  if b then
    exists L,
      papoLayers' = (papoLayers ++ [L])%list
      /\ PDS.GetLayer papoLayers' (Z.of_nat (length papoLayers)) = Some L
      /\ PDS.osTableID L = osTableID
      /\ PDS.osLabelFilename L = pszFilename
      /\ PDS.nRecordSize L = nRecordSize
      /\ 0 <= PDS.nRecords L
      /\ PDS.nStartBytes L
         = PDS.exact_StartBytes GetKeyword CSLTokenizeString2 atoi strstr
             nRecordSize (PDS.text "^" ++ osTableID)%list
      /\ 0 <= PDS.nStartBytes L <= PDS.INT_MAX
  else papoLayers' = papoLayers.
Proof. intros Hatoi Hrs Hrun. by eapply LoadTable_outcome. Qed.

Lemma example_digits_nonneg (s : PDS.CPLString) :
  forall acc, 0 <= acc -> 0 <= PDS.example_digits acc s.
Proof.
  induction s as [| ch rest IH]; intros acc Hacc; simpl; [done |].
  destruct (_ && _); [apply IH; lia | done].
Qed.

Lemma example_atoi_int (s : PDS.CPLString) :
  - PDS.INT_MAX - 1 <= PDS.example_atoi s <= PDS.INT_MAX.
Proof.
  unfold PDS.example_atoi. pose proof (example_digits_nonneg s 0 ltac:(done)).
  unfold PDS.INT_MAX in *. lia.
Qed.

Lemma LoadTable_appends_one_layer_witness :
  (forall s, - PDS.INT_MAX - 1 <= PDS.example_atoi s <= PDS.INT_MAX)
  /\ 0 < 80
  /\ exists L,
       PDS.LoadTable PDS.example_label (fun _ _ => []) PDS.example_atoi
         (fun _ _ => false) (fun s => s) (fun a b => (a ++ b)%list)
         (fun _ _ => false) (fun _ c => (Some 0%nat, c)) (fun _ c => (true, c))
         [] (PDS.text "T.LBL") 80 (PDS.text "TABLE") cpl_initial
       = Some (true, [L], cpl_initial)
       /\ PDS.nStartBytes L = 320
       /\ PDS.pszLayerName L = PDS.text "TABLE"
       /\ PDS.bIsASCII L = true
       /\ PDS.nRecords L = 10.
Proof.
  split; [exact example_atoi_int |]. split; [lia |].
  pose proof (LoadTable_appends_one_layer PDS.example_label (fun _ _ => [])
                PDS.example_atoi (fun _ _ => false) (fun s => s)
                (fun a b => (a ++ b)%list) (fun _ _ => false)
                (fun _ c => (Some 0%nat, c)) (fun _ c => (true, c))
                [] (PDS.text "T.LBL") 80 (PDS.text "TABLE") cpl_initial true
                [PDS.mkPDSLayer (PDS.text "TABLE") (PDS.text "TABLE") 0%nat
                   (PDS.text "T.LBL") [] 10 320 80 true]
                cpl_initial example_atoi_int ltac:(lia) ltac:(by vm_compute))
    as (L & HL & _).
  exists L. apply (inj (fun x => [x])) in HL. subst L.
  split; [by vm_compute |]. by repeat split.
Defined.

Section OpenProperties.

Local Open Scope list_scope.

Context (CSLTokenizeString2 : PDS.CPLString -> PDS.CPLString -> list PDS.CPLString)
  (atoi : PDS.CPLString -> Z)
  (strstr : PDS.CPLString -> PDS.CPLString -> bool)
  (CPLGetPathSafe : PDS.CPLString -> PDS.CPLString)
  (CPLFormCIFilenameSafe : PDS.CPLString -> PDS.CPLString -> PDS.CPLString)
  (GetLayerByName : list PDS.OGRPDSLayer -> PDS.CPLString -> bool)
  (VSIFOpenL : PDS.CPLString -> CPLState -> option PDS.VSILFILE * CPLState)
  (VSI_MALLOC_VERBOSE : Z -> CPLState -> bool * CPLState)
  (VSIFReadL_header : PDS.VSILFILE -> PDS.CPLString)
  (strstr_pos : PDS.CPLString -> PDS.CPLString -> option Z)
  (Ingest : PDS.VSILFILE -> Z -> option (PDS.CPLString -> option PDS.CPLString))
  (CPLReadLines : PDS.VSILFILE -> list PDS.CPLString).

Hypothesis atoi_int : forall s, - PDS.INT_MAX - 1 <= atoi s <= PDS.INT_MAX.

Lemma LoadTable_well_formed GetKeyword (papoLayers : list PDS.OGRPDSLayer)
    (pszFilename : PDS.CPLString) (nRecordSize : Z) (osTableID : PDS.CPLString)
    (c : CPLState) (b : bool) (papoLayers' : list PDS.OGRPDSLayer) (c' : CPLState) :
  0 < nRecordSize <= 10 * 1024 * 1024 ->
  Forall (well_formed_layer pszFilename) papoLayers ->
  PDS.LoadTable GetKeyword CSLTokenizeString2 atoi strstr CPLGetPathSafe
    CPLFormCIFilenameSafe GetLayerByName VSIFOpenL VSI_MALLOC_VERBOSE papoLayers
    pszFilename nRecordSize osTableID c
  = Some (b, papoLayers', c') ->
  Forall (well_formed_layer pszFilename) papoLayers'.
Proof.
  intros Hrs Hall Hrun.
  pose proof (LoadTable_outcome GetKeyword CSLTokenizeString2 atoi strstr
                CPLGetPathSafe CPLFormCIFilenameSafe GetLayerByName VSIFOpenL
                VSI_MALLOC_VERBOSE atoi_int papoLayers pszFilename nRecordSize
                osTableID c b papoLayers' c' ltac:(lia) Hrun) as Hout.
  destruct b; [| by subst].
  destruct Hout as (L & -> & _ & _ & Hfile & Hsize & Hrows & _ & Hoff).
  apply Forall_app. split; [done |]. constructor; [| done].
  unfold well_formed_layer. rewrite Hsize. done.
Qed.

Lemma Open_lines_well_formed GetKeyword (pszFilename : PDS.CPLString)
    (nRecordSize : Z) (lines : list PDS.CPLString) :
  0 < nRecordSize <= 10 * 1024 * 1024 ->
  forall nErrors papoLayers c papoLayers' c',
    Forall (well_formed_layer pszFilename) papoLayers ->
    PDS.Open_lines CSLTokenizeString2 atoi strstr CPLGetPathSafe
      CPLFormCIFilenameSafe GetLayerByName VSIFOpenL VSI_MALLOC_VERBOSE GetKeyword
      lines nErrors papoLayers pszFilename nRecordSize c
    = Some (papoLayers', c') ->
    Forall (well_formed_layer pszFilename) papoLayers'.
Proof.
  intros Hrs. induction lines as [| pszLine rest IH];
    intros nErrors papoLayers c papoLayers' c' Hall; simpl.
  - destruct (negb (nErrors <? 10)); by intros [= <- _].
  - destruct (negb (nErrors <? 10)); [by intros [= <- _] |].
    destruct (CSLTokenizeString2 pszLine _) as [| token0 [| token1 [| ? ?]]];
      try (by apply IH).
    destruct (_ && _); [| by apply IH].
    bind_step. destruct x as [[bLoaded layers1] c1].
    apply IH. by eapply LoadTable_well_formed.
Qed.

Lemma Open_outcome (pszFilename : PDS.CPLString) (c : CPLState) (b : bool)
    (papoLayers : list PDS.OGRPDSLayer) (c' : CPLState) :
  PDS.Open CSLTokenizeString2 atoi strstr CPLGetPathSafe CPLFormCIFilenameSafe
    GetLayerByName VSIFOpenL VSI_MALLOC_VERBOSE VSIFReadL_header strstr_pos Ingest
    CPLReadLines [] pszFilename c
  = Some (b, papoLayers, c') ->
  (b = true <-> papoLayers <> [])
  /\ Forall (well_formed_layer pszFilename) papoLayers.
Proof.
  assert (Hnone : forall c0,
             Some (false, @nil PDS.OGRPDSLayer, c0) = Some (b, papoLayers, c') ->
             (b = true <-> papoLayers <> [])
             /\ Forall (well_formed_layer pszFilename) papoLayers).
  { intros c0 [= <- <- _]. split; [split; done | constructor]. }
  assert (Hsome : forall layers c0,
             Forall (well_formed_layer pszFilename) layers ->
             Some (negb (bool_decide (layers = [])), layers, c0)
             = Some (b, papoLayers, c') ->
             (b = true <-> papoLayers <> [])
             /\ Forall (well_formed_layer pszFilename) papoLayers).
  { intros layers c0 Hall [= <- <- _]. split; [| done].
    rewrite negb_true_iff, bool_decide_eq_false. done. }
  unfold PDS.Open.
  destruct (VSIFOpenL pszFilename c) as [[fp |] c1]; [| by apply Hnone].
  destruct (strstr_pos _ _) as [pos |]; [| by apply Hnone].
  destruct (Ingest fp pos) as [GetKeyword |]; [| by apply Hnone].
  match goal with
  | |- (if ?cond then _ else _) = _ -> _ => destruct cond eqn:Hmissing
  end; [by apply Hnone |].
  apply orb_false_iff in Hmissing as [Hmissing Hbig].
  apply orb_false_iff in Hmissing as [_ Hsmall].
  assert (Hrs : 0 < atoi (PDS.c_str
                            (PDS.GetKeywordDef GetKeyword (PDS.text "RECORD_BYTES") []))
                <= 10 * 1024 * 1024) by lia.
  bind_step.
  match goal with
  | |- (if ?cond then _ else _) = _ -> _ => destruct cond
  end; [by apply Hnone |].
  match goal with
  | |- (if ?cond then _ else _) = _ -> _ => destruct cond
  end.
  - bind_step. destruct x0 as [[bLoaded layers] c2]. apply Hsome.
    eapply LoadTable_well_formed; [exact Hrs | constructor | eassumption].
  - destruct (VSIFOpenL pszFilename c1) as [[fp2 |] c2]; [| by apply Hnone].
    bind_step. destruct x0 as [layers c3]. apply Hsome.
    eapply Open_lines_well_formed; [exact Hrs | constructor | eassumption].
Qed.

End OpenProperties.

(** X13: when [Open] on a fresh data source returns without running into
    undefined behaviour, it returns true exactly when it has loaded at
    least one layer, and every layer it has loaded was made from the file
    that was opened, with a record size between 1 and 10 MiB, a row count
    that is not negative and a start offset between 0 and [INT_MAX].
    [atoi] is taken to return an [int]. *)
Theorem Open_loads_well_formed_layers
    (CSLTokenizeString2 : PDS.CPLString -> PDS.CPLString -> list PDS.CPLString)
    (atoi : PDS.CPLString -> Z)
    (strstr : PDS.CPLString -> PDS.CPLString -> bool)
    (CPLGetPathSafe : PDS.CPLString -> PDS.CPLString)
    (CPLFormCIFilenameSafe : PDS.CPLString -> PDS.CPLString -> PDS.CPLString)
    (GetLayerByName : list PDS.OGRPDSLayer -> PDS.CPLString -> bool)
    (VSIFOpenL : PDS.CPLString -> CPLState -> option PDS.VSILFILE * CPLState)
    (VSI_MALLOC_VERBOSE : Z -> CPLState -> bool * CPLState)
    (VSIFReadL_header : PDS.VSILFILE -> PDS.CPLString)
    (strstr_pos : PDS.CPLString -> PDS.CPLString -> option Z)
    (Ingest : PDS.VSILFILE -> Z -> option (PDS.CPLString -> option PDS.CPLString))
    (CPLReadLines : PDS.VSILFILE -> list PDS.CPLString)
    (pszFilename : PDS.CPLString) (c : CPLState) (b : bool)
    (papoLayers : list PDS.OGRPDSLayer) (c' : CPLState) :
  (forall s, - PDS.INT_MAX - 1 <= atoi s <= PDS.INT_MAX) ->
  PDS.Open CSLTokenizeString2 atoi strstr CPLGetPathSafe CPLFormCIFilenameSafe
    GetLayerByName VSIFOpenL VSI_MALLOC_VERBOSE VSIFReadL_header strstr_pos Ingest
    CPLReadLines [] pszFilename c
  = Some (b, papoLayers, c') ->
  (b = true <-> papoLayers <> [])
  /\ Forall (well_formed_layer pszFilename) papoLayers.
Proof. intros Hatoi Hrun. by eapply Open_outcome. Qed.

Lemma Open_loads_well_formed_layers_witness :
  (forall s, - PDS.INT_MAX - 1 <= PDS.example_atoi s <= PDS.INT_MAX)
  /\ PDS.Open (fun _ _ => []) PDS.example_atoi (fun _ _ => false) (fun s => s)
       (fun a b => (a ++ b)%list) (fun _ _ => false) (fun _ c => (Some 0%nat, c))
       (fun _ c => (true, c)) (fun _ => PDS.text "PDS_VERSION_ID = PDS3")
       (fun _ _ => Some 0) (fun _ _ => Some PDS.example_label) (fun _ => [])
       [] (PDS.text "T.LBL") cpl_initial
     = Some (true,
             [PDS.mkPDSLayer (PDS.text "TABLE") (PDS.text "TABLE") 0%nat
                (PDS.text "T.LBL") [] 10 320 80 true],
             cpl_initial)
  /\ Forall (well_formed_layer (PDS.text "T.LBL"))
       [PDS.mkPDSLayer (PDS.text "TABLE") (PDS.text "TABLE") 0%nat
          (PDS.text "T.LBL") [] 10 320 80 true].
Proof.
  split; [exact example_atoi_int |].
  assert (Hrun : PDS.Open (fun _ _ => []) PDS.example_atoi (fun _ _ => false)
                   (fun s => s) (fun a b => (a ++ b)%list) (fun _ _ => false)
                   (fun _ c => (Some 0%nat, c)) (fun _ c => (true, c))
                   (fun _ => PDS.text "PDS_VERSION_ID = PDS3")
                   (fun _ _ => Some 0) (fun _ _ => Some PDS.example_label)
                   (fun _ => []) [] (PDS.text "T.LBL") cpl_initial
                 = Some (true,
                         [PDS.mkPDSLayer (PDS.text "TABLE") (PDS.text "TABLE") 0%nat
                            (PDS.text "T.LBL") [] 10 320 80 true],
                         cpl_initial)) by (by vm_compute).
  split; [exact Hrun |].
  exact (proj2 (Open_loads_well_formed_layers _ _ _ _ _ _ _ _ _ _ _ _ _ _ _ _ _
                  example_atoi_int Hrun)).
Defined.

(** * Rolling back schema changes *)

Lemma bind_Some {A B : Type} (x : A) (f : A -> option B) : (Some x ≫= f) = f x.
Proof. reflexivity. Qed.

Section SavepointLoop.

Context {St : Type} (name_at : St -> nat -> option string)
  (body : nat -> St -> option St) (names : list string).

Hypothesis body_keeps_names :
  forall i st st', holds_names name_at names st -> body i st = Some st' -> holds_names name_at names st'.

Lemma savepoint_loop_taken_up (osSavepoint : string) (n : nat) :
  forall bSavepointFound st,
    (n <= length names)%nat ->
    holds_names name_at names st ->
    (osSavepoint <> "" ->
     bSavepointFound = true <-> osSavepoint ∈ drop n names) ->
    savepoint_loop name_at body osSavepoint n bSavepointFound st
    = body_at name_at body (Transaction.taken_up_below osSavepoint names n) st.
Proof.
  unfold Transaction.taken_up_below.
  induction n as [| i IH]; intros found st Hn Hnames Hfound; [done |].
  replace (rev (seq 0 (S i))) with (i :: rev (seq 0 i))
    by (rewrite seq_S; simpl; by rewrite rev_app_distr).
  simpl savepoint_loop.
  destruct (lookup_lt_is_Some_2 names i ltac:(lia)) as [nm Hnm].
  rewrite (Hnames i), Hnm. rewrite bind_Some.
  assert (Hdrop : drop i names = nm :: drop (S i) names).
  { by rewrite (drop_S names nm i Hnm). }
  set (sel := Transaction.taken_up osSavepoint names) in *.
  change (List.filter sel (i :: rev (seq 0 i)))
    with (if sel i then i :: List.filter sel (rev (seq 0 i))
          else List.filter sel (rev (seq 0 i))).
  assert (Hsel : sel i
                 = bool_decide (osSavepoint = "") || bool_decide (nm = osSavepoint)
                   || negb (bool_decide (osSavepoint ∈ drop (S i) names))).
  { unfold sel, Transaction.taken_up. rewrite Hnm. do 2 f_equal.
    apply bool_decide_ext. split; congruence. }
  assert (Hrun : forall found',
             (osSavepoint <> "" ->
              found' = true <-> osSavepoint ∈ drop i names) ->
             (st' ← body i st; savepoint_loop name_at body osSavepoint i found' st')
             = body_at name_at body (i :: List.filter sel (rev (seq 0 i))) st).
  { intros found' Hfound'. simpl body_at. rewrite (Hnames i), Hnm.
    rewrite bind_Some.
    destruct (body i st) as [st' |] eqn:Hbody; rewrite ?bind_Some; [| done].
    apply IH; [lia | by eapply body_keeps_names | done]. }
  rewrite Hsel. unfold Transaction.savepoint_test.
  destruct (bool_decide (osSavepoint = "")) eqn:Hempty; cbn [negb orb].
  - apply bool_decide_eq_true in Hempty. by apply Hrun.
  - apply bool_decide_eq_false in Hempty. specialize (Hfound Hempty).
    destruct (bool_decide (nm = osSavepoint)) eqn:Hsame; cbn [orb].
    + apply bool_decide_eq_true in Hsame. subst nm.
      apply Hrun. intros _. split; [intros _ | done]. rewrite Hdrop. by left.
    + apply bool_decide_eq_false in Hsame. destruct found.
      * assert (Hin : osSavepoint ∈ drop (S i) names) by (by apply Hfound).
        rewrite (bool_decide_eq_true_2 _ Hin). cbn [negb].
        apply IH; [lia | done |].
        intros _. split; [intros _ | done]. rewrite Hdrop. by right.
      * assert (Hout : osSavepoint ∉ drop (S i) names).
        { intros Hin. apply Hfound in Hin. discriminate. }
        rewrite (bool_decide_eq_false_2 _ Hout). cbn [negb].
        apply Hrun. intros _. split; [done |]. rewrite Hdrop.
        intros [Heq | Hin]%elem_of_cons; [by subst | done].
Qed.

End SavepointLoop.

Section RollbackProperties.

Import Transaction.

Context {Defn FieldDefn GeomFieldDefn : Type}
  (GetNameRef : FieldDefn -> string)
  (GeomGetNameRef : GeomFieldDefn -> string)
  (GetFieldCount : Defn -> Z)
  (AddFieldDefn : Defn -> FieldDefn -> Defn)
  (ReorderFieldDefns : Defn -> list Z -> CPLState -> OGRErr * Defn * CPLState)
  (GetFieldDefn : Defn -> Z -> CPLState -> option FieldDefn * CPLState)
  (AssignFieldDefn : Defn -> Z -> FieldDefn -> Defn)
  (StealFieldDefn : Defn -> Z -> CPLState -> option FieldDefn * Defn * CPLState)
  (StealGeomFieldDefn :
     Defn -> Z -> CPLState -> option GeomFieldDefn * Defn * CPLState).

Lemma restore_fields_loop_generic (osSavepoint : string) (n : nat) :
  forall found st c,
    restore_fields_loop GetNameRef GetFieldCount AddFieldDefn ReorderFieldDefns
      GetFieldDefn AssignFieldDefn StealFieldDefn osSavepoint n found st c
    = savepoint_loop field_name_at (field_body GetNameRef GetFieldCount AddFieldDefn ReorderFieldDefns
       GetFieldDefn AssignFieldDefn StealFieldDefn) osSavepoint n found (st, c).
Proof.
  induction n as [| i IH]; intros found st c; [done |].
  simpl. unfold field_name_at, field_body. simpl.
  destruct (fs_changes st !! i) as [ch |]; [| done]. simpl.
  destruct (savepoint_test osSavepoint (osSavepointName ch) found) as [[] found'];
    [apply IH |].
  destruct (restore_field GetNameRef GetFieldCount AddFieldDefn ReorderFieldDefns
    GetFieldDefn AssignFieldDefn StealFieldDefn i ch st c) as [[st' c'] |]; simpl; [apply IH | done].
Qed.

Lemma restore_fields_at_generic (indexes : list nat) :
  forall st c,
    restore_fields_at GetNameRef GetFieldCount AddFieldDefn ReorderFieldDefns
      GetFieldDefn AssignFieldDefn StealFieldDefn indexes st c
    = body_at field_name_at (field_body GetNameRef GetFieldCount AddFieldDefn ReorderFieldDefns
       GetFieldDefn AssignFieldDefn StealFieldDefn) indexes (st, c).
Proof.
  induction indexes as [| i rest IH]; intros st c; [done |].
  simpl. unfold field_name_at, field_body. simpl.
  destruct (fs_changes st !! i) as [ch |]; [| done]. simpl.
  destruct (restore_field GetNameRef GetFieldCount AddFieldDefn ReorderFieldDefns
    GetFieldDefn AssignFieldDefn StealFieldDefn i ch st c) as [[st' c'] |]; simpl; [apply IH | done].
Qed.

Lemma restore_geom_fields_loop_generic (osSavepoint : string) (n : nat) :
  forall found defn changes c,
    restore_geom_fields_loop GeomGetNameRef StealGeomFieldDefn osSavepoint n found
      defn changes c
    = savepoint_loop geom_name_at (geom_body GeomGetNameRef StealGeomFieldDefn) osSavepoint n found (defn, changes, c).
Proof.
  induction n as [| i IH]; intros found defn changes c; [done |].
  simpl. unfold geom_name_at, geom_body. simpl.
  destruct (changes !! i) as [ch |]; [| done]. simpl.
  destruct (savepoint_test osSavepoint (osSavepointName ch) found) as [[] found'];
    [apply IH |].
  destruct (restore_geom_field GeomGetNameRef StealGeomFieldDefn i ch defn changes c) as [[[defn' changes'] c'] |];
    simpl; [apply IH | done].
Qed.

Lemma restore_geom_fields_at_generic (indexes : list nat) :
  forall defn changes c,
    restore_geom_fields_at GeomGetNameRef StealGeomFieldDefn indexes defn changes c
    = body_at geom_name_at (geom_body GeomGetNameRef StealGeomFieldDefn) indexes (defn, changes, c).
Proof.
  induction indexes as [| i rest IH]; intros defn changes c; [done |].
  simpl. unfold geom_name_at, geom_body. simpl.
  destruct (changes !! i) as [ch |]; [| done]. simpl.
  destruct (restore_geom_field GeomGetNameRef StealGeomFieldDefn i ch defn changes c) as [[[defn' changes'] c'] |];
    simpl; [apply IH | done].
Qed.

(** Replacing the definition a record holds leaves the savepoint names
    as they are. *)
Lemma names_after_replacing {T : Type} (changes : list (FieldDefnChange T))
    (i : nat) (ch : FieldDefnChange T) (d : option T) :
  changes !! i = Some ch ->
  osSavepointName <$> <[i := set_poFieldDefn ch d]> changes
  = osSavepointName <$> changes.
Proof.
  intros Hch. rewrite list_fmap_insert. simpl.
  apply list_insert_id. by rewrite list_lookup_fmap, Hch.
Qed.

Lemma restore_field_names (i : nat) (ch : FieldDefnChange FieldDefn)
    (st st' : FieldsState) (c c' : CPLState) :
  fs_changes st !! i = Some ch ->
  restore_field GetNameRef GetFieldCount AddFieldDefn ReorderFieldDefns
    GetFieldDefn AssignFieldDefn StealFieldDefn i ch st c = Some (st', c') ->
  osSavepointName <$> fs_changes st' = osSavepointName <$> fs_changes st.
Proof.
  intros Hch. unfold restore_field.
  destruct (poFieldDefn ch) as [d |]; [| done].
  destruct (0 <=? iField ch); [| by intros [= <- _]].
  destruct (eChangeType ch).
  - destruct (StealFieldDefn _ _ c) as [[[d' |] defn] c1]; intros [= <- _]; simpl;
      [by apply names_after_replacing | done].
  - destruct (GetFieldDefn _ _ c) as [[d' |] c1]; by intros [= <- _].
  - destruct (_ <=? _); [done |].
    destruct (ReorderFieldDefns _ _ c) as [[err defn] c1].
    destruct (bool_decide (err = OGRERR_NONE)); intros [= <- _]; simpl;
      by apply names_after_replacing.
Qed.

Lemma restore_geom_field_names (i : nat) (ch : FieldDefnChange GeomFieldDefn)
    defn changes c defn' changes' c' :
  changes !! i = Some ch ->
  restore_geom_field GeomGetNameRef StealGeomFieldDefn i ch defn changes c = Some (defn', changes', c') ->
  osSavepointName <$> changes' = osSavepointName <$> changes.
Proof.
  intros Hch. unfold restore_geom_field.
  destruct (poFieldDefn ch) as [d |]; [| done].
  destruct (0 <=? iField ch); [| by intros [= _ <- _]].
  destruct (eChangeType ch); try (by intros [= _ <- _]).
  destruct (StealGeomFieldDefn _ _ c) as [[[d' |] defn1] c1]; intros [= _ <- _];
    [by apply names_after_replacing | done].
Qed.

Lemma field_body_keeps_names (names : list string) i s s' :
  holds_names field_name_at names s -> (field_body GetNameRef GetFieldCount AddFieldDefn ReorderFieldDefns
       GetFieldDefn AssignFieldDefn StealFieldDefn) i s = Some s' ->
  holds_names field_name_at names s'.
Proof.
  unfold holds_names, field_name_at, field_body. intros Hnames Hbody j.
  destruct (fs_changes s.1 !! i) as [ch |] eqn:Hch; [| done]. simpl in Hbody.
  destruct s' as [st' c'].
  pose proof (restore_field_names i ch s.1 st' s.2 c' Hch Hbody) as Heq.
  rewrite <- (Hnames j), <- !list_lookup_fmap. simpl. by rewrite Heq.
Qed.

Lemma geom_body_keeps_names (names : list string) i s s' :
  holds_names geom_name_at names s -> (geom_body GeomGetNameRef StealGeomFieldDefn) i s = Some s' ->
  holds_names geom_name_at names s'.
Proof.
  unfold holds_names, geom_name_at, geom_body. intros Hnames Hbody j.
  destruct (s.1.2 !! i) as [ch |] eqn:Hch; [| done]. simpl in Hbody.
  destruct s' as [[defn' changes'] c'].
  pose proof (restore_geom_field_names i ch s.1.1 s.1.2 s.2 defn' changes' c' Hch
                Hbody) as Heq.
  rewrite <- (Hnames j), <- !list_lookup_fmap. simpl. by rewrite Heq.
Qed.

Lemma FinishRollbackTransaction_taken_up (osSavepoint : string)
    (L : SchemaState (Defn := Defn) (FieldDefn := FieldDefn)
           (GeomFieldDefn := GeomFieldDefn)) (c : CPLState) :
  FinishRollbackTransaction GetNameRef GeomGetNameRef GetFieldCount AddFieldDefn
    ReorderFieldDefns GetFieldDefn AssignFieldDefn StealFieldDefn StealGeomFieldDefn
    osSavepoint L c
  = '(st, c) ←
      restore_fields_at GetNameRef GetFieldCount AddFieldDefn ReorderFieldDefns
        GetFieldDefn AssignFieldDefn StealFieldDefn
        (taken_up_below osSavepoint (osSavepointName <$> m_apoFieldDefnChanges L)
           (length (m_apoFieldDefnChanges L)))
        (mkFieldsState (m_poFeatureDefn L) (m_apoFieldDefnChanges L) []) c;
    '(defn, geom_changes, c) ←
      restore_geom_fields_at GeomGetNameRef StealGeomFieldDefn
        (taken_up_below osSavepoint (osSavepointName <$> m_apoGeomFieldDefnChanges L)
           (length (m_apoGeomFieldDefnChanges L)))
        (fs_defn st) (m_apoGeomFieldDefnChanges L) c;
    Some (mkSchemaState defn (erase_all (fs_changes st) (fs_toBeRemoved st))
            geom_changes, c).
Proof.
  unfold FinishRollbackTransaction.
  rewrite restore_fields_loop_generic, restore_fields_at_generic.
  rewrite (savepoint_loop_taken_up field_name_at (field_body GetNameRef GetFieldCount AddFieldDefn ReorderFieldDefns
       GetFieldDefn AssignFieldDefn StealFieldDefn)
             (osSavepointName <$> m_apoFieldDefnChanges L)).
  - destruct (body_at field_name_at (field_body GetNameRef GetFieldCount AddFieldDefn ReorderFieldDefns
       GetFieldDefn AssignFieldDefn StealFieldDefn) _ _) as [[st c1] |]; [| done].
    rewrite !bind_Some.
    rewrite restore_geom_fields_loop_generic, restore_geom_fields_at_generic.
    rewrite (savepoint_loop_taken_up geom_name_at (geom_body GeomGetNameRef StealGeomFieldDefn)
               (osSavepointName <$> m_apoGeomFieldDefnChanges L)); [done | | | |].
    + apply geom_body_keeps_names.
    + by rewrite length_fmap.
    + intros j. unfold geom_name_at. simpl. by rewrite list_lookup_fmap.
    + intros _. split; [done |]. rewrite drop_ge by (by rewrite length_fmap). by intros ?%elem_of_nil.
  - apply field_body_keeps_names.
  - by rewrite length_fmap.
  - intros j. unfold field_name_at. simpl. by rewrite list_lookup_fmap.
  - intros _. split; [done |]. rewrite drop_ge by (by rewrite length_fmap). by intros ?%elem_of_nil.
Qed.

End RollbackProperties.

Lemma taken_up_spec (osSavepoint : string) (names : list string) (i : nat) :
  Transaction.taken_up osSavepoint names i = true
  <-> osSavepoint = ""
      \/ names !! i = Some osSavepoint
      \/ ~ exists j, (i < j)%nat /\ names !! j = Some osSavepoint.
Proof.
  unfold Transaction.taken_up.
  rewrite !orb_true_iff, negb_true_iff, bool_decide_eq_false, !bool_decide_eq_true.
  assert (Hin : osSavepoint ∈ drop (S i) names
                <-> exists j, (i < j)%nat /\ names !! j = Some osSavepoint).
  { rewrite list_elem_of_lookup. split.
    - intros [k Hk]. rewrite lookup_drop in Hk. exists (S i + k)%nat. split; [lia | done].
    - intros (j & Hj & Hlook). exists (j - S i)%nat. rewrite lookup_drop.
      by replace (S i + (j - S i))%nat with j by lia. }
  rewrite Hin. tauto.
Qed.

(** X14: [FinishRollbackTransaction] runs the body of its first loop on
    the field change records it takes up, last record first, then erases
    the records marked for removal, then runs the body of its second loop
    on the geometry field change records it takes up, last record first.
    With an empty savepoint name it takes up every record.  With a name,
    it takes up the records that carry that name and the records behind
    which no record carries it; so with a name that no record carries it
    takes up every record as well. *)
Theorem FinishRollbackTransaction_savepoint
    {Defn FieldDefn GeomFieldDefn : Type}
    (GetNameRef : FieldDefn -> string) (GeomGetNameRef : GeomFieldDefn -> string)
    (GetFieldCount : Defn -> Z) (AddFieldDefn : Defn -> FieldDefn -> Defn)
    (ReorderFieldDefns : Defn -> list Z -> CPLState -> OGRErr * Defn * CPLState)
    (GetFieldDefn : Defn -> Z -> CPLState -> option FieldDefn * CPLState)
    (AssignFieldDefn : Defn -> Z -> FieldDefn -> Defn)
    (StealFieldDefn : Defn -> Z -> CPLState -> option FieldDefn * Defn * CPLState)
    (StealGeomFieldDefn :
       Defn -> Z -> CPLState -> option GeomFieldDefn * Defn * CPLState)
    (osSavepoint : string)
    (L : Transaction.SchemaState (Defn := Defn) (FieldDefn := FieldDefn)
           (GeomFieldDefn := GeomFieldDefn))
    (c : CPLState) :
  let names := Transaction.osSavepointName <$> Transaction.m_apoFieldDefnChanges L in
  let geom_names :=
    Transaction.osSavepointName <$> Transaction.m_apoGeomFieldDefnChanges L in
  Transaction.FinishRollbackTransaction GetNameRef GeomGetNameRef GetFieldCount
    AddFieldDefn ReorderFieldDefns GetFieldDefn AssignFieldDefn StealFieldDefn
    StealGeomFieldDefn osSavepoint L c
  = ('(st, c) ←
       Transaction.restore_fields_at GetNameRef GetFieldCount AddFieldDefn
         ReorderFieldDefns GetFieldDefn AssignFieldDefn StealFieldDefn
         (List.filter (Transaction.taken_up osSavepoint names)
            (rev (seq 0 (length names))))
         (Transaction.mkFieldsState (Transaction.m_poFeatureDefn L)
            (Transaction.m_apoFieldDefnChanges L) []) c;
     '(defn, geom_changes, c) ←
       Transaction.restore_geom_fields_at GeomGetNameRef StealGeomFieldDefn
         (List.filter (Transaction.taken_up osSavepoint geom_names)
            (rev (seq 0 (length geom_names))))
         (Transaction.fs_defn st) (Transaction.m_apoGeomFieldDefnChanges L) c;
     Some (Transaction.mkSchemaState defn
             (Transaction.erase_all (Transaction.fs_changes st)
                (Transaction.fs_toBeRemoved st))
             geom_changes, c))
  /\ (forall (all_names : list string) (i : nat),
        Transaction.taken_up osSavepoint all_names i = true
        <-> osSavepoint = ""
            \/ all_names !! i = Some osSavepoint
            \/ ~ exists j, (i < j)%nat /\ all_names !! j = Some osSavepoint)
  /\ (forall (all_names : list string) (n : nat),
        osSavepoint = "" \/ osSavepoint ∉ all_names ->
        List.filter (Transaction.taken_up osSavepoint all_names) (rev (seq 0 n))
        = rev (seq 0 n)).
Proof.
  intros names geom_names. split; [| split].
  - unfold names, geom_names. rewrite !length_fmap.
    apply FinishRollbackTransaction_taken_up.
  - apply taken_up_spec.
  - intros all_names n Hall.
    assert (Hevery : forall i, Transaction.taken_up osSavepoint all_names i = true).
    { intros i. apply taken_up_spec. destruct Hall as [-> | Hout]; [by left |].
      right. right. intros (j & _ & Hj). apply Hout.
      by apply list_elem_of_lookup_2 in Hj. }
    induction (rev (seq 0 n)) as [| i rest IH]; [done |].
    simpl. by rewrite Hevery, IH.
Qed.

(** ** Putting deleted fields back *)

Section PuttingBack.

Local Open Scope list_scope.

Lemma restore_order_lookup (k n j : nat) :
  (k < n)%nat ->
  Transaction.restore_order (Z.of_nat k) (Z.of_nat n) !! j
  = if decide (j < n)%nat then
      Some (if decide (j = k) then Z.of_nat n - 1
            else if decide (j < k)%nat then Z.of_nat j else Z.of_nat j - 1)
    else None.
Proof.
  intros Hk. unfold Transaction.restore_order. rewrite Nat2Z.id.
  destruct (fill_upto_spec (fun j => j) 0 k (replicate n 0))
    as (m1 & E1 & L1 & K1); [rewrite length_replicate; lia |].
  change (Z.of_nat 0) with 0 in E1. rewrite E1.
  rewrite length_replicate in L1.
  destruct (fill_upto_spec (fun j => j - 1) (S k) n m1) as (m2 & E2 & L2 & K2); [lia |].
  replace (Z.of_nat k + 1) with (Z.of_nat (S k)) by lia. rewrite E2.
  rewrite ?Nat2Z.id.
  destruct (decide (j = k)) as [-> | Hjk].
  - rewrite list_lookup_insert_eq by lia. destruct (decide (k < n)%nat); [done | lia].
  - rewrite list_lookup_insert_ne by lia. rewrite K2.
    destruct (decide (S k <= j < n)%nat).
    + destruct (decide (j < n)%nat); [| lia]. destruct (decide (j < k)%nat); [lia | done].
    + rewrite K1. destruct (decide (0 <= j < k)%nat).
      * destruct (decide (j < n)%nat); [| lia]. destruct (decide (j < k)%nat); [done | lia].
      * destruct (decide (j < n)%nat); [lia |].
        apply lookup_ge_None_2. rewrite length_replicate. lia.
Qed.

(** The order is the positions with the last one moved to index [k]. *)
Lemma restore_order_moved (k n : nat) :
  (k < n)%nat ->
  Transaction.restore_order (Z.of_nat k) (Z.of_nat n)
  = moved_to (n - 1) k (Z.of_nat (n - 1)) (seqZ 0 (Z.of_nat n)).
Proof.
  intros Hk. apply list_eq. intros j.
  rewrite restore_order_lookup, moved_to_lookup by lia.
  destruct (decide (j < n)%nat); [| done]. f_equal.
  destruct (decide (j = k)); [lia |].
  destruct (decide (j < k)%nat).
  - destruct (decide (j < n - 1)%nat); [done | lia].
  - destruct (decide (j <= n - 1)%nat); [done | lia].
Qed.

Lemma moved_to_Permutation {A : Type} (o w : nat) (x : A) (l : list A) :
  l !! o = Some x -> moved_to o w x l ≡ₚ l.
Proof.
  intros Hx. unfold moved_to. rewrite <- Permutation_middle, take_drop.
  symmetry. by apply delete_Permutation.
Qed.

Lemma omap_Forall2 {A B : Type} (g : A -> option B) (xs : list A) (ys : list B) :
  Forall2 (fun x y => g x = Some y) xs ys -> omap g xs = ys.
Proof.
  induction 1 as [| x y xs ys Hxy _ IH]; [done |]. simpl. rewrite Hxy.
  f_equal. exact IH.
Qed.

Lemma positions_Forall2 {A : Type} (l : list A) :
  Forall2 (fun i y => l !! Z.to_nat i = Some y) (seqZ 0 (Z.of_nat (length l))) l.
Proof.
  apply Forall2_same_length_lookup_2; [rewrite length_seqZ; lia |].
  intros i x y Hx Hy. apply lookup_seqZ in Hx as [-> _].
  by rewrite Z.add_0_l, Nat2Z.id.
Qed.

(** Reading the fields in the order that moves the last position to
    index [k] puts the last field in at index [k]. *)
Lemma reordered_put_back {A : Type} (fs : list A) (f : A) (k : nat) :
  (k <= length fs)%nat ->
  omap (fun i => (fs ++ [f]) !! Z.to_nat i)
    (moved_to (length fs) k (Z.of_nat (length fs))
       (seqZ 0 (Z.of_nat (length (fs ++ [f])))))
  = put_back k f fs.
Proof.
  intros Hk. apply omap_Forall2. unfold moved_to, put_back.
  pose proof (positions_Forall2 (fs ++ [f])) as Hall.
  apply (Forall2_delete _ _ _ (length fs)) in Hall.
  replace (delete (length fs) (fs ++ [f])) with fs in Hall
    by (symmetry; rewrite (delete_middle fs [] f); apply app_nil_r).
  apply Forall2_app; [by apply Forall2_take |].
  constructor; [| by apply Forall2_drop].
  rewrite Nat2Z.id. by apply list_lookup_middle.
Qed.

End PuttingBack.

Section DeletedFields.

Import Transaction.

Local Open Scope list_scope.

Context {Defn FieldDefn GeomFieldDefn : Type}
  (GetNameRef : FieldDefn -> string)
  (GeomGetNameRef : GeomFieldDefn -> string)
  (GetFieldCount : Defn -> Z)
  (AddFieldDefn : Defn -> FieldDefn -> Defn)
  (ReorderFieldDefns : Defn -> list Z -> CPLState -> OGRErr * Defn * CPLState)
  (GetFieldDefn : Defn -> Z -> CPLState -> option FieldDefn * CPLState)
  (AssignFieldDefn : Defn -> Z -> FieldDefn -> Defn)
  (StealFieldDefn : Defn -> Z -> CPLState -> option FieldDefn * Defn * CPLState)
  (StealGeomFieldDefn :
     Defn -> Z -> CPLState -> option GeomFieldDefn * Defn * CPLState)
  (fields : Defn -> list FieldDefn).

Hypothesis GetFieldCount_fields :
  forall d, GetFieldCount d = Z.of_nat (length (fields d)).
Hypothesis AddFieldDefn_fields :
  forall d f, fields (AddFieldDefn d f) = fields d ++ [f].
Hypothesis ReorderFieldDefns_fields :
  forall d panMap c,
    panMap ≡ₚ seqZ 0 (GetFieldCount d) ->
    exists d',
      ReorderFieldDefns d panMap c = (OGRERR_NONE, d', c)
      /\ fields d' = omap (fun i => fields d !! Z.to_nat i) panMap.

Lemma restore_field_deletion (i k : nat) (f : FieldDefn) (osName : string)
    (st : FieldsState) (c : CPLState) :
  (k <= length (fields (fs_defn st)))%nat ->
  exists defn',
    restore_field GetNameRef GetFieldCount AddFieldDefn ReorderFieldDefns
      GetFieldDefn AssignFieldDefn StealFieldDefn i (deletion k f osName) st c
    = Some (mkFieldsState defn'
              (<[i := set_poFieldDefn (deletion k f osName) None]> (fs_changes st))
              (fs_toBeRemoved st ++ [i]), c)
    /\ fields defn' = put_back k f (fields (fs_defn st)).
Proof.
  intros Hk. unfold restore_field, deletion. cbn [poFieldDefn iField eChangeType].
  replace (0 <=? Z.of_nat k) with true by lia.
  rewrite GetFieldCount_fields, AddFieldDefn_fields.
  set (fs := fields (fs_defn st)) in *.
  assert (Hlen : length (fs ++ [f]) = S (length fs)) by (rewrite length_app; simpl; lia).
  replace (Z.of_nat (length (fs ++ [f])) <=? Z.of_nat k) with false by lia.
  rewrite restore_order_moved by lia.
  replace (length (fs ++ [f]) - 1)%nat with (length fs) by lia.
  destruct (ReorderFieldDefns_fields (AddFieldDefn (fs_defn st) f)
              (moved_to (length fs) k (Z.of_nat (length fs))
                 (seqZ 0 (Z.of_nat (length (fs ++ [f]))))) c)
    as (d' & Hrun & Hfields).
  { rewrite GetFieldCount_fields, AddFieldDefn_fields. fold fs.
    apply moved_to_Permutation. rewrite lookup_seqZ_lt by lia. f_equal; lia. }
  rewrite Hrun. rewrite (bool_decide_eq_true_2 (OGRERR_NONE = OGRERR_NONE)) by done.
  exists d'. split; [done |].
  rewrite Hfields, AddFieldDefn_fields. fold fs. by apply reordered_put_back.
Qed.

Lemma restore_deletions (dels : list (nat * FieldDefn * string)) :
  forall st c fs',
    take (length dels) (fs_changes st) = deletion_of <$> dels ->
    (length dels <= length (fs_changes st))%nat ->
    reinserted (fields (fs_defn st)) (rev (fst <$> dels)) = Some fs' ->
    exists st',
      restore_fields_at GetNameRef GetFieldCount AddFieldDefn ReorderFieldDefns
        GetFieldDefn AssignFieldDefn StealFieldDefn (rev (seq 0 (length dels))) st c
      = Some (st', c)
      /\ fields (fs_defn st') = fs'
      /\ fs_toBeRemoved st' = fs_toBeRemoved st ++ rev (seq 0 (length dels))
      /\ length (fs_changes st') = length (fs_changes st).
Proof.
  induction dels as [| [[k f] osName] dels IH] using rev_ind;
    intros st c fs' Htake Hlen Hre.
  - simpl in *. injection Hre as <-. exists st. by rewrite app_nil_r.
  - rewrite length_app in *. simpl length in *.
    replace (length dels + 1)%nat with (S (length dels)) in * by lia.
    rewrite seq_S, rev_app_distr. simpl rev. simpl app.
    rewrite fmap_app, rev_app_distr in Hre. simpl in Hre.
    destruct (decide (k <= length (fields (fs_defn st)))%nat) as [Hk |]; [| done].
    assert (Hrec : fs_changes st !! length dels = Some (deletion k f osName)).
    { rewrite <- (lookup_take_lt (fs_changes st) (S (length dels))) by lia.
      rewrite Htake, fmap_app. rewrite lookup_app_r by (by rewrite length_fmap).
      rewrite length_fmap, Nat.sub_diag. done. }
    simpl restore_fields_at. rewrite Hrec, bind_Some.
    destruct (restore_field_deletion (length dels) k f osName st c Hk)
      as (defn' & Hrun & Hfields).
    rewrite Hrun, bind_Some.
    destruct (IH (mkFieldsState defn'
                    (<[length dels := set_poFieldDefn (deletion k f osName) None]>
                       (fs_changes st))
                    (fs_toBeRemoved st ++ [length dels])) c fs')
      as (st' & Hrest & Hfs & Hrem & Hlength).
    + simpl. rewrite take_insert_ge by lia.
      replace (take (length dels) (fs_changes st))
        with (take (length dels) (take (S (length dels)) (fs_changes st)))
        by (rewrite take_take; f_equal; lia).
      rewrite Htake, fmap_app, take_app_length'; [done |]. by rewrite length_fmap.
    + simpl. rewrite length_insert. lia.
    + simpl. by rewrite Hfields.
    + exists st'. split; [exact Hrest |]. split; [exact Hfs |].
      simpl in Hrem, Hlength. rewrite length_insert in Hlength.
      split; [| exact Hlength]. by rewrite Hrem, <- app_assoc.
Qed.

Lemma erase_all_everything {T : Type} (n : nat) :
  forall changes : list T,
    length changes = n -> erase_all changes (rev (seq 0 n)) = [].
Proof.
  unfold erase_all. induction n as [| n IH]; intros changes Hlen.
  - by destruct changes.
  - rewrite seq_S, rev_app_distr. simpl.
    apply IH. rewrite length_delete; [lia |].
    apply lookup_lt_is_Some_2. lia.
Qed.

Lemma taken_up_every (osSavepoint : string) (names : list string) (n : nat) :
  osSavepoint = "" \/ osSavepoint ∉ names ->
  taken_up_below osSavepoint names n = rev (seq 0 n).
Proof.
  intros Hall. unfold taken_up_below.
  assert (Hevery : forall i, taken_up osSavepoint names i = true).
  { intros i. apply taken_up_spec. destruct Hall as [-> | Hout]; [by left |].
    right. right. intros (j & _ & Hj). apply Hout.
    by apply list_elem_of_lookup_2 in Hj. }
  induction (rev (seq 0 n)) as [| i rest IH]; [done |].
  simpl. by rewrite Hevery, IH.
Qed.

Lemma put_back_delete {A : Type} (l : list A) (k : nat) (x : A) :
  l !! k = Some x -> put_back k x (delete k l) = l.
Proof.
  unfold put_back. revert k. induction l as [| a l IH]; intros [| k] Hx; try done.
  - simpl in *. by injection Hx as ->.
  - simpl in *. f_equal. by apply IH.
Qed.

Lemma reinserted_deleted_from {A : Type} (ks : list nat) :
  forall (l l' : list A) deleted,
    deleted_from l ks = Some (l', deleted) ->
    reinserted l' (rev deleted) = Some l.
Proof.
  assert (Happ : forall (d1 d2 : list (nat * A)) (l0 l1 : list A),
             reinserted l0 d1 = Some l1 ->
             reinserted l0 (d1 ++ d2) = reinserted l1 d2).
  { induction d1 as [| [k x] d1 IH]; intros d2 l0 l1; simpl.
    - by intros [= ->].
    - destruct (decide (k <= length l0)%nat); [apply IH | done]. }
  induction ks as [| k rest IH]; intros l l' deleted; simpl.
  - by intros [= <- <-].
  - destruct (l !! k) as [x |] eqn:Hx; [| done]. rewrite bind_Some.
    destruct (deleted_from (delete k l) rest) as [[l1 d1] |] eqn:Hrest; [| done].
    rewrite bind_Some. intros [= <- <-]. simpl.
    rewrite (Happ _ _ _ _ (IH _ _ _ Hrest)). simpl.
    assert (Hk : (k <= length (delete k l))%nat).
    { pose proof (lookup_lt_Some _ _ _ Hx). rewrite length_delete by (by eexists).
      lia. }
    destruct (decide (k <= length (delete k l))%nat); [| done].
    by rewrite put_back_delete.
Qed.

Lemma FinishRollbackTransaction_deletions (osSavepoint : string)
    (L : SchemaState (Defn := Defn) (FieldDefn := FieldDefn)
           (GeomFieldDefn := GeomFieldDefn))
    (dels : list (nat * FieldDefn * string)) (c : CPLState)
    (fs' : list FieldDefn) :
  m_apoFieldDefnChanges L = deletion_of <$> dels ->
  m_apoGeomFieldDefnChanges L = [] ->
  osSavepoint = "" \/ osSavepoint ∉ (snd <$> dels) ->
  reinserted (fields (m_poFeatureDefn L)) (rev (fst <$> dels)) = Some fs' ->
  exists defn',
    FinishRollbackTransaction GetNameRef GeomGetNameRef GetFieldCount AddFieldDefn
      ReorderFieldDefns GetFieldDefn AssignFieldDefn StealFieldDefn StealGeomFieldDefn
      osSavepoint L c
    = Some (mkSchemaState defn' [] [], c)
    /\ fields defn' = fs'.
Proof.
  intros Hchanges Hgeom Hname Hre.
  rewrite FinishRollbackTransaction_taken_up, Hgeom, Hchanges.
  rewrite (taken_up_every osSavepoint (osSavepointName <$> (deletion_of <$> dels))).
  2:{ destruct Hname as [? | Hout]; [by left | right].
      rewrite <- list_fmap_compose.
      intros Hin. apply Hout.
      apply list_elem_of_fmap in Hin as ([[k f] nm] & -> & Hin).
      apply list_elem_of_fmap. by exists (k, f, nm). }
  rewrite length_fmap.
  destruct (restore_deletions dels
              (mkFieldsState (m_poFeatureDefn L) (deletion_of <$> dels) []) c fs')
    as (st' & Hrun & Hfs & Hrem & Hlength).
  - simpl. rewrite <- (length_fmap deletion_of dels) at 1. apply firstn_all.
  - simpl. by rewrite length_fmap.
  - done.
  - rewrite Hrun, bind_Some. simpl.
    exists (fs_defn st'). split; [| exact Hfs].
    rewrite Hrem. simpl. rewrite erase_all_everything; [done |].
    rewrite Hlength. simpl. by rewrite length_fmap.
Qed.

End DeletedFields.

(** X15: when the pending field changes are deletions only, no geometry
    field change is pending, the savepoint name is empty or carried by no
    record, and [OGRFeatureDefn] appends in [AddFieldDefn], counts its
    fields in [GetFieldCount] and reads them in the given order in
    [ReorderFieldDefns], then [FinishRollbackTransaction] puts the deleted
    fields back at their recorded indexes, last deletion first, reports
    nothing and leaves no change record.  If the records are those of
    deleting fields from a schema one after the other, the schema is that
    schema again. *)
Theorem FinishRollbackTransaction_puts_deleted_fields_back
    {Defn FieldDefn GeomFieldDefn : Type}
    (GetNameRef : FieldDefn -> string) (GeomGetNameRef : GeomFieldDefn -> string)
    (GetFieldCount : Defn -> Z) (AddFieldDefn : Defn -> FieldDefn -> Defn)
    (ReorderFieldDefns : Defn -> list Z -> CPLState -> OGRErr * Defn * CPLState)
    (GetFieldDefn : Defn -> Z -> CPLState -> option FieldDefn * CPLState)
    (AssignFieldDefn : Defn -> Z -> FieldDefn -> Defn)
    (StealFieldDefn : Defn -> Z -> CPLState -> option FieldDefn * Defn * CPLState)
    (StealGeomFieldDefn :
       Defn -> Z -> CPLState -> option GeomFieldDefn * Defn * CPLState)
    (fields : Defn -> list FieldDefn)
    (osSavepoint : string)
    (L : Transaction.SchemaState (Defn := Defn) (FieldDefn := FieldDefn)
           (GeomFieldDefn := GeomFieldDefn))
    (dels : list (nat * FieldDefn * string)) (c : CPLState) :
  (forall d, GetFieldCount d = Z.of_nat (length (fields d))) ->
  (forall d f, fields (AddFieldDefn d f) = (fields d ++ [f])%list) ->
  (forall d panMap c0,
     panMap ≡ₚ seqZ 0 (GetFieldCount d) ->
     exists d',
       ReorderFieldDefns d panMap c0 = (OGRERR_NONE, d', c0)
       /\ fields d' = omap (fun i => fields d !! Z.to_nat i) panMap) ->
  Transaction.m_apoFieldDefnChanges L = deletion_of <$> dels ->
  Transaction.m_apoGeomFieldDefnChanges L = [] ->
  osSavepoint = "" \/ osSavepoint ∉ (snd <$> dels) ->
  let run :=
    Transaction.FinishRollbackTransaction GetNameRef GeomGetNameRef GetFieldCount
      AddFieldDefn ReorderFieldDefns GetFieldDefn AssignFieldDefn StealFieldDefn
      StealGeomFieldDefn osSavepoint L c in
  (forall fs',
     reinserted (fields (Transaction.m_poFeatureDefn L)) (rev (fst <$> dels))
     = Some fs' ->
     exists defn',
       run = Some (Transaction.mkSchemaState defn' [] [], c) /\ fields defn' = fs')
  /\ (forall fs0 ks,
        deleted_from fs0 ks
        = Some (fields (Transaction.m_poFeatureDefn L), fst <$> dels) ->
        exists defn',
          run = Some (Transaction.mkSchemaState defn' [] [], c)
          /\ fields defn' = fs0).
Proof.
  intros Hcount Hadd Hreorder Hchanges Hgeom Hname run.
  assert (Hput : forall fs',
             reinserted (fields (Transaction.m_poFeatureDefn L)) (rev (fst <$> dels))
             = Some fs' ->
             exists defn',
               run = Some (Transaction.mkSchemaState defn' [] [], c)
               /\ fields defn' = fs').
  { intros fs' Hre.
    by apply (FinishRollbackTransaction_deletions GetNameRef GeomGetNameRef
                GetFieldCount AddFieldDefn ReorderFieldDefns GetFieldDefn
                AssignFieldDefn StealFieldDefn StealGeomFieldDefn fields Hcount Hadd
                Hreorder osSavepoint L dels c fs'). }
  split; [exact Hput |].
  intros fs0 ks Hdel. apply Hput. by eapply reinserted_deleted_from.
Qed.

Lemma FinishRollbackTransaction_puts_deleted_fields_back_witness :
  let L :=
    Transaction.mkSchemaState (["a"; "c"], ["geom"])
      [deletion 1 "b" "sp1"; deletion 2 "d" "sp2"] [] in
  deleted_from ["a"; "b"; "c"; "d"] [1; 2]%nat
  = Some (["a"; "c"], [(1%nat, "b"); (2%nat, "d")])
  /\ exists defn',
       ListDefn.FinishRollbackTransaction "" L cpl_initial
       = Some (Transaction.mkSchemaState defn' [] [], cpl_initial)
       /\ defn'.1 = ["a"; "b"; "c"; "d"].
Proof.
  cbv zeta. split; [by vm_compute |].
  apply (FinishRollbackTransaction_puts_deleted_fields_back
           (fun f : string => f) (fun f : string => f) ListDefn.GetFieldCount
           ListDefn.AddFieldDefn ListDefn.ReorderFieldDefns ListDefn.GetFieldDefn
           ListDefn.AssignFieldDefn ListDefn.StealFieldDefn
           ListDefn.StealGeomFieldDefn fst ""
           (Transaction.mkSchemaState (["a"; "c"], ["geom"])
              [deletion 1 "b" "sp1"; deletion 2 "d" "sp2"] [])
           [(1%nat, "b", "sp1"); (2%nat, "d", "sp2")] cpl_initial)
    with (ks := [1; 2]%nat).
  - done.
  - done.
  - intros d panMap c0 Hperm. unfold ListDefn.ReorderFieldDefns.
    rewrite (bool_decide_eq_true_2 _ Hperm). by eexists.
  - done.
  - done.
  - by left.
  - by vm_compute.
Defined.

Example taken_up_below_names :
  Transaction.taken_up_below "a" ["a"; "b"; "a"; "c"] 4 = [3; 2; 0]%nat
  /\ Transaction.taken_up_below "z" ["a"; "b"; "a"; "c"] 4 = [3; 2; 1; 0]%nat
  /\ Transaction.taken_up_below "" ["a"; "b"; "a"; "c"] 4 = [3; 2; 1; 0]%nat.
Proof. by vm_compute. Qed.
